(* ===== verification/_CoqProject ===== *)
-Q . S2P
Prelude.v
GoStrings.v
Format.v
State.v
Docker.v
Registry.v
Queue.v
OpCtx.v
Worker.v
WorkerFacts.v
WorkerTheorems.v
Pool.v
PoolFacts.v
System.v
QueueInv.v
Invariant.v
Handlers.v
Reachable.v
Demo.v
Config.v
Lifecycle.v
Static.v
Spawning.v
Exclusion.v
MutualExclusion.v
Grants.v
Snapshot.v
Protection.v
Outcome.v
Commands.v
Ticks.v
Scenarios.v
Starvation.v
Silence.v
ConfigTheorems.v
Router.v
PoolTheorems.v
Http.v
Proxy.v
Runtime.v
RuntimeTheorems.v
Handler.v
HandlerTheorems.v
Admin.v
AccessLog.v
Rewrite.v
Tunnel.v
Client.v
EndToEnd.v
Watch.v
Base64.v
Serve.v
Boot.v
BootTheorems.v
