(* ===== verification/Prelude.v ===== *)
(** * StageHand: verification library

    StageHand puts several services that need the same GPU behind one HTTP address.
    Services that share VRAM form a pool, of which one container runs at a time; a
    request for another service is held while the pool swaps containers. This
    library models the Go program under [src/] and proves what it promises.

    ** The program and the files that model it

    - [cmd/stagehand] is the process: boot, health check, signals
      ([Boot.v]: [main.go], [config.Load]; [Base64.v]: its tokens).
    - [internal/server] accepts requests, until the process is told to stop
      ([Serve.v]: [run.go], [Server.Close]). A configuration
      revision is a [runtime] ([Runtime.v]: [server.go]); a request passes CORS, the
      tokens, the body cap, the router and its pool ([Handler.v]: [handler.go],
      [auth.go], [cors.go]; [Admin.v]: [admin.go]; [AccessLog.v]: [access_log.go] and
      the recovery of panics; [Http.v]: requests, readers, responses and
      [internal/httperr]).
    - [internal/proxy] looks at the model in a body and forwards ([Proxy.v]:
      [bodypeek.go], and of [proxy.go] and [websocket.go] the decisions;
      [Rewrite.v]: the request made for a backend; [Tunnel.v]: WebSocket tunnels,
      the address they dial and the connections they close).
    - [internal/router] finds the service of a request ([Router.v]).
    - [internal/config] is the declarative configuration ([Config.v]).
    - [internal/orchestrator] is the core. [State.v] and [Queue.v] are [state.go] and
      [queue.go]; [Pool.v] is the manager goroutine ([pool.go], and the
      reconciliation of [events.go]); [Worker.v] the goroutines that stop and start
      containers ([swap.go], [health.go]; [OpCtx.v]: the contexts of their calls); [Registry.v] the registry of own
      operations and the routing of docker events ([events.go]); [Watch.v] the
      watcher's loop; [Client.v] the public methods, run by the callers.
    - [internal/dockerctl] drives docker ([Docker.v]; [Watch.v]: its event stream).
    - [GoStrings.v] and [Format.v] are what the program uses of Go's [strings],
      [net/http] headers, [fmt] and [time].

    ** How the parts are put together

    A piece of Go code is a [prog]: a function from a state to an outcome (return,
    panic, or no fuel), a state, and the list of the actions others can see. What
    the code shares with others is in the state ([Pool], [hstate]) or behind an
    interface: class [Client] is docker, class [Host] the rest of the world of a
    worker, and both are arbitrary state-changing calls, so the theorems on workers
    hold whatever docker and the other goroutines do between two calls. The fake
    client of the source is an instance.

    The manager is verified in [System.v], a transition system around it: clients,
    cancellations, workers in flight, timers, docker events, operators and a clock.
    Manager and workers meet at [report_ok], the contract of a terminal report: the
    manager's theorems assume it of its workers, [swap_worker_contract] and
    [stop_worker_contract] prove it of them.

    In [Exclusion.v] the manager, the code of its workers and docker run together,
    in any interleaving, over a history of what each did. There the contract is
    discharged ([reports_meet_contract]), and mutual exclusion is stated of the
    containers themselves.

    ** The theorems

    - [Queue.v]: a wait queue is a bounded FIFO.
    - [QueueInv.v], [Invariant.v], [Handlers.v], [Reachable.v]: the invariant of a
      pool, that every handler preserves it, and that it holds in every reachable
      state. [Demo.v] is a concrete run, used by the witnesses.
    - [PoolTheorems.v]: no stuck swap, no stranded, lost or twice answered request,
      one worker at a time, no panic. [Protection.v]: the grace period, fairness,
      bounds, the lock-free path. [Starvation.v]: who is queued is answered, within a
      bound. [Lifecycle.v]: the manager refines the lifecycle specified there, message by
      message.
      [Outcome.v], [Commands.v], [Ticks.v]: what each message does, on every branch.
      [Static.v]: what never changes.
    - [Spawning.v], [Exclusion.v], [MutualExclusion.v]: what a message may start, the
      invariant of manager, workers and docker together; at most one container of a
      pool runs, up to the race a replaced worker can lose, which a run exhibits.
      [Grants.v]: a client is told to go only when its service is up. [Snapshot.v]: the
      same of the snapshot callers read without asking the manager, at every instant.
    - [WorkerFacts.v], [WorkerTheorems.v]: a worker ends, reports once, starts its
      target only after it has seen its siblings stopped, cleans up when replaced.
    - [Registry.v], [Silence.v], [Watch.v]: own operations and only those are absorbed,
      over any timeline of operations and events; the watcher hands on every event it
      has to, to the right pool, and leaks no subscription.
    - [ConfigTheorems.v], [Router.v], [Docker.v]: validation decides validity, valid
      configurations give pools the manager is verified for, routing is ordered
      first match and stays inside the configuration, the check at boot.
    - [RuntimeTheorems.v]: after any sequence of reloads the server is what its
      configuration says, and no request sees a reload half done.
    - [BootTheorems.v]: what has been checked before the process serves. [Serve.v]: what
      a shutdown closes, whatever goes on meanwhile.
    - [HandlerTheorems.v], [Proxy.v], [Rewrite.v], [Admin.v], [AccessLog.v],
      [Tunnel.v], [Client.v]: who gets in, what a backend sees, what a status means,
      what the admin API and the log do, that tunnels are closed, that callers withdraw.
    - [EndToEnd.v]: from the handler to docker, a request reaches a service only if, at
      the instant its pool has told it to go, that service had been started and probed,
      alone among those of its pool.
    - [Scenarios.v], and the ends of [ConfigTheorems.v], [RuntimeTheorems.v],
      [AccessLog.v], [MutualExclusion.v] and [Silence.v]: runs in which the code does
      something its comments or its documentation do not say.

    ** Bounds and fuel

    Counters of type [uint64] and durations of type [int64] wrap around. The pool's
    counters move by at most two per step, so theorems on reachable states bound the
    number of steps by [max_steps] = 2^62. The loops of a worker take fuel:
    [confirm_fuel] for one stop (a budget of 15 s polled every 200 ms) and
    [swap_fuel] for a swap (the startup budget polled every 250 ms); both are proved
    to be enough for any world whose clock moves on while a worker sleeps. The fuel
    of the watcher bounds its subscriptions and events ([Finite]).

    ** What is not modelled

    The bytes on the wire, YAML, JSON and URL parsing, TLS and the relaying itself
    (parameters, or outcomes of the library that does them); log lines, but for the
    warnings of a reload; the listener itself and the delivery of signals (what they
    lead to is given to [Run] with each of its waits); goroutine
    scheduling below one message of the manager (but for the snapshots it publishes),
    one call of a worker or of the watcher, or one update of a reload. In
    [Exclusion.v] nobody but the workers starts containers, and a start that has
    returned has no later effect. *)

From stdpp Require Export base tactics numbers list gmap strings sorting relations.
From Stdlib Require Export ZArith Lia.

#[export] Set Default Goal Selector "!".
#[export] Set Warnings "-clear-no-such-hyp".

(** ** Go integers and durations

    Integers are kept as [Z]; the operations of the source that can leave the
    range of their Go type go through these wrappers. *)

Open Scope Z_scope.

(** [uint64] arithmetic is modulo 2^64. *)
Definition u64_modulus : Z := 2 ^ 64.
Definition u64_wrap (z : Z) : Z := z mod u64_modulus.
Definition u64_succ (z : Z) : Z := u64_wrap (z + 1).

(** [int64] arithmetic is two's complement. *)
Definition int64_min : Z := - 2 ^ 63.
Definition int64_max : Z := 2 ^ 63 - 1.
Definition int64_wrap (z : Z) : Z := (z + 2 ^ 63) mod 2 ^ 64 - 2 ^ 63.

(** [time.Duration] is an [int64] number of nanoseconds. *)
Definition time_Millisecond : Z := 1000000.
Definition time_Second : Z := 1000000000.

(** An instant is a number of nanoseconds. [Time.Sub] saturates at the bounds
    of [Duration]. *)
Definition time_Sub (t u : Z) : Z := Z.max int64_min (Z.min int64_max (t - u)).

(** The zero [time.Time] (January 1, year 1), in Unix nanoseconds. *)
Definition time_Zero : Z := -62135596800 * time_Second.

(** ** Effectful Go code

    A piece of Go code over a state [S] is a function that returns how it
    ended, the state it left, and the list of the externally visible actions
    (of type [E]) it performed, in order. A panic keeps the state and the
    actions performed before it, so [recover] can be modelled. [NoFuel] is the
    result of a loop whose fuel ran out; it is never a result of the source,
    and the theorems on loops show that enough fuel excludes it. *)

Inductive outcome (A : Type) : Type :=
| Ret (a : A)
| Panic
| NoFuel.
Arguments Ret {A} a.
Arguments Panic {A}.
Arguments NoFuel {A}.

Definition prog (S E A : Type) : Type := S → outcome A * S * list E.

#[global] Instance prog_ret {S E} : MRet (prog S E) :=
  λ A a s, (Ret a, s, []).

#[global] Instance prog_bind {S E} : MBind (prog S E) :=
  λ A B k m s,
    match m s with
    | (Ret a, s', es) =>
        match k a s' with (o, s'', es') => (o, s'', es ++ es') end
    | (Panic, s', es) => (Panic, s', es)
    | (NoFuel, s', es) => (NoFuel, s', es)
    end.

Definition gets {S E A} (f : S → A) : prog S E A := λ s, (Ret (f s), s, []).
Definition modify {S E} (f : S → S) : prog S E () := λ s, (Ret (), f s, []).
Definition emit {S E} (e : E) : prog S E () := λ s, (Ret (), s, [e]).
Definition panic {S E A} : prog S E A := λ s, (Panic, s, []).
Definition out_of_fuel {S E A} : prog S E A := λ s, (NoFuel, s, []).

(** A nil pointer dereference panics. *)
Definition deref {S E A} (o : option A) : prog S E A :=
  match o with Some a => mret a | None => panic end.

(** [for _, x := range l { body(x) }] *)
Fixpoint for_each {S E A} (body : A → prog S E ()) (l : list A) : prog S E () :=
  match l with
  | [] => mret ()
  | x :: l' => body x;; for_each body l'
  end.

(** ** Weakest preconditions

    [wp m Q s]: running [m] in [s] ends in an outcome, a state and a list of
    actions that satisfy [Q]. *)
Definition wp {S E A} (m : prog S E A) (Q : outcome A → S → list E → Prop) (s : S) : Prop :=
  match m s with (o, s', es) => Q o s' es end.

#[global] Arguments wp : simpl never.

(** Postconditions of code that must return normally. *)
Definition returns {S E A} (Q : A → S → list E → Prop) (o : outcome A) (s : S)
    (es : list E) : Prop :=
  match o with Ret a => Q a s es | _ => False end.

(** ** Lemmas on Go integers *)

Lemma u64_succ_small z : 0 ≤ z → z + 1 < u64_modulus → u64_succ z = z + 1.
Proof. intros. unfold u64_succ, u64_wrap. apply Z.mod_small. lia. Qed.

Lemma u64_succ_range z : 0 ≤ u64_succ z < u64_modulus.
Proof. apply Z.mod_pos_bound. done. Qed.

Lemma int64_wrap_id z : int64_min ≤ z ≤ int64_max → int64_wrap z = z.
Proof. unfold int64_wrap, int64_min, int64_max. intros. rewrite Z.mod_small; lia. Qed.

Lemma int64_wrap_range z : int64_min ≤ int64_wrap z ≤ int64_max.
Proof.
  unfold int64_wrap, int64_min, int64_max.
  pose proof (Z.mod_pos_bound (z + 2 ^ 63) (2 ^ 64) eq_refl). lia.
Qed.

Lemma time_Sub_exact t u : int64_min ≤ t - u ≤ int64_max → time_Sub t u = t - u.
Proof. unfold time_Sub. lia. Qed.

Lemma time_Sub_ge t u d : d ≤ int64_max → d ≤ t - u → d ≤ time_Sub t u.
Proof. unfold time_Sub. lia. Qed.

(** ** Lemmas on lists *)

Lemma filter_all {A} (P : A → Prop) `{∀ x, Decision (P x)} (l : list A) :
  Forall P l → filter P l = l.
Proof.
  induction 1; simpl; [done|]. rewrite filter_cons_True by done. by f_equal.
Qed.

Lemma StronglySorted_sublist {A} (R : relation A) (l1 l2 : list A) :
  sublist l1 l2 → StronglySorted R l2 → StronglySorted R l1.
Proof.
  induction 1 as [|x l1 l2 Hsub IH|x l1 l2 Hsub IH]; [done| |].
  - rewrite !StronglySorted_cons, !Forall_forall. intros [Hall ?]. split; [|by apply IH].
    intros y Hy. apply Hall. by eapply elem_of_sublist.
  - rewrite StronglySorted_cons. intros [_ ?]. by apply IH.
Qed.

Lemma NoDup_map_inj {A B} (f : A → B) (l : list A) x y :
  NoDup (map f l) → x ∈ l → y ∈ l → f x = f y → x = y.
Proof.
  induction l as [|z l IH]; simpl; [set_solver|].
  intros [Hz Hnd]%NoDup_cons [->|Hx]%elem_of_cons [->|Hy]%elem_of_cons Heq; [done| | |auto].
  - destruct Hz. rewrite Heq. by apply list_elem_of_fmap_2.
  - destruct Hz. rewrite <- Heq. by apply list_elem_of_fmap_2.
Qed.

(** ** Lemmas on programs *)

Section wp_rules.
Context {S E : Type}.
Implicit Types s : S.

Lemma wp_mret {A} (a : A) (Q : outcome A → S → list E → Prop) s :
  Q (Ret a) s [] → wp (mret a) Q s.
Proof. done. Qed.

Lemma wp_gets {A} (f : S → A) (Q : outcome A → S → list E → Prop) s :
  Q (Ret (f s)) s [] → wp (gets f) Q s.
Proof. done. Qed.

Lemma wp_modify f (Q : outcome () → S → list E → Prop) s :
  Q (Ret ()) (f s) [] → wp (modify f) Q s.
Proof. done. Qed.

Lemma wp_emit e (Q : outcome () → S → list E → Prop) s :
  Q (Ret ()) s [e] → wp (emit e) Q s.
Proof. done. Qed.

Lemma wp_bind {A B} (m : prog S E A) (k : A → prog S E B) Q s :
  wp m (λ o s' es,
    match o with
    | Ret a => wp (k a) (λ o' s'' es', Q o' s'' (es ++ es')) s'
    | Panic => Q Panic s' es
    | NoFuel => Q NoFuel s' es
    end) s →
  wp (m ≫= k) Q s.
Proof.
  unfold wp, mbind, prog_bind. destruct (m s) as [[[a| |] s'] es]; [|done..].
  by destruct (k a s') as [[o s''] es'].
Qed.

Lemma wp_mono {A} (m : prog S E A) (Q Q' : outcome A → S → list E → Prop) s :
  (∀ o s' es, Q o s' es → Q' o s' es) → wp m Q s → wp m Q' s.
Proof. unfold wp. destruct (m s) as [[o s'] es]. eauto. Qed.

Lemma wp_for_each {A} (body : A → prog S E ()) (I : list A → S → list E → Prop) l s :
  I l s [] →
  (∀ x l' s' es, I (x :: l') s' es →
    wp (body x) (returns (λ _ s'' es', I l' s'' (es ++ es'))) s') →
  wp (for_each body l) (returns (λ _ s' es, I [] s' es)) s.
Proof.
  intros H0 Hstep.
  cut (∀ es0 s, I l s es0 →
        wp (for_each body l) (returns (λ _ s' es, I [] s' (es0 ++ es))) s).
  { intros Hcut. apply (Hcut [] s H0). }
  clear H0 s. induction l as [|x l IH]; intros es0 s HI; simpl.
  - apply wp_mret. simpl. by rewrite app_nil_r.
  - apply wp_bind. eapply wp_mono; [|by apply Hstep].
    intros [[]| |] s' es; simpl; [|done..].
    intros HI'. eapply wp_mono; [|by apply (IH (es0 ++ es))].
    intros o s'' es'. destruct o; simpl; [|done..].
    by rewrite (assoc_L (++)).
Qed.

End wp_rules.

(** ** Programs that stay within a relation

    [keeps R m]: from any state, [m] ends in a state related to it by the
    preorder [R]. Only the primitives that change the state need a proof. *)

Definition keeps {S E A} (R : relation S) (m : prog S E A) : Prop :=
  ∀ s, wp m (λ _ s' _, R s s') s.

Section keeps_rules.
Context {S E : Type} (R : relation S) `{!PreOrder R}.

Lemma keeps_bind {A B} (m : prog S E A) (k : A → prog S E B) :
  keeps R m → (∀ a, keeps R (k a)) → keeps R (m ≫= k).
Proof.
  intros Hm Hk s. apply wp_bind. eapply wp_mono; [|apply Hm].
  intros [a| |] s1 es Hs1; [|done..]. eapply wp_mono; [|apply Hk].
  intros o s2 es' Hs2. by transitivity s1.
Qed.

Lemma keeps_mret {A} (a : A) : keeps (E := E) R (mret a).
Proof. intros s. apply wp_mret. reflexivity. Qed.

Lemma keeps_gets {A} (f : S → A) : keeps (E := E) R (gets f).
Proof. intros s. apply wp_gets. reflexivity. Qed.

Lemma keeps_emit (x : E) : keeps R (emit x).
Proof. intros s. apply wp_emit. reflexivity. Qed.

Lemma keeps_deref {A} (o : option A) : keeps (E := E) R (deref o).
Proof. intros s. by destruct o; unfold wp; simpl. Qed.

Lemma keeps_modify (f : S → S) : (∀ s, R s (f s)) → keeps (E := E) R (modify f).
Proof. intros Hf s. apply wp_modify, Hf. Qed.

Lemma keeps_for_each {A} (body : A → prog S E ()) l :
  (∀ x, keeps R (body x)) → keeps R (for_each body l).
Proof. intros Hb. induction l; simpl; [apply keeps_mret|by apply keeps_bind]. Qed.

End keeps_rules.

(** ** Automation *)

(** Destruct the scrutinee of the first [match] in sight, keeping its equation. *)
Ltac case_any :=
  match goal with
  | |- context [match ?x with _ => _ end] => destruct x eqn:?
  | H : context [match ?x with _ => _ end] |- _ => destruct x eqn:?
  end.

(** Split on the condition of the first boolean [if] of the goal. *)
Tactic Notation "case_if" "as" ident(H) :=
  match goal with |- context [if ?c then _ else _] => destruct c eqn:H end.

(** One step of symbolic execution. *)
Ltac wp_step :=
  match goal with
  | |- wp (_ ≫= _) _ _ => apply wp_bind
  | |- wp (mret _) _ _ => apply wp_mret
  | |- wp (gets _) _ _ => apply wp_gets
  | |- wp (modify _) _ _ => apply wp_modify
  | |- wp (emit _) _ _ => apply wp_emit
  end.
Ltac wp_steps := repeat (wp_step; simpl).

(** Prove [keeps R m] by the structure of [m], down to the facts of a hint base
    and the goals of [modify]. *)
Create HintDb keeps.
#[export] Hint Resolve keeps_mret keeps_gets keeps_emit keeps_deref keeps_for_each : keeps.

Ltac keeps :=
  repeat first
    [ progress eauto with keeps
    | apply keeps_bind; [apply _| |intros]
    | apply keeps_modify; done
    | match goal with |- keeps _ (match ?x with _ => _ end) => destruct x end ].

Create HintDb stagehand.
Create Rewrite HintDb stagehand_rw.
#[export] Hint Resolve u64_succ_range int64_wrap_range : stagehand.
#[export] Hint Rewrite @app_nil_r @length_app : stagehand_rw.
