(* ===== verification/GoStrings.v ===== *)
(** * Go's strings and headers

    The functions of the packages [strings] and [net/http] the program uses.
    A Go string is a [string] of bytes. *)

From S2P Require Import Prelude.
Open Scope Z_scope.

(** ** Prefixes and suffixes *)

Definition HasPrefix (s pre : string) : bool := String.prefix pre s.

(** [s] without its first [n] bytes. *)
Fixpoint str_drop (n : nat) (s : string) : string :=
  match n, s with
  | S n', String _ s' => str_drop n' s'
  | _, _ => s
  end.

(** The first [n] bytes of [s]. *)
Fixpoint str_take (n : nat) (s : string) : string :=
  match n, s with
  | S n', String a s' => String a (str_take n' s')
  | _, _ => ""
  end.

Definition TrimPrefix (s pre : string) : string :=
  if HasPrefix s pre then str_drop (String.length pre) s else s.

Definition HasSuffix (s suf : string) : bool :=
  bool_decide (String.length suf ≤ String.length s)%nat &&
  bool_decide (str_drop (String.length s - String.length suf) s = suf).

Definition TrimSuffix (s suf : string) : string :=
  if HasSuffix s suf then str_take (String.length s - String.length suf) s else s.

(** ** Blank strings

    [blank s] is [strings.TrimSpace(s) == ""]: [s] is a sequence of Unicode white
    space, in UTF-8 (the space characters of [unicode.IsSpace]). *)

Definition byte (a : Ascii.ascii) : Z := Z.of_nat (Ascii.nat_of_ascii a).

Definition space1 (a : Z) : bool := (9 <=? a) && (a <=? 13) || (a =? 32).
Definition space2 (a b : Z) : bool := (a =? 194) && ((b =? 133) || (b =? 160)).
Definition space3 (a b c : Z) : bool :=
  (a =? 225) && (b =? 154) && (c =? 128)
  || (a =? 226) && (b =? 128)
       && ((128 <=? c) && (c <=? 138) || (c =? 168) || (c =? 169) || (c =? 175))
  || (a =? 226) && (b =? 129) && (c =? 159)
  || (a =? 227) && (b =? 128) && (c =? 128).

Fixpoint blank (s : string) : bool :=
  match s with
  | EmptyString => true
  | String a s1 =>
      if space1 (byte a) then blank s1 else
      match s1 with
      | EmptyString => false
      | String b s2 =>
          if space2 (byte a) (byte b) then blank s2 else
          match s2 with
          | EmptyString => false
          | String c s3 => space3 (byte a) (byte b) (byte c) && blank s3
          end
      end
  end.

(** ** Header keys ([textproto.CanonicalMIMEHeaderKey], [http.Header.Get]) *)

Definition is_upper (z : Z) : bool := (65 <=? z) && (z <=? 90).
Definition is_lower (z : Z) : bool := (97 <=? z) && (z <=? 122).
Definition is_digit (z : Z) : bool := (48 <=? z) && (z <=? 57).

(** A token byte of RFC 7230: [!#$%&'*+-.^_`|~], digits and letters. *)
Definition token_byte (z : Z) : bool :=
  is_upper z || is_lower z || is_digit z ||
  bool_decide (z ∈ [33; 35; 36; 37; 38; 39; 42; 43; 45; 46; 94; 95; 96; 124; 126]).

Definition of_byte (z : Z) : Ascii.ascii := Ascii.ascii_of_nat (Z.to_nat z).
Definition to_upper (a : Ascii.ascii) : Ascii.ascii :=
  if is_lower (byte a) then of_byte (byte a - 32) else a.
Definition to_lower (a : Ascii.ascii) : Ascii.ascii :=
  if is_upper (byte a) then of_byte (byte a + 32) else a.

Fixpoint all_bytes (f : Z → bool) (s : string) : bool :=
  match s with "" => true | String a s' => f (byte a) && all_bytes f s' end.

(** [upper]: the next letter starts a word. *)
Fixpoint canonical (upper : bool) (s : string) : string :=
  match s with
  | EmptyString => ""
  | String a s' =>
      String (if upper then to_upper a else to_lower a) (canonical (byte a =? 45) s')
  end.

(** A key with a byte that is not a token byte is returned unchanged. *)
Definition CanonicalHeaderKey (s : string) : string :=
  if all_bytes token_byte s then canonical true s else s.

(** [http.Header] is a map from canonical keys to values, in order. *)
Abbreviation Header := (gmap string (list string)) (only parsing).

Definition Header_Get (h : Header) (key : string) : string :=
  match h !! CanonicalHeaderKey key with
  | Some (v :: _) => v
  | _ => ""
  end.

(** ** Searching and splitting *)

(** [strings.Contains] *)
Fixpoint Contains (s sub : string) : bool :=
  HasPrefix s sub || match s with "" => false | String _ s' => Contains s' sub end.

(** [strings.Split] on a one-byte separator: the first field, and the others. *)
Fixpoint split_fields (c : Ascii.ascii) (s : string) : string * list string :=
  match s with
  | "" => ("", [])
  | String a s' =>
      let '(f, fs) := split_fields c s' in
      if Ascii.eqb a c then ("", f :: fs) else (String a f, fs)
  end.

Definition Split (s : string) (c : Ascii.ascii) : list string :=
  let '(f, fs) := split_fields c s in f :: fs.

(** [strings.TrimSpace]: the white space at both ends is removed. *)
Fixpoint trim_left (s : string) : string :=
  match s with
  | EmptyString => ""
  | String a s1 =>
      if space1 (byte a) then trim_left s1 else
      match s1 with
      | EmptyString => s
      | String b s2 =>
          if space2 (byte a) (byte b) then trim_left s2 else
          match s2 with
          | EmptyString => s
          | String c s3 => if space3 (byte a) (byte b) (byte c) then trim_left s3 else s
          end
      end
  end.

Fixpoint trim_right (s : string) : string :=
  if blank s then "" else match s with "" => "" | String a s' => String a (trim_right s') end.

Definition TrimSpace (s : string) : string := trim_right (trim_left s).

(** [url.PathUnescape]; a text with an invalid escape is returned as it is. *)
Definition unhex (a : Ascii.ascii) : option Z :=
  if is_digit (byte a) then Some (byte a - 48)
  else if (97 <=? byte a) && (byte a <=? 102) then Some (byte a - 87)
  else if (65 <=? byte a) && (byte a <=? 70) then Some (byte a - 55)
  else None.

Fixpoint unescape (s : string) : option string :=
  match s with
  | EmptyString => Some ""
  | String a s1 =>
      if byte a =? 37 then
        match s1 with
        | String h (String l s2) =>
            match unhex h, unhex l with
            | Some x, Some y => String (of_byte (16 * x + y)) <$> unescape s2
            | _, _ => None
            end
        | _ => None
        end
      else String a <$> unescape s1
  end.

Definition pathUnescape (s : string) : string := default s (unescape s).

(** Unicode simple folding, as far as it can give a lower-case ASCII letter: the
    capital letters, the long s (U+017F) and the Kelvin sign (U+212A). *)
Fixpoint fold_case (s : string) : string :=
  match s with
  | EmptyString => ""
  | String a s1 =>
      match s1 with
      | EmptyString => String (to_lower a) ""
      | String b s2 =>
          if (byte a =? 197) && (byte b =? 191) then String (of_byte 115) (fold_case s2) else
          match s2 with
          | EmptyString => String (to_lower a) (fold_case s1)
          | String c s3 =>
              if (byte a =? 226) && (byte b =? 132) && (byte c =? 170)
              then String (of_byte 107) (fold_case s3)
              else String (to_lower a) (fold_case s1)
          end
      end
  end.

(** [strings.EqualFold], for a second argument of lower-case ASCII letters. *)
Definition EqualFold (s lower : string) : bool := bool_decide (fold_case s = lower).

(** ** Lemmas *)

Lemma append_cons a s t : String a s +:+ t = String a (s +:+ t).
Proof. done. Qed.

Lemma app_assoc_str (a b c : string) : (a +:+ b) +:+ c = a +:+ (b +:+ c).
Proof. induction a as [|x a IH]; [done|]. by rewrite !append_cons, IH. Qed.

Lemma str_take_drop n s : str_take n s +:+ str_drop n s = s.
Proof.
  revert s. induction n as [|n IH]; intros [|a s]; simpl; try done.
  by rewrite append_cons, IH.
Qed.

Lemma str_drop_app s t : str_drop (String.length s) (s +:+ t) = t.
Proof. by induction s. Qed.

Lemma length_app_str s t :
  String.length (s +:+ t) = (String.length s + String.length t)%nat.
Proof. induction s as [|a s IH]; [done|]. rewrite append_cons. simpl. by rewrite IH. Qed.

Lemma HasPrefix_spec s pre : HasPrefix s pre = true ↔ ∃ t, s = pre +:+ t.
Proof.
  unfold HasPrefix. revert s. induction pre as [|a pre IH]; intros s; simpl.
  - split; [by exists s|by destruct s].
  - destruct s as [|b s]; [split; [done|by intros []]|].
    simpl. destruct (Ascii.ascii_dec a b) as [<-|Hab].
    + rewrite IH. split; intros [t Ht]; exists t; rewrite append_cons in *; congruence.
    + split; [done|]. intros [t Ht]. rewrite append_cons in Ht. congruence.
Qed.

Lemma TrimPrefix_app pre s : TrimPrefix (pre +:+ s) pre = s.
Proof.
  unfold TrimPrefix. rewrite (proj2 (HasPrefix_spec _ _)) by eauto. apply str_drop_app.
Qed.

Lemma HasSuffix_spec s suf : HasSuffix s suf = true ↔ ∃ t, s = t +:+ suf.
Proof.
  unfold HasSuffix. rewrite andb_true_iff, !bool_decide_eq_true. split.
  - intros [_ Hd]. exists (str_take (String.length s - String.length suf) s).
    rewrite <- (str_take_drop (String.length s - String.length suf) s) at 1. by rewrite Hd.
  - intros [t ->]. rewrite length_app_str. split; [lia|].
    replace (_ + _ - _)%nat with (String.length t) by lia. apply str_drop_app.
Qed.

Lemma TrimSuffix_app s suf : TrimSuffix (s +:+ suf) suf = s.
Proof.
  unfold TrimSuffix. rewrite (proj2 (HasSuffix_spec _ _)) by eauto.
  rewrite length_app_str. replace (_ + _ - _)%nat with (String.length s) by lia.
  induction s as [|a s IH]; [by destruct suf|]. rewrite append_cons. simpl. by rewrite IH.
Qed.
