(* ===== verification/Format.v ===== *)
(** * Go's formatting of numbers and durations

    [%d] on integers and [Duration.String], with the lemmas that let a formatted
    record be taken apart again: a field that does not contain its separator is
    determined by the text. *)

From S2P Require Import Prelude GoStrings.
From stdpp Require Import pretty.
Open Scope Z_scope.

(** ** Formatting *)

(** [%d] *)
Definition FormatInt (z : Z) : string := pretty z.

(** [time.fmtFrac]: the last [prec] decimal digits of [v], without the zeros at
    the end, after a point if any is left. *)
Fixpoint fmtFrac (prec : nat) (v : Z) (print : bool) (acc : string) : string * Z :=
  match prec with
  | O => ((if print then "." +:+ acc else acc), v)
  | S prec =>
      let print' := print || negb (bool_decide (v mod 10 = 0)) in
      fmtFrac prec (v / 10) print'
        (if print' then FormatInt (v mod 10) +:+ acc else acc)
  end.

Definition fmt_small (prec : nat) (unit : string) (u : Z) : string :=
  let '(frac, v) := fmtFrac prec u false "" in FormatInt v +:+ frac +:+ unit.

(** [Duration.String] *)
Definition Duration_String (d : Z) : string :=
  let u := Z.abs d in
  (if bool_decide (d < 0) then "-" else "") +:+
  if bool_decide (u < time_Second) then
    if bool_decide (u = 0) then "0s"
    else if bool_decide (u < 1000) then fmt_small 0 "ns" u
    else if bool_decide (u < time_Millisecond) then fmt_small 3 "µs" u
    else fmt_small 6 "ms" u
  else
    let '(frac, s) := fmtFrac 9 u false "" in
    let seconds := FormatInt (s mod 60) +:+ frac +:+ "s" in
    if bool_decide (0 < s / 60) then
      let minutes := FormatInt (s / 60 mod 60) +:+ "m" +:+ seconds in
      if bool_decide (0 < s / 60 / 60) then FormatInt (s / 60 / 60) +:+ "h" +:+ minutes
      else minutes
    else seconds.

Example Duration_String_1 : Duration_String (180 * time_Second) = "3m0s".
Proof. reflexivity. Qed.
Example Duration_String_2 : Duration_String 1500000 = "1.5ms".
Proof. reflexivity. Qed.
Example Duration_String_3 : Duration_String (-5400 * time_Second - 20000000) = "-1h30m0.02s".
Proof. reflexivity. Qed.

(** ** Separators *)

(** The character of a one-byte string. *)
Definition char (s : string) : Ascii.ascii :=
  match s with String a _ => a | "" => Ascii.zero end.

(** [free c s]: the byte [c] does not occur in [s]. *)
Fixpoint free (c : Ascii.ascii) (s : string) : bool :=
  match s with "" => true | String a s' => negb (Ascii.eqb a c) && free c s' end.

Lemma free_app c s t : free c (s +:+ t) = free c s && free c t.
Proof.
  induction s as [|a s IH]; [done|]. rewrite append_cons. simpl.
  by rewrite IH, andb_assoc.
Qed.

Lemma free_split c s t : ¬ free c (s +:+ String c t).
Proof.
  rewrite free_app. simpl. rewrite Ascii.eqb_refl, andb_false_r. by intros [].
Qed.

(** The part before the first separator, and the part after the last one. *)
Lemma split_first c s s' t t' :
  free c s → free c s' → s +:+ String c t = s' +:+ String c t' → s = s' ∧ t = t'.
Proof.
  revert s'. induction s as [|a s IH]; intros [|a' s'] Hs Hs'.
  - by intros [= ->].
  - intros [= <- Ht]. simpl in Hs'. by rewrite Ascii.eqb_refl in Hs'.
  - intros [= -> Ht]. simpl in Hs. by rewrite Ascii.eqb_refl in Hs.
  - rewrite !append_cons. simpl in Hs, Hs'.
    apply andb_prop_elim in Hs as [_ Hs]. apply andb_prop_elim in Hs' as [_ Hs'].
    intros [= -> Heq]. by destruct (IH s' Hs Hs' Heq) as [-> ->].
Qed.

Lemma split_last c s s' t t' :
  free c t → free c t' → s +:+ String c t = s' +:+ String c t' → s = s' ∧ t = t'.
Proof.
  intros Ht Ht'. revert s'. induction s as [|a s IH]; intros [|a' s'].
  - by intros [= ->].
  - rewrite append_cons. intros [= <- ->]. by destruct (free_split c s' t').
  - rewrite append_cons. intros [= -> <-]. by destruct (free_split c s t).
  - rewrite !append_cons. intros [= -> Heq]. by destruct (IH s' Heq) as [-> ->].
Qed.

(** ** Digits *)

Definition digit_or_dash (a : Ascii.ascii) : bool := is_digit (byte a) || (byte a =? 45).

Lemma pretty_N_char_digit x : digit_or_dash (pretty_N_char x) = true.
Proof. by destruct x as [|[[[[]|[]|]|[[]|[]|]|]|[[[]|[]|]|[[]|[]|]|]|]]. Qed.

Lemma digit_or_dash_neq a c :
  digit_or_dash a = true → digit_or_dash c = false → Ascii.eqb a c = false.
Proof. intros Ha Hc. destruct (Ascii.eqb_spec a c) as [->|]; [congruence|done]. Qed.

Lemma pretty_N_go_free c n s :
  digit_or_dash c = false → free c s → free c (pretty_N_go n s).
Proof.
  intros Hc. revert s. induction (N.lt_wf_0 n) as [n _ IH]; intros s Hs.
  destruct (decide (n = 0)%N) as [->|Hn]; [by rewrite pretty_N_go_0|].
  rewrite pretty_N_go_step by lia. apply IH; [apply N.div_lt; lia|]. cbn [free].
  by rewrite digit_or_dash_neq by (done || apply pretty_N_char_digit).
Qed.

(** A decimal number contains digits and a minus sign only. *)
Lemma FormatInt_free c z : digit_or_dash c = false → free c (FormatInt z).
Proof.
  intros Hc. assert (Hpos : ∀ p : positive, free c (pretty p)).
  { intros p. unfold pretty, pretty_positive, pretty, pretty_N. case_decide; [done|].
    by apply pretty_N_go_free. }
  destruct z as [|p|p]; [|apply Hpos|]; unfold FormatInt, pretty, pretty_Z.
  - cbn [free]. by rewrite digit_or_dash_neq.
  - rewrite append_cons. cbn [free]. rewrite digit_or_dash_neq by done. apply Hpos.
Qed.

#[global] Instance FormatInt_inj : Inj (=) (=) FormatInt.
Proof. intros x y. apply pretty_Z_inj. Qed.

(** ** Whole seconds *)

Definition hms (n : Z) : string :=
  let seconds := FormatInt (n mod 60) +:+ "s" in
  let minutes := FormatInt (n / 60 mod 60) +:+ "m" +:+ seconds in
  if bool_decide (0 < n / 60) then
    if bool_decide (0 < n / 60 / 60) then FormatInt (n / 60 / 60) +:+ "h" +:+ minutes
    else minutes
  else seconds.

Lemma fmtFrac_zeros prec n :
  fmtFrac prec (n * 10 ^ Z.of_nat prec) false "" = ("", n).
Proof.
  induction prec as [|prec IH]; [cbn; by rewrite Z.mul_1_r|].
  cbn [fmtFrac]. rewrite Nat2Z.inj_succ, Z.pow_succ_r by lia.
  rewrite (Z.mul_comm 10), Z.mul_assoc, Z.mod_mul by lia. simpl.
  rewrite Z.div_mul by lia. apply IH.
Qed.

Lemma Duration_String_seconds n :
  0 < n → Duration_String (n * time_Second) = hms n.
Proof.
  intros Hn. assert (Hd : 0 ≤ n * time_Second) by (unfold time_Second; lia).
  unfold Duration_String. rewrite bool_decide_eq_false_2, Z.abs_eq by lia.
  rewrite (bool_decide_eq_false_2 (_ < time_Second)) by (unfold time_Second; lia).
  replace (n * time_Second) with (n * 10 ^ Z.of_nat 9) by reflexivity.
  rewrite fmtFrac_zeros. unfold hms. cbn [String.append].
  case_bool_decide; [|done]. by case_bool_decide.
Qed.

Lemma dec_s_free c z :
  digit_or_dash c = false → c ≠ char "s" → free c (FormatInt z +:+ "s").
Proof.
  intros Hc Hs. rewrite free_app. apply andb_prop_intro. split; [by apply FormatInt_free|].
  change (free c "s") with (negb (Ascii.eqb (char "s") c) && true).
  by rewrite (proj2 (Ascii.eqb_neq (char "s") c)).
Qed.

Lemma dec_m_free z t :
  free (char "h") t → free (char "h") (FormatInt z +:+ "m" +:+ t).
Proof.
  intros Ht. rewrite !free_app. repeat (apply andb_prop_intro; split); try done.
  by apply FormatInt_free.
Qed.

Lemma unit_inj u a b s t :
  digit_or_dash u = false →
  FormatInt a +:+ String u s = FormatInt b +:+ String u t → a = b ∧ s = t.
Proof.
  intros Hu Heq. destruct (split_first u _ _ _ _ (FormatInt_free u a Hu)
    (FormatInt_free u b Hu) Heq) as [Ha ->]. split; [by apply FormatInt_inj|done].
Qed.

(** The text of a whole number of seconds determines it. *)
Lemma hms_inj n m : 0 ≤ n → 0 ≤ m → hms n = hms m → n = m.
Proof.
  intros Hn Hm Heq.
  assert (n mod 60 = m mod 60 ∧ n / 60 = m / 60) as [? ?];
    [|pose proof (Z.div_mod n 60); pose proof (Z.div_mod m 60); lia].
  assert (∀ z, 0 ≤ z → z = 60 * (z / 60) + z mod 60 ∧ 0 ≤ z / 60) as Hdm.
  { intros z Hz. split; [apply Z.div_mod; lia|by apply Z.div_pos]. }
  destruct (Hdm n Hn) as [_ Hn1], (Hdm m Hm) as [_ Hm1].
  destruct (Hdm _ Hn1) as [Hn2 Hn3], (Hdm _ Hm1) as [Hm2 Hm3].
  assert (Hms : ∀ a b x y, FormatInt a +:+ "m" +:+ FormatInt b +:+ "s"
    = FormatInt x +:+ "m" +:+ FormatInt y +:+ "s" → a = x ∧ b = y).
  { intros a b x y [-> Hby]%(unit_inj (char "m")); [|done].
    by apply (unit_inj (char "s")) in Hby as [-> _]. }
  assert (Hh : ∀ a s t, free (char "h") t → FormatInt a +:+ "h" +:+ s ≠ t).
  { intros a s t Ht <-. by apply free_split in Ht. }
  assert (Hm' : ∀ a s b, FormatInt a +:+ "m" +:+ s ≠ FormatInt b +:+ "s").
  { intros a s b Hab. eapply (free_split (char "m") (FormatInt a) s).
    change (String (char "m") s) with ("m" +:+ s). rewrite Hab. by apply dec_s_free. }
  assert (Hs : ∀ z, free (char "h") (FormatInt z +:+ "s")) by (intros; by apply dec_s_free).
  revert Heq. unfold hms. repeat case_bool_decide; intros Heq; try lia.
  - apply (unit_inj (char "h")) in Heq as [Hq [Hr ?]%Hms]; [|done]. lia.
  - by destruct (Hh _ _ _ (dec_m_free _ _ (Hs _)) Heq).
  - by destruct (Hh _ _ _ (Hs _) Heq).
  - by destruct (Hh _ _ _ (dec_m_free _ _ (Hs _)) (eq_sym Heq)).
  - apply Hms in Heq as [Hr ?]. lia.
  - by destruct (Hm' _ _ _ Heq).
  - by destruct (Hh _ _ _ (Hs _) (eq_sym Heq)).
  - by destruct (Hm' _ _ _ (eq_sym Heq)).
  - apply (unit_inj (char "s")) in Heq as [Hr _]; [|done]. lia.
Qed.

(** [Duration.String] is injective on positive whole seconds, and its texts are
    free of any separator that is not one of its own characters. *)
Lemma Duration_String_inj n m :
  0 < n → 0 < m →
  Duration_String (n * time_Second) = Duration_String (m * time_Second) → n = m.
Proof. intros Hn Hm. rewrite !Duration_String_seconds by done. apply hms_inj; lia. Qed.

Lemma Duration_String_free c n :
  digit_or_dash c = false → c ∉ [char "h"; char "m"; char "s"] → 0 < n →
  free c (Duration_String (n * time_Second)).
Proof.
  intros Hc Hu Hn. rewrite Duration_String_seconds by done.
  assert (Hone : ∀ u, u ∈ [char "h"; char "m"; char "s"] → free c (String u "")).
  { intros u Hin. change (free c (String u "")) with (negb (Ascii.eqb u c) && true).
    rewrite (proj2 (Ascii.eqb_neq u c)); [done|]. by intros ->. }
  assert (Hd : ∀ z, free c (FormatInt z)) by (intros; by apply FormatInt_free).
  unfold hms. repeat case_bool_decide; rewrite !free_app;
    repeat first [apply Hd | apply Hone; set_solver | apply andb_prop_intro; split].
Qed.
