(* ===== verification/State.v ===== *)
(** * Orchestrator data ([src/internal/orchestrator/state.go])

    The lifecycle states, the results of admission, the messages the pool
    manager consumes, and the errors it reports. Go errors built with
    [fmt.Errorf] are constructors that carry the formatted values; an error of
    the Docker client is opaque. *)

From S2P Require Import Prelude.
Open Scope Z_scope.

(** [PoolState] *)
Inductive PoolState := StateIdle | StateActive | StateSwapping | StateError.

#[global] Instance PoolState_eq_dec : EqDecision PoolState.
Proof. solve_decision. Defined.

(** [PoolState.String] on the declared constants. *)
Definition PoolState_String (s : PoolState) : string :=
  match s with
  | StateIdle => "IDLE"
  | StateActive => "ACTIVE"
  | StateSwapping => "SWAPPING"
  | StateError => "ERROR"
  end.

Record PoolSnapshot := { snap_State : PoolState; snap_ActiveService : string }.

Inductive AdmitResult :=
| AdmitGo | AdmitQueueFull | AdmitDockerError | AdmitStartupTimeout
| AdmitShutdown | AdmitCanceled.

#[global] Instance AdmitResult_eq_dec : EqDecision AdmitResult.
Proof. solve_decision. Defined.

(** Errors of the packages [orchestrator] and [dockerctl]. *)
Inductive GoError :=
| ErrNotMember (service pool : string)
| ErrHealthCheck (service : string) (budget : Z)
| ErrStoppedOutside (container : string)
| ErrDiedDuringStartup (container : string)
| ErrInspecting (container : string) (err : GoError)
| ErrStarting (container : string) (err : GoError)
| ErrStopping (container : string) (err : GoError)
| ErrConfirmingStop (err : GoError)
| ErrStillRunning (container : string) (budget : Z)
| ErrPoolShuttingDown
| ErrSupersededBeforeStart
| ErrSupersededAfterStart
| ErrSwapWorkerPanic
| ErrStopAllWorkerPanic
| ErrContextCanceled
| ErrContextDeadlineExceeded
| ErrContainerNotFound (container : string)
| ErrDaemonUnreachable (err : GoError)
| ErrPing (err : GoError)
| ErrDockerClient (err : GoError)
| ErrContainersMissing (containers : list string)
| ErrDocker (code : nat).

#[global] Instance GoError_eq_dec : EqDecision GoError.
Proof.
  unfold EqDecision, Decision. fix go 1. intros x y. decide equality;
    first [apply String.string_dec | apply Z.eq_dec | apply Nat.eq_dec
          | apply (List.list_eq_dec String.string_dec) | idtac].
Defined.

(** A reply channel ([chan admitReply], buffered(1)) is named by a number. *)
Abbreviation chan := nat (only parsing).

(** [admitReply] *)
Record admitReply := { result : AdmitResult; err : option GoError }.

(** [extEvent] *)
Record extEvent := { ev_container : string; ev_action : string }.

#[global] Instance extEvent_eq_dec : EqDecision extEvent.
Proof. solve_decision. Defined.

(** [PoolStatus] *)
Record PoolStatus := {
  st_State : PoolState;
  st_ActiveService : string;
  st_SecondsUntilCooldown : Z;
  st_QueuedRequests : Z
}.

(** [AdminOutcome] *)
Inductive AdminOutcome :=
| AdminInitiated | AdminPending | AdminAlreadyActive | AdminAlreadyIdle
| AdminUnknown | AdminSuperseded.

#[global] Instance AdminOutcome_eq_dec : EqDecision AdminOutcome.
Proof. solve_decision. Defined.

Definition AdminOutcome_String (o : AdminOutcome) : string :=
  match o with
  | AdminInitiated => "initiated"
  | AdminPending => "pending"
  | AdminAlreadyActive => "already-active"
  | AdminAlreadyIdle => "already-idle"
  | AdminUnknown => "unknown-service"
  | AdminSuperseded => "pending-superseded-previous"
  end.

(** [swapKind] *)
Inductive swapKind := swapComplete | swapFailed | swapHealthTimeout | poolStopped.

#[global] Instance swapKind_eq_dec : EqDecision swapKind.
Proof. solve_decision. Defined.

(** [swapMsg] *)
Record swapMsg := {
  msg_op : Z;
  msg_target : string;
  msg_kind : swapKind;
  msg_err : option GoError
}.

#[global] Instance swapMsg_eq_dec : EqDecision swapMsg.
Proof. solve_decision. Defined.

(** [timerKind] *)
Inductive timerKind := tickGrace | tickCooldown.

#[global] Instance timerKind_eq_dec : EqDecision timerKind.
Proof. solve_decision. Defined.

(** [timerTick] *)
Record timerTick := { tick_kind : timerKind; tick_epoch : Z }.

#[global] Instance timerTick_eq_dec : EqDecision timerTick.
Proof. solve_decision. Defined.

(** The commands of [Pool.cmds]: [admitCmd], [cancelCmd], [depthCmd],
    [statusCmd], [adminSwapCmd], [adminStopCmd]. The reply channels of the last
    four are private to one call and are left out: their reply is the result
    of the handler. *)
Inductive cmd :=
| admitCmd (service : string) (reply : chan)
| cancelCmd (service : string) (reply : chan)
| depthCmd
| statusCmd
| adminSwapCmd (service : string)
| adminStopCmd.

(** ** The contract between the manager and its workers

    A worker goroutine in flight, with the operation number and the target it
    was started with, and the terminal reports it may deliver. The manager is
    verified against [report_ok]; the workers are shown to meet it. *)
Inductive work :=
| WSwap (op : Z) (t : string)
| WStopAll (op : Z).

#[global] Instance work_eq_dec : EqDecision work.
Proof. solve_decision. Defined.

Definition work_op (w : work) : Z :=
  match w with WSwap op _ | WStopAll op => op end.

Definition work_target (w : work) : string :=
  match w with WSwap _ t => t | WStopAll _ => "" end.

Definition report_ok (w : work) (msg : swapMsg) : Prop :=
  msg_op msg = work_op w ∧ msg_target msg = work_target w ∧
  match w with
  | WSwap _ _ => msg_kind msg ≠ poolStopped
  | WStopAll _ => msg_kind msg = poolStopped
  end.
