(* ===== verification/Docker.v ===== *)
(** * The docker client ([src/internal/dockerctl/client.go], [fake.go], [validate.go])

    The interface StageHand drives containers through, its two implementations
    (the live one over the moby SDK, and the in-memory one), and the boot-time
    check of the configured containers. The SDK is not part of the program: its
    calls are parameters of the live client. *)

From S2P Require Import Prelude GoStrings State.
Open Scope Z_scope.

(** ** The interface ([Client])

    A call may change the world, fail with an error, or panic ([None]). A context is
    represented by its timeout ([None]: no deadline). [Events] is a channel and is
    modelled with the watcher. *)

Definition call (W A : Type) : Type := W → option A * W.

Abbreviation context := (option Z) (only parsing).

(** [ContainerInfo] *)
Record ContainerInfo := {
  ci_ID : string;
  ci_Name : string;
  ci_State : string;
  ci_Running : bool
}.

#[global] Instance ContainerInfo_eq_dec : EqDecision ContainerInfo.
Proof. solve_decision. Defined.

(** [Event] *)
Record Event := { evt_ContainerName : string; evt_Action : string }.

#[global] Instance Event_eq_dec : EqDecision Event.
Proof. solve_decision. Defined.

Class Client (W : Type) := {
  InspectByName : context → string → call W (GoError + ContainerInfo);
  Start : context → string → call W (option GoError);
  Stop : context → string → Z → call W (option GoError);
  Ping : context → call W (option GoError)
}.

(** A call as a step of a program. *)
Definition lift {W E A} (c : call W A) : prog W E A :=
  λ w, match c w with (Some a, w') => (Ret a, w', []) | (None, w') => (Panic, w', []) end.

(** ** Errors

    [errors.Is(err, ErrNotFound)]: the wrapped errors ([%w]) are searched. *)
Fixpoint is_not_found (e : GoError) : bool :=
  match e with
  | ErrContainerNotFound _ => true
  | ErrInspecting _ e | ErrStarting _ e | ErrStopping _ e | ErrConfirmingStop e
  | ErrDaemonUnreachable e | ErrPing e | ErrDockerClient e => is_not_found e
  | _ => false
  end.

(** ** The live client ([realClient]) *)

(** What StageHand reads of the answer of [ContainerInspect]. *)
Record moby_container := {
  mc_ID : string;
  mc_RawName : string;
  mc_Status : option (string * bool) (* the [State] pointer: status, running *)
}.

Section real.
Context {W : Type}.
(** The moby SDK, and [cerrdefs.IsNotFound] on its errors. *)
Context (ContainerInspect : context → string → call W (GoError + moby_container)).
Context (ContainerStart : context → string → call W (option GoError)).
Context (ContainerStop : context → string → Z → call W (option GoError)).
Context (mobyPing : context → call W (option GoError)).
Context (IsNotFound : GoError → bool).

Definition wrapNotFound (err : GoError) (name : string) : GoError :=
  if IsNotFound err then ErrContainerNotFound name else err.

Definition real_InspectByName (ctx : context) (name : string) : call W (GoError + ContainerInfo) :=
  λ w,
    match ContainerInspect ctx name w with
    | (Some (inl err), w') => (Some (inl (wrapNotFound err name)), w')
    | (Some (inr c), w') =>
        (Some (inr
           {| ci_ID := mc_ID c;
              ci_Name := TrimPrefix (mc_RawName c) "/";
              ci_State := match mc_Status c with Some (st, _) => st | None => "" end;
              ci_Running := match mc_Status c with Some (_, r) => r | None => false end |}), w')
    | (None, w') => (None, w')
    end.

Definition wrap_call (name : string) (c : call W (option GoError)) : call W (option GoError) :=
  λ w,
    match c w with
    | (Some (Some err), w') => (Some (Some (wrapNotFound err name)), w')
    | r => r
    end.

Definition real_Start (ctx : context) (name : string) : call W (option GoError) :=
  wrap_call name (ContainerStart ctx name).

(** The timeout in whole seconds ([int(timeout.Seconds())], for timeouts small
    enough for [float64]). *)
Definition real_Stop (ctx : context) (name : string) (timeout : Z) : call W (option GoError) :=
  wrap_call name (ContainerStop ctx name (Z.quot timeout time_Second)).

Definition real_Ping (ctx : context) : call W (option GoError) :=
  λ w,
    match mobyPing ctx w with
    | (Some (Some err), w') => (Some (Some (ErrPing err)), w')
    | r => r
    end.

Definition realClient : Client W := {|
  InspectByName := real_InspectByName;
  Start := real_Start;
  Stop := real_Stop;
  Ping := real_Ping
|}.

End real.

(** [Connect], given the SDK's constructor ([moby.New]) and, for each of its clients,
    the live client over its calls. *)
Definition Connect {W C : Type} (moby_New : string → GoError + C) (client_of : C → Client W)
    (socketPath : string) : GoError + Client W :=
  match moby_New ("unix://" +:+ socketPath) with
  | inl err => inl (ErrDockerClient err)
  | inr cli => inr (client_of cli)
  end.

(** ** The in-memory client ([FakeClient]) *)

(** The two channels hold what has been sent and not received. *)
Record FakeClient := Fake {
  containers : gmap string ContainerInfo;
  fake_calls : list string;
  startErr : gmap string (option GoError);
  stopErr : gmap string (option GoError);
  fake_events : list Event;
  fake_evErrs : list GoError
}.

(** The hooks of the tests, run before the operation; [None] is [nil]. *)
Record FakeHooks := {
  beforeStart : option (string → FakeClient → FakeClient);
  beforeStop : option (string → FakeClient → FakeClient)
}.

Definition no_hooks : FakeHooks := {| beforeStart := None; beforeStop := None |}.

Definition set_container (n : string) (c : ContainerInfo) (f : FakeClient) : FakeClient :=
  Fake (<[n := c]> (containers f)) (fake_calls f) (startErr f) (stopErr f) (fake_events f) (fake_evErrs f).
Definition log_call (c : string) (f : FakeClient) : FakeClient :=
  Fake (containers f) (fake_calls f ++ [c]) (startErr f) (stopErr f) (fake_events f) (fake_evErrs f).

(** The events channel holds 256 events; one more is dropped. *)
Definition fake_emit (ev : Event) (f : FakeClient) : FakeClient :=
  if bool_decide (length (fake_events f) < 256)%nat
  then Fake (containers f) (fake_calls f) (startErr f) (stopErr f) (fake_events f ++ [ev]) (fake_evErrs f)
  else f.

(** The identifier [fake-%d-%s] of the source is left to [fake_id]. *)
Definition NewFake (fake_id : nat → string → string) (names : list string) : FakeClient :=
  Fake (foldl (λ cs x, <[x.2 := {| ci_ID := fake_id x.1 x.2; ci_Name := x.2;
                                  ci_State := "exited"; ci_Running := false |}]> cs)
          ∅ (imap (λ i n, (i, n)) names)) [] ∅ ∅ [] [].

Definition injected (errs : gmap string (option GoError)) (n : string) : option GoError :=
  match errs !! n with Some (Some e) => Some e | _ => None end.

Definition turn (on : bool) (c : ContainerInfo) : ContainerInfo :=
  {| ci_ID := ci_ID c; ci_Name := ci_Name c;
     ci_State := if on then "running" else "exited"; ci_Running := on |}.

Section fake.
Context (hooks : FakeHooks).

Definition run_hook (h : option (string → FakeClient → FakeClient)) (n : string)
    (f : FakeClient) : FakeClient :=
  match h with Some hook => hook n f | None => f end.

Definition fake_InspectByName (_ : context) (n : string) :
    call FakeClient (GoError + ContainerInfo) :=
  λ f, match containers f !! n with
       | Some c => (Some (inr c), f)
       | None => (Some (inl (ErrContainerNotFound n)), f)
       end.

Definition fake_Start (_ : context) (n : string) : call FakeClient (option GoError) := λ f0,
  let f := log_call ("start:" +:+ n) (run_hook (beforeStart hooks) n f0) in
  match injected (startErr f) n with
  | Some e => (Some (Some e), f)
  | None =>
      match containers f !! n with
      | None => (Some (Some (ErrContainerNotFound n)), f)
      | Some c =>
          if ci_Running c then (Some None, f)
          else (Some None, fake_emit {| evt_ContainerName := n; evt_Action := "start" |}
                            (set_container n (turn true c) f))
      end
  end.

Definition fake_Stop (_ : context) (n : string) (_ : Z) : call FakeClient (option GoError) := λ f0,
  let f := log_call ("stop:" +:+ n) (run_hook (beforeStop hooks) n f0) in
  match injected (stopErr f) n with
  | Some e => (Some (Some e), f)
  | None =>
      match containers f !! n with
      | None => (Some (Some (ErrContainerNotFound n)), f)
      | Some c =>
          if ci_Running c
          then (Some None, fake_emit {| evt_ContainerName := n; evt_Action := "die" |}
                            (set_container n (turn false c) f))
          else (Some None, f)
      end
  end.

Definition fake_Ping (_ : context) : call FakeClient (option GoError) := λ f, (Some None, f).

Definition fakeClient : Client FakeClient := {|
  InspectByName := fake_InspectByName;
  Start := fake_Start;
  Stop := fake_Stop;
  Ping := fake_Ping
|}.

End fake.

(** Test helpers. *)

Definition EmitExternal (n action : string) (f : FakeClient) : FakeClient :=
  fake_emit {| evt_ContainerName := n; evt_Action := action |}
    match containers f !! n with
    | Some c =>
        if bool_decide (action = "start") then set_container n (turn true c) f
        else if bool_decide (action = "die") || bool_decide (action = "stop")
                || bool_decide (action = "kill") then set_container n (turn false c) f
        else f
    | None => f
    end.

Definition SetStartErr (n : string) (e : option GoError) (f : FakeClient) : FakeClient :=
  Fake (containers f) (fake_calls f) (<[n := e]> (startErr f)) (stopErr f) (fake_events f) (fake_evErrs f).
Definition SetStopErr (n : string) (e : option GoError) (f : FakeClient) : FakeClient :=
  Fake (containers f) (fake_calls f) (startErr f) (<[n := e]> (stopErr f)) (fake_events f) (fake_evErrs f).

Definition SetBeforeStart (fn : option (string → FakeClient → FakeClient)) (h : FakeHooks) : FakeHooks :=
  {| beforeStart := fn; beforeStop := beforeStop h |}.
Definition SetBeforeStop (fn : option (string → FakeClient → FakeClient)) (h : FakeHooks) : FakeHooks :=
  {| beforeStart := beforeStart h; beforeStop := fn |}.

(** The error channel holds one error; a second send waits ([None]). *)
Definition EmitStreamError (e : GoError) (f : FakeClient) : option FakeClient :=
  match fake_evErrs f with
  | [] => Some (Fake (containers f) (fake_calls f) (startErr f) (stopErr f) (fake_events f) [e])
  | _ => None
  end.

(** [Events]: every subscriber gets the same two channels. *)
Definition fake_Events (f : FakeClient) : list Event * list GoError := (fake_events f, fake_evErrs f).

(** [Calls]: a copy of the log. *)
Definition Calls (f : FakeClient) : list string := fake_calls f.

(** [Running]: the running containers, sorted. *)
Definition Running (f : FakeClient) : list string :=
  merge_sort String.le (map_to_list (filter (λ kc, ci_Running kc.2 = true) (containers f))).*1.

(** ** The check at boot and on reload ([ValidateContainers]) *)

Section validate.
Context {W : Type} `{!Client W}.

(** The loop over the names, with the missing ones found so far. *)
Fixpoint validate_loop (ctx : context) (names missing : list string) :
    call W (option GoError * list string) := λ w,
  match names with
  | [] => (Some (None, missing), w)
  | n :: names' =>
      match InspectByName ctx n w with
      | (Some (inl err), w') =>
          if is_not_found err then validate_loop ctx names' (missing ++ [n]) w'
          else (Some (Some (ErrInspecting n err), missing), w')
      | (Some (inr _), w') => validate_loop ctx names' missing w'
      | (None, w') => (None, w')
      end
  end.

Definition ValidateContainers (ctx : context) (names : list string) : call W (option GoError) :=
  λ w,
    match Ping ctx w with
    | (Some (Some err), w') => (Some (Some (ErrDaemonUnreachable err)), w')
    | (Some None, w') =>
        match validate_loop ctx names [] w' with
        | (Some (Some err, _), w'') => (Some (Some err), w'')
        | (Some (None, missing), w'') =>
            match missing with
            | [] => (Some None, w'')
            | _ => (Some (Some (ErrContainersMissing missing)), w'')
            end
        | (None, w'') => (None, w'')
        end
    | (None, w') => (None, w')
    end.

End validate.

(** ** The check, specified *)

Section validate_spec.
Context {W : Type} `{!Client W}.
(** A docker that answers inspections without changing: [look w n]. *)
Context (look : W → string → GoError + ContainerInfo).
Context (Hlook : ∀ ctx n w, InspectByName ctx n w = (Some (look w n), w)).

(** A name that is not on the host, and a name docker fails to answer for. *)
Definition missing (w : W) (n : string) : bool :=
  match look w n with inl e => is_not_found e | inr _ => false end.
Definition failing (w : W) (n : string) : option GoError :=
  match look w n with
  | inl e => if is_not_found e then None else Some (ErrInspecting n e)
  | inr _ => None
  end.

Definition validation (w : W) (names : list string) : option GoError :=
  match omap (failing w) names with
  | e :: _ => Some e
  | [] =>
      match filter (λ n, missing w n = true) names with
      | [] => None
      | ns => Some (ErrContainersMissing ns)
      end
  end.

Lemma validate_loop_ok ctx names acc w :
  omap (failing w) names = [] →
  validate_loop ctx names acc w =
  (Some (None, acc ++ filter (λ n, missing w n = true) names), w).
Proof.
  revert acc. induction names as [|n names IH]; intros acc; simpl.
  { by rewrite app_nil_r. }
  rewrite Hlook. unfold failing at 1, missing at 1.
  destruct (look w n) as [e|info] eqn:Hn; simpl.
  - destruct (is_not_found e) eqn:He; [|done]. intros Hf. rewrite IH by done.
    rewrite filter_cons_True by (unfold missing; by rewrite Hn).
    by rewrite <- (assoc_L (++)).
  - intros Hf. rewrite IH by done.
    by rewrite filter_cons_False by (unfold missing; by rewrite Hn).
Qed.

Lemma validate_loop_fail ctx names acc w e l :
  omap (failing w) names = e :: l →
  ∃ ns, validate_loop ctx names acc w = (Some (Some e, ns), w).
Proof.
  revert acc. induction names as [|n names IH]; intros acc; simpl; [done|].
  rewrite Hlook. unfold failing at 1. destruct (look w n) as [err|info].
  - destruct (is_not_found err); [apply IH|]. intros [= <- _]. by eexists.
  - apply IH.
Qed.

(** The check at boot accepts exactly the configurations whose containers all
    exist. With docker answering, the result is the first failure to inspect, in
    the order of the names; otherwise the error that lists all the missing
    containers, in order and each as often as it is named; otherwise no error. An
    unreachable daemon is reported as such, and nothing is inspected. The world is
    left as it was. *)
Theorem ValidateContainers_spec ctx names w r w' :
  Ping ctx w = (Some r, w') →
  ValidateContainers ctx names w =
    match r with
    | Some e => (Some (Some (ErrDaemonUnreachable e)), w')
    | None => (Some (validation w' names), w')
    end.
Proof.
  intros Hp. unfold ValidateContainers, validation. rewrite Hp. destruct r as [e|]; [done|].
  destruct (omap (failing w') names) as [|e l] eqn:Hf.
  - rewrite validate_loop_ok by done. simpl.
    by destruct (filter (λ n, missing w' n = true) names).
  - by destruct (validate_loop_fail ctx names [] w' e l Hf) as [ns ->].
Qed.

End validate_spec.

(** The in-memory client answers from its table. *)
Definition fake_look (f : FakeClient) (n : string) : GoError + ContainerInfo :=
  match containers f !! n with Some c => inr c | None => inl (ErrContainerNotFound n) end.

Lemma ValidateContainers_spec_witness :
  let H := fakeClient no_hooks in
  ValidateContainers None ["b"; "a"; "c"] (NewFake (λ _ n, n) ["a"]) =
  (Some (Some (ErrContainersMissing ["b"; "c"])), NewFake (λ _ n, n) ["a"]).
Proof.
  refine (eq_trans (@ValidateContainers_spec _ (fakeClient no_hooks) fake_look _ None
    ["b"; "a"; "c"] (NewFake (λ _ n, n) ["a"]) None (NewFake (λ _ n, n) ["a"]) _) _).
  - intros ctx n w. simpl. unfold fake_InspectByName, fake_look. by destruct (containers w !! n).
  - reflexivity.
  - vm_compute. reflexivity.
Defined.
