(* ===== verification/Registry.v ===== *)
(** * Self-operations and the events watcher ([src/internal/orchestrator/events.go])

    The registry by which a pool tells the docker events it caused itself from
    external ones, and the routing of events to pools. *)

From S2P Require Import Prelude GoStrings State Docker.
Open Scope Z_scope.

(** ** The registry ([opRegistry]) *)

Definition opTTL : Z := 30 * time_Second.

(** [opEntry] *)
Record opEntry := { op_kind : string; op_at : Z; op_remaining : Z }.

(** [entries]: the latest expectation of each container. *)
Abbreviation opRegistry := (gmap string opEntry) (only parsing).

Definition newOpRegistry : opRegistry := ∅.

Definition expect (container kind : string) (now : Z) (r : opRegistry) : opRegistry :=
  <[container := {| op_kind := kind; op_at := now;
                    op_remaining := if bool_decide (kind = "stop") then 3 else 1 |}]> r.

Definition op_matches (kind action : string) : bool :=
  if bool_decide (kind = "stop") then
    bool_decide (action = "die") || bool_decide (action = "stop") || bool_decide (action = "kill")
  else if bool_decide (kind = "start") then bool_decide (action = "start")
  else false.

Definition isExpected (container action : string) (now : Z) (r : opRegistry) :
    bool * opRegistry :=
  match r !! container with
  | None => (false, r)
  | Some e =>
      if bool_decide (opTTL < time_Sub now (op_at e)) then (false, delete container r)
      else if op_matches (op_kind e) action then
        let e' := {| op_kind := op_kind e; op_at := op_at e;
                     op_remaining := op_remaining e - 1 |} in
        (true, if bool_decide (op_remaining e' ≤ 0) then delete container r
               else <[container := e']> r)
      else (false, r)
  end.

(** ** Routing ([Watcher]) *)

(** A pool is named by a number; [routes] maps a container to its pool. *)
Abbreviation pool_id := nat (only parsing).

Record Watcher := { routes : gmap string pool_id }.

Definition NewWatcher : Watcher := {| routes := ∅ |}.

Definition Register (containerName : string) (p : pool_id) (w : Watcher) : Watcher :=
  {| routes := <[containerName := p]> (routes w) |}.

(** The new table is a copy of the argument. *)
Definition ReplaceAll (rs : gmap string pool_id) (w : Watcher) : Watcher :=
  {| routes := map_fold (λ k v acc, <[k := v]> acc) ∅ rs |}.

(** [NotifyContainerEvent]: the registry decides whether the event goes to the
    manager of the pool. [done] is the case its [select] takes: [true] for [p.done],
    which is ready only once the pool has been closed, and then the event is dropped;
    [false] for the send to the manager. *)
Definition NotifyContainerEvent (container action : string) (now : Z) (done : bool)
    (r : opRegistry) : option extEvent * opRegistry :=
  match isExpected container action now r with
  | (true, r') => (None, r')
  | (false, r') =>
      (if done then None else Some {| ev_container := container; ev_action := action |}, r')
  end.

Definition is_lifecycle (action : string) : bool :=
  bool_decide (action ∈ ["start"; "die"; "stop"; "kill"]).

(** [route], on the registries of all pools; the result is the event that reaches
    a manager, with its pool. [done] gives the case the [select] of each pool takes. *)
Definition route (w : Watcher) (ev : Event) (now : Z) (done : pool_id → bool)
    (regs : gmap pool_id opRegistry) :
    option (pool_id * extEvent) * gmap pool_id opRegistry :=
  if is_lifecycle (evt_Action ev) then
    match routes w !! evt_ContainerName ev with
    | None => (None, regs)
    | Some p =>
        let r := default newOpRegistry (regs !! p) in
        let '(fwd, r') := NotifyContainerEvent (evt_ContainerName ev) (evt_Action ev) now (done p) r in
        ((λ e, (p, e)) <$> fwd, <[p := r']> regs)
    end
  else (None, regs).

(** ** A sequence of events on one container *)

(** The answers of [isExpected] to a sequence of events, each with its instant. *)
Fixpoint absorbs (container : string) (evs : list (Z * string)) (r : opRegistry) :
    list bool :=
  match evs with
  | [] => []
  | (now, action) :: evs' =>
      let '(b, r') := isExpected container action now r in b :: absorbs container evs' r'
  end.

(** The specification: an event is absorbed when it is of the kind expected, not
    older than the TTL, and fewer than [budget] events have been absorbed before. *)
Fixpoint absorbs_spec (kind : string) (at_ budget : Z) (evs : list (Z * string)) : list bool :=
  match evs with
  | [] => []
  | (now, action) :: evs' =>
      let b := bool_decide (now - at_ ≤ opTTL) && op_matches kind action
               && bool_decide (0 < budget) in
      b :: absorbs_spec kind at_ (if b then budget - 1 else budget) evs'
  end.

Definition budget (kind : string) : Z := if bool_decide (kind = "stop") then 3 else 1.

Lemma absorbs_none container evs r :
  r !! container = None → absorbs container evs r = map (λ _, false) evs.
Proof.
  intros Hr. induction evs as [|[now action] evs IH]; [done|]. simpl.
  unfold isExpected. rewrite Hr. by rewrite IH.
Qed.

Lemma spec_expired kind at_ b evs :
  (∀ t a, (t, a) ∈ evs → opTTL < t - at_) → absorbs_spec kind at_ b evs = map (λ _, false) evs.
Proof.
  revert b. induction evs as [|[t a] evs IH]; intros b H; [done|]. simpl.
  rewrite bool_decide_eq_false_2; [|specialize (H t a ltac:(by left)); lia]. simpl.
  rewrite IH; [done|]. intros; eapply H. by right.
Qed.

Lemma spec_spent kind at_ b evs :
  b ≤ 0 → absorbs_spec kind at_ b evs = map (λ _, false) evs.
Proof.
  intros Hb. induction evs as [|[t a] evs IH]; [done|]. simpl.
  rewrite (bool_decide_eq_false_2 (0 < b)) by lia. by rewrite andb_false_r, IH.
Qed.

Lemma time_Sub_ttl now t0 : opTTL < time_Sub now t0 ↔ opTTL < now - t0.
Proof. unfold time_Sub, opTTL, int64_min, int64_max, time_Second. lia. Qed.

Lemma absorbs_entry container kind t0 b evs r :
  r !! container = Some {| op_kind := kind; op_at := t0; op_remaining := b |} →
  0 < b → Sorted Z.le evs.*1 →
  absorbs container evs r = absorbs_spec kind t0 b evs.
Proof.
  revert r b. induction evs as [|[now action] evs IH]; intros r b Hr Hb Hs; [done|].
  simpl. unfold isExpected. rewrite Hr. simpl.
  assert (Hle : ∀ t a, (t, a) ∈ evs → now ≤ t).
  { intros t a Hin. apply Sorted_StronglySorted in Hs; [|intros ?; lia].
    simpl in Hs. apply StronglySorted_cons in Hs as [Hall _]. rewrite Forall_forall in Hall.
    apply Hall. apply list_elem_of_fmap. by exists (t, a). }
  assert (Hs' : Sorted Z.le evs.*1) by by inversion Hs.
  case_bool_decide as Httl; apply time_Sub_ttl in Httl || rewrite time_Sub_ttl in Httl.
  - rewrite (bool_decide_eq_false_2 (now - t0 ≤ opTTL)) by lia. simpl. f_equal.
    rewrite absorbs_none by apply lookup_delete_eq.
    symmetry. apply spec_expired. intros t a Hin. specialize (Hle t a Hin). lia.
  - rewrite (bool_decide_eq_true_2 (now - t0 ≤ opTTL)) by lia. simpl.
    rewrite (bool_decide_eq_true_2 (0 < b)) by done.
    destruct (op_matches kind action); simpl; f_equal; [|by apply IH].
    case_bool_decide as Hspent.
    + rewrite absorbs_none by apply lookup_delete_eq. symmetry. apply spec_spent. lia.
    + apply IH; [apply lookup_insert_eq|lia|done].
Qed.

(** The registry absorbs exactly the events its own operations explain. After
    [expect], whatever the earlier state of the registry, of any sequence of events
    on the container in order of time, the ones answered as expected are the first
    three [die]/[stop]/[kill] events after a stop, or the first [start] event after
    a start, that arrive within the TTL; every other event, and every event on
    another container, is left to be treated as external. *)
Theorem registry_absorbs_burst container kind t0 r evs :
  Sorted Z.le evs.*1 →
  absorbs container evs (expect container kind t0 r) = absorbs_spec kind t0 (budget kind) evs ∧
  ∀ other, other ≠ container → (expect container kind t0 r) !! other = r !! other ∧
    ∀ action now r', (isExpected container action now r').2 !! other = r' !! other.
Proof.
  intros Hs. split.
  - apply absorbs_entry; [apply lookup_insert_eq| |done].
    unfold budget. by case_bool_decide.
  - intros other Hne. split; [by apply lookup_insert_ne|].
    intros action now r'. unfold isExpected. destruct (r' !! container); [|done].
    case_bool_decide; [by apply lookup_delete_ne|]. case_match; [|done]. simpl.
    case_bool_decide; [by apply lookup_delete_ne|by apply lookup_insert_ne].
Qed.

Lemma registry_absorbs_burst_witness :
  absorbs "c" [(1, "kill"); (2, "start"); (3, "die"); (4, "stop"); (5, "die")]
    (expect "c" "stop" 0 newOpRegistry) = [true; false; true; true; false].
Proof.
  refine (eq_trans (proj1 (registry_absorbs_burst "c" "stop" 0 newOpRegistry _ _)) _);
    [|vm_compute; reflexivity].
  simpl. repeat constructor; lia.
Defined.

Lemma ReplaceAll_routes rs w : routes (ReplaceAll rs w) = rs.
Proof.
  unfold ReplaceAll. simpl. apply (map_fold_weak_ind (λ acc m, acc = m)); [done|].
  intros k v m acc _ ->. done.
Qed.

(** An event reaches a manager exactly when it concerns the lifecycle of a
    container, the container belongs to a pool in the current table, the pool did
    not cause it itself, and the pool is not gone; it then reaches the owner of the
    container and nobody else, unchanged. No registry but the owner's is consulted or
    changed. After a reload the table is the new one. *)
Theorem watcher_routes_to_owner w ev now gone regs :
  (∀ p e, (route w ev now gone regs).1 = Some (p, e) ↔
     is_lifecycle (evt_Action ev) = true ∧ routes w !! evt_ContainerName ev = Some p ∧
     (isExpected (evt_ContainerName ev) (evt_Action ev) now
        (default newOpRegistry (regs !! p))).1 = false ∧ gone p = false ∧
     e = {| ev_container := evt_ContainerName ev; ev_action := evt_Action ev |}) ∧
  (∀ p, routes w !! evt_ContainerName ev ≠ Some p →
     (route w ev now gone regs).2 !! p = regs !! p) ∧
  (∀ rs, routes (ReplaceAll rs w) = rs).
Proof.
  split_and!; [| |intros; apply ReplaceAll_routes]; unfold route, NotifyContainerEvent.
  - intros p e. destruct (is_lifecycle (evt_Action ev)); [|naive_solver].
    destruct (routes w !! evt_ContainerName ev) as [p0|]; [|naive_solver].
    destruct (isExpected _ _ _ _) as [[|] r'] eqn:Hr; simpl.
    + split; [done|]. intros (_ & [= ->] & Hf & _). by rewrite Hr in Hf.
    + destruct (gone p0) eqn:Hg; simpl; [split; [done|]; intros (_ & [= ->] & _ & ? & _); congruence|].
      split; [|by intros (_ & [= ->] & _ & _ & ->)].
      intros [= -> <-]. by rewrite Hr.
  - intros p Hp. destruct (is_lifecycle (evt_Action ev)); [|done].
    destruct (routes w !! evt_ContainerName ev) as [p0|]; [|done].
    destruct (isExpected _ _ _ _) as [[|] r']; simpl;
      by rewrite lookup_insert_ne by congruence.
Qed.
