(* ===== verification/Queue.v ===== *)
(** * Wait queues ([src/internal/orchestrator/queue.go])

    One bounded FIFO queue per service. [enqueue], [removeByReply] and [flush]
    are the three operations of [member]; the theorems show that they refine a
    bounded FIFO of reply channels: order is kept, the bound is never
    exceeded, and every reply goes to a waiter that was queued. *)

From S2P Require Import Prelude State.
Open Scope Z_scope.

(** [waiter] *)
Record waiter := Waiter { w_seq : Z; w_reply : chan }.

(** [member] *)
Record member := Member {
  name : string;
  containerName : string;
  healthURL : string;
  startupTimeout : Z;
  maxQueue : Z;
  queue : list waiter
}.

Definition set_queue (q : list waiter) (m : member) : member :=
  Member (name m) (containerName m) (healthURL m) (startupTimeout m) (maxQueue m) q.

(** [member.enqueue] *)
Definition enqueue (m : member) (w : waiter) : member * bool :=
  if bool_decide (maxQueue m ≤ Z.of_nat (length (queue m))) then (m, false)
  else (set_queue (queue m ++ [w]) m, true).

(** The loop of [member.removeByReply]. *)
Fixpoint remove_waiter (reply : chan) (q : list waiter) : list waiter :=
  match q with
  | [] => []
  | w :: q' => if bool_decide (w_reply w = reply) then q' else w :: remove_waiter reply q'
  end.

Definition removeByReply (m : member) (reply : chan) : member :=
  set_queue (remove_waiter reply (queue m)) m.

(** [member.flush]: the sends, in order, and the emptied member. *)
Definition flush (m : member) (r : admitReply) : member * list (chan * admitReply) :=
  (set_queue [] m, map (λ w, (w_reply w, r)) (queue m)).

(** The reply channels queued in a member. *)
Definition replies_of (q : list waiter) : list chan := map w_reply q.

(** ** The abstract queue

    A bounded FIFO of reply channels. [fifo_cancel] withdraws one client. *)

Definition fifo_enqueue (cap : Z) (q : list chan) (c : chan) : list chan * bool :=
  if decide (Z.of_nat (length q) < cap) then (q ++ [c], true) else (q, false).

Definition fifo_cancel (q : list chan) (c : chan) : list chan := filter (λ d, d ≠ c) q.

Definition fifo_drain (q : list chan) (r : admitReply) : list (chan * admitReply) :=
  map (λ c, (c, r)) q.

(** ** Properties *)

Lemma enqueue_replies m w :
  (replies_of (queue (enqueue m w).1), (enqueue m w).2)
  = fifo_enqueue (maxQueue m) (replies_of (queue m)) (w_reply w).
Proof.
  unfold enqueue, fifo_enqueue, replies_of. rewrite length_map.
  case_bool_decide; case_decide; simpl; try lia; [done|]. by rewrite map_app.
Qed.

Lemma remove_waiter_replies reply q :
  NoDup (replies_of q) →
  replies_of (remove_waiter reply q) = fifo_cancel (replies_of q) reply.
Proof.
  unfold replies_of, fifo_cancel. induction q as [|w q IH]; simpl; [done|].
  intros [Hnot Hnd]%NoDup_cons. case_bool_decide as Hw.
  - subst. rewrite filter_cons_False by naive_solver.
    symmetry. apply filter_all, Forall_forall. by intros c Hc ->.
  - rewrite filter_cons_True by done. simpl. by rewrite IH.
Qed.

Lemma remove_waiter_sublist reply q : sublist (remove_waiter reply q) q.
Proof.
  induction q as [|w q IH]; simpl; [constructor|].
  case_bool_decide; by constructor.
Qed.

(** A full queue refuses and is left as it was; otherwise the bound still holds. *)
Lemma enqueue_bound m w :
  Z.of_nat (length (queue m)) ≤ Z.max 0 (maxQueue m) →
  Z.of_nat (length (queue (enqueue m w).1)) ≤ Z.max 0 (maxQueue m).
Proof.
  unfold enqueue. intros Hle. case_bool_decide; simpl; [done|].
  rewrite length_app. simpl. lia.
Qed.

(** The three queue operations of a member refine a bounded FIFO queue of
    reply channels. [enqueue] appends exactly when the queue is below
    [maxQueue] and otherwise refuses and changes nothing; [removeByReply]
    withdraws exactly the given client and keeps the order of the others;
    [flush] answers every waiter once, oldest first, and leaves the queue
    empty. *)
Theorem member_refines_fifo m w reply r :
  NoDup (replies_of (queue m)) →
  (replies_of (queue (enqueue m w).1), (enqueue m w).2)
    = fifo_enqueue (maxQueue m) (replies_of (queue m)) (w_reply w) ∧
  replies_of (queue (removeByReply m reply)) = fifo_cancel (replies_of (queue m)) reply ∧
  (flush m r).2 = fifo_drain (replies_of (queue m)) r ∧
  queue (flush m r).1 = [].
Proof.
  intros Hnd. split_and!; [apply enqueue_replies|by apply remove_waiter_replies| |done].
  unfold flush, fifo_drain, replies_of. simpl. by rewrite map_map.
Qed.

Definition two_waiters : member :=
  Member "llama" "llama-cpp" "http://llama-cpp/health" (180 * time_Second) 2
    [Waiter 1 10; Waiter 2 11].

Lemma member_refines_fifo_witness :
  NoDup (replies_of (queue two_waiters)) ∧
  (enqueue two_waiters (Waiter 3 12)).2 = false ∧
  replies_of (queue (removeByReply two_waiters 10)) = fifo_cancel [10; 11]%nat 10.
Proof.
  assert (H : NoDup (replies_of (queue two_waiters))).
  { apply (bool_decide_unpack _). vm_compute. exact I. }
  split; [exact H|]. split; [reflexivity|].
  exact (proj1 (proj2 (member_refines_fifo two_waiters (Waiter 3 12) 10
                         {| result := AdmitGo; err := None |} H))).
Defined.
