(* ===== verification/OpCtx.v ===== *)
(** * The waits of the pool ([opCtx] and [sleep] of [src/internal/orchestrator/swap.go])

    Every docker call of a worker runs under a context made by [opCtx]: it expires,
    its caller cancels it when the call has returned, and a goroutine of its own
    cancels it when the pool closes. To the workers of [Worker.v] these are calls of
    the world ([Host], and the deadline handed to [Client]); here is what the code
    does with the context, the goroutine and the channel [done]. *)

From S2P Require Import Prelude.
Open Scope Z_scope.

(** ** Contexts *)

Inductive ctx_error := Canceled | DeadlineExceeded.

(** [oc_err] is [ctx.Err()], [oc_watching] that the goroutine has not ended; the rest
    is what happened outside: the pool closed, the timeout passed, the caller
    returned from its call. *)
Record op_ctx := OpCtx {
  oc_err : option ctx_error;
  oc_watching : bool;
  oc_closed : bool;
  oc_expired : bool;
  oc_returned : bool
}.

(** The first error of a context stays. *)
Definition cancel_with (e : ctx_error) (c : op_ctx) : op_ctx :=
  OpCtx (Some (default e (oc_err c))) (oc_watching c) (oc_closed c) (oc_expired c) (oc_returned c).

(** The context [opCtx] returns, for a pool that may be closed already. *)
Definition opCtx (closed : bool) : op_ctx := OpCtx None true closed false false.

(** The cases of the [select] of the goroutine. *)
Inductive watch_case := WatchPoolDone | WatchCtxDone.

Definition watch_ready (c : op_ctx) (w : watch_case) : bool :=
  match w with
  | WatchPoolDone => oc_closed c
  | WatchCtxDone => bool_decide (is_Some (oc_err c))
  end.

Definition watch (w : watch_case) (c : op_ctx) : op_ctx :=
  let c := match w with WatchPoolDone => cancel_with Canceled c | WatchCtxDone => c end in
  OpCtx (oc_err c) false (oc_closed c) (oc_expired c) (oc_returned c).

(** The goroutine, the clock, the pool, and the caller with its deferred [cancel]. *)
Inductive ctx_step : op_ctx → op_ctx → Prop :=
| ctx_watch c w : oc_watching c = true → watch_ready c w = true → ctx_step c (watch w c)
| ctx_expire c :
    ctx_step c (cancel_with DeadlineExceeded
      (OpCtx (oc_err c) (oc_watching c) (oc_closed c) true (oc_returned c)))
| ctx_close c :
    ctx_step c (OpCtx (oc_err c) (oc_watching c) true (oc_expired c) (oc_returned c))
| ctx_return c :
    ctx_step c (cancel_with Canceled
      (OpCtx (oc_err c) (oc_watching c) (oc_closed c) (oc_expired c) true)).

Record ctx_ok (c : op_ctx) : Prop := {
  co_watching : oc_watching c = false → is_Some (oc_err c);
  co_expired : oc_err c = Some DeadlineExceeded → oc_expired c = true;
  co_canceled : oc_err c = Some Canceled → oc_closed c = true ∨ oc_returned c = true;
  co_expires : oc_expired c = true → is_Some (oc_err c);
  co_returned : oc_returned c = true → is_Some (oc_err c)
}.

Lemma ctx_ok_step c c' : ctx_ok c → ctx_step c c' → ctx_ok c'.
Proof.
  intros [H1 H2 H3 H4 H5]. destruct 1 as [c [] Hw Hr|c|c|c]; unfold watch, cancel_with; simpl in *.
  - split; simpl; eauto. destruct (oc_err c); naive_solver.
  - apply bool_decide_eq_true in Hr. by split.
  - split; simpl; eauto; destruct (oc_err c); naive_solver.
  - split; simpl; eauto; destruct (oc_err c); naive_solver.
  - split; simpl; eauto; destruct (oc_err c); naive_solver.
Qed.

(** A docker call is bounded, and its watcher does not outlive it. Whatever the order
    of the events: the context ends only because its time is over, the pool closed or
    the call returned; when the time is over it has ended; when the pool has closed
    it has ended, or the watcher is about to end it; and once the call has returned
    the context has ended and the watcher, if it is still there, can end at once. *)
Theorem opCtx_contract closed c :
  rtc ctx_step (opCtx closed) c →
  (∀ e, oc_err c = Some e →
     e = DeadlineExceeded ∧ oc_expired c = true ∨
     e = Canceled ∧ (oc_closed c = true ∨ oc_returned c = true)) ∧
  (oc_expired c = true → is_Some (oc_err c)) ∧
  (oc_closed c = true → is_Some (oc_err c) ∨
     ∃ c', ctx_step c c' ∧ oc_err c' = Some Canceled ∧ oc_watching c' = false) ∧
  (oc_returned c = true → is_Some (oc_err c) ∧
     (oc_watching c = true → ∃ c', ctx_step c c' ∧ oc_err c' = oc_err c ∧ oc_watching c' = false)).
Proof.
  intros Hr. assert (Hok : ctx_ok c).
  { apply rtc_ind_r with (P := ctx_ok) in Hr; [done|by split|].
    intros c1 c2 _ Hs Hok. by eapply ctx_ok_step. }
  destruct Hok as [H1 H2 H3 H4 H5]. split_and!.
  - intros [] He; [right|left]; auto.
  - done.
  - intros Hc. destruct (oc_err c) as [e|] eqn:He; [left; eauto|right].
    assert (Hw : oc_watching c = true).
    { destruct (oc_watching c); [done|]. by destruct H1. }
    eexists. split; [by apply (ctx_watch c WatchPoolDone)|]. unfold watch, cancel_with. simpl.
    by rewrite He.
  - intros Ht. split; [by apply H5|]. intros Hw. exists (watch WatchCtxDone c).
    split; [|done]. apply ctx_watch; [done|]. by apply bool_decide_eq_true, H5.
Qed.

Lemma opCtx_contract_witness :
  ∃ c', ctx_step (OpCtx None true true false false) c' ∧ oc_err c' = Some Canceled.
Proof.
  destruct (opCtx_contract true (opCtx true)) as (_ & _ & Hc & _); [reflexivity|].
  destruct Hc as [[? ?]|(c' & Hs & He & _)]; [reflexivity|discriminate|by exists c'].
Defined.

(** ** [sleep] *)

Inductive sleep_case := SleepTimer | SleepPoolDone.

Definition sleep (c : sleep_case) : bool :=
  match c with SleepTimer => true | SleepPoolDone => false end.

(** The cases of its [select] that are ready at [t]: the timer was armed for [d] at
    [now], the pool was closed at the instant [closed], if at all. *)
Definition sleep_ready (now d : Z) (closed : option Z) (t : Z) (c : sleep_case) : bool :=
  match c with
  | SleepTimer => bool_decide (now + d ≤ t)
  | SleepPoolDone => match closed with Some tc => bool_decide (tc ≤ t) | None => false end
  end.

(** A sleep lasts as long as asked unless the pool closes: what [Clocked] asks of it. *)
Lemma sleep_lasts now d closed t c :
  now ≤ t → sleep_ready now d closed t c = true →
  now + (if sleep c then d else 0) ≤ t ∧ (sleep c = false → is_Some closed).
Proof.
  intros Ht. destruct c; simpl.
  - intros ?%bool_decide_eq_true. done.
  - destruct closed as [tc|]; [|done]. intros _. split; [lia|eauto].
Qed.
