(* ===== verification/Worker.v ===== *)
(** * The swap workers ([src/internal/orchestrator/swap.go], [health.go])

    The goroutines that stop and start containers: [doSwap] (sweep the siblings,
    start the target, wait until it is healthy) and [doStopAll]. They run
    concurrently with the manager, with each other and with docker, so every
    call they make is a step of an arbitrary world [W] that may have changed in
    any way since the last one. What a worker does is its trace of actions. *)

From S2P Require Import Prelude GoStrings State Docker Queue.
Open Scope Z_scope.

(** ** Constants *)

Definition gracefulStopTimeout : Z := 10 * time_Second.
Definition stopConfirmBudget : Z := 15 * time_Second.
Definition stopConfirmEvery : Z := 200 * time_Millisecond.
Definition healthProbeEvery : Z := 250 * time_Millisecond.
Definition dockerCallDeadline : Z := 30 * time_Second.

(** ** The world of a worker

    The clock, the worker's own context ([ctx.Err() != nil]), the pool's [sleep]
    (a timer of the clock against the closing of the pool; [false] when the pool
    closed), an HTTP GET (the status code, or [None] for any error), and the
    pool's registry of self-operations. *)
Class Host (W : Type) := {
  clk_Now : call W Z;
  ctx_Err : call W bool;
  pool_sleep : Z → call W bool;
  http_get : string → call W (option Z);
  ops_expect : string → string → call W ()
}.

(** ** The trace of a worker *)

Inductive wact :=
| Expect (container kind : string)
| CallInspect (container : string)
| Inspected (container : string) (res : GoError + bool)
| CallStop (container : string)
| CallStart (container : string)
| Started (container : string) (err : option GoError)
| CtxErr (cancelled : bool)
| Got (url : string) (code : option Z)
| Probed (ok : bool)
| Slept (ok : bool)
| Deliver (msg : swapMsg).

#[global] Instance wact_eq_dec : EqDecision wact.
Proof. solve_decision. Defined.

Section worker.
Context {W : Type} `{!Client W} `{!Host W}.

Abbreviation MW := (prog W wact).

(** ** Health probes ([ProbeHealth], [healthOK]) *)

Definition ProbeHealth (url : string) : MW bool :=
  code ← lift (http_get url);
  emit (Got url code);;
  mret (bool_decide (code = Some 200)).

Definition healthOK (url : string) : MW bool := ProbeHealth url.

(** ** Steps *)

Definition deliver (msg : swapMsg) : MW () := emit (Deliver msg).

Definition isRunning (c : string) : MW (GoError + bool) :=
  emit (CallInspect c);;
  r ← lift (InspectByName (Some dockerCallDeadline) c);
  let res := match r with
             | inl e => inl (ErrInspecting c e)
             | inr info => inr (ci_Running info)
             end in
  emit (Inspected c res);;
  mret res.

Definition expect_op (c kind : string) : MW () :=
  emit (Expect c kind);; lift (ops_expect c kind).

(** The confirmation loop of [stopAndConfirm]. *)
Fixpoint confirm_loop (fuel : nat) (c : string) (deadline : Z) : MW (option GoError) :=
  match fuel with
  | O => out_of_fuel
  | S fuel =>
      r ← isRunning c;
      match r with
      | inl e => mret (Some (ErrConfirmingStop e))
      | inr false => mret None
      | inr true =>
          now ← lift clk_Now;
          if bool_decide (now < deadline) then
            ok ← lift (pool_sleep stopConfirmEvery);
            emit (Slept ok);;
            if (ok : bool) then confirm_loop fuel c deadline else mret (Some ErrPoolShuttingDown)
          else mret (Some (ErrStillRunning c stopConfirmBudget))
      end
  end.

Definition stopAndConfirm (fuel : nat) (c : string) : MW (option GoError) :=
  expect_op c "stop";;
  emit (CallStop c);;
  err ← lift (Stop (Some dockerCallDeadline) c gracefulStopTimeout);
  match err with
  | Some e => mret (Some (ErrStopping c e))
  | None =>
      now ← lift clk_Now;
      confirm_loop fuel c (now + stopConfirmBudget)
  end.

(** [ctx.Err() != nil] *)
Definition superseded_check : MW bool :=
  b ← lift ctx_Err; emit (CtxErr b);; mret b.

(** ** [doSwap] *)

(** The loop over the siblings, up to its first error. *)
Fixpoint sweep (fuel : nat) (others : list string) : MW (option GoError) :=
  match others with
  | [] => mret None
  | cn :: others' =>
      r ← isRunning cn;
      match r with
      | inl e => mret (Some e)
      | inr false => sweep fuel others'
      | inr true =>
          err ← stopAndConfirm fuel cn;
          match err with
          | Some e => mret (Some e)
          | None => sweep fuel others'
          end
      end
  end.

Definition swap_report (op : Z) (m : member) (k : swapKind) (e : option GoError) : swapMsg :=
  {| msg_op := op; msg_target := name m; msg_kind := k; msg_err := e |}.

(** The readiness poll. *)
Fixpoint health_loop (fuel : nat) (op : Z) (m : member) (deadline : Z) : MW () :=
  match fuel with
  | O => out_of_fuel
  | S fuel =>
      ok ← healthOK (healthURL m);
      emit (Probed ok);;
      if (ok : bool) then deliver (swap_report op m swapComplete None) else
      now ← lift clk_Now;
      if bool_decide (now < deadline) then
        awake ← lift (pool_sleep healthProbeEvery);
        emit (Slept awake);;
        if (awake : bool) then health_loop fuel op m deadline else mret tt
      else deliver (swap_report op m swapHealthTimeout None)
  end.

Definition doSwap_body (fuel : nat) (op : Z) (m : member) (others : list string) : MW () :=
  err ← sweep fuel others;
  match err with
  | Some e => deliver (swap_report op m swapFailed (Some e))
  | None =>
      gone ← superseded_check;
      if (gone : bool) then
        deliver (swap_report op m swapFailed (Some ErrSupersededBeforeStart))
      else
        expect_op (containerName m) "start";;
        emit (CallStart (containerName m));;
        err ← lift (Start (Some dockerCallDeadline) (containerName m));
        emit (Started (containerName m) err);;
        match err with
        | Some e =>
            deliver (swap_report op m swapFailed (Some (ErrStarting (containerName m) e)))
        | None =>
            gone ← superseded_check;
            if (gone : bool) then
              stopAndConfirm fuel (containerName m);;
              deliver (swap_report op m swapFailed (Some ErrSupersededAfterStart))
            else
              now ← lift clk_Now;
              health_loop fuel op m (now + startupTimeout m)
        end
  end.

(** [defer func() { if r := recover(); r != nil { h() } }()] *)
Definition with_recover (body h : MW ()) : MW () := λ w,
  match body w with
  | (Panic, w', es) => match h w' with (o, w'', es') => (o, w'', es ++ es') end
  | r => r
  end.

Definition doSwap (fuel : nat) (op : Z) (m : member) (others : list string) : MW () :=
  with_recover (doSwap_body fuel op m others)
    (deliver (swap_report op m swapFailed (Some ErrSwapWorkerPanic))).

(** ** [doStopAll] *)

Definition stop_report (op : Z) (e : option GoError) : swapMsg :=
  {| msg_op := op; msg_target := ""; msg_kind := poolStopped; msg_err := e |}.

(** The first error is kept. *)
Definition first_err (a b : option GoError) : option GoError :=
  match a with Some _ => a | None => b end.

Fixpoint stop_loop (fuel : nat) (op : Z) (ms : list member) (firstErr : option GoError) : MW () :=
  match ms with
  | [] => deliver (stop_report op firstErr)
  | m :: ms' =>
      gone ← superseded_check;
      if (gone : bool) then deliver (stop_report op (Some ErrContextCanceled)) else
      r ← isRunning (containerName m);
      match r with
      | inl e => stop_loop fuel op ms' (first_err firstErr (Some e))
      | inr false => stop_loop fuel op ms' firstErr
      | inr true =>
          err ← stopAndConfirm fuel (containerName m);
          stop_loop fuel op ms' (first_err firstErr err)
      end
  end.

Definition doStopAll (fuel : nat) (op : Z) (ms : list member) : MW () :=
  with_recover (stop_loop fuel op ms None)
    (deliver (stop_report op (Some ErrStopAllWorkerPanic))).

(** ** The detached teardowns

    The goroutine of a health timeout ([handleSwap]), and [forceStop], which does
    nothing once the pool is closed. *)
Definition teardown (c : string) : MW () :=
  expect_op c "stop";;
  emit (CallStop c);;
  _ ← lift (Stop (Some dockerCallDeadline) c gracefulStopTimeout);
  mret tt.

Definition forceStop (pool_closed : call W bool) (c : string) : MW () :=
  gone ← lift pool_closed;
  if (gone : bool) then mret tt else teardown c.

End worker.
