(* ===== verification/WorkerFacts.v ===== *)
(** * The protocol of a swap worker

    [swap_script] lists the traces a swap worker may leave, as a protocol of its
    own: what was seen and done before the target is started, and how each ending
    comes about. [doSwap_script] shows that the code follows it in every world,
    and [doSwap_total] that it ends, given a clock that does not go back. *)

From S2P Require Import Prelude GoStrings State Docker Queue Worker.
Open Scope Z_scope.

(** ** Traces *)

(** Actions that neither start a container, nor report, nor look at the context. *)
Definition quiet (a : wact) : Prop :=
  match a with CallStart _ | Started _ _ | Deliver _ | CtxErr _ => False | _ => True end.

Definition deliveries (es : list wact) : list swapMsg :=
  omap (λ a, match a with Deliver m => Some m | _ => None end) es.

(** Every start and stop is announced to the registry immediately before. *)
Definition announced_by (prev : option wact) (a : wact) : Prop :=
  match a with
  | CallStop c => prev = Some (Expect c "stop")
  | CallStart c => prev = Some (Expect c "start")
  | _ => True
  end.

Fixpoint announced_from (prev : option wact) (es : list wact) : Prop :=
  match es with
  | [] => True
  | a :: es' => announced_by prev a ∧ announced_from (Some a) es'
  end.

Definition announced (es : list wact) : Prop := announced_from None es.

Lemma announced_weaken prev es : announced es → announced_from prev es.
Proof.
  unfold announced. destruct es as [|a es]; [done|]. simpl. intros [Ha ?]. split; [|done].
  by destruct a.
Qed.

Lemma announced_app es es' : announced es → announced es' → announced (es ++ es').
Proof.
  unfold announced. intros H He. revert H. generalize (@None wact) at 1 2.
  induction es as [|a es IH]; intros prev; simpl.
  - intros _. by apply announced_weaken.
  - intros [? ?]. split; [done|]. by apply IH.
Qed.

Definition calm (es : list wact) : Prop := Forall quiet es ∧ announced es.

Lemma calm_nil : calm [].
Proof. by split. Qed.

Lemma calm_app es es' : calm es → calm es' → calm (es ++ es').
Proof. intros [] []. split; [by apply Forall_app|by apply announced_app]. Qed.

Lemma calm_cons a es : quiet a → announced_by None a → calm es → calm (a :: es).
Proof.
  intros ? ? []. split; [by constructor|]. split; [done|]. by apply announced_weaken.
Qed.

Lemma deliveries_app es es' : deliveries (es ++ es') = deliveries es ++ deliveries es'.
Proof. apply omap_app. Qed.

Lemma deliveries_calm es : calm es → deliveries es = [].
Proof. intros [Hq _]. induction Hq as [|[] es]; done. Qed.

Lemma calm_stop c es : calm es → calm (Expect c "stop" :: CallStop c :: es).
Proof.
  intros []. split; [by repeat constructor|]. unfold announced. simpl.
  split_and!; [done|done|]. by apply announced_weaken.
Qed.

(** Prove [calm es] by the shape of [es]. *)
Ltac calm :=
  repeat first [assumption | apply calm_nil | apply calm_app | apply calm_stop
               | apply calm_cons; [exact I|exact I|]].

#[export] Hint Rewrite deliveries_app : stagehand_rw.

(** ** The protocol *)

(** Before the target is started: every sibling was seen stopped. *)
Definition swept (others : list string) (es : list wact) : Prop :=
  calm es ∧ ∀ c, c ∈ others → Inspected c (inr false) ∈ es.

(** The start of the target [c], and the answer. *)
Definition start_acts (c : string) : list wact :=
  [CtxErr false; Expect c "start"; CallStart c].

Section script.
Context (op : Z) (m : member) (others : list string).
Abbreviation cn := (containerName m).

Inductive swap_script : outcome () → list wact → Prop :=
| script_sweep_failed es e :
    calm es → swap_script (Ret tt) (es ++ [Deliver (swap_report op m swapFailed (Some e))])
| script_calm_panic es :
    calm es → swap_script Panic es
| script_expect_panic es :
    swept others es → swap_script Panic (es ++ [CtxErr false; Expect cn "start"])
| script_superseded_before es :
    swept others es →
    swap_script (Ret tt)
      (es ++ [CtxErr true;
              Deliver (swap_report op m swapFailed (Some ErrSupersededBeforeStart))])
| script_start_panic es :
    swept others es → swap_script Panic (es ++ start_acts cn)
| script_start_failed es e :
    swept others es →
    swap_script (Ret tt)
      (es ++ start_acts cn ++
       [Started cn (Some e); Deliver (swap_report op m swapFailed (Some (ErrStarting cn e)))])
| script_superseded_after es es' :
    swept others es → calm es' → CallStop cn ∈ es' →
    swap_script (Ret tt)
      (es ++ start_acts cn ++ [Started cn None; CtxErr true] ++ es' ++
       [Deliver (swap_report op m swapFailed (Some ErrSupersededAfterStart))])
| script_check_panic es :
    swept others es → swap_script Panic (es ++ start_acts cn ++ [Started cn None])
| script_late_panic es b es' :
    swept others es → calm es' →
    swap_script Panic (es ++ start_acts cn ++ [Started cn None; CtxErr b] ++ es')
| script_complete es es' :
    swept others es → calm es' →
    swap_script (Ret tt)
      (es ++ start_acts cn ++ [Started cn None; CtxErr false] ++ es' ++
       [Got (healthURL m) (Some 200); Probed true; Deliver (swap_report op m swapComplete None)])
| script_timeout es es' :
    swept others es → calm es' →
    swap_script (Ret tt)
      (es ++ start_acts cn ++ [Started cn None; CtxErr false] ++ es' ++
       [Probed false; Deliver (swap_report op m swapHealthTimeout None)])
| script_closing es es' :
    swept others es → calm es' →
    swap_script (Ret tt)
      (es ++ start_acts cn ++ [Started cn None; CtxErr false] ++ es' ++
       [Probed false; Slept false]).

End script.

(** ** The code follows the protocol *)

Section facts.
Context {W : Type} `{!Client W} `{!Host W}.

Lemma wp_lift {A} (c : call W A) (Q : outcome A → W → list wact → Prop) w :
  (∀ a w', c w = (Some a, w') → Q (Ret a) w' []) →
  (∀ w', c w = (None, w') → Q Panic w' []) →
  wp (lift c) Q w.
Proof. unfold wp, lift. destruct (c w) as [[a|] w']; auto. Qed.

(** A piece of a worker that neither starts nor reports, and what it establishes. *)
Definition calmly {A} (P : A → list wact → Prop) (m : prog W wact A) : Prop :=
  ∀ w, wp m (λ o _ es, calm es ∧ ∀ a, o = Ret a → P a es) w.

Lemma isRunning_calm c :
  calmly (λ r es, Inspected c r ∈ es) (isRunning c).
Proof.
  intros w. unfold isRunning. apply wp_bind, wp_emit. simpl. apply wp_bind.
  apply wp_lift; [|intros; split; [calm|done]].
  intros a w' _. apply wp_bind, wp_emit. simpl. apply wp_mret. simpl.
  split; [calm|]. intros ? [= <-]. right. by left.
Qed.

Lemma confirm_loop_calm fuel c d :
  calmly (λ r es, r = None → Inspected c (inr false) ∈ es) (confirm_loop fuel c d).
Proof.
  induction fuel as [|fuel IH]; intros w; simpl; [by split; [apply calm_nil|]|].
  apply wp_bind. eapply wp_mono; [|apply isRunning_calm].
  intros [[e|[|]]| |] w1 es [Hc Hr]; simpl; [| | |by split..].
  - apply wp_mret. rewrite app_nil_r. split; [done|]. by intros ? [= <-].
  - apply wp_bind, wp_lift; [|intros; rewrite app_nil_r; by split].
    intros now w2 _. case_bool_decide.
    + apply wp_bind, wp_lift; [|intros; simpl; rewrite app_nil_r; by split].
      intros ok w3 _. apply wp_bind, wp_emit. simpl. destruct ok.
      * eapply wp_mono; [|apply IH]. intros o w4 es' [Hc' Hr']. simpl. split.
        -- calm.
        -- intros a Ha Hn. apply elem_of_app. right. right. eauto.
      * apply wp_mret. split; [|by intros ? [= <-]].
        calm.
    + apply wp_mret. rewrite app_nil_r. split; [done|]. by intros ? [= <-].
  - apply wp_mret. rewrite app_nil_r. split; [done|]. intros ? [= <-] _. by apply Hr.
Qed.

Lemma stopAndConfirm_calm fuel c :
  calmly (λ r es, CallStop c ∈ es ∧ (r = None → Inspected c (inr false) ∈ es))
    (stopAndConfirm fuel c).
Proof.
  intros w. unfold stopAndConfirm, expect_op. apply wp_bind, wp_bind, wp_emit. simpl.
  apply wp_lift; [|intros; split; [calm|done]]. intros _ w1 _.
  apply wp_bind, wp_emit. simpl. apply wp_bind, wp_lift; [|intros; simpl; split; [calm|done]].
  intros [e|] w2 _.
  - apply wp_mret. simpl. split; [calm|]. intros ? [= <-]. split; [|done]. right. by left.
  - apply wp_bind, wp_lift; [|intros; simpl; split; [calm|done]]. intros now w3 _.
    eapply wp_mono; [|apply confirm_loop_calm]. intros o w4 es [Hc Hr]. simpl.
    split; [calm|]. intros a Ha. split; [right; by left|]. intros Hn. right. right. eauto.
Qed.

Lemma sweep_calm fuel others :
  calmly (λ r es, r = None → ∀ c, c ∈ others → Inspected c (inr false) ∈ es)
    (sweep fuel others).
Proof.
  induction others as [|cn others IH]; intros w; simpl.
  { apply wp_mret. split; [apply calm_nil|]. intros _ _ _ c Hc. by apply not_elem_of_nil in Hc. }
  apply wp_bind. eapply wp_mono; [|apply isRunning_calm].
  intros [[e|[|]]| |] w1 es [Hc Hr]; simpl; [| | |by split..].
  - apply wp_mret. rewrite app_nil_r. split; [done|]. by intros ? [= <-].
  - apply wp_bind. eapply wp_mono; [|apply stopAndConfirm_calm].
    intros [[e|]| |] w2 es2 [Hc2 Hr2]; simpl; [| |by split; [calm|]..].
    + apply wp_mret. rewrite app_nil_r. split; [calm|]. by intros ? [= <-].
    + eapply wp_mono; [|apply IH]. intros o w3 es3 [Hc3 Hr3]. simpl. split; [calm|].
      destruct (Hr2 None eq_refl) as [_ Hseen].
      intros a Ha Hn c [->|Hin]%elem_of_cons; rewrite !elem_of_app; [by auto|].
      right. right. by eapply Hr3.
  - eapply wp_mono; [|apply IH]. intros o w3 es3 [Hc3 Hr3]. simpl. split; [calm|].
    intros a Ha Hn c [->|Hin]%elem_of_cons; rewrite !elem_of_app; [by auto|].
    right. by eapply Hr3.
Qed.

Lemma superseded_check_wp (Q : outcome bool → W → list wact → Prop) w :
  (∀ b w', Q (Ret b) w' [CtxErr b]) → (∀ w', Q Panic w' []) → wp superseded_check Q w.
Proof.
  intros H1 H2. unfold superseded_check. apply wp_bind, wp_lift; [|auto].
  intros b w' _. apply wp_bind, wp_emit, wp_mret. apply H1.
Qed.

(** The endings of the readiness poll, after a trace [pre]. *)
Definition poll_end (op : Z) (m : member) (o : outcome ()) (es : list wact) : Prop :=
  o = NoFuel ∨
  ∃ es', calm es' ∧
    (o = Panic ∧ es = es' ∨
     o = Ret tt ∧
       (es = es' ++ [Got (healthURL m) (Some 200); Probed true; Deliver (swap_report op m swapComplete None)] ∨
        es = es' ++ [Probed false; Deliver (swap_report op m swapHealthTimeout None)] ∨
        es = es' ++ [Probed false; Slept false])).

Lemma poll_end_app op m o pre es : calm pre → poll_end op m o es → poll_end op m o (pre ++ es).
Proof.
  intros Hpre [->|(es' & Hc & H)]; [by left|]. right. exists (pre ++ es'). split; [calm|].
  destruct H as [[-> ->]|(-> & [->|[->| ->]])]; [by left|right; split; [done|]..];
    rewrite <- !(assoc_L (++)); auto.
Qed.

Lemma health_loop_end fuel op m d w :
  wp (health_loop fuel op m d) (λ o _ es, poll_end op m o es) w.
Proof.
  revert w. induction fuel as [|fuel IH]; intros w; simpl; [by left|].
  unfold healthOK, ProbeHealth. apply wp_bind, wp_bind, wp_lift.
  2: { intros w1 _. right. exists []. split; [calm|by left]. }
  intros code w1 _. apply wp_bind, wp_emit, wp_mret. simpl. apply wp_bind, wp_emit. simpl.
  case_bool_decide as Hcode.
  { rewrite Hcode. apply wp_emit. right. exists []. split; [calm|]. right. auto. }
  set (g := Got (healthURL m) code).
  apply wp_bind, wp_lift.
  2: { intros w2 _. right. exists [g; Probed false]. split; [calm|by left]. }
  intros now w2 _. case_bool_decide.
  2: { apply wp_emit. right. exists [g]. split; [calm|]. right. auto. }
  apply wp_bind, wp_lift.
  2: { intros w3 _. right. exists [g; Probed false]. split; [calm|by left]. }
  intros [|] w3 _; apply wp_bind, wp_emit; simpl.
  - eapply wp_mono; [|apply IH]. intros o w4 es Hend. simpl.
    apply (poll_end_app _ _ _ [g; Probed false; Slept true]); [calm|done].
  - apply wp_mret. right. exists [g]. split; [calm|]. right. auto.
Qed.

Lemma doSwap_body_script fuel op m others w :
  wp (doSwap_body fuel op m others)
    (λ o _ es, o = NoFuel ∨ swap_script op m others o es) w.
Proof.
  unfold doSwap_body. apply wp_bind. eapply wp_mono; [|apply sweep_calm].
  intros [[e|]| |] w1 es [Hc Hr]; [| |right; by constructor|by left].
  { apply wp_emit. right. by constructor. }
  assert (Hsw : swept others es) by by (split; [done|eauto]). clear Hr.
  apply wp_bind, superseded_check_wp.
  2: { intros w2. right. rewrite app_nil_r. apply script_calm_panic, Hsw. }
  intros [|] w2.
  { apply wp_emit. right. by apply script_superseded_before. }
  unfold expect_op. apply wp_bind, wp_bind, wp_emit, wp_lift.
  2: { intros w3 _. right. by apply script_expect_panic. }
  intros _ w3 _. apply wp_bind, wp_emit. simpl. apply wp_bind, wp_lift.
  2: { intros w4 _. right. by apply script_start_panic. }
  intros err w4 _. apply wp_bind, wp_emit. simpl. destruct err as [e|].
  { apply wp_emit. right. by apply script_start_failed. }
  apply wp_bind, superseded_check_wp.
  2: { intros w5. right. by apply script_check_panic. }
  intros [|] w5.
  - apply wp_bind. eapply wp_mono; [|apply stopAndConfirm_calm].
    intros [r| |] w6 es' [Hc' Hr']; [| |by left].
    + apply wp_emit. right. apply script_superseded_after; [done..|]. by apply (Hr' r).
    + right. by apply (script_late_panic _ _ _ es true es').
  - apply wp_bind, wp_lift.
    2: { intros w6 _. right. apply (script_late_panic _ _ _ es false []); [done|calm]. }
    intros now w6 _. eapply wp_mono; [|apply health_loop_end].
    intros o w7 es2 [->|(es' & Hc' & H)]; [by left|right]. simpl.
    destruct H as [[-> ->]|(-> & [->|[->| ->]])].
    + by apply (script_late_panic _ _ _ es false es').
    + by apply script_complete.
    + by apply script_timeout.
    + by apply script_closing.
Qed.

End facts.

(** ** Termination

    The clock of the world never goes back, a reading lies between the instants
    before and after it, and a sleep that was not cut short lasts as long as
    asked. *)
Class Clocked (W : Type) `{!Client W} `{!Host W} (time_of : W → Z) := {
  clocked_inspect ctx c w : time_of w ≤ time_of (InspectByName ctx c w).2;
  clocked_get url w : time_of w ≤ time_of (http_get url w).2;
  clocked_now w t w' : clk_Now w = (Some t, w') → time_of w ≤ t ≤ time_of w';
  clocked_sleep d w b w' :
    pool_sleep d w = (Some b, w') → time_of w + (if b then d else 0) ≤ time_of w'
}.

(** Iterations of the loops of [stopAndConfirm] and of the readiness poll. *)
Definition confirm_fuel : nat := 76.
Definition swap_fuel (m : member) : nat :=
  (76 + Z.to_nat (startupTimeout m / healthProbeEvery + 2))%nat.

Section total.
Context {W : Type} `{!Client W} `{!Host W} (time_of : W → Z) `{!Clocked W time_of}.

Definition ends {A} (m : prog W wact A) : Prop := ∀ w, wp m (λ o _ _, o ≠ NoFuel) w.

Lemma ends_bind {A B} (m : prog W wact A) (k : A → prog W wact B) :
  ends m → (∀ a, ends (k a)) → ends (m ≫= k).
Proof.
  intros Hm Hk w. apply wp_bind. eapply wp_mono; [|apply Hm].
  intros [a| |] w' es Ho; [|done..]. apply Hk.
Qed.

Lemma ends_mret {A} (a : A) : ends (mret a).
Proof. by intros w. Qed.

Lemma ends_emit x : ends (emit x).
Proof. by intros w. Qed.

Lemma ends_lift {A} (c : call W A) : ends (lift c).
Proof. intros w. by apply wp_lift. Qed.

Create HintDb ends.
Hint Resolve ends_mret ends_emit ends_lift : ends.

Ltac ends :=
  repeat first [ solve [eauto with ends] | apply ends_bind; [|intros]
               | match goal with |- ends (match ?x with _ => _ end) => destruct x end ].

Lemma isRunning_time c w :
  wp (isRunning c) (λ o w' _, o ≠ NoFuel ∧ time_of w ≤ time_of w') w.
Proof.
  unfold isRunning. apply wp_bind, wp_emit. simpl. apply wp_bind, wp_lift;
    [intros a w' Hc|intros w' Hc];
    pose proof (clocked_inspect (Some dockerCallDeadline) c w) as Ht; rewrite Hc in Ht;
    simpl in Ht; [|done].
  apply wp_bind, wp_emit, wp_mret. done.
Qed.

Lemma confirm_loop_ends fuel c d w :
  (0 < fuel)%nat → d - time_of w ≤ (Z.of_nat fuel - 1) * stopConfirmEvery →
  wp (confirm_loop fuel c d) (λ o _ _, o ≠ NoFuel) w.
Proof.
  revert w. induction fuel as [|fuel IH]; intros w Hf Hd; [lia|]. simpl.
  apply wp_bind. eapply wp_mono; [|apply isRunning_time].
  intros [[e|[|]]| |] w1 es [? Ht]; [done| |done..].
  apply wp_bind, wp_lift; [|done]. intros now w2 [Hnow1 Hnow2]%clocked_now.
  case_bool_decide; [|done]. apply wp_bind, wp_lift; [|done].
  intros [|] w3 Hs%clocked_sleep; apply wp_bind, wp_emit; [|done].
  unfold stopConfirmEvery, time_Millisecond in *.
  destruct fuel as [|fuel]; [exfalso; lia|]. eapply IH; lia.
Qed.

Lemma stopAndConfirm_ends fuel c : (confirm_fuel ≤ fuel)%nat → ends (stopAndConfirm fuel c).
Proof.
  unfold confirm_fuel. intros Hf w. unfold stopAndConfirm, expect_op.
  apply wp_bind, wp_bind, wp_emit, wp_lift; [|done]. intros _ w1 _.
  apply wp_bind, wp_emit. simpl. apply wp_bind, wp_lift; [|done].
  intros [e|] w2 _; [done|]. apply wp_bind, wp_lift; [|done].
  intros now w3 [_ Hnow]%clocked_now. eapply wp_mono; [|apply confirm_loop_ends]; [done|lia|].
  unfold stopConfirmBudget, stopConfirmEvery, time_Second, time_Millisecond. lia.
Qed.

Lemma health_loop_ends fuel op m d w :
  (0 < fuel)%nat → d - time_of w ≤ (Z.of_nat fuel - 1) * healthProbeEvery →
  wp (health_loop fuel op m d) (λ o _ _, o ≠ NoFuel) w.
Proof.
  revert w. induction fuel as [|fuel IH]; intros w Hf Hd; [lia|]. simpl.
  unfold healthOK, ProbeHealth. apply wp_bind, wp_bind, wp_lift; [|done].
  intros code w1 Hget. pose proof (clocked_get (healthURL m) w) as Ht. rewrite Hget in Ht.
  simpl in Ht. apply wp_bind, wp_emit, wp_mret. simpl. apply wp_bind, wp_emit. simpl. case_bool_decide; [done|].
  apply wp_bind, wp_lift; [|done]. intros now w2 [Hnow1 Hnow2]%clocked_now.
  case_bool_decide; [|done]. apply wp_bind, wp_lift; [|done].
  intros [|] w3 Hs%clocked_sleep; apply wp_bind, wp_emit; [|done].
  unfold healthProbeEvery, time_Millisecond in *.
  destruct fuel as [|fuel]; [exfalso; lia|]. eapply IH; lia.
Qed.

Lemma sweep_ends fuel others : (confirm_fuel ≤ fuel)%nat → ends (sweep fuel others).
Proof.
  intros Hf. induction others as [|cn others IH]; simpl; [ends|]. apply ends_bind.
  - intros w. eapply wp_mono; [|apply isRunning_time]. by intros ??? [].
  - intros [e|[|]]; [ends| |done]. apply ends_bind; [by apply stopAndConfirm_ends|].
    intros [e|]; [ends|done].
Qed.

Lemma doSwap_body_ends fuel op m others :
  (swap_fuel m ≤ fuel)%nat → ends (doSwap_body fuel op m others).
Proof.
  unfold swap_fuel. intros Hf. assert (confirm_fuel ≤ fuel)%nat by (unfold confirm_fuel; lia).
  unfold doSwap_body. apply ends_bind; [by apply sweep_ends|]. intros [e|]; [ends|].
  unfold superseded_check, expect_op. apply ends_bind; [ends|]. intros [|]; [ends|].
  do 3 (apply ends_bind; [ends|intros]). apply ends_bind; [ends|intros].
  destruct a1 as [e|]; [ends|]. apply ends_bind; [ends|]. intros [|].
  - apply ends_bind; [by apply stopAndConfirm_ends|]. ends.
  - intros w. apply wp_bind, wp_lift; [|done]. intros now w1 [_ Hnow]%clocked_now.
    eapply wp_mono; [|apply health_loop_ends]; [done|lia|].
    unfold healthProbeEvery, time_Millisecond in *.
    pose proof (Z.div_mod (startupTimeout m) (250 * 1000000) ltac:(lia)) as Hdiv.
    pose proof (Z.mod_pos_bound (startupTimeout m) (250 * 1000000) ltac:(lia)) as Hmod.
    set (q := startupTimeout m / (250 * 1000000)) in *. lia.
Qed.

Lemma stop_loop_ends fuel op ms e : (confirm_fuel ≤ fuel)%nat → ends (stop_loop fuel op ms e).
Proof.
  intros Hf. revert e. induction ms as [|m ms IH]; intros e; simpl; [ends|].
  unfold superseded_check. apply ends_bind; [ends|]. intros [|]; [ends|]. apply ends_bind.
  - intros w. eapply wp_mono; [|apply isRunning_time]. by intros ??? [].
  - intros [err|[|]]; [done| |done]. apply ends_bind; [by apply stopAndConfirm_ends|]. done.
Qed.

End total.
