(* ===== verification/WorkerTheorems.v ===== *)
(** * Theorems on the swap workers

    The contract between the workers and the manager, the order in which
    containers are stopped and started, and what a worker that has been replaced
    leaves behind; then the workers on the in-memory docker. *)

From S2P Require Import Prelude GoStrings State Docker Registry Queue Worker.
From S2P Require Import WorkerFacts.
Open Scope Z_scope.

(** ** A simulated world

    The in-memory docker, a clock that only sleeping moves, and health checks
    answered by a function of the world. *)

Record Sim := {
  sim_docker : FakeClient;
  sim_ops : gmap string opEntry;
  sim_now : Z;
  sim_cancelled : bool;
  sim_closed : bool
}.

Definition sim_set_docker (f : FakeClient) (w : Sim) : Sim :=
  {| sim_docker := f; sim_ops := sim_ops w; sim_now := sim_now w;
     sim_cancelled := sim_cancelled w; sim_closed := sim_closed w |}.
Definition sim_set_ops (r : gmap string opEntry) (w : Sim) : Sim :=
  {| sim_docker := sim_docker w; sim_ops := r; sim_now := sim_now w;
     sim_cancelled := sim_cancelled w; sim_closed := sim_closed w |}.
Definition sim_advance (d : Z) (w : Sim) : Sim :=
  {| sim_docker := sim_docker w; sim_ops := sim_ops w; sim_now := sim_now w + Z.max 0 d;
     sim_cancelled := sim_cancelled w; sim_closed := sim_closed w |}.

Definition on_docker {A} (c : call FakeClient A) : call Sim A :=
  λ w, match c (sim_docker w) with (r, f) => (r, sim_set_docker f w) end.

#[global] Instance sim_client : Client Sim := {|
  InspectByName ctx n := on_docker (fake_InspectByName ctx n);
  Start ctx n := on_docker (fake_Start no_hooks ctx n);
  Stop ctx n d := on_docker (fake_Stop no_hooks ctx n d);
  Ping ctx := on_docker (fake_Ping ctx)
|}.

Section sim.
Context (health : string → Z → option Z).

Definition sim_host : Host Sim := {|
  clk_Now w := (Some (sim_now w), w);
  ctx_Err w := (Some (sim_cancelled w), w);
  pool_sleep d w :=
    if sim_closed w then (Some false, w) else (Some true, sim_advance d w);
  http_get url w := (Some (health url (sim_now w)), w);
  ops_expect c kind w := (Some tt, sim_set_ops (expect c kind (sim_now w) (sim_ops w)) w)
|}.

#[local] Existing Instance sim_host.

Lemma on_docker_time {A} (c : call FakeClient A) w : sim_now (on_docker c w).2 = sim_now w.
Proof. unfold on_docker. by destruct (c (sim_docker w)). Qed.

Lemma sim_clocked : Clocked Sim sim_now.
Proof.
  split; simpl.
  - intros. by rewrite on_docker_time.
  - done.
  - intros w t w' [= <- <-]. lia.
  - intros d w b w'. destruct (sim_closed w); intros [= <- <-]; simpl; lia.
Qed.

End sim.

(** ** The contract with the manager *)

Section contract.
Context {W : Type} `{!Client W} `{!Host W} (time_of : W → Z) `{!Clocked W time_of}.

Lemma script_deliveries op m others o es :
  swap_script op m others o es →
  (o = Panic ∧ deliveries es = []) ∨
  (o = Ret tt ∧
   ((∃ k e, k ≠ poolStopped ∧ deliveries es = [swap_report op m k e]) ∨
    (deliveries es = [] ∧ last es = Some (Slept false)))).
Proof.
  intros H.
  assert (Hc : ∀ es, swept others es → deliveries es = []) by (intros ? []; by apply deliveries_calm).
  destruct H; rewrite ?deliveries_app; simpl; rewrite ?deliveries_app; simpl;
    repeat match goal with
    | H : swept _ ?es |- _ => rewrite (Hc _ H); clear H
    | H : calm ?es |- _ => rewrite (deliveries_calm _ H); clear H
    end; simpl; auto; right; (split; [done|]).
  all: try (left; do 2 eexists; split; [|reflexivity]; done).
  right. split; [done|]. by rewrite last_app_cons, !app_comm_cons, last_app_cons.
Qed.

(** C9: a swap worker reports exactly once. In every world whose clock moves on while
    a worker sleeps ([Clocked]), whatever docker, the health endpoint and the other
    goroutines do, panics of any call included, and with the loop bounds of the source,
    [doSwap] ends and delivers exactly one
    terminal report, which carries its own operation number and target and is never
    a stop report: the contract the manager is verified against. The one exception
    is a pool that is being closed while the worker sleeps, when nobody is left to
    report to. *)
Theorem swap_worker_contract fuel op m others w :
  (swap_fuel m ≤ fuel)%nat →
  let '(o, _, es) := doSwap fuel op m others w in
  o = Ret tt ∧
  ((∃ msg, deliveries es = [msg] ∧ report_ok (WSwap op (name m)) msg) ∨
   (deliveries es = [] ∧ last es = Some (Slept false))).
Proof.
  intros Hf. unfold doSwap, with_recover.
  pose proof (doSwap_body_script fuel op m others w) as Hs.
  pose proof (doSwap_body_ends time_of fuel op m others Hf w) as He.
  unfold wp in Hs, He. destruct (doSwap_body fuel op m others w) as [[o w'] es].
  destruct Hs as [?|Hs]; [done|]. apply script_deliveries in Hs as [[-> Hd]|[-> Hd]].
  - simpl. split; [done|]. left. eexists. rewrite deliveries_app, Hd. split; [done|].
    by split_and!.
  - split; [done|]. destruct Hd as [(k & e & Hk & ->)|?]; [left|by right].
    eexists. split; [done|]. by split_and!.
Qed.

End contract.

(** ** Order *)

Definition is_start (a : wact) : bool := match a with CallStart _ => true | _ => false end.

Definition no_start (es : list wact) : Prop := Forall (λ a, is_start a = false) es.

Lemma no_start_calm es : calm es → no_start es.
Proof. intros [Hq _]. eapply Forall_impl; [exact Hq|]. by intros []. Qed.

Lemma no_start_elem c es : no_start es → CallStart c ∉ es.
Proof. intros H Hin. unfold no_start in H. rewrite Forall_forall in H. by specialize (H _ Hin). Qed.

Lemma no_start_app es es' : no_start es → no_start es' → no_start (es ++ es').
Proof. intros. by apply Forall_app. Qed.

(** Close [no_start] goals on explicit traces. *)
Ltac no_start :=
  repeat first [assumption | apply no_start_app | by apply no_start_calm
               | apply Forall_cons; split; [reflexivity|] | apply Forall_nil; exact I].

(** A trace with one start splits at it in one way only. *)
Lemma split_start a c0 b pre c post :
  no_start a → no_start b → a ++ CallStart c0 :: b = pre ++ CallStart c :: post →
  a = pre ∧ c0 = c ∧ b = post.
Proof.
  revert pre. induction a as [|x a IH]; intros pre Ha Hb Heq; destruct pre as [|y pre];
    simplify_eq/=.
  - done.
  - exfalso. apply (no_start_elem c _ Hb). apply elem_of_app. right. by left.
  - by apply Forall_cons in Ha as [? _].
  - apply Forall_cons in Ha as [_ Ha]. destruct (IH pre Ha Hb) as (-> & ? & ?); auto.
Qed.

Section order.
Context {W : Type} `{!Client W} `{!Host W}.

(** A run starts nothing, or starts the target after a full sweep. *)
Definition ordered_start (m : member) (others : list string) (es : list wact) : Prop :=
  no_start es ∨
  ∃ a b, swept others a ∧ no_start b ∧ es = a ++ start_acts (containerName m) ++ b.

Lemma script_ordered op m others o es : swap_script op m others o es → ordered_start m others es.
Proof.
  intros H. unfold ordered_start.
  destruct H; try (left; no_start; (try match goal with H : swept _ _ |- _ => destruct H end);
    no_start; fail); right.
  all: try (eexists _, _; split; [eassumption|split; [|reflexivity]]; no_start).
Qed.

Lemma doSwap_ordered fuel op m others w :
  let '(o, _, es) := doSwap fuel op m others w in o = NoFuel ∨ ordered_start m others es.
Proof.
  unfold doSwap, with_recover.
  pose proof (doSwap_body_script fuel op m others w) as Hs. unfold wp in Hs.
  destruct (doSwap_body fuel op m others w) as [[o w'] es].
  destruct Hs as [->|Hs]; [by left|]. apply script_ordered in Hs.
  destruct o; [by right| |by left]. simpl. right. destruct Hs as [Hs|(a & b & ? & ? & ->)].
  - left. no_start.
  - right. exists a, (b ++ [Deliver (swap_report op m swapFailed (Some ErrSwapWorkerPanic))]).
    split; [done|]. split; [no_start|]. by rewrite <- !(assoc_L (++)).
Qed.

(** C8: mutual exclusion is kept by every swap. A worker starts no container but
    its target, at most once, and only after it has itself seen every sibling of
    the pool stopped, has checked that it has not been replaced, and has announced
    the start to the registry. *)
Theorem target_started_last fuel op m others w o w' es pre c post :
  doSwap fuel op m others w = (o, w', es) → o ≠ NoFuel → es = pre ++ CallStart c :: post →
  c = containerName m ∧
  (∀ sibling, sibling ∈ others → Inspected sibling (inr false) ∈ pre) ∧
  (∃ pre', pre = pre' ++ [CtxErr false; Expect c "start"]) ∧
  (∀ c', CallStart c' ∉ pre ++ post).
Proof.
  intros Hrun Ho Heq. pose proof (doSwap_ordered fuel op m others w) as H.
  rewrite Hrun in H. destruct H as [?|[Hn|(a & b & [Ha Hall] & Hb & Hes)]]; [done| |].
  - exfalso. apply (no_start_elem c _ Hn). rewrite Heq. apply elem_of_app. right. by left.
  - assert (Hsplit : (a ++ [CtxErr false; Expect (containerName m) "start"])
                       ++ CallStart (containerName m) :: b = pre ++ CallStart c :: post).
    { rewrite <- Heq, Hes, <- (assoc_L (++)). done. }
    apply split_start in Hsplit as (<- & <- & <-); [|no_start|done].
    split_and!; [done| |by eauto|].
    + intros x Hx. apply elem_of_app. left. by apply Hall.
    + intros c'. apply no_start_elem. no_start.
Qed.

Lemma calm_no_ctx b es : calm es → CtxErr b ∉ es.
Proof. intros [Hq _] Hin. rewrite Forall_forall in Hq. by apply (Hq _ Hin). Qed.

(** What a worker that saw [ctx.Err() != nil] leaves: it reported a failure and
    its target was not started, or was asked to stop; or it panicked. *)
Lemma script_replaced op m others o es :
  swap_script op m others o es → CtxErr true ∈ es →
  o = Panic ∨
  ∃ e, deliveries es = [swap_report op m swapFailed (Some e)] ∧
    (no_start es ∨
     ∃ pre post, es = pre ++ CallStart (containerName m) :: post ∧
                 CallStop (containerName m) ∈ post).
Proof.
  intros Hs Hin.
  destruct Hs as [es e Hc| | |es Hsw| |es e Hsw|es es' Hsw Hc Hst| | |es es' Hsw Hc
                 |es es' Hsw Hc|es es' Hsw Hc]; auto; right.
  - exfalso. apply elem_of_app in Hin as [Hin|Hin%list_elem_of_singleton]; [|done].
    by apply (calm_no_ctx _ _ Hc) in Hin.
  - destruct Hsw as [Hc _]. eexists. rewrite deliveries_app, (deliveries_calm _ Hc).
    split; [reflexivity|]. left. no_start.
  - exfalso. destruct Hsw as [Hc _]. rewrite !elem_of_app, !elem_of_cons in Hin.
    destruct Hin as [Hin%(calm_no_ctx _ _ Hc)|Hin]; [done|].
    set_solver.
  - destruct Hsw as [Hc' _]. eexists. rewrite !deliveries_app, (deliveries_calm _ Hc').
    rewrite (deliveries_calm _ Hc). split; [reflexivity|]. right.
    exists (es ++ [CtxErr false; Expect (containerName m) "start"]).
    eexists. split; [rewrite <- (assoc_L (++)); reflexivity|]. set_solver.
  - exfalso. destruct Hsw as [Hc' _]. rewrite !elem_of_app in Hin.
    pose proof (calm_no_ctx true _ Hc). pose proof (calm_no_ctx true _ Hc'). set_solver.
  - exfalso. destruct Hsw as [Hc' _]. rewrite !elem_of_app in Hin.
    pose proof (calm_no_ctx true _ Hc). pose proof (calm_no_ctx true _ Hc'). set_solver.
  - exfalso. destruct Hsw as [Hc' _]. rewrite !elem_of_app in Hin.
    pose proof (calm_no_ctx true _ Hc). pose proof (calm_no_ctx true _ Hc'). set_solver.
Qed.

(** C16: a replaced worker leaves nothing running. A worker that sees that it has
    been replaced reports a failure, and either it has not started its target and
    never will, or it goes on to ask docker to stop it; only a panic of one of its
    calls can keep it from that, and is reported as such. *)
Theorem replaced_worker_cleans_up fuel op m others w o w' es :
  doSwap fuel op m others w = (o, w', es) → o ≠ NoFuel → CtxErr true ∈ es →
  ∃ e, deliveries es = [swap_report op m swapFailed (Some e)] ∧
    (no_start es ∨
     (∃ pre post, es = pre ++ CallStart (containerName m) :: post ∧
        CallStop (containerName m) ∈ post) ∨
     e = ErrSwapWorkerPanic).
Proof.
  intros Hrun Ho Hin. unfold doSwap, with_recover in Hrun.
  pose proof (doSwap_body_script fuel op m others w) as Hs. unfold wp in Hs.
  destruct (doSwap_body fuel op m others w) as [[o0 w0] es0].
  destruct Hs as [->|Hs]; [by simplify_eq|].
  destruct o0 as [[]| |]; simplify_eq/=.
  - destruct (script_replaced _ _ _ _ _ Hs Hin) as [?|(e & Hd & [?|?])]; [done|..];
      exists e; auto.
  - exists ErrSwapWorkerPanic. rewrite deliveries_app.
    apply script_deliveries in Hs as [[_ ->]|[? _]]; [|done]. auto.
Qed.

(** Only one ending of the protocol reports a success. *)
Lemma script_success op m others o es e :
  swap_script op m others o es → swap_report op m swapComplete e ∈ deliveries es →
  ∃ a b, swept others a ∧ calm b ∧
    es = a ++ start_acts (containerName m) ++ [Started (containerName m) None; CtxErr false] ++
         b ++ [Got (healthURL m) (Some 200); Probed true; Deliver (swap_report op m swapComplete None)].
Proof.
  intros Hs Hin.
  destruct Hs as [es e' Hc|es Hc|es [Hc _]|es [Hc _]|es [Hc _]|es e' [Hc _]|es es' [Hc _] Hc'
    |es [Hc _]|es b es' [Hc _] Hc'|es es' Hsw Hc'|es es' [Hc _] Hc'|es es' [Hc _] Hc'];
    try (exfalso; rewrite !deliveries_app, (deliveries_calm _ Hc), ?(deliveries_calm _ Hc') in Hin;
         simpl in Hin; set_solver).
  - exfalso. rewrite (deliveries_calm _ Hc) in Hin. set_solver.
  - by exists es, es'.
Qed.

(** Success is reported truthfully. A worker reports [swapComplete] only when
    docker has accepted the start of its target, the worker had not been replaced
    after that, and its last action was a health probe answered with status 200. *)
Theorem success_is_healthy fuel op m others w o w' es e :
  doSwap fuel op m others w = (o, w', es) → o ≠ NoFuel →
  Deliver (swap_report op m swapComplete e) ∈ es →
  ∃ pre post, es = pre ++ start_acts (containerName m) ++
                     [Started (containerName m) None; CtxErr false] ++ post ++
                     [Got (healthURL m) (Some 200); Probed true; Deliver (swap_report op m swapComplete None)] ∧
    CtxErr true ∉ es.
Proof.
  intros Hrun Ho Hin. unfold doSwap, with_recover in Hrun.
  pose proof (doSwap_body_script fuel op m others w) as Hs. unfold wp in Hs.
  destruct (doSwap_body fuel op m others w) as [[o0 w0] es0].
  destruct Hs as [->|Hs]; [by simplify_eq|].
  assert (Hm : ∀ es1, Deliver (swap_report op m swapComplete e) ∈ es1 →
                      swap_report op m swapComplete e ∈ deliveries es1).
  { intros es1 Hin'. apply list_elem_of_omap. by eexists. }
  destruct o0 as [[]| |]; simplify_eq/=.
  - apply Hm in Hin. destruct (script_success _ _ _ _ _ _ Hs Hin) as (a & b & [Ha _] & Hb & ->).
    exists a, b. split; [done|]. rewrite !elem_of_app.
    pose proof (calm_no_ctx true _ Ha). pose proof (calm_no_ctx true _ Hb). set_solver.
  - exfalso. apply script_deliveries in Hs as [[_ Hn]|[? _]]; [|done].
    apply elem_of_app in Hin as [Hin%Hm|Hin%list_elem_of_singleton]; [|done].
    rewrite Hn in Hin. by apply not_elem_of_nil in Hin.
Qed.

End order.

(** ** The stop worker *)

(** What [stop_loop] may leave, from a first error [e0] so far. *)
Definition stopped_script (op : Z) (ms : list member) (e0 : option GoError)
    (o : outcome ()) (es : list wact) : Prop :=
  no_start es ∧
  ((o = Panic ∧ deliveries es = []) ∨
   (o = Ret tt ∧ ∃ e, deliveries es = [stop_report op e] ∧ (e0 ≠ None → e ≠ None) ∧
      (e = None → (CtxErr true ∉ es) ∧
        ∀ m, m ∈ ms → Inspected (containerName m) (inr false) ∈ es))).

(** One member done: [seen] says it was seen stopped, unless there was an error. *)
Lemma stopped_cons op m ms e0 e1 o es es' :
  calm es → (e0 ≠ None → e1 ≠ None) →
  (e1 = None → Inspected (containerName m) (inr false) ∈ es) →
  stopped_script op ms e1 o es' →
  stopped_script op (m :: ms) e0 o (CtxErr false :: es ++ es').
Proof.
  intros Hc He Hseen [Hn H]. split; [no_start|].
  destruct H as [[-> Hd]|(-> & e & Hd & He' & Hall)].
  - left. split; [done|]. change (deliveries ([CtxErr false] ++ es ++ es') = []).
    by rewrite !deliveries_app, Hd, (deliveries_calm _ Hc).
  - right. split; [done|]. exists e. split_and!; [|by auto|].
    + change (deliveries ([CtxErr false] ++ es ++ es') = [stop_report op e]).
      by rewrite !deliveries_app, Hd, (deliveries_calm _ Hc).
    + intros ->. destruct (Hall eq_refl) as [Hctx Hms].
      pose proof (calm_no_ctx true _ Hc).
      assert (He1 : e1 = None) by (destruct e1; [by destruct He'|done]).
      split; [set_solver|]. intros m' [->|Hm']%elem_of_cons; set_solver.
Qed.

Section stop.
Context {W : Type} `{!Client W} `{!Host W}.

Lemma stop_loop_script fuel op ms e0 w :
  wp (stop_loop fuel op ms e0) (λ o _ es, o = NoFuel ∨ stopped_script op ms e0 o es) w.
Proof.
  revert e0 w. induction ms as [|m ms IH]; intros e0 w; simpl.
  { apply wp_emit. right. split; [no_start|]. right. split; [done|]. exists e0.
    split_and!; [done..|]. intros _. set_solver. }
  apply wp_bind, superseded_check_wp.
  2: { intros w1. right. split; [no_start|]. by left. }
  intros [|] w1.
  { apply wp_emit. right. split; [no_start|]. right. split; [done|]. eexists.
    split_and!; [reflexivity|done..]. }
  apply wp_bind. eapply wp_mono; [|apply isRunning_calm].
  intros [[e|[|]]| |] w2 es [Hc Hr]; simpl; [| | |right|by left].
  4: { split; [no_start|]. left. split; [done|].
       change (deliveries ([CtxErr false] ++ es) = []).
       by rewrite deliveries_app, (deliveries_calm _ Hc). }
  - eapply wp_mono; [|apply IH]. intros o w3 es' [?|H]; [by left|right].
    eapply stopped_cons; [done| | |done]; by destruct e0.
  - apply wp_bind. eapply wp_mono; [|apply stopAndConfirm_calm].
    intros [err| |] w3 es2 [Hc2 Hr2]; simpl; [|right|by left].
    + eapply wp_mono; [|apply IH]. intros o w4 es' [?|H]; [by left|right].
      rewrite (assoc_L (++)). eapply stopped_cons; [calm| | |done].
      * by destruct e0.
      * intros Hnone. apply elem_of_app. right. apply (Hr2 err eq_refl).
        by destruct e0, err.
    + split; [no_start|]. left. split; [done|].
      change (deliveries ([CtxErr false] ++ es ++ es2) = []).
      by rewrite !deliveries_app, (deliveries_calm _ Hc), (deliveries_calm _ Hc2).
  - eapply wp_mono; [|apply IH]. intros o w3 es' [?|H]; [by left|right].
    eapply stopped_cons; [done|done| |done]. intros _. by apply Hr.
Qed.

Context (time_of : W → Z) `{!Clocked W time_of}.

(** The stop worker reports exactly once and starts nothing. In every world
    it ends and delivers one [poolStopped] report with its operation number and no
    target. A report without an error means that it was not replaced on the way and
    has seen the container of every member stopped; one container that cannot be
    inspected or stopped does not keep it from the others. *)
Theorem stop_worker_contract fuel op ms w :
  (confirm_fuel ≤ fuel)%nat →
  let '(o, _, es) := doStopAll fuel op ms w in
  o = Ret tt ∧ no_start es ∧
  ∃ msg, deliveries es = [msg] ∧ report_ok (WStopAll op) msg ∧
    (msg_err msg = None → (CtxErr true ∉ es) ∧
       ∀ m, m ∈ ms → Inspected (containerName m) (inr false) ∈ es).
Proof.
  intros Hf. unfold doStopAll, with_recover.
  pose proof (stop_loop_script fuel op ms None w) as Hs.
  pose proof (stop_loop_ends time_of fuel op ms None Hf w) as He. unfold wp in Hs, He.
  destruct (stop_loop fuel op ms None w) as [[o w'] es].
  destruct Hs as [?|[Hn [[-> Hd]|(-> & e & Hd & _ & Hall)]]]; [done| |].
  - simpl. split; [done|]. split; [no_start|]. eexists. rewrite deliveries_app, Hd.
    split; [reflexivity|]. by split_and!.
  - split; [done|]. split; [done|]. eexists. split; [exact Hd|]. by split_and!.
Qed.

End stop.

(** ** On the in-memory docker

    Without interference: hooks and injected errors absent, the pool open, the
    worker not replaced. *)

Section undisturbed.
Context (health : string → Z → option Z).
#[local] Instance undisturbed_host : Host Sim := sim_host health.

Record Undisturbed (w : Sim) : Prop := {
  und_start : ∀ c, injected (startErr (sim_docker w)) c = None;
  und_stop : ∀ c, injected (stopErr (sim_docker w)) c = None;
  und_cancelled : sim_cancelled w = false;
  und_closed : sim_closed w = false
}.

Definition sim_running (w : Sim) (c : string) : option bool :=
  ci_Running <$> containers (sim_docker w) !! c.

(** In [w'] the containers of [cs] are [on], and the others are as in [w]. *)
Record turned (on : bool) (cs : list string) (w w' : Sim) : Prop := {
  turned_undisturbed : Undisturbed w';
  turned_on : ∀ c, c ∈ cs → sim_running w' c = Some on;
  turned_same : ∀ c, c ∉ cs → sim_running w' c = sim_running w c;
  turned_time : sim_now w' = sim_now w
}.

Lemma wp_and {A} (m : prog Sim wact A) Q1 Q2 w :
  wp m Q1 w → wp m Q2 w → wp m (λ o w' es, Q1 o w' es ∧ Q2 o w' es) w.
Proof. unfold wp. by destruct (m w) as [[??]?]. Qed.

Lemma fake_emit_containers ev f : containers (fake_emit ev f) = containers f.
Proof. unfold fake_emit. by case_bool_decide. Qed.
Lemma fake_emit_errs ev f :
  startErr (fake_emit ev f) = startErr f ∧ stopErr (fake_emit ev f) = stopErr f.
Proof. unfold fake_emit. by case_bool_decide. Qed.

Lemma sim_inspect ctx c w b :
  sim_running w c = Some b →
  ∃ info, InspectByName ctx c w = (Some (inr info), w) ∧ ci_Running info = b.
Proof.
  unfold sim_running. intros (info & Hc & ->)%fmap_Some. exists info. split; [|done].
  simpl. unfold on_docker, fake_InspectByName. rewrite Hc. by destruct w.
Qed.

Lemma isRunning_sim c w b :
  sim_running w c = Some b → wp (isRunning c) (λ o w' _, o = Ret (inr b) ∧ w' = w) w.
Proof.
  intros Hb. destruct (sim_inspect (Some dockerCallDeadline) c w b Hb) as (info & Hi & <-).
  unfold isRunning. apply wp_bind, wp_emit. cbv beta iota.
  apply wp_bind, wp_lift; intros *; rewrite Hi; [intros [= <- <-]|done].
  by apply wp_bind, wp_emit, wp_mret.
Qed.

(** Starting and stopping an existing container. *)
Lemma turned_set on c w f w1 ci :
  Undisturbed w → containers (sim_docker w) !! c = Some ci →
  containers f = containers (sim_docker w) →
  startErr f = startErr (sim_docker w) → stopErr f = stopErr (sim_docker w) →
  sim_now w1 = sim_now w → sim_cancelled w1 = false → sim_closed w1 = false →
  sim_docker w1 = (if Bool.eqb (ci_Running ci) on then f
                   else fake_emit {| evt_ContainerName := c;
                                     evt_Action := if on then "start" else "die" |}
                          (set_container c (turn on ci) f)) →
  turned on [c] w w1.
Proof.
  intros [Hs Ht _ _] Hc Hf Hfs Hft Hnow Hca Hcl Hd.
  assert (Herr : startErr (sim_docker w1) = startErr f ∧ stopErr (sim_docker w1) = stopErr f).
  { rewrite Hd. case_match; [done|].
    exact (fake_emit_errs _ (set_container c (turn on ci) f)). }
  destruct Herr as [Es Et]. split; [split|..]; try done.
  - intros c'. rewrite Es, Hfs. apply Hs.
  - intros c'. rewrite Et, Hft. apply Ht.
  - intros c' ->%list_elem_of_singleton. unfold sim_running. rewrite Hd.
    case_match eqn:Heq; rewrite ?fake_emit_containers; simpl; rewrite Hf.
    + rewrite Hc. simpl. by apply Bool.eqb_prop in Heq as ->.
    + by rewrite lookup_insert_eq.
  - intros c' Hc'. unfold sim_running. rewrite Hd.
    case_match; rewrite ?fake_emit_containers; simpl; rewrite Hf; [done|].
    rewrite lookup_insert_ne; [done|]. set_solver.
Qed.

Lemma stop_sim fuel c w :
  Undisturbed w → sim_running w c = Some true →
  wp (stopAndConfirm (S fuel) c) (λ o w' _, o = Ret None ∧ turned false [c] w w') w.
Proof.
  intros Hu Hr. unfold stopAndConfirm, expect_op.
  apply wp_bind, wp_bind, wp_emit. cbv beta iota. apply wp_lift; [|done].
  intros [] w1 [= <-]. apply wp_bind, wp_emit. cbv beta iota.
  pose proof Hr as (ci & Hc & Hci)%fmap_Some.
  apply wp_bind, wp_lift; simpl; unfold on_docker, fake_Stop; simpl;
    rewrite (und_stop _ Hu), Hc, <- Hci; [|done].
  intros err w2 [= <- <-]. apply wp_bind, wp_lift; [|done]. intros now w3 [= <- <-].
  set (w2 := sim_set_docker _ _).
  assert (Ht : turned false [c] w w2).
  { eapply (turned_set false c w (log_call ("stop:" +:+ c) (sim_docker w)) w2 ci);
      try done; try apply Hu. by rewrite <- Hci. }
  cbn [confirm_loop]. apply wp_bind. eapply wp_mono;
    [|apply (isRunning_sim c w2 false); apply Ht; by left].
  intros o w4 es [-> ->]. by apply wp_mret.
Qed.

Lemma start_sim c w :
  Undisturbed w → is_Some (sim_running w c) →
  ∃ w', Start (Some dockerCallDeadline) c w = (Some None, w') ∧ turned true [c] w w'.
Proof.
  intros Hu [b (ci & Hc & Hci)%fmap_Some]. simpl. unfold on_docker, fake_Start. simpl.
  rewrite (und_start _ Hu), Hc.
  destruct (ci_Running ci) eqn:Hr; (eexists; split; [reflexivity|]);
    eapply (turned_set true c w (log_call ("start:" +:+ c) (sim_docker w)) _ ci);
    try done; try apply Hu; by rewrite Hr.
Qed.

Lemma turned_trans on cs cs' w w1 w2 :
  turned on cs w w1 → turned on cs' w1 w2 → turned on (cs ++ cs') w w2.
Proof.
  intros [_ H1 H2 H3] [Hu H4 H5 H6]. split; [done| | |congruence].
  - intros c. destruct (decide (c ∈ cs')) as [Hin|Hin]; [by auto|].
    intros [?|?]%elem_of_app; [|done]. rewrite H5 by done. auto.
  - intros c Hc. rewrite not_elem_of_app in Hc. rewrite H5, H2; naive_solver.
Qed.

Lemma turned_none on w : Undisturbed w → turned on [] w w.
Proof. intros. split; [done|set_solver|done..]. Qed.

Lemma sweep_sim fuel others w :
  Undisturbed w → (∀ c, c ∈ others → is_Some (sim_running w c)) →
  wp (sweep (S fuel) others) (λ o w' _, o = Ret None ∧ turned false others w w') w.
Proof.
  revert w. induction others as [|cn others IH]; intros w Hu Hall.
  { apply wp_mret. split; [done|]. by apply turned_none. }
  destruct (Hall cn) as [b Hb]; [by left|]. cbn [sweep]. apply wp_bind.
  eapply wp_mono; [|by apply (isRunning_sim cn w b)]. intros o w1 es [-> ->].
  assert (Hstep : ∀ w1, turned false [cn] w w1 →
    wp (sweep (S fuel) others) (λ o' w' es', (o' = Ret None ∧ turned false (cn :: others) w w')) w1).
  { intros w1 Ht. eapply wp_mono; [|apply IH; [apply Ht|]].
    - intros o w2 es2 [-> Ht2]. split; [done|]. by eapply (turned_trans false [cn]).
    - intros c Hc. destruct (decide (c = cn)) as [->|Hne].
      + rewrite (turned_on _ _ _ _ Ht); [eauto|by left].
      + rewrite (turned_same _ _ _ _ Ht); [apply Hall; by right|]. set_solver. }
  destruct b.
  - apply wp_bind. eapply wp_mono; [|by apply stop_sim]. intros o w2 es2 [-> Ht].
    by apply Hstep.
  - apply Hstep. split; [done| |done..]. by intros c ->%list_elem_of_singleton.
Qed.

(** The readiness poll succeeds when the target becomes healthy in time. *)
Lemma health_sim fuel op m ready d w :
  Undisturbed w → (∀ t, ready ≤ t → health (healthURL m) t = Some 200) → ready ≤ d →
  (0 < fuel)%nat → d - sim_now w ≤ (Z.of_nat fuel - 1) * healthProbeEvery →
  wp (health_loop fuel op m d)
    (λ o w' es, o = Ret tt ∧ deliveries es = [swap_report op m swapComplete None] ∧
       sim_docker w' = sim_docker w) w.
Proof.
  intros Hu Hready Hd. revert w Hu. induction fuel as [|fuel IH]; intros w Hu Hf Ht; [lia|].
  cbn [health_loop]. unfold healthOK, ProbeHealth.
  apply wp_bind, wp_bind, wp_lift; [|done]. intros code w1 [= <- <-].
  apply wp_bind, wp_emit, wp_mret. cbv beta iota. apply wp_bind, wp_emit. cbv beta iota.
  case_bool_decide as Hcode; [by apply wp_emit|].
  apply wp_bind, wp_lift; [|done]. intros now w1 [= <- <-].
  assert (Hnow : sim_now w < ready).
  { destruct (decide (ready ≤ sim_now w)); [|lia]. by rewrite Hready in Hcode. }
  rewrite bool_decide_eq_true_2 by lia.
  apply wp_bind, wp_lift; simpl; rewrite (und_closed _ Hu); [|done]. intros ok w1 [= <- <-].
  apply wp_bind, wp_emit. cbv beta iota.
  unfold healthProbeEvery, time_Millisecond in *.
  eapply wp_mono; [|apply IH]; [|by destruct Hu| |simpl]; [|lia..].
  intros o w2 es (-> & Hdel & Hdoc). split_and!; [done| |done]. exact Hdel.
Qed.

Lemma swap_fuel_enough m t :
  t + startupTimeout m - t ≤ (Z.of_nat (swap_fuel m) - 1) * healthProbeEvery.
Proof.
  unfold swap_fuel, healthProbeEvery, time_Millisecond.
  pose proof (Z.div_mod (startupTimeout m) (250 * 1000000) ltac:(lia)) as Hdiv.
  pose proof (Z.mod_pos_bound (startupTimeout m) (250 * 1000000) ltac:(lia)) as Hmod.
  set (q := startupTimeout m / (250 * 1000000)) in *. lia.
Qed.

(** Turned off but for the target, then the target on: exactly the target runs. *)
Lemma only_target c others w w1 w2 w' :
  turned false others w w1 → turned true [c] w1 w2 → sim_docker w' = sim_docker w2 → c ∉ others →
  sim_running w' c = Some true ∧
  (∀ c', c' ∈ others → sim_running w' c' = Some false) ∧
  (∀ c', c' ∉ c :: others → sim_running w' c' = sim_running w c').
Proof.
  intros H1 H2 Hd Hout.
  assert (Hrun : ∀ c, sim_running w' c = sim_running w2 c) by (intros; unfold sim_running; by rewrite Hd).
  split_and!; [rewrite Hrun; apply H2; by left|intros c' Hc; rewrite Hrun..].
  - rewrite (turned_same _ _ _ _ H2); [by apply H1|set_solver].
  - rewrite (turned_same _ _ _ _ H2), (turned_same _ _ _ _ H1); set_solver.
Qed.

(** C19: an undisturbed swap does its job. On the in-memory docker, with every
    container present and the target healthy within its startup budget, [doSwap]
    reports [swapComplete], and then exactly the target runs among the containers
    of the pool; no other container is touched. *)
Theorem undisturbed_swap op m others ready w :
  Undisturbed w → (∀ c, c ∈ containerName m :: others → is_Some (sim_running w c)) →
  containerName m ∉ others →
  (∀ t, ready ≤ t → health (healthURL m) t = Some 200) →
  ready ≤ sim_now w + startupTimeout m →
  let '(o, w', es) := doSwap (swap_fuel m) op m others w in
  o = Ret tt ∧ deliveries es = [swap_report op m swapComplete None] ∧
  sim_running w' (containerName m) = Some true ∧
  (∀ c, c ∈ others → sim_running w' c = Some false) ∧
  (∀ c, c ∉ containerName m :: others → sim_running w' c = sim_running w c).
Proof.
  intros Hu Hall Hout Hready Hin.
  enough (Hw : wp (doSwap_body (swap_fuel m) op m others) (λ o w' es, o = Ret tt ∧
    deliveries es = [swap_report op m swapComplete None] ∧
    ∃ w1 w2, turned false others w w1 ∧ turned true [containerName m] w1 w2 ∧
      sim_docker w' = sim_docker w2) w).
  { unfold wp in Hw. unfold doSwap, with_recover.
    destruct (doSwap_body _ _ _ _ _) as [[o w'] es].
    destruct Hw as (-> & -> & w1 & w2 & H1 & H2 & Hd).
    split; [done|]. split; [done|]. by eapply only_target. }
  unfold doSwap_body. apply wp_bind.
  eapply wp_mono; [|apply wp_and;
    [apply (sweep_sim (75 + Z.to_nat (startupTimeout m / healthProbeEvery + 2)) others w Hu)
    |apply sweep_calm]].
  2: { intros c Hc. apply Hall. by right. }
  intros o w1 es1 [[-> Ht1] [Hc1%deliveries_calm _]]. cbv beta iota.
  assert (Hu1 : Undisturbed w1) by apply Ht1.
  unfold superseded_check at 1, expect_op. apply wp_bind, wp_bind, wp_lift; [|done].
  intros b w1' [= <- <-]. rewrite (und_cancelled _ Hu1). apply wp_bind, wp_emit, wp_mret.
  cbv beta iota. apply wp_bind, wp_bind, wp_emit. cbv beta iota. apply wp_lift; [|done].
  intros [] w2 [= <-]. set (w2 := sim_set_ops _ _).
  assert (Hu2 : Undisturbed w2) by by destruct Hu1.
  apply wp_bind, wp_emit. cbv beta iota.
  destruct (start_sim (containerName m) w2 Hu2) as (w3 & Hs & Ht3).
  { change (is_Some (sim_running w1 (containerName m))).
    rewrite (turned_same _ _ _ _ Ht1) by done. apply Hall. by left. }
  assert (Hu3 : Undisturbed w3) by apply Ht3.
  apply wp_bind, wp_lift; intros *; rewrite Hs; [intros [= <- <-]|done].
  apply wp_bind, wp_emit. cbv beta iota.
  unfold superseded_check. apply wp_bind, wp_bind, wp_lift; [|done].
  intros b w3' [= <- <-]. rewrite (und_cancelled _ Hu3). apply wp_bind, wp_emit, wp_mret.
  cbv beta iota. apply wp_bind, wp_lift; [|done]. intros now w3' [= <- <-].
  assert (Hnow : sim_now w3 = sim_now w).
  { rewrite (turned_time _ _ _ _ Ht3), <- (turned_time _ _ _ _ Ht1). done. }
  eapply wp_mono; [|apply (health_sim _ op m ready _ w3 Hu3 Hready)].
  - intros o w4 es (-> & Hd & Hdoc). split; [done|]. split.
    + rewrite deliveries_app, Hc1. exact Hd.
    + exists w1, w3. split_and!; [done| |done]. by destruct Ht3.
  - lia.
  - unfold swap_fuel. lia.
  - rewrite Hnow. by apply swap_fuel_enough.
Qed.

End undisturbed.

(** ** A concrete run

    [comfy] runs; the target is [llama], healthy from the first second on. *)

Definition demo_target : member :=
  Member "llama" "llama-c" "http://llama:8080/health" (10 * time_Second) 100 [].

Definition demo_health (url : string) (now : Z) : option Z :=
  Some (if bool_decide (time_Second ≤ now) then 200 else 503).

Definition demo_sim (cancelled : bool) : Sim :=
  {| sim_docker := set_container "comfy-c"
       {| ci_ID := "1"; ci_Name := "comfy-c"; ci_State := "running"; ci_Running := true |}
       (NewFake (λ _ n, n) ["llama-c"; "comfy-c"]);
     sim_ops := ∅; sim_now := 0; sim_cancelled := cancelled; sim_closed := false |}.

Definition demo_fuel : nat := 200.

#[local] Instance demo_host : Host Sim := sim_host demo_health.
#[local] Instance demo_clocked : Clocked Sim sim_now := sim_clocked demo_health.

Lemma swap_worker_contract_witness :
  let '(o, _, es) := doSwap demo_fuel 7 demo_target ["comfy-c"] (demo_sim false) in
  o = Ret tt ∧
  ((∃ msg, deliveries es = [msg] ∧ report_ok (WSwap 7 "llama") msg) ∨
   (deliveries es = [] ∧ last es = Some (Slept false))).
Proof.
  apply (swap_worker_contract sim_now demo_fuel 7 demo_target ["comfy-c"] (demo_sim false)).
  vm_compute. lia.
Defined.

Lemma target_started_last_witness :
  ∃ o w' pre post,
    doSwap demo_fuel 7 demo_target ["comfy-c"] (demo_sim false)
    = (o, w', pre ++ CallStart "llama-c" :: post) ∧
    ∀ sibling, sibling ∈ ["comfy-c"] → Inspected sibling (inr false) ∈ pre.
Proof.
  set (r := doSwap demo_fuel 7 demo_target ["comfy-c"] (demo_sim false)).
  exists r.1.1, r.1.2, (take 8 r.2), (drop 9 r.2).
  assert (Hr : r = (r.1.1, r.1.2, r.2)) by (by destruct r as [[??]?]).
  assert (He : r.2 = take 8 r.2 ++ CallStart "llama-c" :: drop 9 r.2)
    by (vm_compute; reflexivity).
  split; [by rewrite <- He|].
  apply (target_started_last demo_fuel 7 demo_target ["comfy-c"] (demo_sim false) r.1.1 r.1.2 r.2
           (take 8 r.2) "llama-c" (drop 9 r.2)); [exact Hr|vm_compute; discriminate|exact He].
Defined.

Lemma replaced_worker_cleans_up_witness :
  ∃ e, deliveries (doSwap demo_fuel 7 demo_target ["comfy-c"] (demo_sim true)).2
       = [swap_report 7 demo_target swapFailed (Some e)].
Proof.
  set (r := doSwap demo_fuel 7 demo_target ["comfy-c"] (demo_sim true)).
  assert (Hr : r = (r.1.1, r.1.2, r.2)) by (by destruct r as [[??]?]).
  destruct (replaced_worker_cleans_up demo_fuel 7 demo_target ["comfy-c"] (demo_sim true)
              r.1.1 r.1.2 r.2) as (e & He & _);
    [exact Hr|vm_compute; discriminate| |by exists e].
  apply (bool_decide_unpack _). vm_compute. exact I.
Defined.

Lemma success_is_healthy_witness :
  let r := doSwap demo_fuel 7 demo_target ["comfy-c"] (demo_sim false) in
  CtxErr true ∉ r.2.
Proof.
  intros r. assert (Hr : r = (r.1.1, r.1.2, r.2)) by (by destruct r as [[??]?]).
  destruct (success_is_healthy demo_fuel 7 demo_target ["comfy-c"] (demo_sim false)
              r.1.1 r.1.2 r.2 None) as (? & ? & _ & ?);
    [exact Hr|vm_compute; discriminate| |assumption].
  apply (bool_decide_unpack _). vm_compute. exact I.
Defined.

Lemma stop_worker_contract_witness :
  let '(o, _, es) := doStopAll demo_fuel 8 [demo_target] (demo_sim false) in
  o = Ret tt ∧ no_start es ∧
  ∃ msg, deliveries es = [msg] ∧ report_ok (WStopAll 8) msg ∧
    (msg_err msg = None → (CtxErr true ∉ es) ∧
       ∀ m, m ∈ [demo_target] → Inspected (containerName m) (inr false) ∈ es).
Proof.
  apply (stop_worker_contract sim_now demo_fuel 8 [demo_target] (demo_sim false)).
  vm_compute. lia.
Defined.

Lemma undisturbed_swap_witness :
  let '(o, w', es) := doSwap (swap_fuel demo_target) 7 demo_target ["comfy-c"] (demo_sim false) in
  o = Ret tt ∧ deliveries es = [swap_report 7 demo_target swapComplete None] ∧
  sim_running w' "llama-c" = Some true ∧
  (∀ c, c ∈ ["comfy-c"] → sim_running w' c = Some false) ∧
  (∀ c, c ∉ ["llama-c"; "comfy-c"] → sim_running w' c = sim_running (demo_sim false) c).
Proof.
  apply (undisturbed_swap demo_health 7 demo_target ["comfy-c"] time_Second (demo_sim false)).
  - by split.
  - intros c [->|[->|[]%not_elem_of_nil]%elem_of_cons]%elem_of_cons;
      eexists; vm_compute; reflexivity.
  - intros H%list_elem_of_singleton. discriminate H.
  - intros t Ht. unfold demo_health. by rewrite bool_decide_eq_true_2.
  - vm_compute. discriminate.
Defined.
