(* ===== verification/Pool.v ===== *)
(** * The pool manager ([src/internal/orchestrator/pool.go], [events.go])

    A pool is an actor: one goroutine ([run]) owns the state and handles one
    message at a time. [Pool] is that state, and each handler of the source is a
    program over it (see [prog]); the actions the rest of the system can see
    (replies, goroutines started, timers armed, contexts cancelled) are its
    outputs, in order. Times read from the clock are arguments, one for each
    reading. Log calls are left out.

    A map keyed by service is a [gmap]; Go's unspecified iteration order is the
    order of [map_to_list], and [longest_waiting_first] shows that the choice the
    manager makes does not depend on it. *)

From S2P Require Import Prelude State Queue.
Open Scope Z_scope.

(** ** Configuration ([MemberConfig], [PoolConfig]) *)

Record MemberConfig := {
  mc_Name : string;
  mc_ContainerName : string;
  mc_HealthURL : string;
  mc_StartupTimeout : Z;
  mc_MaxQueue : Z
}.

Record PoolConfig := {
  pc_Name : string;
  pc_GracePeriod : Z;
  pc_Cooldown : Z;
  pc_DefaultService : string;
  pc_Members : list MemberConfig
}.

(** ** Manager state ([Pool])

    The private fields of [Pool], without the channels, the client, the clock
    and the logger. [epochs] is one field per timer kind. A context created for a
    worker is named by the worker's operation number, so [swapCancel] is the
    number of the operation whose context it cancels. *)

Record Pool := MkPool {
  p_name : string;
  grace : Z;
  cooldown : Z;
  defaultSvc : string;
  snap : PoolSnapshot;
  state : PoolState;
  active : string;
  target : string;
  adminPending : string;
  startedAt : Z;
  lastActivity : Z;
  cooldownArmed : bool;
  members : gmap string member;
  epochGrace : Z;
  epochCooldown : Z;
  opSeq : Z;
  swapCancel : option Z;
  seq : Z
}.

(** Assignments to the fields. *)

Definition set_snap (v : PoolSnapshot) (p : Pool) : Pool :=
  MkPool (p_name p) (grace p) (cooldown p) (defaultSvc p) v (state p) (active p)
    (target p) (adminPending p) (startedAt p) (lastActivity p) (cooldownArmed p)
    (members p) (epochGrace p) (epochCooldown p) (opSeq p) (swapCancel p)
    (seq p).
Definition set_state (v : PoolState) (p : Pool) : Pool :=
  MkPool (p_name p) (grace p) (cooldown p) (defaultSvc p) (snap p) v (active p)
    (target p) (adminPending p) (startedAt p) (lastActivity p) (cooldownArmed p)
    (members p) (epochGrace p) (epochCooldown p) (opSeq p) (swapCancel p)
    (seq p).
Definition set_active (v : string) (p : Pool) : Pool :=
  MkPool (p_name p) (grace p) (cooldown p) (defaultSvc p) (snap p) (state p) v
    (target p) (adminPending p) (startedAt p) (lastActivity p) (cooldownArmed p)
    (members p) (epochGrace p) (epochCooldown p) (opSeq p) (swapCancel p)
    (seq p).
Definition set_target (v : string) (p : Pool) : Pool :=
  MkPool (p_name p) (grace p) (cooldown p) (defaultSvc p) (snap p) (state p)
    (active p) v (adminPending p) (startedAt p) (lastActivity p)
    (cooldownArmed p) (members p) (epochGrace p) (epochCooldown p) (opSeq p)
    (swapCancel p) (seq p).
Definition set_adminPending (v : string) (p : Pool) : Pool :=
  MkPool (p_name p) (grace p) (cooldown p) (defaultSvc p) (snap p) (state p)
    (active p) (target p) v (startedAt p) (lastActivity p) (cooldownArmed p)
    (members p) (epochGrace p) (epochCooldown p) (opSeq p) (swapCancel p)
    (seq p).
Definition set_startedAt (v : Z) (p : Pool) : Pool :=
  MkPool (p_name p) (grace p) (cooldown p) (defaultSvc p) (snap p) (state p)
    (active p) (target p) (adminPending p) v (lastActivity p) (cooldownArmed p)
    (members p) (epochGrace p) (epochCooldown p) (opSeq p) (swapCancel p)
    (seq p).
Definition set_lastActivity (v : Z) (p : Pool) : Pool :=
  MkPool (p_name p) (grace p) (cooldown p) (defaultSvc p) (snap p) (state p)
    (active p) (target p) (adminPending p) (startedAt p) v (cooldownArmed p)
    (members p) (epochGrace p) (epochCooldown p) (opSeq p) (swapCancel p)
    (seq p).
Definition set_cooldownArmed (v : bool) (p : Pool) : Pool :=
  MkPool (p_name p) (grace p) (cooldown p) (defaultSvc p) (snap p) (state p)
    (active p) (target p) (adminPending p) (startedAt p) (lastActivity p) v
    (members p) (epochGrace p) (epochCooldown p) (opSeq p) (swapCancel p)
    (seq p).
Definition set_members (v : gmap string member) (p : Pool) : Pool :=
  MkPool (p_name p) (grace p) (cooldown p) (defaultSvc p) (snap p) (state p)
    (active p) (target p) (adminPending p) (startedAt p) (lastActivity p)
    (cooldownArmed p) v (epochGrace p) (epochCooldown p) (opSeq p)
    (swapCancel p) (seq p).
Definition set_epochGrace (v : Z) (p : Pool) : Pool :=
  MkPool (p_name p) (grace p) (cooldown p) (defaultSvc p) (snap p) (state p)
    (active p) (target p) (adminPending p) (startedAt p) (lastActivity p)
    (cooldownArmed p) (members p) v (epochCooldown p) (opSeq p) (swapCancel p)
    (seq p).
Definition set_epochCooldown (v : Z) (p : Pool) : Pool :=
  MkPool (p_name p) (grace p) (cooldown p) (defaultSvc p) (snap p) (state p)
    (active p) (target p) (adminPending p) (startedAt p) (lastActivity p)
    (cooldownArmed p) (members p) (epochGrace p) v (opSeq p) (swapCancel p)
    (seq p).
Definition set_opSeq (v : Z) (p : Pool) : Pool :=
  MkPool (p_name p) (grace p) (cooldown p) (defaultSvc p) (snap p) (state p)
    (active p) (target p) (adminPending p) (startedAt p) (lastActivity p)
    (cooldownArmed p) (members p) (epochGrace p) (epochCooldown p) v
    (swapCancel p) (seq p).
Definition set_swapCancel (v : option Z) (p : Pool) : Pool :=
  MkPool (p_name p) (grace p) (cooldown p) (defaultSvc p) (snap p) (state p)
    (active p) (target p) (adminPending p) (startedAt p) (lastActivity p)
    (cooldownArmed p) (members p) (epochGrace p) (epochCooldown p) (opSeq p) v
    (seq p).
Definition set_seq (v : Z) (p : Pool) : Pool :=
  MkPool (p_name p) (grace p) (cooldown p) (defaultSvc p) (snap p) (state p)
    (active p) (target p) (adminPending p) (startedAt p) (lastActivity p)
    (cooldownArmed p) (members p) (epochGrace p) (epochCooldown p) (opSeq p)
    (swapCancel p) v.

(** ** Actions of the manager *)

Inductive effect :=
| Reply (reply : chan) (r : admitReply)
| CancelCtx (op : Z)
| GoSwap (op : Z) (m : option string) (others : list string)
| GoStopAll (op : Z)
| GoTeardown (container : string)
| GoForceStop (container : string)
| AfterFunc (d : Z) (tick : timerTick)
| ReplyDepths (depths : gmap string Z)
| ReplyStatus (st : PoolStatus)
| ReplyAdmin (o : AdminOutcome)
| Publish (s : PoolSnapshot).

Abbreviation M := (prog Pool effect).

Definition reply_ok (r : AdmitResult) : admitReply := {| result := r; err := None |}.
Definition reply_err (r : AdmitResult) (e : option GoError) : admitReply :=
  {| result := r; err := e |}.

Definition epochs (p : Pool) (k : timerKind) : Z :=
  match k with tickGrace => epochGrace p | tickCooldown => epochCooldown p end.

Definition set_epoch (k : timerKind) (v : Z) (p : Pool) : Pool :=
  match k with
  | tickGrace => set_epochGrace v p
  | tickCooldown => set_epochCooldown v p
  end.

Definition put_member (n : string) (m : member) (p : Pool) : Pool :=
  set_members (<[n := m]> (members p)) p.

(** ** Construction ([NewPool]) *)

Definition new_member (mc : MemberConfig) : member :=
  Member (mc_Name mc) (mc_ContainerName mc) (mc_HealthURL mc)
    (mc_StartupTimeout mc) (mc_MaxQueue mc) [].

Definition new_members (l : list MemberConfig) : gmap string member :=
  foldl (λ ms mc, <[mc_Name mc := new_member mc]> ms) ∅ l.

Definition NewPool (cfg : PoolConfig) : Pool :=
  MkPool (pc_Name cfg) (pc_GracePeriod cfg) (pc_Cooldown cfg) (pc_DefaultService cfg)
    {| snap_State := StateIdle; snap_ActiveService := "" |}
    StateIdle "" "" "" time_Zero time_Zero false (new_members (pc_Members cfg))
    0 0 0 None 0.

(** ** Helpers of the handlers *)

(** The store is atomic, and can be read by the callers from then on. *)
Definition publish : M () :=
  s ← gets (λ p, {| snap_State := state p; snap_ActiveService := active p |});
  modify (set_snap s);;
  emit (Publish s).

Definition touch (service : string) (now : Z) : M () :=
  modify (λ p, if decide (state p = StateActive ∧ active p = service)
               then set_lastActivity now p else p).

Definition armTimer (kind : timerKind) (d : Z) : M () :=
  modify (λ p, set_epoch kind (u64_succ (epochs p kind)) p);;
  e ← gets (λ p, epochs p kind);
  (if decide (kind = tickCooldown) then modify (set_cooldownArmed true) else mret tt);;
  emit (AfterFunc d {| tick_kind := kind; tick_epoch := e |}).

Definition bumpEpochs : M () :=
  modify (λ p, set_epochGrace (u64_succ (epochGrace p)) p);;
  modify (λ p, set_epochCooldown (u64_succ (epochCooldown p)) p);;
  modify (set_cooldownArmed false).

(** The scan of [oldestQueued] over the members, in the order given. *)
Fixpoint oldest_scan (l : list (string * member)) (best : string) (bestSeq : Z) : string :=
  match l with
  | [] => best
  | (n, m) :: l' =>
      match queue m with
      | [] => oldest_scan l' best bestSeq
      | w :: _ =>
          if bool_decide (best = "") || bool_decide (w_seq w < bestSeq)
          then oldest_scan l' n (w_seq w)
          else oldest_scan l' best bestSeq
      end
  end.

Definition oldestQueued (ms : gmap string member) : string :=
  oldest_scan (map_to_list ms) "" 0.

(** [sortedMembers]: the members by name ([slices.Sort] orders bytewise). *)
Definition sortedMembers (ms : gmap string member) : list member :=
  omap (λ n, ms !! n) (merge_sort String.le (map_to_list ms).*1).

Definition otherContainers (ms : gmap string member) (target : string) : list string :=
  map containerName (filter (λ m, name m ≠ target) (sortedMembers ms)).

Definition memberByContainer (ms : gmap string member) (container : string) : option member :=
  snd <$> list_find (λ m, containerName m = container) (map_to_list ms).*2.

(** [m.flush(r)] on the member stored under a name. *)
Definition flush_member (n : string) (r : admitReply) : M () :=
  ms ← gets members;
  m ← deref (ms !! n);
  modify (put_member n (flush m r).1);;
  for_each (λ x, emit (Reply x.1 x.2)) (flush m r).2.

(** [for _, m := range p.members { m.flush(r) }] *)
Definition flush_all (r : admitReply) : M () :=
  ms ← gets members;
  for_each (λ n, flush_member n r) (map_to_list ms).*1.

Definition supersedeWorker : M () :=
  c ← gets swapCancel;
  (match c with
   | Some op => emit (CancelCtx op);; modify (set_swapCancel None)
   | None => mret tt
   end);;
  modify (λ p, set_opSeq (u64_succ (opSeq p)) p).

Definition startSwap (t : string) : M () :=
  m ← gets (λ p, members p !! t);
  modify (set_state StateSwapping);;
  modify (set_active "");;
  modify (set_target t);;
  bumpEpochs;;
  supersedeWorker;;
  op ← gets opSeq;
  modify (set_swapCancel (Some op));;
  publish;;
  others ← gets (λ p, otherContainers (members p) t);
  emit (GoSwap op (name <$> m) others).

Definition startStopAll : M () :=
  modify (set_state StateSwapping);;
  modify (set_active "");;
  modify (set_target "");;
  bumpEpochs;;
  supersedeWorker;;
  op ← gets opSeq;
  modify (set_swapCancel (Some op));;
  publish;;
  emit (GoStopAll op).

Definition chainNow : M () :=
  next ← gets (λ p, oldestQueued (members p));
  if decide (next ≠ "") then startSwap next else mret tt.

(** ** Handlers *)

Definition handleAdmit (service : string) (reply : chan) (now : Z) : M () :=
  m ← gets (λ p, members p !! service);
  match m with
  | None =>
      pool ← gets p_name;
      emit (Reply reply (reply_err AdmitDockerError (Some (ErrNotMember service pool))))
  | Some m =>
      st ← gets state;
      act ← gets active;
      if decide (st = StateActive ∧ act = service) then
        emit (Reply reply (reply_ok AdmitGo));;
        touch service now
      else
        modify (λ p, set_seq (u64_succ (seq p)) p);;
        sq ← gets seq;
        modify (put_member service (enqueue m (Waiter sq reply)).1);;
        if (enqueue m (Waiter sq reply)).2 then
          match st with
          | StateIdle | StateError => startSwap service
          | StateActive =>
              started ← gets startedAt;
              g ← gets grace;
              if decide (g ≤ time_Sub now started) then startSwap service
              else armTimer tickGrace (int64_wrap (g - time_Sub now started))
          | StateSwapping => mret tt
          end
        else emit (Reply reply (reply_ok AdmitQueueFull))
  end.

Definition handleCancel (service : string) (reply : chan) : M () :=
  m ← gets (λ p, members p !! service);
  match m with
  | Some m => modify (put_member service (removeByReply m reply))
  | None => mret tt
  end.

Definition chainAfterTerminal (activated : bool) (now : Z) : M () :=
  pending ← gets adminPending;
  act ← gets active;
  if decide (pending ≠ "" ∧ pending ≠ act) then
    modify (set_adminPending "");;
    startSwap pending
  else
    modify (set_adminPending "");;
    next ← gets (λ p, oldestQueued (members p));
    g ← gets grace;
    cd ← gets cooldown;
    def ← gets defaultSvc;
    st ← gets state;
    if decide (next ≠ "") then
      if activated && bool_decide (0 < g) then armTimer tickGrace g
      else startSwap next
    else if activated && bool_decide (0 < cd)
              && negb (bool_decide (def ≠ "") && bool_decide (act = def)) then
      modify (set_lastActivity now);;
      armTimer tickCooldown cd
    else if negb activated && bool_decide (st = StateIdle) && bool_decide (def ≠ "")
              && bool_decide (0 < cd) then
      armTimer tickCooldown cd
    else mret tt.

(** [p.state, p.active, p.target = st, act, ""], then [publish]. *)
Definition settle (st : PoolState) (act : string) : M () :=
  modify (set_state st);;
  modify (set_active act);;
  modify (set_target "").

Definition release_ctx : M () :=
  c ← gets swapCancel;
  match c with
  | Some op => emit (CancelCtx op);; modify (set_swapCancel None)
  | None => mret tt
  end.

(** [now1] and [now2] are the two readings of the clock, in order. *)
Definition handleSwap (msg : swapMsg) (now1 now2 : Z) : M () :=
  op ← gets opSeq;
  if decide (msg_op msg ≠ op) then mret tt else
  release_ctx;;
  match msg_kind msg with
  | swapComplete =>
      settle StateActive (msg_target msg);;
      modify (set_startedAt now1);;
      publish;;
      flush_member (msg_target msg) (reply_ok AdmitGo);;
      chainAfterTerminal true now2
  | swapFailed =>
      settle StateIdle "";;
      publish;;
      flush_member (msg_target msg) (reply_err AdmitDockerError (msg_err msg));;
      chainAfterTerminal false now2
  | swapHealthTimeout =>
      ms ← gets members;
      m ← deref (ms !! msg_target msg);
      emit (GoTeardown (containerName m));;
      settle StateIdle "";;
      publish;;
      flush_member (msg_target msg)
        (reply_err AdmitStartupTimeout
           (Some (ErrHealthCheck (msg_target msg) (startupTimeout m))));;
      chainAfterTerminal false now2
  | poolStopped =>
      settle StateIdle "";;
      publish;;
      chainAfterTerminal false now2
  end.

Definition handleAdminSwap (service : string) : M AdminOutcome :=
  m ← gets (λ p, members p !! service);
  match m with
  | None => mret AdminUnknown
  | Some _ =>
      st ← gets state;
      match st with
      | StateActive =>
          act ← gets active;
          if decide (act = service) then mret AdminAlreadyActive
          else startSwap service;; mret AdminInitiated
      | StateSwapping =>
          t ← gets target;
          if decide (t = service) then mret AdminPending else
          pending ← gets adminPending;
          modify (set_adminPending service);;
          mret (if decide (pending ≠ "" ∧ pending ≠ service) then AdminSuperseded
                else AdminPending)
      | StateIdle | StateError => startSwap service;; mret AdminInitiated
      end
  end.

Definition handleAdminStop : M AdminOutcome :=
  modify (set_adminPending "");;
  flush_all (reply_ok AdmitShutdown);;
  st ← gets state;
  match st with
  | StateIdle => mret AdminAlreadyIdle
  | StateSwapping => startStopAll;; mret AdminInitiated
  | StateActive | StateError => startStopAll;; mret AdminInitiated
  end.

(** Number of waiters over all members. *)
Definition total_queued (ms : gmap string member) : Z :=
  foldr (λ m n, Z.of_nat (length (queue m)) + n) 0 (map_to_list ms).*2.

(** [remaining.Seconds()] truncated to an integer: exact below 2^24 seconds,
    beyond which the [float64] of the source may round up to the next second. *)
Definition buildStatus (p : Pool) (now : Z) : PoolStatus :=
  {| st_State := state p;
     st_ActiveService := active p;
     st_SecondsUntilCooldown :=
       if decide (state p = StateActive ∧ cooldownArmed p = true) then
         let remaining := time_Sub (lastActivity p + cooldown p) now in
         if decide (0 < remaining) then remaining / time_Second else 0
       else -1;
     st_QueuedRequests := total_queued (members p) |}.

Definition handleTick (tick : timerTick) (now : Z) : M () :=
  e ← gets (λ p, epochs p (tick_kind tick));
  if decide (tick_epoch tick ≠ e) then mret tt else
  st ← gets state;
  match tick_kind tick with
  | tickGrace =>
      if decide (st ≠ StateActive) then mret tt else
      next ← gets (λ p, oldestQueued (members p));
      if decide (next ≠ "") then startSwap next else mret tt
  | tickCooldown =>
      def ← gets defaultSvc;
      next ← gets (λ p, oldestQueued (members p));
      if decide (st = StateIdle) then
        if decide (def ≠ "" ∧ next = "") then startSwap def else mret tt
      else if decide (st ≠ StateActive) then mret tt
      else
        cd ← gets cooldown;
        if decide (next ≠ "") then armTimer tickCooldown cd else
        last ← gets lastActivity;
        if decide (time_Sub now last < cd)
        then armTimer tickCooldown (int64_wrap (cd - time_Sub now last))
        else
          act ← gets active;
          if decide (def ≠ "") then
            if decide (act ≠ def) then startSwap def else mret tt
          else startStopAll
  end.

Definition is_stop_action (action : string) : bool :=
  bool_decide (action = "die") || bool_decide (action = "stop") || bool_decide (action = "kill").

Definition handleExternalEvent (ev : extEvent) : M () :=
  svc ← gets (λ p, memberByContainer (members p) (ev_container ev));
  match svc with
  | None => mret tt
  | Some svc =>
      st ← gets state;
      act ← gets active;
      tgt ← gets target;
      if is_stop_action (ev_action ev) then
        match st with
        | StateActive =>
            if decide (act ≠ name svc) then mret tt else
            modify (set_state StateError);;
            modify (set_active "");;
            bumpEpochs;;
            publish;;
            flush_member (name svc)
              (reply_err AdmitDockerError (Some (ErrStoppedOutside (ev_container ev))));;
            chainNow
        | StateSwapping =>
            if decide (name svc ≠ tgt) then mret tt else
            supersedeWorker;;
            settle StateError "";;
            publish;;
            flush_member (name svc)
              (reply_err AdmitDockerError (Some (ErrDiedDuringStartup (ev_container ev))));;
            chainNow
        | StateIdle | StateError => mret tt
        end
      else if bool_decide (ev_action ev = "start") then
        if decide (st = StateSwapping ∧ name svc = tgt) then mret tt
        else if decide (st = StateActive ∧ name svc = act) then mret tt
        else emit (GoForceStop (ev_container ev))
      else mret tt
  end.

Definition shutdown : M () :=
  modify (set_state StateIdle);;
  modify (set_active "");;
  publish;;
  flush_all (reply_ok AdmitShutdown).

(** ** One iteration of [run]

    The message received by the [select]; [InDone] is the closed [done]. *)
Inductive input :=
| InCmd (c : cmd)
| InSwap (msg : swapMsg)
| InTick (tick : timerTick)
| InActivity (service : string)
| InDocker (ev : extEvent)
| InDone.

Definition handle (i : input) (now1 now2 : Z) : M () :=
  match i with
  | InCmd (admitCmd service reply) => handleAdmit service reply now1
  | InCmd (cancelCmd service reply) => handleCancel service reply
  | InCmd depthCmd =>
      depths ← gets (λ p, (λ m, Z.of_nat (length (queue m))) <$> members p);
      emit (ReplyDepths depths)
  | InCmd statusCmd =>
      st ← gets (λ p, buildStatus p now1);
      emit (ReplyStatus st)
  | InCmd (adminSwapCmd service) => o ← handleAdminSwap service; emit (ReplyAdmin o)
  | InCmd adminStopCmd => o ← handleAdminStop; emit (ReplyAdmin o)
  | InSwap msg => handleSwap msg now1 now2
  | InTick tick => handleTick tick now1
  | InActivity service => touch service now1
  | InDocker ev => handleExternalEvent ev
  | InDone => shutdown
  end.

(** The lock-free path of [Admit]: the snapshot answers, or the manager must. *)
Definition admit_fast (s : PoolSnapshot) (service : string) : bool :=
  bool_decide (snap_State s = StateActive) && bool_decide (snap_ActiveService s = service).

#[global] Arguments publish : simpl never.
#[global] Arguments touch : simpl never.
#[global] Arguments armTimer : simpl never.
#[global] Arguments bumpEpochs : simpl never.
#[global] Arguments flush_member : simpl never.
#[global] Arguments flush_all : simpl never.
#[global] Arguments supersedeWorker : simpl never.
#[global] Arguments release_ctx : simpl never.
#[global] Arguments settle : simpl never.
#[global] Arguments startSwap : simpl never.
#[global] Arguments startStopAll : simpl never.
#[global] Arguments chainNow : simpl never.
#[global] Arguments chainAfterTerminal : simpl never.
