(* ===== verification/PoolFacts.v ===== *)
(** * Equations and specifications of the pool's helpers

    Closed forms of the straight-line helpers of [Pool] (what they leave in the
    state, and what they emit), and the specifications of the scans over the
    members. The handler proofs use these and never unfold the helpers. *)

From S2P Require Import Prelude State Queue Pool.
Open Scope Z_scope.

(** ** States and outputs of the transitions *)

Definition bumped (p : Pool) : Pool :=
  MkPool (p_name p) (grace p) (cooldown p) (defaultSvc p) (snap p) (state p) (active p)
    (target p) (adminPending p) (startedAt p) (lastActivity p) false (members p)
    (u64_succ (epochGrace p)) (u64_succ (epochCooldown p)) (opSeq p) (swapCancel p) (seq p).

Definition snapshot_of (p : Pool) : PoolSnapshot :=
  {| snap_State := state p; snap_ActiveService := active p |}.

Definition publish_state (p : Pool) : Pool := set_snap (snapshot_of p) p.

(** What the manager publishes when no service is active. *)
Definition snap_idle : PoolSnapshot :=
  {| snap_State := StateIdle; snap_ActiveService := "" |}.
Definition snap_error : PoolSnapshot :=
  {| snap_State := StateError; snap_ActiveService := "" |}.
Definition snap_swapping : PoolSnapshot :=
  {| snap_State := StateSwapping; snap_ActiveService := "" |}.

Definition cancel_effects (p : Pool) : list effect :=
  match swapCancel p with Some op => [CancelCtx op] | None => [] end.

Definition superseded (p : Pool) : Pool :=
  set_opSeq (u64_succ (opSeq p)) (set_swapCancel None p).

(** [startSwap t] and, with [t = ""], [startStopAll]. *)
Definition swapping (t : string) (p : Pool) : Pool :=
  MkPool (p_name p) (grace p) (cooldown p) (defaultSvc p)
    snap_swapping StateSwapping "" t (adminPending p) (startedAt p) (lastActivity p) false (members p)
    (u64_succ (epochGrace p)) (u64_succ (epochCooldown p)) (u64_succ (opSeq p))
    (Some (u64_succ (opSeq p))) (seq p).

Definition armed (k : timerKind) (p : Pool) : Pool :=
  let p1 := set_epoch k (u64_succ (epochs p k)) p in
  if decide (k = tickCooldown) then set_cooldownArmed true p1 else p1.

Definition settled (st : PoolState) (act : string) (p : Pool) : Pool :=
  set_target "" (set_active act (set_state st p)).

Definition reply_all (m : member) (r : admitReply) : list effect :=
  map (λ w, Reply (w_reply w) r) (queue m).

(** ** Equations *)

(** Run straight-line code on an explicit state. *)
Ltac run_pool :=
  cbv [mbind prog_bind mret prog_ret gets modify emit
       startSwap startStopAll armTimer bumpEpochs publish settle supersedeWorker release_ctx
       swapping bumped publish_state snapshot_of snap_swapping cancel_effects superseded armed settled
       set_epoch epochs set_snap set_state set_active set_target set_adminPending
       set_startedAt set_lastActivity set_cooldownArmed set_members set_epochGrace
       set_epochCooldown set_opSeq set_swapCancel set_seq
       p_name grace cooldown defaultSvc snap state active target adminPending startedAt
       lastActivity cooldownArmed members epochGrace epochCooldown opSeq swapCancel seq];
  simpl.

Lemma prog_bind_eq {S E A B} (m : prog S E A) (k : A → prog S E B) s a s' es o s'' es' :
  m s = (Ret a, s', es) → k a s' = (o, s'', es') → (m ≫= k) s = (o, s'', es ++ es').
Proof. unfold mbind, prog_bind. by intros -> ->. Qed.

Lemma wp_eq {S E A} (m : prog S E A) (Q : outcome A → S → list E → Prop) s o s' es :
  m s = (o, s', es) → Q o s' es → wp m Q s.
Proof. unfold wp. by intros ->. Qed.

(** An action that has just been performed joins those before it. *)
Lemma wp_snoc {A} (m : M A) (Q : outcome A → Pool → list effect → Prop) es x p :
  wp m (λ o p' es', Q o p' ((es ++ [x]) ++ es')) p → wp m (λ o p' es', Q o p' (es ++ x :: es')) p.
Proof. apply wp_mono. intros o p' es'. by rewrite <- (assoc_L (++)). Qed.

Lemma startSwap_eq t p :
  startSwap t p =
  (Ret tt, swapping t p,
   cancel_effects p ++
     [Publish snap_swapping;
      GoSwap (u64_succ (opSeq p)) (name <$> members p !! t) (otherContainers (members p) t)]).
Proof.
  destruct p as [????????????????[]?]; run_pool; reflexivity.
Qed.

Lemma startStopAll_eq p :
  startStopAll p =
  (Ret tt, swapping "" p, cancel_effects p ++ [Publish snap_swapping; GoStopAll (u64_succ (opSeq p))]).
Proof.
  destruct p as [????????????????[]?]; run_pool; reflexivity.
Qed.

Lemma armTimer_eq k d p :
  armTimer k d p =
  (Ret tt, armed k p,
   [AfterFunc d {| tick_kind := k; tick_epoch := u64_succ (epochs p k) |}]).
Proof. destruct p as [??????????????????], k; run_pool; reflexivity. Qed.

Lemma bumpEpochs_eq p : bumpEpochs p = (Ret tt, bumped p, []).
Proof. destruct p as [??????????????????]; run_pool; reflexivity. Qed.

Lemma publish_eq p : publish p = (Ret tt, publish_state p, [Publish (snapshot_of p)]).
Proof. done. Qed.

Lemma settle_eq st act p : settle st act p = (Ret tt, settled st act p, []).
Proof. destruct p as [??????????????????]; run_pool; reflexivity. Qed.

Lemma supersedeWorker_eq p :
  supersedeWorker p = (Ret tt, superseded p, cancel_effects p).
Proof. destruct p as [????????????????[]?]; run_pool; reflexivity. Qed.

Lemma release_ctx_eq p :
  release_ctx p = (Ret tt, set_swapCancel None p, cancel_effects p).
Proof. destruct p as [????????????????[]?]; run_pool; reflexivity. Qed.

Lemma for_each_emit {A} (f : A → effect) (l : list A) (p : Pool) :
  for_each (λ x, emit (f x)) l p = (Ret tt, p, map f l).
Proof.
  induction l as [|x l IH]; [done|]. cbn [for_each map].
  change (f x :: map f l) with ([f x] ++ map f l).
  by eapply prog_bind_eq.
Qed.

Lemma flush_member_eq n r p m :
  members p !! n = Some m →
  flush_member n r p = (Ret tt, put_member n (set_queue [] m) p, reply_all m r).
Proof.
  intros Hm. unfold flush_member, flush, reply_all.
  unfold mbind, prog_bind, gets, modify. rewrite Hm. simpl.
  rewrite (for_each_emit (λ x, Reply x.1 x.2)).
  by rewrite map_map.
Qed.

(** ** The scan for the longest-waiting service *)

(** Every waiter of every queue of [ms]. *)
Definition waiting (ms : gmap string member) (n : string) (w : waiter) : Prop :=
  ∃ m, ms !! n = Some m ∧ w ∈ queue m.

(** The head waiter of a queue. *)
Definition queue_head (ms : gmap string member) (n : string) (w : waiter) : Prop :=
  ∃ m q, ms !! n = Some m ∧ queue m = w :: q.

Definition all_quiet (ms : gmap string member) : Prop :=
  ∀ n m, ms !! n = Some m → queue m = [].

Lemma oldest_scan_spec (l : list (string * member)) best bestSeq r :
  (∀ n m, (n, m) ∈ l → n ≠ "") →
  oldest_scan l best bestSeq = r →
  (r = best ∧
    (∀ n m w q, (n, m) ∈ l → queue m = w :: q → best ≠ "" ∧ bestSeq ≤ w_seq w)) ∨
  (∃ m w q, (r, m) ∈ l ∧ queue m = w :: q ∧ (best ≠ "" → w_seq w < bestSeq) ∧
    (∀ n' m' w' q', (n', m') ∈ l → queue m' = w' :: q' → w_seq w ≤ w_seq w')).
Proof.
  revert best bestSeq. induction l as [|[n m] l IH]; intros best bestSeq Hne Hr; simpl in Hr.
  { left. split; [done|]. intros * Hin. by apply not_elem_of_nil in Hin. }
  assert (Hne' : ∀ n m, (n, m) ∈ l → n ≠ "") by (intros; eapply Hne; by right).
  assert (Hn : n ≠ "") by (eapply Hne; by left).
  destruct (queue m) as [|w q] eqn:Hq.
  - destruct (IH _ _ Hne' Hr) as [[-> Hall]|(m' & w' & q' & Hin & Hq' & Hlt & Hall)].
    + left. split; [done|]. intros n' m' w' q' [[= -> ->]|Hin]%elem_of_cons; [congruence|eauto].
    + right. exists m', w', q'. split_and!; [by right|done..|].
      intros n1 m1 w1 q1 [[= -> ->]|Hin1]%elem_of_cons; [congruence|eauto].
  - case_match eqn:Hb.
    + assert (Hlt0 : best ≠ "" → w_seq w < bestSeq).
      { intros ?. apply orb_true_iff in Hb as [Hb|Hb]; by apply bool_decide_eq_true in Hb. }
      destruct (IH _ _ Hne' Hr) as [[-> Hall]|(m' & w' & q' & Hin & Hq' & Hlt & Hall)].
      * right. exists m, w, q. split_and!; [by left|done..|].
        intros n1 m1 w1 q1 [[= -> ->]|Hin1]%elem_of_cons Hq1; [|by eapply Hall].
        rewrite Hq in Hq1. by simplify_eq.
      * right. exists m', w', q'. specialize (Hlt Hn). split_and!; [by right|done| |].
        { intros Hb'. specialize (Hlt0 Hb'). lia. }
        intros n1 m1 w1 q1 [[= -> ->]|Hin1]%elem_of_cons Hq1; [|by eapply Hall].
        rewrite Hq in Hq1. simplify_eq. lia.
    + apply orb_false_iff in Hb as [Hb1 Hb2].
      apply bool_decide_eq_false in Hb1, Hb2.
      destruct (IH _ _ Hne' Hr) as [[-> Hall]|(m' & w' & q' & Hin & Hq' & Hlt & Hall)].
      * left. split; [done|].
        intros n1 m1 w1 q1 [[= -> ->]|Hin1]%elem_of_cons Hq1; [|by eapply Hall].
        rewrite Hq in Hq1. simplify_eq. split; [done|lia].
      * right. exists m', w', q'. split_and!; [by right|done..|].
        intros n1 m1 w1 q1 [[= -> ->]|Hin1]%elem_of_cons Hq1; [|by eapply Hall].
        rewrite Hq in Hq1. simplify_eq. specialize (Hlt Hb1). lia.
Qed.

(** The result over any enumeration of the members: no service when every queue
    is empty, otherwise a service whose head waiter is the earliest head. *)
Lemma oldest_scan_members (ms : gmap string member) l :
  ms !! "" = None → l ≡ₚ map_to_list ms →
  let r := oldest_scan l "" 0 in
  (r = "" ∧ all_quiet ms) ∨
  (r ≠ "" ∧ ∃ w, queue_head ms r w ∧ ∀ n' w', queue_head ms n' w' → w_seq w ≤ w_seq w').
Proof.
  intros Hempty Hperm r.
  assert (Hin : ∀ n m, (n, m) ∈ l ↔ ms !! n = Some m).
  { intros n m. by rewrite Hperm, elem_of_map_to_list. }
  destruct (oldest_scan_spec l "" 0 r) as [[Hr Hall]|(m & w & q & Hm & Hq & _ & Hall)];
    [by intros n m ?%Hin ->; congruence|done| |].
  - left. split; [done|]. intros n m Hm. destruct (queue m) as [|w q] eqn:Hq; [done|].
    destruct (Hall n m w q); [by apply Hin|done|done].
  - right. apply Hin in Hm. split; [congruence|]. exists w. split.
    + exists m, q. done.
    + intros n' w' (m' & q' & Hm' & Hq'). eapply Hall; [by apply Hin|done].
Qed.

Lemma oldestQueued_spec (ms : gmap string member) :
  ms !! "" = None →
  (oldestQueued ms = "" ∧ all_quiet ms) ∨
  (oldestQueued ms ≠ "" ∧ ∃ w, queue_head ms (oldestQueued ms) w ∧
    ∀ n' w', queue_head ms n' w' → w_seq w ≤ w_seq w').
Proof. intros. by apply (oldest_scan_members ms (map_to_list ms)). Qed.

Lemma oldestQueued_quiet (ms : gmap string member) :
  ms !! "" = None → (oldestQueued ms = "" ↔ all_quiet ms).
Proof.
  intros Hempty.
  destruct (oldestQueued_spec ms Hempty) as [[? ?]|[? (w & (m & q & Hm & Hq) & _)]]; [done|].
  split; [done|]. intros Hall. rewrite (Hall _ _ Hm) in Hq. done.
Qed.

Lemma oldestQueued_member (ms : gmap string member) :
  ms !! "" = None → oldestQueued ms ≠ "" → is_Some (ms !! oldestQueued ms).
Proof.
  intros Hempty Hne.
  destruct (oldestQueued_spec ms Hempty) as [[? ?]|[? (w & (m & q & Hm & _) & _)]]; [done|eauto].
Qed.

(** ** Lookups by container and by name *)

Lemma memberByContainer_Some ms c m :
  memberByContainer ms c = Some m → containerName m = c ∧ ∃ n, ms !! n = Some m.
Proof.
  unfold memberByContainer. intros ([i m'] & Hfind & [= ->])%fmap_Some.
  apply list_find_Some in Hfind as (Hl & Hc & _).
  split; [done|]. apply list_elem_of_lookup_2, list_elem_of_fmap in Hl as ([n m1] & Heq & Hin). simpl in Heq. subst.
  exists n. by apply elem_of_map_to_list.
Qed.

Lemma memberByContainer_None ms c n m :
  memberByContainer ms c = None → ms !! n = Some m → containerName m ≠ c.
Proof.
  unfold memberByContainer. intros Hfind%fmap_None Hn Hc.
  apply list_find_None in Hfind. rewrite Forall_forall in Hfind. apply (Hfind m); [|done].
  apply list_elem_of_fmap. exists (n, m). split; [done|]. by apply elem_of_map_to_list.
Qed.

Lemma sortedMembers_elem ms m : m ∈ sortedMembers ms ↔ ∃ n, ms !! n = Some m.
Proof.
  unfold sortedMembers. rewrite list_elem_of_omap. split.
  - intros (n & _ & Hn). eauto.
  - intros [n Hn]. exists n. split; [|done].
    rewrite merge_sort_Permutation, list_elem_of_fmap. exists (n, m).
    by rewrite elem_of_map_to_list.
Qed.
