(* ===== verification/System.v ===== *)
(** * The pool in its environment

    A transition system around the manager: clients with their reply channels,
    worker goroutines in flight, timers armed, contexts cancelled, and a clock
    that never goes back. One step hands the manager one message that is
    available and performs the actions of its handler. Channel buffers are not
    ordered: any report, tick or command in flight may be received next, which
    includes every order the source allows. *)

From S2P Require Import Prelude State Queue Pool.
Open Scope Z_scope.

(** ** State *)

(** [timers] holds the ticks armed and not yet received, each with the earliest
    instant at which it can be received. [issued], [cancelled] and [replied] are
    the reply channels handed to the manager, those whose client gave up, and
    the replies sent so far. [ctx_done] names the worker contexts cancelled. *)
Record env := Env {
  workers : list work;
  timers : list (timerTick * Z);
  issued : list chan;
  cancelled : list chan;
  replied : list (chan * admitReply);
  ctx_done : list Z
}.

Definition set_workers (v : list work) (e : env) : env :=
  Env v (timers e) (issued e) (cancelled e) (replied e) (ctx_done e).
Definition set_timers (v : list (timerTick * Z)) (e : env) : env :=
  Env (workers e) v (issued e) (cancelled e) (replied e) (ctx_done e).
Definition add_issued (c : chan) (e : env) : env :=
  Env (workers e) (timers e) (c :: issued e) (cancelled e) (replied e) (ctx_done e).
Definition add_cancelled (c : chan) (e : env) : env :=
  Env (workers e) (timers e) (issued e) (c :: cancelled e) (replied e) (ctx_done e).
Definition add_replied (l : list (chan * admitReply)) (e : env) : env :=
  Env (workers e) (timers e) (issued e) (cancelled e) (replied e ++ l) (ctx_done e).
Definition add_ctx_done (l : list Z) (e : env) : env :=
  Env (workers e) (timers e) (issued e) (cancelled e) (replied e) (ctx_done e ++ l).

(** The effect of one action, performed at an instant not before [now]. *)
Definition perform (now : Z) (e : env) (x : effect) : env :=
  match x with
  | Reply c r => add_replied [(c, r)] e
  | CancelCtx op => add_ctx_done [op] e
  | GoSwap op (Some t) _ => set_workers (workers e ++ [WSwap op t]) e
  | GoStopAll op => set_workers (workers e ++ [WStopAll op]) e
  | AfterFunc d t => set_timers (timers e ++ [(t, now + d)]) e
  | _ => e
  end.

Definition performs (now : Z) (e : env) (es : list effect) : env := foldl (perform now) e es.

(** [take e i now e']: message [i] can be received at [now]; [e'] is the
    environment without it. *)
Inductive take (closed : bool) (now : Z) (e : env) : input → env → Prop :=
| take_admit service c :
    c ∉ issued e → take closed now e (InCmd (admitCmd service c)) (add_issued c e)
| take_cancel service c :
    c ∈ issued e → take closed now e (InCmd (cancelCmd service c)) (add_cancelled c e)
| take_depth : take closed now e (InCmd depthCmd) e
| take_status : take closed now e (InCmd statusCmd) e
| take_admin_swap service : take closed now e (InCmd (adminSwapCmd service)) e
| take_admin_stop : take closed now e (InCmd adminStopCmd) e
| take_swap l1 w l2 msg :
    workers e = l1 ++ w :: l2 → report_ok w msg →
    take closed now e (InSwap msg) (set_workers (l1 ++ l2) e)
| take_tick l1 t due l2 :
    timers e = l1 ++ (t, due) :: l2 → due ≤ now →
    take closed now e (InTick t) (set_timers (l1 ++ l2) e)
| take_activity service : take closed now e (InActivity service) e
| take_docker ev : take closed now e (InDocker ev) e
| take_done : closed = true → take closed now e InDone e.

Record System := Sys {
  pool : Pool;
  environment : env;
  clock : Z;
  closed : bool;
  running : bool
}.

Definition is_done (i : input) : bool := match i with InDone => true | _ => false end.

(** [Pool.Close] closes [done], once; the manager stops when it receives that. *)
Definition pool_close (s : System) : System :=
  Sys (pool s) (environment s) (clock s) true (running s).

(** A report is dropped only once [done] is closed; a worker that drops it stays
    in [workers] and is never received. *)
Inductive step : System → System → Prop :=
| step_handle s i now1 now2 e1 p' es :
    running s = true → clock s ≤ now1 → now1 ≤ now2 →
    take (closed s) now1 (environment s) i e1 →
    handle i now1 now2 (pool s) = (Ret tt, p', es) →
    step s (Sys p' (performs now1 e1 es) now2 (closed s) (negb (is_done i)))
| step_close s : step s (pool_close s).

(** A validated configuration: non-empty service names (a member with the empty
    name would be the "no service" value of [oldestQueued]), a default service
    that is a member, and durations in the range of their type. *)
Definition config_ok (cfg : PoolConfig) : Prop :=
  (∀ mc, mc ∈ pc_Members cfg → mc_Name mc ≠ "") ∧
  (pc_DefaultService cfg = "" ∨ pc_DefaultService cfg ∈ map mc_Name (pc_Members cfg)) ∧
  pc_GracePeriod cfg ≤ int64_max ∧ pc_Cooldown cfg ≤ int64_max.

Definition init (cfg : PoolConfig) (t0 : Z) : System :=
  Sys (NewPool cfg) (Env [] [] [] [] [] []) t0 false true.

(** [reach cfg n s]: [s] is reached in [n] steps. The counters of the pool are
    [uint64] and move by at most two per step, so the theorems bound [n]. *)
Definition reach (cfg : PoolConfig) (n : nat) (s : System) : Prop :=
  ∃ t0, time_Zero ≤ t0 ∧ nsteps step n (init cfg t0) s.

Definition max_steps : Z := 2 ^ 62.

(** The executable form of [step_handle]. *)
Definition run_step (s : System) (i : input) (now1 now2 : Z) (e1 : env) : System :=
  match handle i now1 now2 (pool s) with
  | (_, p', es) => Sys p' (performs now1 e1 es) now2 (closed s) (negb (is_done i))
  end.

Lemma step_run s i now1 now2 e1 :
  running s = true → clock s ≤ now1 → now1 ≤ now2 →
  take (closed s) now1 (environment s) i e1 →
  (handle i now1 now2 (pool s)).1.1 = Ret tt →
  step s (run_step s i now1 now2 e1).
Proof.
  intros ???? Hret. unfold run_step.
  destruct (handle i now1 now2 (pool s)) as [[o p'] es] eqn:Hh. simpl in Hret. subst o.
  by eapply step_handle.
Qed.
