(* ===== verification/QueueInv.v ===== *)
(** * Invariant of the wait queues of a pool

    [Queues ms sq iss canc reps]: the queues of [ms], with the last sequence
    number [sq], are consistent with the reply channels issued, withdrawn and
    replied to. It is preserved by enqueueing, withdrawing and flushing. *)

From S2P Require Import Prelude State Queue Pool PoolFacts.
Open Scope Z_scope.

Record Queues (ms : gmap string member) (sq : Z) (iss canc reps : list chan) : Prop := {
  q_cap : ∀ n m, ms !! n = Some m → Z.of_nat (length (queue m)) ≤ Z.max 0 (maxQueue m);
  q_sorted : ∀ n m, ms !! n = Some m →
    StronglySorted (λ w w', w_seq w < w_seq w') (queue m);
  q_nodup : ∀ n m, ms !! n = Some m → NoDup (replies_of (queue m));
  q_seq : ∀ n w, waiting ms n w → 1 ≤ w_seq w ≤ sq;
  q_seq_inj : ∀ n n' w w',
    waiting ms n w → waiting ms n' w' → w_seq w = w_seq w' → n = n' ∧ w = w';
  q_reply_inj : ∀ n n' w w',
    waiting ms n w → waiting ms n' w' → w_reply w = w_reply w' → n = n';
  q_fresh : ∀ n w, waiting ms n w → w_reply w ∉ reps;
  q_issued : ∀ n w, waiting ms n w → w_reply w ∈ iss;
  q_reps_nodup : NoDup reps;
  q_reps_issued : ∀ c, c ∈ reps → c ∈ iss;
  q_conserve : ∀ c, c ∈ iss →
    (∃ n w, waiting ms n w ∧ w_reply w = c) ∨ c ∈ reps ∨ c ∈ canc
}.

Lemma waiting_insert (ms : gmap string member) n m' k w :
  waiting (<[n := m']> ms) k w ↔ (k = n ∧ w ∈ queue m') ∨ (k ≠ n ∧ waiting ms k w).
Proof.
  unfold waiting. destruct (decide (k = n)) as [->|Hne].
  - setoid_rewrite lookup_insert_eq. split.
    + intros (m & [= <-] & Hw). by left.
    + intros [[_ Hw]|[? _]]; [|done]. by exists m'.
  - setoid_rewrite lookup_insert_ne; [|done]. split; [by right|].
    intros [[? _]|[_ Hw]]; done.
Qed.

Lemma elem_of_replies c q : c ∈ replies_of q ↔ ∃ w, w ∈ q ∧ w_reply w = c.
Proof. unfold replies_of. rewrite list_elem_of_fmap. by split; intros (w & ? & ?); exists w. Qed.

Lemma queues_empty ms : all_quiet ms → Queues ms 0 [] [] [].
Proof.
  intros Hq. assert (Hw : ∀ n w, ¬ waiting ms n w).
  { intros n w (m & Hm & Hin). rewrite (Hq _ _ Hm) in Hin. by apply not_elem_of_nil in Hin. }
  split; try (intros n m Hm; rewrite (Hq _ _ Hm); simpl; (lia || constructor)).
  all: try by intros; exfalso; eapply Hw.
  - constructor.
  - by intros c ?%not_elem_of_nil.
  - by intros c ?%not_elem_of_nil.
Qed.

Lemma queues_seq_mono ms sq sq' iss canc reps :
  Queues ms sq iss canc reps → sq ≤ sq' → Queues ms sq' iss canc reps.
Proof. intros [] ?. split; try done. intros n w Hw. specialize (q_seq0 n w Hw). lia. Qed.

(** A client answered without being queued. *)
Lemma queues_reply ms sq iss canc reps c :
  Queues ms sq iss canc reps → c ∉ iss →
  Queues ms sq (c :: iss) canc (reps ++ [c]).
Proof.
  intros [] Hc. split; try done.
  - intros n w Hw. rewrite elem_of_app, list_elem_of_singleton. intros [Hin|Heq].
    + by eapply q_fresh0.
    + apply Hc. rewrite <- Heq. by eapply q_issued0.
  - intros n w Hw. right. by eapply q_issued0.
  - apply NoDup_app. split_and!; [done| |apply NoDup_singleton].
    intros x Hx Hxc%list_elem_of_singleton. subst. auto.
  - intros x [Hx|Hx%list_elem_of_singleton]%elem_of_app; [by right; auto|subst; by left].
  - intros x [Hx|Hx]%elem_of_cons.
    + subst. right. left. apply elem_of_app. right. by left.
    + destruct (q_conserve0 _ Hx) as [?|[?|?]]; [by left|right; left|by right; right].
      apply elem_of_app. by left.
Qed.

(** A client queued. *)
Lemma queues_enqueue ms sq iss canc reps n m c :
  Queues ms sq iss canc reps → c ∉ iss → 0 ≤ sq →
  ms !! n = Some m → Z.of_nat (length (queue m)) < maxQueue m →
  Queues (<[n := set_queue (queue m ++ [Waiter (sq + 1) c]) m]> ms) (sq + 1)
    (c :: iss) canc reps.
Proof.
  intros [] Hc Hsq Hm Hcap.
  assert (Hin : ∀ k w, waiting (<[n := set_queue (queue m ++ [Waiter (sq + 1) c]) m]> ms) k w ↔
                (k = n ∧ w = Waiter (sq + 1) c) ∨ waiting ms k w).
  { intros k w. rewrite waiting_insert. simpl. rewrite elem_of_app, list_elem_of_singleton.
    destruct (decide (k = n)) as [->|].
    - split; [|intros [[_ ->]|(m' & Hm' & Hw)]; [by left; auto|]].
      + intros [[_ [Hw| ->]]|[? _]]; [right; by exists m|by left|done].
      + simplify_eq. by left; auto.
    - split; [intros [[? _]|[_ ?]]; [done|by right]|intros [[? _]|?]; [done|by right]]. }
  assert (Hold : ∀ k w, waiting ms k w → w_seq w < sq + 1 ∧ w_reply w ≠ c).
  { intros k w Hw. split; [apply q_seq0 in Hw; lia|]. intros <-. eauto. }
  split.
  - intros k m' [[<- <-]|[Hne Hk]]%lookup_insert_Some; [|eauto].
    simpl. rewrite length_app. simpl. lia.
  - intros k m' [[<- <-]|[Hne Hk]]%lookup_insert_Some; [|eauto]. simpl.
    apply StronglySorted_app_2; [|eauto|repeat constructor].
    intros w w' Hw Hw'%list_elem_of_singleton. subst. simpl. apply (Hold n). exists m. done.
  - intros k m' [[<- <-]|[Hne Hk]]%lookup_insert_Some; [|eauto]. simpl.
    unfold replies_of. rewrite map_app. apply NoDup_app.
    split_and!; [by eapply q_nodup0| |apply NoDup_singleton].
    intros x Hx Hxc%list_elem_of_singleton. subst. apply elem_of_replies in Hx as (w & Hw & Hr).
    apply (Hold n w); [exists m; done|done].
  - intros k w [[-> ->]|Hw]%Hin; simpl; [lia|]. specialize (q_seq0 _ _ Hw). lia.
  - intros k k' w w' [[-> ->]|Hw]%Hin [[-> ->]|Hw']%Hin Heq; simpl in Heq; [done| | |eauto].
    + apply Hold in Hw'. lia.
    + apply Hold in Hw. lia.
  - intros k k' w w' [[-> ->]|Hw]%Hin [[-> ->]|Hw']%Hin Heq; simpl in Heq; [done| | |eauto].
    + apply Hold in Hw' as [_ Hne]. by destruct Hne.
    + apply Hold in Hw as [_ Hne]. by destruct Hne.
  - intros k w [[-> ->]|Hw]%Hin; simpl; eauto.
  - intros k w [[-> ->]|Hw]%Hin; simpl; [left|right; eauto].
  - done.
  - intros x Hx. right. eauto.
  - intros x [Hx|Hx]%elem_of_cons; [subst|].
    + left. exists n, (Waiter (sq + 1) c). split; [apply Hin; by left|done].
    + destruct (q_conserve0 _ Hx) as [(k & w & Hw & Hr)|?]; [left|by right].
      exists k, w. split; [|done]. apply Hin. by right.
Qed.

(** A queue that loses waiters, each of them replied to or withdrawn. *)
Lemma queues_shrink ms sq iss canc canc' reps reps' n m q' :
  Queues ms sq iss canc reps → ms !! n = Some m → sublist q' (queue m) →
  NoDup reps' →
  (∀ c, c ∈ reps → c ∈ reps') → (∀ c, c ∈ canc → c ∈ canc') →
  (∀ c, c ∈ reps' → c ∈ reps ∨ (c ∈ replies_of (queue m) ∧ c ∉ replies_of q')) →
  (∀ w, w ∈ queue m → w ∈ q' ∨ w_reply w ∈ reps' ∨ w_reply w ∈ canc') →
  Queues (<[n := set_queue q' m]> ms) sq iss canc' reps'.
Proof.
  intros [] Hm Hsub Hnd Hreps Hcanc Hnew Hgone.
  assert (Hsubw : ∀ k w, waiting (<[n := set_queue q' m]> ms) k w → waiting ms k w).
  { intros k w [[-> Hw]|[_ Hw]]%waiting_insert; [|done].
    exists m. split; [done|]. by eapply elem_of_sublist. }
  assert (Hreplies : sublist (replies_of q') (replies_of (queue m))).
  { unfold replies_of. by apply (fmap_sublist w_reply). }
  split; [| | |eauto 6..|done| |].
  - intros k m' [[<- <-]|[Hne Hk]]%lookup_insert_Some; [|eauto]. simpl.
    apply sublist_length in Hsub. specialize (q_cap0 _ _ Hm). lia.
  - intros k m' [[<- <-]|[Hne Hk]]%lookup_insert_Some; [|eauto]. simpl.
    by eapply StronglySorted_sublist; [|eapply q_sorted0].
  - intros k m' [[<- <-]|[Hne Hk]]%lookup_insert_Some; [|eauto]. simpl.
    eapply sublist_NoDup; [by eapply q_nodup0|done].
  - intros k w Hw [Hr|[Hr1 Hr2]]%Hnew; [by eapply q_fresh0; eauto|].
    apply elem_of_replies in Hr1 as (w1 & Hw1 & Hr1).
    assert (k = n) as ->.
    { eapply q_reply_inj0; [by apply Hsubw|by exists m|done]. }
    apply Hr2. apply waiting_insert in Hw as [[_ Hw]|[? _]]; [|done].
    apply elem_of_replies. eauto.
  - intros c [Hc|[Hc _]]%Hnew; [eauto|].
    apply elem_of_replies in Hc as (w & Hw & <-). eapply q_issued0. by exists m.
  - intros c Hc. destruct (q_conserve0 c Hc) as [(k & w & Hw & <-)|[?|?]]; [|by eauto..].
    destruct (decide (k = n)) as [->|Hne].
    + destruct Hw as (m' & Hm' & Hw). simplify_eq.
      destruct (Hgone w Hw) as [Hw'|[?|?]]; [left|by eauto..].
      exists n, w. split; [|done]. apply waiting_insert. by left.
    + left. exists k, w. split; [|done]. apply waiting_insert. by right.
Qed.

Lemma queues_remove ms sq iss canc reps n m c :
  Queues ms sq iss canc reps → ms !! n = Some m →
  Queues (<[n := removeByReply m c]> ms) sq iss (c :: canc) reps.
Proof.
  intros HQ Hm. unfold removeByReply.
  eapply queues_shrink; [done..|apply remove_waiter_sublist|apply HQ|done|set_solver|by left|].
  intros w Hw. pose proof (q_nodup _ _ _ _ _ HQ _ _ Hm) as Hnd.
  induction (queue m) as [|w' q IH]; simpl; [set_solver|].
  unfold replies_of in Hnd. simpl in Hnd. apply NoDup_cons in Hnd as [_ Hnd].
  case_bool_decide; set_solver.
Qed.

Lemma queues_flush ms sq iss canc reps n m :
  Queues ms sq iss canc reps → ms !! n = Some m →
  Queues (<[n := set_queue [] m]> ms) sq iss canc (reps ++ replies_of (queue m)).
Proof.
  intros HQ Hm. eapply queues_shrink; [done..|apply sublist_nil_l| |set_solver|done| |].
  - apply NoDup_app. split_and!; [apply HQ| |by eapply q_nodup].
    intros c Hc (w & Hw & <-)%elem_of_replies.
    eapply q_fresh; [done| |done]. by exists m.
  - intros c [?|?]%elem_of_app; [by left|right]. set_solver.
  - intros w Hw. right. left. apply elem_of_app. right. apply elem_of_replies. eauto.
Qed.
