(* ===== verification/Invariant.v ===== *)
(** * The invariant of a running pool

    [Base] holds at every point of a handler; [Ctl] ties the state of the
    manager to the environment and holds between two messages. The lemmas of
    this file are the steps the handlers are made of: each preserves [Base],
    and the ones a handler can end with establish [Ctl]. *)

From S2P Require Import Prelude State Queue Pool PoolFacts QueueInv System.
Open Scope Z_scope.

Record Base (b clk : Z) (p : Pool) (e : env) : Prop := {
  b_names : ∀ n m, members p !! n = Some m → name m = n;
  b_noname : members p !! "" = None;
  b_default : defaultSvc p = "" ∨ is_Some (members p !! defaultSvc p);
  b_pending : adminPending p = "" ∨ is_Some (members p !! adminPending p);
  b_grace : grace p ≤ int64_max;
  b_started : startedAt p ≤ clk;
  b_opSeq : 0 ≤ opSeq p ≤ b;
  b_epochs : ∀ k, 0 ≤ epochs p k ≤ b;
  b_seq : 0 ≤ seq p ≤ b;
  b_queues : Queues (members p) (seq p) (issued e) (cancelled e) (replied e).*1;
  b_wops : ∀ w, w ∈ workers e → work_op w ≤ opSeq p;
  b_wnodup : NoDup (map work_op (workers e));
  b_wtarget : ∀ op t, WSwap op t ∈ workers e → is_Some (members p !! t);
  b_wctx : ∀ w, w ∈ workers e →
    work_op w ∈ ctx_done e ∨ swapCancel p = Some (work_op w);
  b_timers : ∀ t due, (t, due) ∈ timers e → tick_epoch t ≤ epochs p (tick_kind t)
}.

(** The tick of the latest timer of a kind; any older one is ignored. *)
Definition live_tick (p : Pool) (k : timerKind) : timerTick :=
  {| tick_kind := k; tick_epoch := epochs p k |}.

(** The worker whose report the manager waits for while [SWAPPING]. *)
Definition live_work (p : Pool) : work :=
  if decide (target p = "") then WStopAll (opSeq p) else WSwap (opSeq p) (target p).

(** The state of the manager against the worker in flight. *)
Record Core (p : Pool) (e : env) : Prop := {
  c_active : state p = StateActive → is_Some (members p !! active p);
  c_inactive : state p ≠ StateActive → active p = "";
  c_target : state p ≠ StateSwapping → target p = "";
  c_snap : snap p = {| snap_State := state p; snap_ActiveService := active p |};
  c_cancel :
    swapCancel p = if decide (state p = StateSwapping) then Some (opSeq p) else None;
  c_live : state p = StateSwapping → live_work p ∈ workers e;
  c_dead : state p ≠ StateSwapping → ∀ w, w ∈ workers e → work_op w ≠ opSeq p
}.

(** Someone is coming for every waiter: the worker in flight, or a grace tick. *)
Definition WaitOk (p : Pool) (e : env) : Prop :=
  ¬ all_quiet (members p) →
  state p = StateSwapping ∨
  (state p = StateActive ∧ ∃ due, (live_tick p tickGrace, due) ∈ timers e).

(** A countdown is armed exactly when its tick is in flight. *)
Definition CoolOk (p : Pool) (e : env) : Prop :=
  (cooldownArmed p = true →
    (∃ due, (live_tick p tickCooldown, due) ∈ timers e) ∧
    (state p = StateIdle ∧ defaultSvc p ≠ "" ∨
     state p = StateActive ∧ (defaultSvc p = "" ∨ active p ≠ defaultSvc p))) ∧
  (∀ due, (live_tick p tickCooldown, due) ∈ timers e → cooldownArmed p = true).

(** A grace tick that will be obeyed is due when the grace period is over. *)
Definition GraceOk (p : Pool) (e : env) : Prop :=
  ∀ due, (live_tick p tickGrace, due) ∈ timers e →
  state p = StateActive ∧ due = startedAt p + grace p.

Record Ctl (p : Pool) (e : env) : Prop := {
  c_core : Core p e;
  c_waiting : WaitOk p e;
  c_cooldown : CoolOk p e;
  c_grace : GraceOk p e
}.

(** No worker is started on a nil member. *)
Definition is_clean (x : effect) : Prop := match x with GoSwap _ None _ => False | _ => True end.

Record Good (now b clk : Z) (e : env) (p : Pool) (es : list effect) : Prop := {
  good_base : Base b clk p (performs now e es);
  good_ctl : Ctl p (performs now e es);
  good_clean : Forall is_clean es
}.

(** ** Actions *)

Lemma performs_app now e es es' :
  performs now e (es ++ es') = performs now (performs now e es) es'.
Proof. unfold performs. apply foldl_app. Qed.

Lemma performs_replies now e m r :
  performs now e (reply_all m r) = add_replied (map (λ w, (w_reply w, r)) (queue m)) e.
Proof.
  unfold performs, reply_all. revert e. induction (queue m) as [|w q IH]; intros e; simpl.
  - destruct e. unfold add_replied. simpl. by rewrite app_nil_r.
  - rewrite IH. destruct e. unfold add_replied. simpl. by rewrite <- (assoc_L (++)).
Qed.

Lemma performs_cancel now e p :
  performs now e (cancel_effects p) = add_ctx_done (option_list (swapCancel p)) e.
Proof.
  unfold performs, cancel_effects. destruct (swapCancel p); [done|].
  destruct e. unfold add_ctx_done. simpl. by rewrite app_nil_r.
Qed.

Lemma clean_replies m r : Forall is_clean (reply_all m r).
Proof. unfold reply_all. apply Forall_forall. by intros x (w & -> & _)%list_elem_of_fmap. Qed.

Lemma clean_cancel p : Forall is_clean (cancel_effects p).
Proof. unfold cancel_effects. destruct (swapCancel p); repeat constructor. Qed.

#[export] Hint Resolve clean_replies clean_cancel : stagehand.

Lemma good_app now b clk e p es es' :
  Forall is_clean es → Good now b clk (performs now e es) p es' →
  Good now b clk e p (es ++ es').
Proof.
  intros ? []. split; rewrite ?performs_app; [done..|]. by apply Forall_app.
Qed.

(** ** Steps that preserve [Base] *)

Ltac base :=
  intros [Bnames Bnoname Bdefault Bpending Bgrace Bstarted BopSeq Bepochs Bseq Bqueues
          Bwops Bwnodup Bwtarget Bwctx Btimers];
  split; simpl in *; try done.

Lemma base_mono b b' clk clk' p e :
  b ≤ b' → clk ≤ clk' → Base b clk p e → Base b' clk' p e.
Proof.
  intros ??. base; [lia..| |lia]. intros k. specialize (Bepochs k). lia.
Qed.

Lemma base_settled b clk p e st act :
  Base b clk p e → Base b clk (settled st act p) e.
Proof. base. Qed.

Lemma base_publish b clk p e : Base b clk p e → Base b clk (publish_state p) e.
Proof. base. Qed.

Lemma base_lastActivity b clk p e v : Base b clk p e → Base b clk (set_lastActivity v p) e.
Proof. base. Qed.

Lemma base_startedAt b clk p e v :
  v ≤ clk → Base b clk p e → Base b clk (set_startedAt v p) e.
Proof. intros ?. base. Qed.

Lemma base_adminPending b clk p e v :
  v = "" ∨ is_Some (members p !! v) → Base b clk p e → Base b clk (set_adminPending v p) e.
Proof. intros ?. base. Qed.

Lemma base_bumped b clk p e :
  b + 1 < u64_modulus → Base b clk p e → Base (b + 1) clk (bumped p) e.
Proof.
  intros Hb HB. pose proof (b_epochs _ _ _ _ HB) as He.
  assert (Hk : ∀ k, epochs (bumped p) k = epochs p k + 1).
  { intros k. specialize (He k). destruct k; simpl; apply u64_succ_small; simpl in He; lia. }
  revert HB. base; [lia| |lia|].
  - intros k. rewrite Hk. specialize (He k). lia.
  - intros t due Ht. rewrite Hk. specialize (Btimers _ _ Ht). lia.
Qed.

Lemma base_armed b clk now p e k d :
  b + 1 < u64_modulus → Base b clk p e →
  Base (b + 1) clk (armed k p)
    (performs now e [AfterFunc d {| tick_kind := k; tick_epoch := u64_succ (epochs p k) |}]).
Proof.
  intros Hb HB. pose proof (b_epochs _ _ _ _ HB) as He.
  assert (Hk : ∀ k', epochs (armed k p) k' =
                     if decide (k' = k) then epochs p k + 1 else epochs p k').
  { intros k'. pose proof (He k). unfold armed.
    destruct k, k'; simpl; try done; apply u64_succ_small; simpl in *; lia. }
  assert (Hf : members (armed k p) = members p ∧ defaultSvc (armed k p) = defaultSvc p ∧
    adminPending (armed k p) = adminPending p ∧ grace (armed k p) = grace p ∧
    startedAt (armed k p) = startedAt p ∧ opSeq (armed k p) = opSeq p ∧
    seq (armed k p) = seq p ∧ swapCancel (armed k p) = swapCancel p) by by destruct k.
  destruct Hf as (E1 & E2 & E3 & E4 & E5 & E6 & E7 & E8).
  destruct HB as [Bnames Bnoname Bdefault Bpending Bgrace Bstarted BopSeq Bepochs Bseq Bqueues
    Bwops Bwnodup Bwtarget Bwctx Btimers].
  split; rewrite ?E1, ?E2, ?E3, ?E4, ?E5, ?E6, ?E7, ?E8; simpl; try done; [lia| |lia|].
  - intros k'. rewrite Hk. pose proof (He k). pose proof (He k'). case_decide; lia.
  - intros t due [Ht|Ht%list_elem_of_singleton]%elem_of_app.
    + specialize (Btimers _ _ Ht). rewrite Hk. case_decide as Hc; [rewrite <- Hc|]; lia.
    + simplify_eq/=. rewrite Hk, decide_True by done. pose proof (He k).
      rewrite u64_succ_small; lia.
Qed.

Lemma base_release b clk now p e :
  Base b clk p e → Base b clk (set_swapCancel None p) (performs now e (cancel_effects p)).
Proof.
  rewrite performs_cancel. base. intros w Hw. left.
  apply elem_of_app. destruct (Bwctx w Hw) as [?| ->]; [by left|right]. by left.
Qed.

Lemma base_superseded b clk now p e :
  b + 1 < u64_modulus → Base b clk p e →
  Base (b + 1) clk (superseded p) (performs now e (cancel_effects p)) ∧
  opSeq (superseded p) = opSeq p + 1.
Proof.
  intros Hb HB. apply (base_release _ _ now) in HB.
  assert (Hop : opSeq (superseded p) = opSeq p + 1).
  { pose proof (b_opSeq _ _ _ _ HB). simpl in *. apply u64_succ_small; lia. }
  split; [|done]. revert HB. base; simpl in Hop; rewrite ?Hop; [lia| |lia|].
  - intros k. specialize (Bepochs k). destruct k; simpl in *; lia.
  - intros w Hw. specialize (Bwops _ Hw). lia.
Qed.

(** A new worker, whose context is the one the manager can cancel. *)
Lemma base_worker b clk p e w :
  Base b clk p e → work_op w = opSeq p → swapCancel p = Some (opSeq p) →
  (∀ w', w' ∈ workers e → work_op w' ≠ opSeq p) →
  (∀ op t, w = WSwap op t → is_Some (members p !! t)) →
  Base b clk p (set_workers (workers e ++ [w]) e).
Proof.
  intros HB Hop Hc Hnew Ht. revert HB. base.
  - intros w' [Hw'|Hw'%list_elem_of_singleton]%elem_of_app; [auto|]. subst. lia.
  - rewrite map_app. apply NoDup_app. split_and!; [done| |apply NoDup_singleton].
    intros o (w' & -> & Hw')%list_elem_of_fmap Ho%list_elem_of_singleton.
    by apply (Hnew w'); [|congruence].
  - intros op t [?|Hw'%list_elem_of_singleton]%elem_of_app; eauto.
  - intros w' [?|Hw'%list_elem_of_singleton]%elem_of_app; [auto|].
    subst. right. by rewrite Hop.
Qed.

Lemma base_flush b clk now p e n m r :
  Base b clk p e → members p !! n = Some m →
  Base b clk (put_member n (set_queue [] m) p) (performs now e (reply_all m r)).
Proof.
  intros HB Hm. rewrite performs_replies.
  assert (Hdom : ∀ t, is_Some (members p !! t) →
                      is_Some (<[n := set_queue [] m]> (members p) !! t)).
  { intros t. destruct (decide (t = n)) as [->|].
    - rewrite lookup_insert_eq. eauto.
    - by rewrite lookup_insert_ne. }
  revert HB. base.
  - intros k m' [[<- <-]|[? ?]]%lookup_insert_Some; [exact (Bnames _ _ Hm)|by eapply Bnames].
  - rewrite lookup_insert_ne; [done|]. congruence.
  - destruct Bdefault; eauto.
  - destruct Bpending; eauto.
  - rewrite fmap_app.
    replace (map (λ w, (w_reply w, r)) (queue m)).*1 with (replies_of (queue m)).
    { by apply queues_flush. }
    unfold replies_of. change (replies_of (queue m)) with (w_reply <$> queue m).
    rewrite <- list_fmap_compose. done.
  - eauto.
Qed.

(** ** Ends of a handler *)

(** A tick armed before the epochs were bumped is not live any more. *)
Lemma no_live_tick b clk p e k ep due :
  Base b clk p e → b + 1 < u64_modulus → ep = u64_succ (epochs p k) →
  ({| tick_kind := k; tick_epoch := ep |}, due) ∉ timers e.
Proof.
  intros HB Hb -> Hin. pose proof (b_epochs _ _ _ _ HB k).
  pose proof (b_timers _ _ _ _ HB _ _ Hin) as Ht. simpl in Ht.
  rewrite u64_succ_small in Ht; lia.
Qed.

(** The state while a worker runs: whatever held before, [Ctl] holds now. *)
Lemma ctl_swapping b clk p e e' t :
  Base b clk p e → b + 1 < u64_modulus → timers e' = timers e →
  live_work (swapping t p) ∈ workers e' → Ctl (swapping t p) e'.
Proof.
  intros HB Hb Ht Hw. split; [by split| by left|split; [done|]|];
    intros due; rewrite Ht; intros Hin; exfalso.
  - by eapply (no_live_tick _ _ _ _ tickCooldown).
  - by eapply (no_live_tick _ _ _ _ tickGrace).
Qed.

Lemma performs_timers_cancel now e p : timers (performs now e (cancel_effects p)) = timers e.
Proof. by rewrite performs_cancel. Qed.

Section transitions.
Context (b clk now : Z).
Context (Hb : b + 1 < u64_modulus).

Lemma base_swapping p e t :
  Base b clk p e → (t = "" ∨ is_Some (members p !! t)) →
  Base (b + 1) clk (swapping t p)
    (performs now e (cancel_effects p ++
       [Publish snap_swapping;
        if decide (t = "") then GoStopAll (opSeq p + 1)
        else GoSwap (opSeq p + 1) (Some t) (otherContainers (members p) t)])) ∧
  opSeq (swapping t p) = opSeq p + 1.
Proof.
  intros HB Ht.
  assert (HBb : Base (b + 1) clk (bumped p) e) by by apply base_bumped.
  assert (Hop : u64_succ (opSeq p) = opSeq p + 1).
  { pose proof (b_opSeq _ _ _ _ HB). apply u64_succ_small; lia. }
  split; [|by simpl; rewrite Hop]. rewrite performs_app, performs_cancel.
  assert (HB2 : Base (b + 1) clk (swapping t p) (add_ctx_done (option_list (swapCancel p)) e)).
  { pose proof (b_opSeq _ _ _ _ HB) as Hr. revert HBb. base; rewrite ?Hop; [lia| |].
    - intros w Hw. specialize (Bwops _ Hw). lia.
    - intros w Hw. left. apply elem_of_app.
      destruct (Bwctx w Hw) as [?| ->]; [by left|right]. by left. }
  replace (performs now _ _) with
    (set_workers (workers (add_ctx_done (option_list (swapCancel p)) e) ++
        [if decide (t = "") then WStopAll (opSeq p + 1) else WSwap (opSeq p + 1) t])
      (add_ctx_done (option_list (swapCancel p)) e)) by (by case_decide).
  apply base_worker; [done|..]; simpl; rewrite ?Hop.
  - by case_decide.
  - done.
  - intros w Hw. pose proof (b_wops _ _ _ _ HB w Hw). lia.
  - intros op t' Heq. case_decide as Hte; simplify_eq. by destruct Ht.
Qed.

Lemma startSwap_good p e t :
  Base b clk p e → is_Some (members p !! t) →
  wp (startSwap t) (returns (λ _ p' es, Good now (b + 1) clk e p' es)) p.
Proof.
  intros HB [m Hm]. eapply wp_eq; [apply startSwap_eq|]. simpl.
  assert (Hne : t ≠ "").
  { intros ->. pose proof (b_noname _ _ _ _ HB). congruence. }
  rewrite Hm. simpl. rewrite (b_names _ _ _ _ HB _ _ Hm).
  destruct (base_swapping p e t HB) as [HB' Hop]; [right; eauto|].
  rewrite decide_False in HB' by done. change (opSeq (swapping t p)) with (u64_succ (opSeq p)) in Hop.
  rewrite Hop. split; [done| |].
  - rewrite performs_app. eapply ctl_swapping; [done..|apply performs_timers_cancel|].
    unfold live_work. simpl. rewrite decide_False, Hop by done.
    apply elem_of_app. right. by left.
  - apply Forall_app. split; [apply clean_cancel|]. repeat constructor.
Qed.

Lemma startStopAll_good p e :
  Base b clk p e →
  wp startStopAll (returns (λ _ p' es, Good now (b + 1) clk e p' es)) p.
Proof.
  intros HB. eapply wp_eq; [apply startStopAll_eq|]. simpl.
  destruct (base_swapping p e "" HB) as [HB' Hop]; [by left|].
  change (opSeq (swapping "" p)) with (u64_succ (opSeq p)) in Hop.
  rewrite decide_True in HB' by done. rewrite Hop. split; [done| |].
  - rewrite performs_app. eapply ctl_swapping; [done..|apply performs_timers_cancel|].
    unfold live_work. simpl. rewrite Hop. apply elem_of_app. right. by left.
  - apply Forall_app. split; [apply clean_cancel|]. repeat constructor.
Qed.

Lemma armGrace_good p e d :
  Base b clk p e → Core p e → CoolOk p e →
  state p = StateActive → now + d = startedAt p + grace p →
  wp (armTimer tickGrace d) (returns (λ _ p' es, Good now (b + 1) clk e p' es)) p.
Proof.
  intros HB HC HK Hst Hdue. eapply wp_eq; [apply armTimer_eq|]. simpl.
  split; [by apply base_armed| |repeat constructor].
  split; [destruct HC; by split| | |].
  - intros _. right. split; [done|]. exists (now + d). apply elem_of_app. right. by left.
  - destruct HK as [HK1 HK2]. split.
    + intros Hc. destruct (HK1 Hc) as [[due Hin] ?]. split; [|done].
      exists due. apply elem_of_app. by left.
    + intros due [Hin|Hin%list_elem_of_singleton]%elem_of_app; [by eapply HK2|done].
  - intros due [Hin|Hin%list_elem_of_singleton]%elem_of_app.
    + exfalso. by eapply (no_live_tick _ _ _ _ tickGrace).
    + simplify_eq. done.
Qed.

Lemma armCooldown_good p e d :
  Base b clk p e → Core p e → WaitOk p e → GraceOk p e →
  (state p = StateIdle ∧ defaultSvc p ≠ "" ∨
   state p = StateActive ∧ (defaultSvc p = "" ∨ active p ≠ defaultSvc p)) →
  wp (armTimer tickCooldown d) (returns (λ _ p' es, Good now (b + 1) clk e p' es)) p.
Proof.
  intros HB HC HW HG Hst. eapply wp_eq; [apply armTimer_eq|]. simpl.
  split; [by apply base_armed| |repeat constructor].
  split; [destruct HC; by split| | |].
  - intros Hq. destruct (HW Hq) as [?|[? [due Hin]]]; [by left|right].
    split; [done|]. exists due. apply elem_of_app. by left.
  - split; [|done]. intros _. split; [|done]. exists (now + d).
    apply elem_of_app. right. by left.
  - intros due [Hin|Hin%list_elem_of_singleton]%elem_of_app; [by apply HG|done].
Qed.

Lemma live_work_op p : work_op (live_work p) = opSeq p.
Proof. unfold live_work. by destruct (decide _). Qed.

(** [Ctl] depends on the environment through the workers and timers only. *)
Lemma ctl_env p e e' :
  workers e' = workers e → timers e' = timers e → Ctl p e → Ctl p e'.
Proof.
  intros Hw Ht [[] HW HK HG]. split; unfold WaitOk, CoolOk, GraceOk; rewrite ?Ht; [|done..].
  split; rewrite ?Hw; done.
Qed.

Lemma stay_good p e :
  Base b clk p e → Ctl p e →
  wp (mret tt) (returns (λ _ p' es, Good now (b + 1) clk e p' es)) p.
Proof.
  intros HB HC. apply wp_mret. split; [|done|constructor].
  eapply base_mono; [| |done]; lia.
Qed.

(** A reply, a status or an error sent at the end of a handler. *)
Lemma good_emit p e x :
  Base b clk p (perform now e x) → Ctl p e → is_clean x →
  workers (perform now e x) = workers e → timers (perform now e x) = timers e →
  Good now (b + 1) clk e p [x].
Proof.
  intros HB HC Hx Hw Ht. split.
  - eapply base_mono; [| |done]; lia.
  - by apply (ctl_env _ e).
  - by repeat constructor.
Qed.

End transitions.

Lemma good_mono now b b' clk e p es : b ≤ b' → Good now b clk e p es → Good now b' clk e p es.
Proof. intros ? []. split; [|done..]. eapply base_mono; [| |done]; lia. Qed.

Lemma wp_good_mono {A} (m : M A) now b b' clk e p :
  b ≤ b' →
  wp m (returns (λ _ p' es, Good now b clk e p' es)) p →
  wp m (returns (λ _ p' es, Good now b' clk e p' es)) p.
Proof.
  intros ?. apply wp_mono. intros [a| |] p' es; simpl; [by apply good_mono|done..].
Qed.

(** Sequencing: the actions already performed are part of the environment. *)
Lemma wp_good_app {A} (m : M A) now b clk e es p :
  Forall is_clean es →
  wp m (returns (λ _ p' es', Good now b clk (performs now e es) p' es')) p →
  wp m (λ o p' es', returns (λ _ p' es, Good now b clk e p' es) o p' (es ++ es')) p.
Proof.
  intros ?. apply wp_mono. intros [a| |] p' es'; simpl; [by apply good_app|done..].
Qed.

Lemma wp_good_cons {A} (m : M A) now b clk e x p :
  is_clean x →
  wp m (returns (λ _ p' es', Good now b clk (perform now e x) p' es')) p →
  wp m (λ o p' es', returns (λ _ p' es, Good now b clk e p' es) o p' (x :: es')) p.
Proof. intros ?. apply (wp_good_app m now b clk e [x]). by repeat constructor. Qed.
