(* ===== verification/Handlers.v ===== *)
(** * The handlers preserve the invariant

    One lemma per handler of the manager: run on a message the environment
    offers, it returns (no nil dereference), leaves a state and an environment
    that satisfy the invariant again, and starts no worker on a nil member. *)

From S2P Require Import Prelude State Queue Pool PoolFacts QueueInv System Invariant.
Open Scope Z_scope.

(** ** Availability of a message *)

Lemma take_base closed now b clk p e i e1 :
  Base b clk p e → take closed now e i e1 →
  (∀ service c, i ≠ InCmd (admitCmd service c)) →
  (∀ service c, i ≠ InCmd (cancelCmd service c)) →
  Base b clk p e1.
Proof.
  intros HB Ht Ha Hc. destruct Ht as [| | | | | |l1 w l2 msg Hw|l1 t due l2 Hl| | |];
    try done; [by destruct (Ha service c)|by destruct (Hc service c)| |].
  - revert HB. base.
    + intros w' Hw'. apply Bwops. rewrite Hw. set_solver.
    + eapply sublist_NoDup; [exact Bwnodup|]. rewrite Hw, !map_app. simpl.
      apply sublist_app; [done|]. by constructor.
    + intros op t Hin. apply (Bwtarget op). rewrite Hw. set_solver.
    + intros w' Hw'. apply Bwctx. rewrite Hw. set_solver.
  - revert HB. base. intros t' due' Hin. apply (Btimers t' due'). rewrite Hl. set_solver.
Qed.

(** After a terminal report: neither a worker nor a timer of the new state. *)
Record Settled (p : Pool) (e : env) : Prop := {
  s_core : Core p e;
  s_state : state p ≠ StateSwapping;
  s_cool : cooldownArmed p = false;
  s_notick : ∀ k due, (live_tick p k, due) ∉ timers e
}.

Lemma settled_ctl p e : Settled p e → all_quiet (members p) → Ctl p e.
Proof.
  intros [] Hq. split; [done|by intros []| |].
  - split; [congruence|]. intros due Hin. exfalso. by eapply s_notick0.
  - intros due Hin. exfalso. by eapply s_notick0.
Qed.

Section handlers.
Context (b clk now : Z).
Context (Hb : b + 1 < u64_modulus).

(** ** [chainAfterTerminal], [chainNow] *)

Lemma chainNow_good p e :
  Base b clk p e → Settled p e →
  wp chainNow (returns (λ _ p' es, Good now (b + 1) clk e p' es)) p.
Proof.
  intros HB HS. unfold chainNow. wp_steps.
  pose proof (b_noname _ _ _ _ HB) as Hno. case_decide as Hnext.
  - apply startSwap_good; [done..|]. by apply oldestQueued_member.
  - apply stay_good; [done..|]. apply settled_ctl; [done|].
    apply oldestQueued_quiet; [done|]. done.
Qed.

Lemma chain_good p e (activated : bool) (now2 : Z) :
  Base b clk p e → Settled p e →
  state p = (if activated then StateActive else StateIdle) →
  (activated = true → startedAt p = now) →
  wp (chainAfterTerminal activated now2)
    (returns (λ _ p' es, Good now (b + 1) clk e p' es)) p.
Proof.
  intros HB HS Hst Hstart. pose proof (b_noname _ _ _ _ HB) as Hno.
  unfold chainAfterTerminal. wp_steps. case_decide as Hpend; wp_steps.
  - apply startSwap_good; [done| |].
    + apply base_adminPending; [by left|done].
    + destruct (b_pending _ _ _ _ HB) as [?|?]; [by destruct Hpend|done].
  - assert (HB' : Base b clk (set_adminPending "" p) e).
    { apply base_adminPending; [by left|done]. }
    assert (HS' : Settled (set_adminPending "" p) e).
    { destruct HS as [HC ? ? ?]. split; [|done..]. destruct HC. by split. }
    pose proof (s_core _ _ HS') as HC'.
    assert (HK' : CoolOk (set_adminPending "" p) e).
    { split; [by intros Hc; rewrite (s_cool _ _ HS') in Hc|].
      intros due Hin. exfalso. by eapply (s_notick _ _ HS'). }
    assert (HG' : GraceOk (set_adminPending "" p) e).
    { intros due Hin. exfalso. by eapply (s_notick _ _ HS'). }
    case_decide as Hnext.
    + case_if as Hact.
      * apply andb_true_iff in Hact as [-> _]. apply armGrace_good; try done.
        simpl. rewrite Hstart; [lia|done].
      * apply startSwap_good; [done..|]. by apply oldestQueued_member.
    + apply oldestQueued_quiet in Hnext as Hquiet; [|done].
      assert (HW' : ∀ e', WaitOk (set_adminPending "" p) e') by by intros e' [].
      case_if as Hact.
      * apply andb_true_iff in Hact as [[-> _]%andb_true_iff Hd]. wp_steps.
        apply armCooldown_good; [done|by apply base_lastActivity| |by intros []|done|].
        -- destruct HC'. by split.
        -- simpl. right. split; [done|].
           apply negb_true_iff, andb_false_iff in Hd as [Hd|Hd];
             apply bool_decide_eq_false in Hd; [left; by apply dec_stable|by right].
      * case_if as Hact2.
        -- apply andb_true_iff in Hact2 as [[[Ha Hi]%andb_true_iff Hd]%andb_true_iff _].
           apply bool_decide_eq_true in Hi, Hd.
           apply armCooldown_good; try done. by left.
        -- apply stay_good; [done..|]. by apply settled_ctl.
Qed.

End handlers.

(** ** [handleAdmit], [handleCancel], [touch] *)

(** [m]'s queue is replaced by one that is no longer than a bound allows. *)
Lemma members_dom (p : Pool) n m' t :
  is_Some (members p !! n) → is_Some (members p !! t) →
  is_Some (<[n := m']> (members p) !! t).
Proof.
  intros _ Ht. destruct (decide (t = n)) as [->|].
  - rewrite lookup_insert_eq. eauto.
  - by rewrite lookup_insert_ne.
Qed.

Lemma base_put b clk p e e' n m q' sq :
  Base b clk p e → members p !! n = Some m → 0 ≤ sq ≤ b →
  workers e' = workers e → timers e' = timers e → ctx_done e' = ctx_done e →
  Queues (<[n := set_queue q' m]> (members p)) sq (issued e') (cancelled e') (replied e').*1 →
  Base b clk (put_member n (set_queue q' m) (set_seq sq p)) e'.
Proof.
  intros HB Hm Hsq Hw Ht Hx HQ.
  assert (Hdom : ∀ t, is_Some (members p !! t) →
                      is_Some (<[n := set_queue q' m]> (members p) !! t)).
  { intros t. apply members_dom. eauto. }
  revert HB. base; rewrite ?Hw, ?Ht, ?Hx; try done.
  - intros k m' [[<- <-]|[? ?]]%lookup_insert_Some; [exact (Bnames _ _ Hm)|by eapply Bnames].
  - rewrite lookup_insert_ne; [done|]. congruence.
  - destruct Bdefault; eauto.
  - destruct Bpending; eauto.
  - eauto.
Qed.

Lemma core_put p e e' n m q' sq :
  Core p e → members p !! n = Some m → workers e' = workers e →
  Core (put_member n (set_queue q' m) (set_seq sq p)) e'.
Proof.
  intros [] Hm Hw. split; simpl; rewrite ?Hw; try done.
  intros Hst. apply members_dom; eauto.
Qed.

Lemma quiet_put (ms : gmap string member) n m q' :
  ms !! n = Some m → (queue m = [] → q' = []) →
  ¬ all_quiet (<[n := set_queue q' m]> ms) → ¬ all_quiet ms.
Proof.
  intros Hm Hq Hnq Hall. apply Hnq.
  intros k m' [[<- <-]|[? ?]]%lookup_insert_Some; simpl; eauto.
Qed.

Lemma ctl_put p e e' n m q' sq :
  Ctl p e → members p !! n = Some m → (queue m = [] → q' = []) →
  workers e' = workers e → timers e' = timers e →
  Ctl (put_member n (set_queue q' m) (set_seq sq p)) e'.
Proof.
  intros [HC HW HK HG] Hm Hq Hw Ht.
  split; [by eapply core_put| | |]; unfold WaitOk, CoolOk, GraceOk; simpl; rewrite ?Ht;
    [|done..].
  intros Hnq. apply HW. by eapply quiet_put.
Qed.

Lemma queues_reply_env ms sq e c r :
  Queues ms sq (issued e) (cancelled e) (replied e).*1 → c ∉ issued e →
  Queues ms sq (issued (add_replied [(c, r)] (add_issued c e)))
    (cancelled (add_replied [(c, r)] (add_issued c e)))
    (replied (add_replied [(c, r)] (add_issued c e))).*1.
Proof. intros HQ Hc. simpl. rewrite fmap_app. by apply queues_reply. Qed.

Lemma base_reply b clk p e c r :
  Base b clk p e → c ∉ issued e → Base b clk p (add_replied [(c, r)] (add_issued c e)).
Proof.
  intros HB Hc. pose proof (b_queues _ _ _ _ HB).
  revert HB. base. by apply queues_reply_env.
Qed.

Lemma touch_good b clk now p e service :
  b + 1 < u64_modulus → Base b clk p e → Ctl p e →
  wp (touch service now) (returns (λ _ p' es, Good now (b + 1) clk e p' es)) p.
Proof.
  intros Hb HB HC. unfold touch. apply wp_modify. simpl. case_decide; [|by apply stay_good].
  split; [|destruct HC as [[] ???]; by split; [split| |..]|constructor].
  eapply base_mono; [| |by apply base_lastActivity]; lia.
Qed.

(** The queued branch: what the state and the environment are after [enqueue]. *)
Lemma enqueue_good b clk now p e service m c :
  b + 2 < u64_modulus → Base b clk p e → Ctl p e → c ∉ issued e →
  startedAt p ≤ now → members p !! service = Some m →
  let p1 := put_member service (set_queue (queue m ++ [Waiter (seq p + 1) c]) m)
              (set_seq (seq p + 1) p) in
  Z.of_nat (length (queue m)) < maxQueue m →
  wp (match state p with
      | StateIdle | StateError => startSwap service
      | StateActive =>
          started ← gets startedAt;
          g ← gets grace;
          if decide (g ≤ time_Sub now started) then startSwap service
          else armTimer tickGrace (int64_wrap (g - time_Sub now started))
      | StateSwapping => mret tt
      end) (returns (λ _ p' es, Good now (b + 2) clk (add_issued c e) p' es)) p1.
Proof.
  intros Hb HB HC Hc Hnow Hm p1 Hcap.
  replace (b + 2) with (b + 1 + 1) by lia.
  assert (HB1 : Base (b + 1) clk p1 (add_issued c e)).
  { pose proof (b_seq _ _ _ _ HB). eapply (base_put _ _ p e); try done.
    - eapply base_mono; [| |done]; lia.
    - lia.
    - simpl. apply queues_enqueue; try done; [apply HB|lia]. }
  assert (Hsome : is_Some (members p1 !! service)).
  { subst p1. simpl. rewrite lookup_insert_eq. eauto. }
  assert (HC1 : Core p1 (add_issued c e)) by (eapply core_put; [apply HC|done..]).
  destruct (state p) eqn:Hst.
  - apply startSwap_good; [lia|done..].
  - wp_steps. case_decide as Hg.
    + apply startSwap_good; [lia|done..].
    + apply armGrace_good; [lia|done|done|apply HC|done|].
      pose proof (b_grace _ _ _ _ HB). unfold time_Sub in *. simpl.
      rewrite int64_wrap_id; unfold int64_min, int64_max in *; lia.
  - apply stay_good; [done|]. split; [done|by left|apply HC|].
    intros due Hin. destruct (c_grace _ _ HC due Hin). congruence.
  - apply startSwap_good; [lia|done..].
Qed.

Lemma handleAdmit_good b clk now p e service c :
  b + 2 < u64_modulus → Base b clk p e → Ctl p e → c ∉ issued e → startedAt p ≤ now →
  wp (handleAdmit service c now)
    (returns (λ _ p' es, Good now (b + 2) clk (add_issued c e) p' es)) p.
Proof.
  intros Hb HB HC Hc Hnow. unfold handleAdmit. wp_steps.
  destruct (members p !! service) as [m|] eqn:Hm; wp_steps.
  - case_decide as Hst; wp_steps.
    + apply wp_good_cons; [done|]. simpl.
      apply (wp_good_mono _ _ (b + 1)); [lia|].
      apply touch_good; [lia|by apply base_reply|by apply (ctl_env _ e)].
    + assert (Hsq : u64_succ (seq p) = seq p + 1).
      { pose proof (b_seq _ _ _ _ HB). apply u64_succ_small; lia. }
      rewrite Hsq. unfold enqueue. case_bool_decide as Hcap; wp_steps.
      * apply (wp_good_mono _ _ (b + 1 + 1)); [lia|].
        replace m with (set_queue (queue m) m) by by destruct m.
        apply wp_emit. apply good_emit; [..|done|done|done].
        -- simpl. pose proof (b_seq _ _ _ _ HB). eapply (base_put _ _ p e); try done.
           ++ eapply base_mono; [| |done]; lia.
           ++ lia.
           ++ apply queues_reply_env; [|done]. apply (queues_seq_mono _ (seq p)); [|lia].
              replace (set_queue (queue m) m) with m by by destruct m.
              rewrite insert_id by done. apply HB.
        -- eapply ctl_put; [exact HC|done..].
      * eapply (enqueue_good b clk now p e); try done. lia.
  - apply (good_mono _ (b + 1)); [lia|].
    apply good_emit; [by apply base_reply|by apply (ctl_env _ e)|done..].
Qed.

Lemma handleCancel_good b clk now p e service c :
  b + 1 < u64_modulus → Base b clk p e → Ctl p e →
  wp (handleCancel service c)
    (returns (λ _ p' es, Good now (b + 1) clk (add_cancelled c e) p' es)) p.
Proof.
  intros Hb HB HC. unfold handleCancel. wp_steps.
  assert (HB' : ∀ p', Base b clk p' (add_cancelled c e) → Base (b + 1) clk p' (add_cancelled c e)).
  { intros p' ?. eapply base_mono; [| |done]; lia. }
  destruct (members p !! service) as [m|] eqn:Hm; wp_steps.
  - replace p with (set_seq (seq p) p) at 1 by by destruct p.
    split; [|by eapply ctl_put; [done..| |done|done]; intros ->|constructor].
    apply HB'. eapply base_put; try done; [apply HB|]. simpl.
    by apply queues_remove; [apply HB|].
  - split; [apply HB'|by apply (ctl_env _ e)|constructor].
    pose proof (b_queues _ _ _ _ HB) as HQ. revert HB. base.
    destruct HQ. split; try done. intros x Hx.
    destruct (q_conserve _ Hx) as [?|[?|?]]; [by left|by right; left|right; right]. by right.
Qed.

(** ** [handleTick] *)

(** Receiving one tick leaves the others; [Ctl] survives unless it was live. *)
Lemma tick_rest (p : Pool) (e : env) l1 t due0 l2 k due :
  timers e = l1 ++ (t, due0) :: l2 → t ≠ live_tick p k →
  (live_tick p k, due) ∈ timers e → (live_tick p k, due) ∈ timers (set_timers (l1 ++ l2) e).
Proof. simpl. intros -> Hne. rewrite !elem_of_app, elem_of_cons. naive_solver. Qed.

Lemma tick_sub (e : env) l1 (t : timerTick) (due0 : Z) l2 x :
  timers e = l1 ++ (t, due0) :: l2 → x ∈ timers (set_timers (l1 ++ l2) e) → x ∈ timers e.
Proof. simpl. intros ->. rewrite !elem_of_app, elem_of_cons. naive_solver. Qed.

Section tick.
Context (p : Pool) (e : env) (l1 : list (timerTick * Z)) (t : timerTick) (due0 : Z)
  (l2 : list (timerTick * Z)).
Context (Hl : timers e = l1 ++ (t, due0) :: l2).
Context (HC : Ctl p e).
Let e1 := set_timers (l1 ++ l2) e.

Lemma tick_core : Core p e1.
Proof. destruct HC as [[] ???]. by split. Qed.

Lemma tick_graceok : GraceOk p e1.
Proof. intros due Hin. apply (c_grace _ _ HC). by eapply tick_sub. Qed.

Lemma tick_waitok : t ≠ live_tick p tickGrace → WaitOk p e1.
Proof.
  intros Hne Hq. destruct (c_waiting _ _ HC Hq) as [?|[? [due Hin]]]; [by left|right].
  split; [done|]. exists due. by eapply tick_rest.
Qed.

Lemma tick_coolok : t ≠ live_tick p tickCooldown → CoolOk p e1.
Proof.
  intros Hne. destruct (c_cooldown _ _ HC) as [HK1 HK2]. split.
  - intros Hc. destruct (HK1 Hc) as [[due Hin] ?]. split; [|done].
    exists due. by eapply tick_rest.
  - intros due Hin. eapply HK2. by eapply tick_sub.
Qed.

Lemma tick_stale : (∀ k, t ≠ live_tick p k) → Ctl p e1.
Proof.
  intros Hne. split; [apply tick_core|apply tick_waitok|apply tick_coolok|apply tick_graceok]; done.
Qed.

End tick.

Lemma quiet_dec (ms : gmap string member) :
  ms !! "" = None → all_quiet ms ∨ ¬ all_quiet ms.
Proof.
  intros Hno. destruct (decide (oldestQueued ms = "")) as [?|Hne]; [left|right].
  - by apply oldestQueued_quiet.
  - by rewrite <- oldestQueued_quiet.
Qed.

Lemma handleGrace_good b clk now p e l1 t due0 l2 :
  b + 1 < u64_modulus → Base b clk p (set_timers (l1 ++ l2) e) → Ctl p e →
  timers e = l1 ++ (t, due0) :: l2 → tick_kind t = tickGrace →
  wp (handleTick t now)
    (returns (λ _ p' es, Good now (b + 1) clk (set_timers (l1 ++ l2) e) p' es)) p.
Proof.
  intros Hb HB HC Hl Hk. unfold handleTick. wp_steps. rewrite Hk.
  pose proof (b_noname _ _ _ _ HB) as Hno.
  assert (Hcool : t ≠ live_tick p tickCooldown) by (intros ->; done).
  case_decide as Hlive.
  { apply stay_good; [done|]. eapply tick_stale; [done..|]. intros k ->. by destruct k. }
  wp_steps. case_decide as Hst; [|wp_steps; case_decide as Hnext].
  - apply stay_good; [done|].
    split; [by eapply tick_core| |by eapply tick_coolok|by eapply tick_graceok].
    intros Hq. destruct (c_waiting _ _ HC Hq) as [?|[? _]]; [by left|done].
  - apply startSwap_good; [done..|]. by apply oldestQueued_member.
  - apply stay_good; [done|].
    split; [by eapply tick_core| |by eapply tick_coolok|by eapply tick_graceok].
    intros []. by apply oldestQueued_quiet.
Qed.

Lemma handleCooldown_good b clk now p e l1 t due0 l2 :
  b + 1 < u64_modulus → Base b clk p (set_timers (l1 ++ l2) e) → Ctl p e →
  timers e = l1 ++ (t, due0) :: l2 → tick_kind t = tickCooldown →
  wp (handleTick t now)
    (returns (λ _ p' es, Good now (b + 1) clk (set_timers (l1 ++ l2) e) p' es)) p.
Proof.
  intros Hb HB HC Hl Hk. unfold handleTick. wp_steps. rewrite Hk.
  pose proof (b_noname _ _ _ _ HB) as Hno.
  assert (Hgr : t ≠ live_tick p tickGrace) by (intros ->; done).
  case_decide as Hlive.
  { apply stay_good; [done|]. eapply tick_stale; [done..|]. intros k ->. by destruct k. }
  assert (Ht : t = live_tick p tickCooldown).
  { destruct t as [k ep]. simpl in *. subst k. unfold live_tick. by f_equal. }
  assert (Harmed : cooldownArmed p = true).
  { eapply (proj2 (c_cooldown _ _ HC) due0). rewrite Hl, Ht. set_solver. }
  destruct (proj1 (c_cooldown _ _ HC) Harmed) as [_ Hwhere].
  pose proof (tick_waitok p e l1 t due0 l2 Hl HC Hgr) as HW.
  pose proof (tick_graceok p e l1 t due0 l2 Hl HC) as HG.
  pose proof (tick_core p e l1 l2 HC) as HK.
  wp_steps. destruct Hwhere as [[Hst Hdef]|[Hst Hdef]].
  - rewrite decide_True by done. assert (Hq : all_quiet (members p)).
    { destruct (quiet_dec _ Hno) as [?|Hq]; [done|].
      destruct (c_waiting _ _ HC Hq) as [?|[? _]]; congruence. }
    rewrite decide_True by (split; [done|by apply oldestQueued_quiet]).
    apply startSwap_good; [done..|]. by destruct (b_default _ _ _ _ HB).
  - rewrite decide_False by congruence. rewrite decide_False by (by intros []).
    wp_steps. case_decide as Hnext; [by apply armCooldown_good; auto|].
    wp_steps. case_decide as Hidle; [by apply armCooldown_good; auto|].
    wp_steps. case_decide as Hd; [case_decide as Ha|].
    + apply startSwap_good; [done..|]. by destruct (b_default _ _ _ _ HB).
    + exfalso. destruct Hdef as [?|[]]; done.
    + by apply startStopAll_good.
Qed.

(** ** [handleSwap] *)

(** The only report that is not ignored is that of the worker the manager is
    waiting for; with it no worker of the current operation is left. *)
Lemma report_live b clk p e l1 w l2 msg :
  Base b clk p e → Ctl p e → workers e = l1 ++ w :: l2 → report_ok w msg →
  msg_op msg = opSeq p →
  state p = StateSwapping ∧ w = live_work p ∧
  (∀ w', w' ∈ l1 ++ l2 → work_op w' ≠ opSeq p).
Proof.
  intros HB HC Hl (Hop & _ & _) Hmsg.
  assert (Hw : w ∈ workers e) by (rewrite Hl; set_solver).
  assert (Hopw : work_op w = opSeq p) by congruence.
  pose proof (b_wnodup _ _ _ _ HB) as Hnd.
  assert (Hst : state p = StateSwapping).
  { destruct (decide (state p = StateSwapping)) as [?|Hst]; [done|].
    by destruct (c_dead _ _ (c_core _ _ HC) Hst w Hw). }
  split_and!; [done| |].
  - eapply NoDup_map_inj; [done..|by apply (c_core _ _ HC)|].
    by rewrite Hopw, live_work_op.
  - intros w' Hw' Heq. rewrite Hl, map_app in Hnd. simpl in Hnd.
    apply NoDup_app in Hnd as (Hnd1 & Hnd2 & [Hnd3 _]%NoDup_cons).
    apply elem_of_app in Hw' as [Hw'|Hw'].
    + apply (Hnd2 (work_op w')); [by apply list_elem_of_fmap_2|].
      rewrite Heq, Hopw. by left.
    + apply Hnd3. rewrite Hopw, <- Heq. by apply list_elem_of_fmap_2.
Qed.

(** A worker whose report is not current is dropped. *)
Lemma stale_report p e l1 w l2 :
  Ctl p e → workers e = l1 ++ w :: l2 → work_op w ≠ opSeq p →
  Ctl p (set_workers (l1 ++ l2) e).
Proof.
  intros [[] HW HK HG] Hl Hne. split; [|done..]. split; simpl; try done.
  - intros Hst. specialize (c_live Hst). rewrite Hl in c_live.
    apply elem_of_app in c_live as [?|[Heq|?]%elem_of_cons];
      [apply elem_of_app; by left| |apply elem_of_app; by right].
    destruct Hne. by rewrite <- Heq, live_work_op.
  - intros Hst w' Hw'. apply (c_dead Hst). rewrite Hl. set_solver.
Qed.

(** The manager after a terminal report, before it decides what comes next. *)
Definition after_report (st : PoolState) (act : string) (p : Pool) : Pool :=
  publish_state (settled st act (set_swapCancel None p)).

Lemma after_report_settled p e e' st act :
  Ctl p e → state p = StateSwapping →
  (st = StateActive ∧ is_Some (members p !! act) ∨ st = StateIdle ∧ act = "") →
  (∀ w, w ∈ workers e' → work_op w ≠ opSeq p) → timers e' = timers e →
  Settled (after_report st act p) e'.
Proof.
  intros [HC HW HK HG] Hst Hact Hdead Ht. split.
  - destruct Hact as [[-> Hm]|[-> ->]]; split; simpl; done.
  - by destruct Hact as [[-> _]|[-> _]].
  - simpl. destruct (cooldownArmed p) eqn:Hc; [|done].
    destruct (proj1 HK Hc) as [_ [[? _]|[? _]]]; congruence.
  - intros k due. rewrite Ht. intros Hin. destruct k.
    + destruct (HG due Hin). congruence.
    + specialize (proj2 HK due Hin) as Hc.
      destruct (proj1 HK Hc) as [_ [[? _]|[? _]]]; congruence.
Qed.

Lemma settled_put p e e' n m q' :
  Settled p e → members p !! n = Some m → workers e' = workers e → timers e' = timers e →
  Settled (put_member n (set_queue q' m) p) e'.
Proof.
  intros [HC Hst Hcool Htick] Hm Hw Ht. split; [|done..|].
  - pose proof (core_put p e e' n m q' (seq p) HC Hm Hw) as H. by destruct p.
  - intros k due. rewrite Ht. apply Htick.
Qed.

Lemma base_after_report b clk now p e st act :
  Base b clk p e →
  Base b clk (after_report st act p) (performs now e (cancel_effects p)).
Proof.
  intros HB. apply base_publish, base_settled. by apply base_release.
Qed.

Section report.
Context (b clk now now2 : Z) (p : Pool) (e : env).
Context (Hb : b + 1 < u64_modulus).
Context (HB : Base b clk p e).

(** Flush the target; decide what comes next. [xs] are actions of the report
    that change nothing in the environment. *)
Lemma finish_good st act t m r (activated : bool) xs :
  Settled (after_report st act p) (performs now e (cancel_effects p)) →
  st = (if activated then StateActive else StateIdle) →
  members p !! t = Some m → (activated = true → startedAt p = now) →
  (∀ e', performs now e' xs = e') → Forall is_clean xs →
  wp (flush_member t r;; chainAfterTerminal activated now2)
    (λ o p' es, returns (λ _ p' es, Good now (b + 1) clk e p' es) o p'
       (cancel_effects p ++ xs ++ es)) (after_report st act p).
Proof.
  intros HS Hst Hm Hstart Hxs Hclean. apply wp_bind.
  eapply wp_eq; [by apply flush_member_eq|]. simpl.
  eapply wp_mono;
    [|apply (wp_good_app _ now (b + 1) clk e ((cancel_effects p ++ xs) ++ reply_all m r))].
  - intros o p' es H. by rewrite !(assoc_L (++)).
  - rewrite !Forall_app. split_and!; [apply clean_cancel|done|apply clean_replies].
  - rewrite !performs_app, Hxs.
    apply chain_good; [exact Hb| | |exact Hst|exact Hstart].
    + apply base_flush; [|done]. by apply base_after_report.
    + eapply settled_put; [done..| |]; by rewrite performs_replies.
Qed.

End report.

Ltac run_eq lem := apply wp_bind; eapply wp_eq; [apply lem|]; simpl.

Lemma handleSwap_good b clk now now2 p e l1 w l2 msg :
  b + 1 < u64_modulus → Base b clk p (set_workers (l1 ++ l2) e) → Base b clk p e → Ctl p e →
  workers e = l1 ++ w :: l2 → report_ok w msg → now ≤ clk →
  wp (handleSwap msg now now2)
    (returns (λ _ p' es, Good now (b + 1) clk (set_workers (l1 ++ l2) e) p' es)) p.
Proof.
  intros Hb HB1 HB HC Hl Hrep Hnow. unfold handleSwap. wp_steps. case_decide as Hop.
  { apply stay_good; [done|]. eapply stale_report; [done..|].
    destruct Hrep as [<- _]. done. }
  destruct (report_live _ _ _ _ _ _ _ _ HB HC Hl Hrep Hop) as (Hst & Hw & Hdead).
  set (e1 := set_workers (l1 ++ l2) e) in *.
  assert (HS : ∀ st act,
    st = StateActive ∧ is_Some (members p !! act) ∨ st = StateIdle ∧ act = "" →
    Settled (after_report st act p) (performs now e1 (cancel_effects p))).
  { intros st act Hact. eapply (after_report_settled p e); try done.
    - by rewrite performs_cancel.
    - by rewrite performs_cancel. }
  assert (Hmem : ∀ op t, w = WSwap op t → ∃ m, members p !! t = Some m).
  { intros op t Heq. eapply (b_wtarget _ _ _ _ HB op). rewrite Hl, <- Heq. set_solver. }
  destruct Hrep as (_ & Htgt & Hkind). rewrite Htgt.
  run_eq release_ctx_eq. destruct w as [op t|op]; simpl in Hkind.
  - destruct (Hmem op t eq_refl) as [m Hm].
    destruct (msg_kind msg); [| | |done].
    + run_eq settle_eq. apply wp_bind, wp_modify. run_eq publish_eq.
      apply (finish_good b clk now now2 (set_startedAt now p) e1 Hb) with (m := m)
        (xs := [Publish {| snap_State := StateActive; snap_ActiveService := t |}]);
        [by apply base_startedAt| |done..|by repeat constructor].
      destruct (HS StateActive t) as [[] ? ? ?]; [left; eauto|]. split; [by split|done..].
    + run_eq settle_eq. run_eq publish_eq.
      apply (finish_good b clk now now2 p e1 Hb HB1) with (m := m)
        (xs := [Publish snap_idle]); [|done..|by repeat constructor].
      apply HS. by right.
    + apply wp_bind, wp_gets. simpl. rewrite Hm. simpl.
      apply wp_bind, wp_mret, wp_bind, wp_emit. run_eq settle_eq. run_eq publish_eq.
      apply (finish_good b clk now now2 p e1 Hb HB1) with (m := m)
        (xs := [GoTeardown (containerName m); Publish snap_idle]); [|done..|by repeat constructor].
      apply HS. by right.
  - rewrite Hkind. run_eq settle_eq. run_eq publish_eq.
    apply (wp_snoc _ (returns (λ _ p' es, Good now (b + 1) clk e1 p' es))).
    apply wp_good_app; [apply Forall_app; split; [apply clean_cancel|by repeat constructor]|].
    rewrite performs_app. apply chain_good; [done| |apply HS; by right|done|done].
    by apply base_after_report.
Qed.

(** ** Admin operations *)

(** An answer sent after the handler has finished. *)
Lemma answer_good {A} (m : M A) (f : A → effect) now b clk e p :
  (∀ a e', perform now e' (f a) = e') → (∀ a, is_clean (f a)) →
  wp m (returns (λ _ p' es, Good now b clk e p' es)) p →
  wp (m ≫= λ a, emit (f a)) (returns (λ _ p' es, Good now b clk e p' es)) p.
Proof.
  intros Hf Hc Hm. apply wp_bind. eapply wp_mono; [|exact Hm].
  intros [a| |] p' es; simpl; [|done..]. intros [HB HC Hcl].
  apply wp_emit. simpl. split; rewrite ?performs_app; simpl; rewrite ?Hf; [done..|].
  apply Forall_app. split; [done|]. by repeat constructor.
Qed.

Lemma wp_ret_after {A B} (m : M A) (v : B) now b clk e p :
  wp m (returns (λ _ p' es, Good now b clk e p' es)) p →
  wp (m ≫= λ _, mret v) (returns (λ _ p' es, Good now b clk e p' es)) p.
Proof.
  intros Hm. apply wp_bind. eapply wp_mono; [|exact Hm].
  intros [a| |] p' es; simpl; [|done..]. intros HG. apply wp_mret. simpl.
  by rewrite app_nil_r.
Qed.

Lemma ret_good {A} (v : A) now b clk e p :
  Base b clk p e → Ctl p e →
  wp (mret v) (returns (λ _ p' es, Good now (b + 1) clk e p' es)) p.
Proof. intros HB HC. apply wp_mret. by apply stay_good. Qed.

Lemma good_nil now b clk e p : Base b clk p e → Ctl p e → Good now (b + 1) clk e p [].
Proof. apply stay_good. Qed.

Lemma ctl_adminPending p e v : Ctl p e → Ctl (set_adminPending v p) e.
Proof. intros [[] ???]. by split; [split|..]. Qed.

Lemma handleAdminSwap_good b clk now p e service :
  b + 1 < u64_modulus → Base b clk p e → Ctl p e →
  wp (handleAdminSwap service) (returns (λ _ p' es, Good now (b + 1) clk e p' es)) p.
Proof.
  intros Hb HB HC. unfold handleAdminSwap. wp_steps.
  destruct (members p !! service) as [m|] eqn:Hm; [|by apply ret_good].
  assert (Hs : is_Some (members p !! service)) by eauto.
  wp_steps. destruct (state p) eqn:Hst.
  - apply wp_ret_after. by apply startSwap_good.
  - wp_steps. case_decide; [by apply ret_good|]. apply wp_ret_after. by apply startSwap_good.
  - wp_steps. case_decide; [by apply ret_good|]. wp_steps.
    apply good_nil; [|by apply ctl_adminPending].
    apply base_adminPending; [by right|done].
  - apply wp_ret_after. by apply startSwap_good.
Qed.

(** What [flush_all] leaves: the same pool, with every queue empty. *)
Definition Flushed (now b clk : Z) (p : Pool) (e : env) (p' : Pool) (es : list effect) : Prop :=
  ∃ ms, p' = set_members ms p ∧ all_quiet ms ∧
  (∀ n, is_Some (ms !! n) ↔ is_Some (members p !! n)) ∧
  Base b clk p' (performs now e es) ∧ Forall is_clean es ∧
  workers (performs now e es) = workers e ∧ timers (performs now e es) = timers e.

Lemma flush_all_spec b clk now p e r :
  Base b clk p e →
  wp (flush_all r) (returns (λ _ p' es, Flushed now b clk p e p' es)) p.
Proof.
  intros HB. unfold flush_all. wp_steps.
  pose (Inv := λ (l : list string) (p' : Pool) (es : list effect), ∃ ms,
    p' = set_members ms p ∧
    (∀ n, n ∈ l → is_Some (ms !! n)) ∧
    (∀ n m, ms !! n = Some m → n ∈ l ∨ queue m = []) ∧
    (∀ n, is_Some (ms !! n) ↔ is_Some (members p !! n)) ∧
    Base b clk p' (performs now e es) ∧ Forall is_clean es ∧
    workers (performs now e es) = workers e ∧ timers (performs now e es) = timers e).
  eapply wp_mono; [|apply (wp_for_each _ Inv)].
  - intros [[]| |] p' es; simpl; [|done..].
    intros (ms & -> & _ & Hq & Hdom & ? & ? & ? & ?). exists ms. split_and!; try done.
    intros n m Hm. destruct (Hq n m Hm) as [Hin|?]; [|done]. by apply not_elem_of_nil in Hin.
  - exists (members p). split_and!; try done; [by destruct p| |].
    + intros n ([n' m] & -> & Hin)%list_elem_of_fmap. apply elem_of_map_to_list in Hin. eauto.
    + intros n m Hm. left. apply list_elem_of_fmap. exists (n, m).
      by rewrite elem_of_map_to_list.
  - intros n l p' es (ms & -> & Hl & Hq & Hdom & HB' & Hcl & Hw & Ht).
    destruct (Hl n) as [m Hm]; [by left|].
    eapply wp_eq; [by apply flush_member_eq|]. simpl.
    exists (<[n := set_queue [] m]> ms). split_and!.
    + done.
    + intros n' Hn'. destruct (decide (n' = n)) as [->|].
      * rewrite lookup_insert_eq. eauto.
      * rewrite lookup_insert_ne by done. apply Hl. by right.
    + intros n' m' [[<- <-]|[Hne Hm']]%lookup_insert_Some; [by right|].
      destruct (Hq _ _ Hm') as [[->|?]%elem_of_cons|?]; [done|by left|by right].
    + intros n'. rewrite <- Hdom. destruct (decide (n' = n)) as [->|].
      * rewrite lookup_insert_eq, Hm. split; eauto.
      * by rewrite lookup_insert_ne.
    + rewrite performs_app. by apply base_flush.
    + apply Forall_app. split; [done|apply clean_replies].
    + by rewrite performs_app, performs_replies.
    + by rewrite performs_app, performs_replies.
Qed.

Lemma ctl_quiet p e e' ms :
  Ctl p e → all_quiet ms → (∀ n, is_Some (members p !! n) → is_Some (ms !! n)) →
  workers e' = workers e → timers e' = timers e → Ctl (set_members ms p) e'.
Proof.
  intros [[] HW HK HG] Hq Hdom Hw Ht.
  split; [split; simpl; rewrite ?Hw; auto| by intros []| |]; unfold CoolOk, GraceOk;
    by rewrite ?Ht.
Qed.

Lemma handleAdminStop_good b clk now p e :
  b + 1 < u64_modulus → Base b clk p e → Ctl p e →
  wp handleAdminStop (returns (λ _ p' es, Good now (b + 1) clk e p' es)) p.
Proof.
  intros Hb HB HC. unfold handleAdminStop. apply wp_bind, wp_modify. simpl.
  apply wp_bind. eapply wp_mono; [|apply (flush_all_spec b clk now _ e)].
  2: { apply base_adminPending; [by left|done]. }
  intros [[]| |] p' es; simpl; [|done..].
  intros (ms & -> & Hq & Hdom & HB' & Hcl & Hw & Ht).
  apply wp_bind, wp_gets. simpl.
  destruct (state p) eqn:Hst; (apply (wp_good_app _ now (b + 1) clk e es); [exact Hcl|]);
    [|apply wp_ret_after; by apply startStopAll_good..].
  apply ret_good; [done|]. eapply ctl_quiet; [by apply ctl_adminPending|done| |done..].
  intros n. by rewrite Hdom.
Qed.

(** ** External events *)

(** The state in which the service of a dead container is flushed. *)
Lemma died_settled (p p' : Pool) e e' b clk :
  Base b clk p e → b + 1 < u64_modulus → Ctl p e →
  (state p = StateActive ∧
     p' = publish_state (bumped (set_active "" (set_state StateError p))) ∨
   state p = StateSwapping ∧ p' = publish_state (settled StateError "" (superseded p))) →
  workers e' = workers e → timers e' = timers e →
  Settled p' e'.
Proof.
  intros HB Hb [HC HW HK HG] Hp' Hw Ht.
  pose proof (b_opSeq _ _ _ _ HB) as Hop.
  assert (Hsucc : u64_succ (opSeq p) = opSeq p + 1) by (apply u64_succ_small; lia).
  destruct Hp' as [[Hst ->]|[Hst ->]]; split; simpl; try done.
  - destruct HC. split; simpl; try done.
    + intros _. apply c_target. congruence.
    + rewrite c_cancel, Hst. done.
    + intros _ w. rewrite Hw. apply c_dead. congruence.
  - intros [] due; rewrite Ht; by eapply no_live_tick.
  - split; simpl; try done.
    intros _ w. rewrite Hw, Hsucc. intros Hin.
    pose proof (b_wops _ _ _ _ HB w Hin). lia.
  - destruct (cooldownArmed p) eqn:Hc; [|done].
    destruct (proj1 HK Hc) as [_ [[? _]|[? _]]]; congruence.
  - intros [] due; rewrite Ht; intros Hin.
    + destruct (HG due Hin). congruence.
    + specialize (proj2 HK due Hin) as Hc.
      destruct (proj1 HK Hc) as [_ [[? _]|[? _]]]; congruence.
Qed.

(** Flush the dead service, then serve whoever has waited longest. *)
Lemma flush_chain_good b clk now p e n m r es :
  b + 1 < u64_modulus → Base b clk p (performs now e es) → Settled p (performs now e es) →
  members p !! n = Some m → Forall is_clean es →
  wp (flush_member n r;; chainNow)
    (λ o p' es', returns (λ _ p' es, Good now (b + 1) clk e p' es) o p' (es ++ es')) p.
Proof.
  intros Hb HB HS Hm Hcl. apply wp_bind. eapply wp_eq; [by apply flush_member_eq|]. simpl.
  eapply wp_mono; [|apply (wp_good_app _ now (b + 1) clk e (es ++ reply_all m r))].
  - intros o p' es' H. by rewrite (assoc_L (++)).
  - apply Forall_app. split; [done|apply clean_replies].
  - rewrite performs_app. apply chainNow_good; [done|by apply base_flush|].
    eapply settled_put; [done..| |]; by rewrite performs_replies.
Qed.

Lemma handleExternalEvent_good b clk now p e ev :
  b + 2 < u64_modulus → Base b clk p e → Ctl p e →
  wp (handleExternalEvent ev) (returns (λ _ p' es, Good now (b + 2) clk e p' es)) p.
Proof.
  intros Hb HB HC. unfold handleExternalEvent. wp_steps.
  assert (Hstay : wp (mret ()) (returns (λ _ p' es, Good now (b + 2) clk e p' es)) p).
  { apply (wp_good_mono _ _ (b + 1)); [lia|]. by apply stay_good. }
  destruct (memberByContainer _ _) as [svc|] eqn:Hsvc; [|done].
  apply memberByContainer_Some in Hsvc as [_ [n Hn]].
  assert (Hname : members p !! name svc = Some svc).
  { by rewrite (b_names _ _ _ _ HB _ _ Hn). }
  wp_steps. case_if as Hstop.
  - destruct (state p) eqn:Hst; [done| | |done].
    + case_decide as Hact; [done|]. apply wp_bind, wp_modify. simpl.
      apply wp_bind, wp_modify. simpl. run_eq bumpEpochs_eq. run_eq publish_eq.
      replace (b + 2) with (b + 1 + 1) by lia.
      apply (flush_chain_good (b + 1) clk now _ e (name svc) svc _ [Publish snap_error]);
        [lia| | |done|by repeat constructor]; simpl.
      * apply base_publish, base_bumped; [lia|]. revert HB. base.
      * eapply (died_settled p); try done; [lia|]. by left.
    + case_decide as Hact; [done|]. run_eq supersedeWorker_eq.
      run_eq settle_eq. run_eq publish_eq.
      replace (b + 2) with (b + 1 + 1) by lia.
      apply (wp_snoc _ (returns (λ _ p' es, Good now (b + 1 + 1) clk e p' es))).
      apply (flush_chain_good (b + 1) clk now _ e (name svc) svc);
        [lia| | |done|apply Forall_app; split; [apply clean_cancel|by repeat constructor]];
        rewrite performs_app; simpl.
      * apply base_publish, base_settled. apply base_superseded; [lia|done].
      * eapply (died_settled p _ e); try done; [lia|by right|..]; by rewrite performs_cancel.
  - case_if as Hstart; [|done]. clear Hstart. do 2 (case_decide; [done|]).
    apply wp_emit. simpl. apply (good_mono _ (b + 1)); [lia|]. by apply good_emit.
Qed.

(** ** One message *)

Lemma handle_good b clk now1 now2 closed p e i e1 :
  b + 2 < u64_modulus → Base b clk p e → Ctl p e →
  startedAt p ≤ now1 → now1 ≤ clk → take closed now1 e i e1 → i ≠ InDone →
  wp (handle i now1 now2) (returns (λ _ p' es, Good now1 (b + 2) clk e1 p' es)) p.
Proof.
  intros Hb HB HC Hnow Hclk Htake Hi.
  assert (Hb1 : b + 1 < u64_modulus) by lia.
  assert (Hbb : b + 1 ≤ b + 2) by lia.
  assert (HB1 : (∀ service c, i ≠ InCmd (admitCmd service c)) →
    (∀ service c, i ≠ InCmd (cancelCmd service c)) → Base b clk p e1).
  { intros. by eapply take_base. }
  destruct Htake as [s c Hc|s c Hc| | |s| |l1 w l2 msg Hl Hrep|l1 t due l2 Hl Hdue|s|ev|];
    simpl; [by apply handleAdmit_good| |..|by apply handleExternalEvent_good|done];
    apply (wp_good_mono _ _ (b + 1)); try done.
  - by apply handleCancel_good.
  - wp_steps. by apply good_emit.
  - wp_steps. by apply good_emit.
  - apply answer_good; [done..|]. by apply handleAdminSwap_good.
  - apply answer_good; [done..|]. by apply handleAdminStop_good.
  - eapply handleSwap_good; [done|by apply HB1|done..].
  - destruct (tick_kind t) eqn:Hk.
    + eapply handleGrace_good; [done|by apply HB1|done..].
    + eapply handleCooldown_good; [done|by apply HB1|done..].
  - by apply touch_good.
Qed.
