(* ===== verification/Reachable.v ===== *)
(** * Reachable states of a pool

    The invariant holds initially and after every step, so it holds in every
    state a validated configuration can reach. *)

From S2P Require Import Prelude State Queue Pool PoolFacts QueueInv System Invariant.
From S2P Require Import Handlers.
Open Scope Z_scope.

(** After the manager has returned: empty queues, nobody left without an answer. *)
Record Stopped (p : Pool) (e : env) : Prop := {
  stopped_quiet : all_quiet (members p);
  stopped_snap : snap p = {| snap_State := StateIdle; snap_ActiveService := "" |};
  stopped_queues : ∃ sq, Queues (members p) sq (issued e) (cancelled e) (replied e).*1
}.

Definition Inv (n : nat) (s : System) : Prop :=
  if running s
  then Base (2 * Z.of_nat n) (clock s) (pool s) (environment s) ∧ Ctl (pool s) (environment s)
  else Stopped (pool s) (environment s).

(** ** The initial state *)

Lemma new_members_lookup l n m :
  new_members l !! n = Some m → ∃ mc, mc ∈ l ∧ m = new_member mc ∧ n = mc_Name mc.
Proof.
  unfold new_members. revert n m. induction l as [|mc l IH] using rev_ind; intros n m.
  { simpl. by rewrite lookup_empty. }
  rewrite foldl_snoc. intros [[<- <-]|[Hne Hm]]%lookup_insert_Some.
  - exists mc. set_solver.
  - destruct (IH _ _ Hm) as (mc' & ? & ? & ?). exists mc'. set_solver.
Qed.

Lemma new_members_Some l n : n ∈ map mc_Name l → is_Some (new_members l !! n).
Proof.
  unfold new_members. induction l as [|mc l IH] using rev_ind; [by intros ?%not_elem_of_nil|].
  rewrite foldl_snoc, map_app. simpl.
  intros [Hin|Hin%list_elem_of_singleton]%elem_of_app.
  - destruct (decide (mc_Name mc = n)) as [<-|]; [rewrite lookup_insert_eq; eauto|].
    rewrite lookup_insert_ne by done. auto.
  - subst. rewrite lookup_insert_eq. eauto.
Qed.

Lemma new_members_quiet l : all_quiet (new_members l).
Proof. by intros n m (mc & _ & -> & _)%new_members_lookup. Qed.

Lemma init_inv cfg t0 : config_ok cfg → time_Zero ≤ t0 → Inv 0 (init cfg t0).
Proof.
  intros (Hnames & Hdef & Hg & Hc) Ht0. pose proof (new_members_quiet (pc_Members cfg)) as Hq.
  split; [split|split]; simpl; try done.
  - by intros n m (mc & _ & -> & ->)%new_members_lookup.
  - destruct (new_members (pc_Members cfg) !! "") as [m|] eqn:Hm; [|done].
    apply new_members_lookup in Hm as (mc & Hin & _ & Heq). by destruct (Hnames mc).
  - destruct Hdef as [?|Hdef]; [by left|right]. by apply new_members_Some.
  - by left.
  - by intros [].
  - by apply queues_empty.
  - by intros w ?%not_elem_of_nil.
  - constructor.
  - by intros op t ?%not_elem_of_nil.
  - by intros w ?%not_elem_of_nil.
  - by intros t due ?%not_elem_of_nil.
  - split; try done. by intros _ w ?%not_elem_of_nil.
  - by intros [].
  - split; [done|]. by intros due ?%not_elem_of_nil.
  - by intros due ?%not_elem_of_nil.
Qed.

(** ** Steps *)

Lemma shutdown_spec b clk now p e :
  Base b clk p e →
  wp shutdown (returns (λ _ p' es, Stopped p' (performs now e es) ∧ Forall is_clean es)) p.
Proof.
  intros HB. unfold shutdown. apply wp_bind, wp_modify. simpl.
  apply wp_bind, wp_modify. simpl. run_eq publish_eq.
  eapply wp_mono; [|apply (flush_all_spec b clk now _ e)].
  - intros [[]| |] p' es; simpl; [|done..].
    intros (ms & -> & Hq & _ & HB' & Hcl & _ & _). split; [|by constructor]. split; [done..|].
    exists (seq p). apply (b_queues _ _ _ _ HB').
  - apply base_publish. revert HB. base.
Qed.

(** A message that is not the end of the pool leaves the invariant, and no nil
    member is handed to a worker. *)
Lemma handle_inv n s i now1 now2 e1 p' es :
  2 * Z.of_nat n + 2 < u64_modulus → Inv n s → running s = true → is_done i = false →
  clock s ≤ now1 → now1 ≤ now2 → take (closed s) now1 (environment s) i e1 →
  handle i now1 now2 (pool s) = (Ret tt, p', es) →
  Good now1 (2 * Z.of_nat n + 2) now2 e1 p' es.
Proof.
  intros Hn HI Hrun Hi H1 H2 Htake Hh. unfold Inv in HI. rewrite Hrun in HI.
  destruct HI as [HB HC].
  assert (HBc : Base (2 * Z.of_nat n) now2 (pool s) (environment s)).
  { eapply base_mono; [| |done]; lia. }
  assert (Hgood : wp (handle i now1 now2) (returns (λ _ p' es,
    Good now1 (2 * Z.of_nat n + 2) now2 e1 p' es)) (pool s)).
  { eapply handle_good; try done; [pose proof (b_started _ _ _ _ HB); lia|by intros ->]. }
  unfold wp in Hgood. by rewrite Hh in Hgood.
Qed.

Lemma step_inv n s s' :
  2 * Z.of_nat n + 2 < u64_modulus → Inv n s → step s s' → Inv (S n) s'.
Proof.
  intros Hn HI Hstep.
  destruct Hstep as [s i now1 now2 e1 p' es Hrun H1 H2 Htake Hh|s]; unfold Inv; simpl.
  - destruct (is_done i) eqn:Hi; simpl.
    + unfold Inv in HI. rewrite Hrun in HI. destruct HI as [HB HC].
      destruct i; try done. simpl in Hh. inversion Htake; subst.
      pose proof (shutdown_spec _ _ now1 _ _ HB) as Hs. unfold wp in Hs. rewrite Hh in Hs.
      apply Hs.
    + destruct (handle_inv n s i now1 now2 e1 p' es) as [HB' HC' _]; [done..|].
      split; [|done]. eapply base_mono; [| |done]; lia.
  - unfold Inv in HI. destruct (running s); [|done]. destruct HI as [HB HC]. split; [|done].
    eapply base_mono; [| |done]; lia.
Qed.

Lemma nsteps_inv n m s s' :
  2 * Z.of_nat (n + m) < u64_modulus → Inv n s → nsteps step m s s' → Inv (n + m) s'.
Proof.
  revert n s. induction m as [|m IH]; intros n s Hn HI Hsteps.
  - inversion Hsteps; subst. by rewrite Nat.add_0_r.
  - inversion Hsteps as [|? ? s1 ? Hstep Hrest]; subst.
    rewrite <- Nat.add_succ_comm. eapply IH; [|eapply step_inv; [|done..]|done]; lia.
Qed.

Lemma reach_inv cfg n s :
  config_ok cfg → Z.of_nat n < max_steps → reach cfg n s → Inv n s.
Proof.
  intros Hcfg Hn (t0 & Ht0 & Hsteps). unfold max_steps, u64_modulus in *.
  apply (nsteps_inv 0 n (init cfg t0)); [unfold u64_modulus; lia| |done].
  by apply init_inv.
Qed.

Lemma reach_running cfg n s :
  config_ok cfg → Z.of_nat n < max_steps → reach cfg n s → running s = true →
  Base (2 * Z.of_nat n) (clock s) (pool s) (environment s) ∧ Ctl (pool s) (environment s).
Proof.
  intros Hcfg Hn Hr Hrun. pose proof (reach_inv _ _ _ Hcfg Hn Hr) as HI.
  unfold Inv in HI. by rewrite Hrun in HI.
Qed.

Lemma reach_queues cfg n s :
  config_ok cfg → Z.of_nat n < max_steps → reach cfg n s →
  ∃ sq, Queues (members (pool s)) sq (issued (environment s)) (cancelled (environment s))
          (replied (environment s)).*1.
Proof.
  intros Hcfg Hn Hr. pose proof (reach_inv _ _ _ Hcfg Hn Hr) as HI. unfold Inv in HI.
  destruct (running s); [exists (seq (pool s)); apply HI|apply HI].
Qed.
