(* ===== verification/Demo.v ===== *)
(** * A concrete run

    A pool with two services, driven through a cold start, a swap deferred by the
    grace period and the death of the active container. The witnesses of the
    theorems on reachable states use these states. *)

From S2P Require Import Prelude State Queue Pool System.
Open Scope Z_scope.

Definition sec : Z := time_Second.

Definition demo_member (n : string) : MemberConfig :=
  {| mc_Name := n; mc_ContainerName := n +:+ "-container";
     mc_HealthURL := "http://" +:+ n +:+ ":8080/health";
     mc_StartupTimeout := 180 * sec; mc_MaxQueue := 100 |}.

Definition demo_cfg : PoolConfig :=
  {| pc_Name := "gpu"; pc_GracePeriod := 60 * sec; pc_Cooldown := 300 * sec;
     pc_DefaultService := ""; pc_Members := [demo_member "llama"; demo_member "comfy"] |}.

Definition complete (op : Z) (t : string) : swapMsg :=
  {| msg_op := op; msg_target := t; msg_kind := swapComplete; msg_err := None |}.

Definition demo_admit (s : System) (service : string) (c : chan) (now : Z) : System :=
  run_step s (InCmd (admitCmd service c)) now now (add_issued c (environment s)).

Definition demo_report (s : System) (msg : swapMsg) (now : Z) : System :=
  run_step s (InSwap msg) now now (set_workers [] (environment s)).

(** A cold start of [llama]; its swap completes; [comfy] is asked for 10 s later. *)
Definition demo0 : System := init demo_cfg 0.
Definition demo1 : System := demo_admit demo0 "llama" 1 (1 * sec).
Definition demo2 : System := demo_report demo1 (complete 1 "llama") (20 * sec).
Definition demo3 : System := demo_admit demo2 "comfy" 2 (30 * sec).

Ltac demo_step :=
  eapply step_run;
  [reflexivity|vm_compute; discriminate|vm_compute; discriminate| |vm_compute; reflexivity].

Lemma demo_cfg_ok : config_ok demo_cfg.
Proof.
  split_and!; [|by left|vm_compute; discriminate|vm_compute; discriminate].
  simpl. intros mc Hin. apply elem_of_cons in Hin as [->|Hin]; [done|].
  by apply list_elem_of_singleton in Hin as ->.
Qed.

Lemma demo_take_admit s now service c :
  bool_decide (c ∈ issued (environment s)) = false →
  take (closed s) now (environment s) (InCmd (admitCmd service c))
    (add_issued c (environment s)).
Proof. intros Hc. apply take_admit. by apply bool_decide_eq_false in Hc. Qed.

Lemma demo_take_report s now w msg :
  workers (environment s) = [w] → report_ok w msg →
  take (closed s) now (environment s) (InSwap msg) (set_workers [] (environment s)).
Proof. intros Hw Hr. by apply (take_swap _ _ _ [] w [] msg). Qed.

Lemma reach_S cfg n s s' : reach cfg n s → step s s' → reach cfg (S n) s'.
Proof.
  intros (t0 & Ht0 & Hs) Hstep. exists t0. split; [done|]. by eapply nsteps_r.
Qed.

Lemma demo_reach0 : reach demo_cfg 0 demo0.
Proof. exists 0. split; [vm_compute; discriminate|constructor]. Qed.

Lemma demo_reach1 : reach demo_cfg 1 demo1.
Proof. eapply reach_S; [apply demo_reach0|]. demo_step. by apply demo_take_admit. Qed.

Lemma demo_reach2 : reach demo_cfg 2 demo2.
Proof.
  eapply reach_S; [apply demo_reach1|]. demo_step.
  apply (demo_take_report _ _ (WSwap 1 "llama")); [by vm_compute|]. by repeat split.
Qed.

Lemma demo_reach3 : reach demo_cfg 3 demo3.
Proof. eapply reach_S; [apply demo_reach2|]. demo_step. by apply demo_take_admit. Qed.
