(* ===== verification/Config.v ===== *)
(** * Configuration ([src/internal/config])

    The declarative configuration, its defaults, its validation, and what the
    server derives from it. Decoding YAML and reading the file are not modelled;
    [url.Parse] is a parameter. A Go [int] is 64 bits wide. *)

From S2P Require Import Prelude GoStrings State Pool.
Open Scope Z_scope.

(** ** Defaults *)

Definition DefaultHost : string := "0.0.0.0".
Definition DefaultPort : Z := 8080.
Definition DefaultDockerSocketPath : string := "/var/run/docker.sock".
Definition DefaultMaxQueueSize : Z := 100.
Definition DefaultHealthPath : string := "/".
Definition DefaultStartupTimeoutSeconds : Z := 180.

(** ** Data *)

(** [Auth] *)
Record Auth := { AdminToken : string; ProxyToken : string }.

(** [Server] *)
Record Server := {
  Host : string;
  Port : Z;
  DockerSocketPath : string;
  CORSAllowedOrigins : list string;
  srv_MaxQueueSize : Z;
  MaxRequestBytes : Z;
  srv_Auth : Auth
}.

(** [VRAMPool]; a nil pointer is [None]. *)
Record VRAMPool := {
  GracePeriodSeconds : Z;
  CooldownSeconds : Z;
  DefaultService : option string
}.

(** [Service] *)
Record Service := {
  svc_ContainerName : string;
  TargetURL : string;
  HealthPath : string;
  StartupTimeoutSeconds : Z;
  svc_MaxQueueSize : Z;
  svc_VRAMPool : option string
}.

(** [Route] *)
Record Route := {
  PathPrefix : string;
  rt_Service : string;
  Headers : gmap string string;
  Models : gmap string string
}.

(** [Config] *)
Record Config := {
  cfg_Server : Server;
  VRAMPools : gmap string VRAMPool;
  Services : gmap string Service;
  Routes : list Route
}.

(** ** Derived values *)

(** Seconds to a [time.Duration]: the product wraps around in 64 bits. *)
Definition seconds (n : Z) : Z := int64_wrap (n * time_Second).

Definition GracePeriod (p : VRAMPool) : Z := seconds (GracePeriodSeconds p).
Definition Cooldown (p : VRAMPool) : Z := seconds (CooldownSeconds p).
Definition StartupTimeout (s : Service) : Z := seconds (StartupTimeoutSeconds s).
Definition AlwaysOn (s : Service) : bool := bool_decide (svc_VRAMPool s = None).
Definition HealthURL (s : Service) : string := TrimSuffix (TargetURL s) "/" +:+ HealthPath s.

Definition QueueSize (c : Config) (s : Service) : Z :=
  if bool_decide (0 < svc_MaxQueueSize s) then svc_MaxQueueSize s
  else srv_MaxQueueSize (cfg_Server c).

Definition ContainerNames (c : Config) : list string :=
  merge_sort String.le (map (λ x, svc_ContainerName x.2) (map_to_list (Services c))).

(** ** [applyDefaults] *)

Definition or_default_str (s d : string) : string := if bool_decide (s = "") then d else s.
Definition or_default_int (n d : Z) : Z := if bool_decide (n = 0) then d else n.

Definition default_server (s : Server) : Server :=
  {| Host := or_default_str (Host s) DefaultHost;
     Port := or_default_int (Port s) DefaultPort;
     DockerSocketPath := or_default_str (DockerSocketPath s) DefaultDockerSocketPath;
     CORSAllowedOrigins := CORSAllowedOrigins s;
     srv_MaxQueueSize := or_default_int (srv_MaxQueueSize s) DefaultMaxQueueSize;
     MaxRequestBytes := MaxRequestBytes s;
     srv_Auth := srv_Auth s |}.

Definition default_service (s : Service) : Service :=
  {| svc_ContainerName := svc_ContainerName s;
     TargetURL := TargetURL s;
     HealthPath := or_default_str (HealthPath s) DefaultHealthPath;
     StartupTimeoutSeconds :=
       or_default_int (StartupTimeoutSeconds s) DefaultStartupTimeoutSeconds;
     svc_MaxQueueSize := svc_MaxQueueSize s;
     svc_VRAMPool := svc_VRAMPool s |}.

Definition applyDefaults (c : Config) : Config :=
  {| cfg_Server := default_server (cfg_Server c);
     VRAMPools := VRAMPools c;
     Services := default_service <$> Services c;
     Routes := Routes c |}.

(** ** [validate]

    Errors and warnings are constructors that carry the values of their message.
    The order in which the entries of a map are visited is that of
    [map_to_list]. *)

Inductive ConfigError :=
| EPort (port : Z)
| EMaxQueueSize (n : Z)
| EMaxRequestBytes (n : Z)
| EAdminTokenBlank
| EProxyTokenBlank
| ENoServices
| EContainerRequired (svc : string)
| EContainerShared (prev svc container : string)
| ETargetRequired (svc : string)
| ETargetUnparsable (svc url : string)
| ETargetScheme (svc url : string)
| ETargetHost (svc url : string)
| EHealthPath (svc path : string)
| EStartupTimeout (svc : string) (n : Z)
| EServiceQueue (svc : string) (n : Z)
| EUndefinedPool (svc pool : string)
| EGracePeriod (pool : string)
| ECooldown (pool : string)
| EDefaultUndeclared (pool svc : string)
| EDefaultNotMember (pool svc : string)
| ENoRoutes
| EPathPrefix (i : nat) (prefix : string)
| ERouteServiceRequired (i : nat) (prefix : string)
| ERouteServiceUndeclared (i : nat) (prefix svc : string)
| EModelEmpty (i : nat) (prefix : string)
| EModelUndeclared (i : nat) (prefix model svc : string).

Inductive ConfigWarning :=
| WAdminTokenShort
| WCORSWildcard
| WLocalhost (svc host : string).

(** What [validate] reads of a parsed URL. *)
Record URL := { url_Scheme : string; url_Host : string; url_Hostname : string }.

Section validate.
(** [url.Parse]; [None] is an error. *)
Context (url_Parse : string → option URL).

(** [fail] and [warn] append to the two lists. *)
Definition when {A} (b : bool) (x : A) : list A := if b then [x] else [].

Definition validate_server (s : Server) : list ConfigWarning * list ConfigError :=
  (when (negb (bool_decide (AdminToken (srv_Auth s) = "")) &&
         bool_decide (String.length (AdminToken (srv_Auth s)) < 16)%nat) WAdminTokenShort ++
   when (bool_decide ("*" ∈ CORSAllowedOrigins s)) WCORSWildcard,
   when (bool_decide (Port s < 1) || bool_decide (65535 < Port s)) (EPort (Port s)) ++
   when (bool_decide (srv_MaxQueueSize s < 1)) (EMaxQueueSize (srv_MaxQueueSize s)) ++
   when (bool_decide (MaxRequestBytes s < 0)) (EMaxRequestBytes (MaxRequestBytes s)) ++
   when (negb (bool_decide (AdminToken (srv_Auth s) = "")) && blank (AdminToken (srv_Auth s)))
     EAdminTokenBlank ++
   when (negb (bool_decide (ProxyToken (srv_Auth s) = "")) && blank (ProxyToken (srv_Auth s)))
     EProxyTokenBlank).

(** The switch on [target_url]. *)
Definition validate_target (name url : string) : list ConfigWarning * list ConfigError :=
  if bool_decide (url = "") then ([], [ETargetRequired name]) else
  match url_Parse url with
  | None => ([], [ETargetUnparsable name url])
  | Some u =>
      if negb (bool_decide (url_Scheme u = "http")) && negb (bool_decide (url_Scheme u = "https"))
      then ([], [ETargetScheme name url])
      else if bool_decide (url_Host u = "") then ([], [ETargetHost name url])
      else if bool_decide (url_Hostname u = "localhost") ||
              bool_decide (url_Hostname u = "127.0.0.1")
      then ([WLocalhost name (url_Hostname u)], [])
      else ([], [])
  end.

(** The first rule on a service: its container, and the owners seen so far. *)
Definition validate_container (owners : gmap string string) (name : string) (s : Service) :
    gmap string string * list ConfigError :=
  if bool_decide (svc_ContainerName s = "") then (owners, [EContainerRequired name]) else
  match owners !! svc_ContainerName s with
  | Some prev => (owners, [EContainerShared prev name (svc_ContainerName s)])
  | None => (<[svc_ContainerName s := name]> owners, [])
  end.

Definition validate_rest (c : Config) (name : string) (s : Service) : list ConfigError :=
  when (negb (HasPrefix (HealthPath s) "/")) (EHealthPath name (HealthPath s)) ++
  when (bool_decide (StartupTimeoutSeconds s < 1))
    (EStartupTimeout name (StartupTimeoutSeconds s)) ++
  when (bool_decide (svc_MaxQueueSize s < 0)) (EServiceQueue name (svc_MaxQueueSize s)) ++
  match svc_VRAMPool s with
  | Some p => when (bool_decide (VRAMPools c !! p = None)) (EUndefinedPool name p)
  | None => []
  end.

(** The loop over the services. *)
Fixpoint validate_services (c : Config) (owners : gmap string string)
    (l : list (string * Service)) : list ConfigWarning * list ConfigError :=
  match l with
  | [] => ([], [])
  | (name, s) :: l' =>
      let '(owners', errs1) := validate_container owners name s in
      let '(warns2, errs2) := validate_target name (TargetURL s) in
      let '(warns3, errs3) := validate_services c owners' l' in
      (warns2 ++ warns3, errs1 ++ errs2 ++ validate_rest c name s ++ errs3)
  end.

Definition validate_pool (c : Config) (name : string) (p : VRAMPool) : list ConfigError :=
  when (bool_decide (GracePeriodSeconds p < 0)) (EGracePeriod name) ++
  when (bool_decide (CooldownSeconds p < 0)) (ECooldown name) ++
  match DefaultService p with
  | None => []
  | Some def =>
      match Services c !! def with
      | None => [EDefaultUndeclared name def]
      | Some svc => when (negb (bool_decide (svc_VRAMPool svc = Some name)))
                      (EDefaultNotMember name def)
      end
  end.

Definition validate_model (c : Config) (i : nat) (prefix : string) (x : string * string) :
    list ConfigError :=
  when (bool_decide (x.1 = "")) (EModelEmpty i prefix) ++
  when (bool_decide (Services c !! x.2 = None)) (EModelUndeclared i prefix x.1 x.2).

Definition validate_route (c : Config) (i : nat) (r : Route) : list ConfigError :=
  when (negb (HasPrefix (PathPrefix r) "/")) (EPathPrefix i (PathPrefix r)) ++
  (if bool_decide (rt_Service r = "") then [ERouteServiceRequired i (PathPrefix r)]
   else when (bool_decide (Services c !! rt_Service r = None))
          (ERouteServiceUndeclared i (PathPrefix r) (rt_Service r))) ++
  concat (map (validate_model c i (PathPrefix r)) (map_to_list (Models r))).

Definition validate (c : Config) : list ConfigWarning * list ConfigError :=
  let '(w1, e1) := validate_server (cfg_Server c) in
  let '(w2, e2) := validate_services c ∅ (map_to_list (Services c)) in
  (w1 ++ w2,
   e1 ++
   when (bool_decide (Services c = ∅)) ENoServices ++ e2 ++
   concat (map (λ x, validate_pool c x.1 x.2) (map_to_list (VRAMPools c))) ++
   when (bool_decide (Routes c = [])) ENoRoutes ++
   concat (imap (validate_route c) (Routes c))).

(** [Parse], after decoding: the configuration is returned only without errors. *)
Definition Parse (decoded : Config) : option Config * list ConfigWarning * list ConfigError :=
  let c := applyDefaults decoded in
  let '(warns, errs) := validate c in
  (match errs with [] => Some c | _ => None end, warns, errs).

End validate.

(** ** The pools of a configuration ([server.poolMembers], [server.buildRuntime]) *)

Definition member_config (c : Config) (name : string) (s : Service) : MemberConfig :=
  {| mc_Name := name;
     mc_ContainerName := svc_ContainerName s;
     mc_HealthURL := HealthURL s;
     mc_StartupTimeout := StartupTimeout s;
     mc_MaxQueue := QueueSize c s |}.

Definition member_le (a b : MemberConfig) : Prop := String.le (mc_Name a) (mc_Name b).

#[global] Instance member_le_dec a b : Decision (member_le a b).
Proof. unfold member_le. apply _. Defined.

Definition poolMembers (c : Config) (poolName : string) : list MemberConfig :=
  merge_sort member_le
    (omap (λ x, if bool_decide (svc_VRAMPool x.2 = Some poolName)
                then Some (member_config c x.1 x.2) else None) (map_to_list (Services c))).

Definition pool_config (c : Config) (poolName : string) (p : VRAMPool) : PoolConfig :=
  {| pc_Name := poolName;
     pc_GracePeriod := GracePeriod p;
     pc_Cooldown := Cooldown p;
     pc_DefaultService := default "" (DefaultService p);
     pc_Members := poolMembers c poolName |}.
