(* ===== verification/Lifecycle.v ===== *)
(** * The lifecycle a pool promises, and that the manager follows it

    [lifecycle] is the specification this development gives of the states of a pool
    (the product documentation, PRD 3.1, has a table of states and no transitions):
    cold, serving one service, changing towards a target, broken, and for each
    message the transitions it may cause. The refinement theorem shows that every
    message the manager handles, the one that ends it included, takes one of these
    transitions: a service is only ever declared active by a report of success, after
    a change towards that very service, and a request or an operator command only
    starts a change towards the service it names. *)

From S2P Require Import Prelude State Queue Registry Pool PoolFacts QueueInv System Invariant.
From S2P Require Import Handlers Reachable Demo.
Open Scope Z_scope.

(** ** The specification *)

Inductive phase := Cold | Serving (service : string) | Changing (target : string) | Broken.

(** The actions docker reports when a container goes down. *)
Definition stops (action : string) : Prop := action = "die" ∨ action = "stop" ∨ action = "kill".

(** The targets of a change that a message may start: the service a request or a
    command names (none for a stop), and any service that waits or is the default
    one when a worker has reported, a timer has fired or a container has died. *)
Definition aims (i : input) (t : string) : Prop :=
  match i with
  | InCmd (admitCmd service _) => t = service
  | InCmd (adminSwapCmd service) => t = service
  | InCmd adminStopCmd => t = ""
  | InSwap _ | InTick _ | InDocker _ => True
  | _ => False
  end.

Inductive lifecycle (i : input) : relation phase :=
| lc_stay ph : i ≠ InDone → lifecycle i ph ph
| lc_change ph t : aims i t → lifecycle i ph (Changing t)
| lc_ready msg :
    i = InSwap msg → msg_kind msg = swapComplete →
    lifecycle i (Changing (msg_target msg)) (Serving (msg_target msg))
| lc_failed msg :
    i = InSwap msg → msg_kind msg ≠ swapComplete →
    lifecycle i (Changing (msg_target msg)) Cold
| lc_aborted ev t :
    i = InDocker ev → stops (ev_action ev) → lifecycle i (Changing t) Broken
| lc_died ev s :
    i = InDocker ev → stops (ev_action ev) → lifecycle i (Serving s) Broken
| lc_closed ph : i = InDone → lifecycle i ph Cold.

Definition phase_of (p : Pool) : phase :=
  match state p with
  | StateIdle => Cold
  | StateActive => Serving (active p)
  | StateSwapping => Changing (target p)
  | StateError => Broken
  end.

Lemma is_stop_action_stops a : is_stop_action a = true ↔ stops a.
Proof. unfold is_stop_action, stops. rewrite !orb_true_iff, !bool_decide_eq_true. tauto. Qed.

Lemma is_stop_action_no a : is_stop_action a = false → ¬ stops a.
Proof. intros Ha Hs%is_stop_action_stops. congruence. Qed.

(** ** Code that stays in its phase or begins a change *)

Section onward.
Context (aim : string → Prop).

Definition onward (p p' : Pool) : Prop :=
  phase_of p' = phase_of p ∨ ∃ t, aim t ∧ phase_of p' = Changing t.

#[global] Instance onward_preorder : PreOrder onward.
Proof.
  split; [by left|]. intros p1 p2 p3 [H1|?] [H2|?]; [left; congruence|by right| |by right].
  right. by rewrite H2.
Qed.

Lemma onward_modify f : (∀ p, phase_of (f p) = phase_of p) → keeps (E := effect) onward (modify f).
Proof. intros Hf. apply keeps_modify. left. apply Hf. Qed.

Lemma onward_startSwap t : aim t → keeps onward (startSwap t).
Proof. intros Ht p. eapply wp_eq; [apply startSwap_eq|]. right. by exists t. Qed.

Lemma onward_startStopAll : aim "" → keeps onward startStopAll.
Proof. intros Ht p. eapply wp_eq; [apply startStopAll_eq|]. right. by exists "". Qed.

Lemma onward_armTimer k d : keeps onward (armTimer k d).
Proof. intros p. eapply wp_eq; [apply armTimer_eq|]. left. by destruct k. Qed.

Lemma onward_touch s now : keeps onward (touch s now).
Proof. apply keeps_modify. intros p. left. by case_decide. Qed.

End onward.

#[export] Hint Resolve onward_startSwap onward_startStopAll onward_armTimer onward_touch
  onward_preorder : keeps.
#[export] Hint Extern 1 (keeps (onward _) (modify _)) =>
  (apply onward_modify; intros; reflexivity) : keeps.
#[export] Hint Extern 1 (aims _ _) => (simpl; solve [exact I | reflexivity]) : keeps.

Section helpers.
Context (aim : string → Prop).

Lemma onward_flush_member n r : keeps (onward aim) (flush_member n r).
Proof. unfold flush_member. keeps. Qed.
#[local] Hint Resolve onward_flush_member : keeps.

Lemma onward_flush_all r : keeps (onward aim) (flush_all r).
Proof. unfold flush_all. keeps. Qed.
#[local] Hint Resolve onward_flush_all : keeps.

Lemma onward_handleAdmit s c now : aim s → keeps (onward aim) (handleAdmit s c now).
Proof. intros. unfold handleAdmit. keeps. Qed.

Lemma onward_handleCancel s c : keeps (onward aim) (handleCancel s c).
Proof. unfold handleCancel. keeps. Qed.

Lemma onward_handleAdminSwap s : aim s → keeps (onward aim) (handleAdminSwap s).
Proof. intros. unfold handleAdminSwap. keeps. Qed.

Lemma onward_handleAdminStop : aim "" → keeps (onward aim) handleAdminStop.
Proof. intros. unfold handleAdminStop. keeps. Qed.

Context (Hany : ∀ t, aim t).

Lemma onward_chainNow : keeps (onward aim) chainNow.
Proof. unfold chainNow. keeps. Qed.
#[local] Hint Resolve onward_chainNow : keeps.

Lemma onward_chain b now : keeps (onward aim) (chainAfterTerminal b now).
Proof. unfold chainAfterTerminal. keeps. Qed.

Lemma onward_handleTick t now : keeps (onward aim) (handleTick t now).
Proof. unfold handleTick. keeps. Qed.

End helpers.

#[export] Hint Resolve onward_flush_member onward_flush_all onward_chainNow onward_chain
  onward_handleAdmit onward_handleCancel onward_handleAdminSwap onward_handleAdminStop
  onward_handleTick : keeps.

(** ** The refinement *)

Section follows.
Context (i : input).

Definition follows (p p' : Pool) : Prop := lifecycle i (phase_of p) (phase_of p').

Lemma keeps_follows {A} (m : M A) p :
  i ≠ InDone → keeps (onward (aims i)) m → wp m (λ _ p' _, follows p p') p.
Proof.
  intros Hi Hm. eapply wp_mono; [|apply Hm]. unfold follows.
  intros o p' es [-> |(t & Ha & ->)]; by constructor.
Qed.

(** Code that keeps the phase, run after the phase was set to [phase_of p1]. *)
Lemma keeps_after {A} (m : M A) p p1 :
  keeps (onward (aims i)) m → lifecycle i (phase_of p) (phase_of p1) →
  wp m (λ _ p' _, follows p p') p1.
Proof.
  intros Hm Hl. eapply wp_mono; [|apply Hm]. unfold follows.
  intros o p' es [-> |(t & Ha & ->)]; [done|by constructor].
Qed.

End follows.

Lemma handleSwap_follows msg now1 now2 p :
  (msg_op msg = opSeq p → phase_of p = Changing (msg_target msg)) →
  wp (handleSwap msg now1 now2) (λ _ p' _, follows (InSwap msg) p p') p.
Proof.
  intros Hcur. unfold handleSwap. wp_steps. case_decide as Hop; [by apply wp_mret, lc_stay|].
  specialize (Hcur Hop). run_eq release_ctx_eq.
  destruct (msg_kind msg) eqn:Hk.
  - run_eq settle_eq. apply keeps_after; [unfold publish; keeps|].
    rewrite Hcur. by eapply lc_ready.
  - run_eq settle_eq. apply keeps_after; [unfold publish; keeps|].
    rewrite Hcur. eapply lc_failed; [done|congruence].
  - apply wp_bind, wp_gets. simpl.
    destruct (members p !! msg_target msg) as [m|]; simpl; [|by apply wp_bind, lc_stay].
    apply wp_bind, wp_mret, wp_bind, wp_emit. run_eq settle_eq.
    apply keeps_after; [unfold publish; keeps|]. rewrite Hcur.
    eapply lc_failed; [done|congruence].
  - run_eq settle_eq. apply keeps_after; [unfold publish; keeps|].
    rewrite Hcur. eapply lc_failed; [done|congruence].
Qed.

Lemma handleExternalEvent_follows ev p :
  wp (handleExternalEvent ev) (λ _ p' _, follows (InDocker ev) p p') p.
Proof.
  assert (Hstay : wp (mret () : M ()) (λ _ p' _, follows (InDocker ev) p p') p)
    by (by apply wp_mret, lc_stay).
  unfold handleExternalEvent. apply wp_bind, wp_gets. simpl.
  destruct (memberByContainer _ _) as [svc|]; [|done].
  do 3 (apply wp_bind, wp_gets; simpl).
  destruct (is_stop_action _) eqn:Hstop; [|by apply keeps_follows; [|keeps]].
  apply is_stop_action_stops in Hstop.
  destruct (state p) eqn:Hst; [done| | |done]; (case_decide; [done|]).
  - do 2 (apply wp_bind, wp_modify; simpl). apply keeps_after.
    + unfold bumpEpochs, publish. keeps.
    + unfold phase_of at 1. rewrite Hst. by eapply lc_died.
  - run_eq supersedeWorker_eq. run_eq settle_eq. apply keeps_after; [unfold publish; keeps|].
    unfold phase_of at 1. rewrite Hst. by eapply lc_aborted.
Qed.

Lemma handle_follows i now1 now2 p :
  (∀ msg, i = InSwap msg → msg_op msg = opSeq p → phase_of p = Changing (msg_target msg)) →
  wp (handle i now1 now2) (λ _ p' _, follows i p p') p.
Proof.
  intros Hcur. destruct i as [[]|msg|t|s|ev|]; simpl;
    try solve [apply keeps_follows; [done|keeps]].
  - apply handleSwap_follows. auto.
  - apply handleExternalEvent_follows.
  - unfold shutdown. do 2 (apply wp_bind, wp_modify; simpl). run_eq publish_eq.
    eapply wp_mono; [|apply (onward_flush_all (λ _, False))].
    intros o p' es [Hp|(t & [] & _)]. unfold follows. rewrite Hp. by apply lc_closed.
Qed.


