(* ===== verification/Static.v ===== *)
(** * The configuration of a running pool

    The fields a pool is built with never change: its durations, its default
    service, and for every member everything but the queue. *)

From S2P Require Import Prelude State Queue Pool PoolFacts QueueInv System Invariant.
From S2P Require Import Handlers Reachable.
Open Scope Z_scope.

(** Everything of a pool that its configuration fixes. *)
Definition static_members (p : Pool) : gmap string member := set_queue [] <$> members p.

Definition same_config (p p' : Pool) : Prop :=
  p_name p' = p_name p ∧ grace p' = grace p ∧ cooldown p' = cooldown p ∧
  defaultSvc p' = defaultSvc p ∧ static_members p' = static_members p.

#[global] Instance same_config_preorder : PreOrder same_config.
Proof.
  split; [by intros p; split_and!|].
  intros p1 p2 p3 (?&?&?&?&?) (?&?&?&?&?). split_and!; congruence.
Qed.

(** ** The primitives *)

Lemma same_config_modify f :
  (∀ p, p_name (f p) = p_name p ∧ grace (f p) = grace p ∧ cooldown (f p) = cooldown p ∧
        defaultSvc (f p) = defaultSvc p ∧ members (f p) = members p) →
  keeps (E := effect) same_config (modify f).
Proof.
  intros Hf. apply keeps_modify. intros p. destruct (Hf p) as (?&?&?&?&Hm).
  unfold same_config, static_members. by rewrite Hm.
Qed.

Lemma same_config_put (p : Pool) n m q :
  members p !! n = Some m → same_config p (put_member n (set_queue q m) p).
Proof.
  intros Hm. split_and!; [done..|]. unfold static_members. simpl.
  rewrite fmap_insert. apply insert_id. rewrite lookup_fmap, Hm. done.
Qed.

Lemma same_config_startSwap t : keeps same_config (startSwap t).
Proof. intros p. eapply wp_eq; [apply startSwap_eq|]. by split_and!. Qed.

Lemma same_config_startStopAll : keeps same_config startStopAll.
Proof. intros p. eapply wp_eq; [apply startStopAll_eq|]. by split_and!. Qed.

Lemma same_config_armTimer k d : keeps same_config (armTimer k d).
Proof. intros p. eapply wp_eq; [apply armTimer_eq|]. by destruct k; split_and!. Qed.

Lemma same_config_bumpEpochs : keeps same_config bumpEpochs.
Proof. intros p. eapply wp_eq; [apply bumpEpochs_eq|]. by split_and!. Qed.

Lemma same_config_supersedeWorker : keeps same_config supersedeWorker.
Proof. intros p. eapply wp_eq; [apply supersedeWorker_eq|]. by split_and!. Qed.

Lemma same_config_settle st act : keeps same_config (settle st act).
Proof. intros p. eapply wp_eq; [apply settle_eq|]. by split_and!. Qed.

Lemma same_config_release_ctx : keeps same_config release_ctx.
Proof. intros p. eapply wp_eq; [apply release_ctx_eq|]. by split_and!. Qed.

Lemma same_config_touch s now : keeps same_config (touch s now).
Proof. apply same_config_modify. intros p. case_decide; by split_and!. Qed.

Lemma same_config_publish : keeps same_config publish.
Proof. by apply same_config_modify. Qed.

Lemma same_config_flush_member n r : keeps same_config (flush_member n r).
Proof.
  intros p. destruct (members p !! n) as [m|] eqn:Hm.
  - eapply wp_eq; [by apply flush_member_eq|]. by apply same_config_put.
  - unfold flush_member. apply wp_bind, wp_gets. simpl. rewrite Hm. by apply wp_bind.
Qed.

#[export] Hint Resolve same_config_startSwap same_config_startStopAll same_config_armTimer
  same_config_bumpEpochs same_config_supersedeWorker same_config_settle
  same_config_release_ctx same_config_touch same_config_publish same_config_flush_member
  same_config_preorder : keeps.
#[export] Hint Extern 1 (keeps same_config (modify _)) =>
  (apply same_config_modify; intros; split_and!; reflexivity) : keeps.

(** ** The handlers *)

Lemma same_config_flush_all r : keeps same_config (flush_all r).
Proof. unfold flush_all. keeps. Qed.

Lemma same_config_chainNow : keeps same_config chainNow.
Proof. unfold chainNow. keeps. Qed.

Lemma same_config_chain b now : keeps same_config (chainAfterTerminal b now).
Proof. unfold chainAfterTerminal. keeps. Qed.
#[export] Hint Resolve same_config_flush_all same_config_chainNow same_config_chain : keeps.

Lemma same_config_after {A} (m : M A) p p1 :
  same_config p p1 → keeps same_config m → wp m (λ _ p' _, same_config p p') p1.
Proof.
  intros Hp Hm. eapply wp_mono; [|apply Hm]. intros ? p' ? Hp'. by transitivity p1.
Qed.

Lemma same_config_handleAdmit s c now : keeps same_config (handleAdmit s c now).
Proof.
  intros p. unfold handleAdmit. apply wp_bind, wp_gets. simpl.
  destruct (members p !! s) as [m|] eqn:Hm; [|by apply same_config_after; keeps].
  do 2 (apply wp_bind, wp_gets; simpl).
  case_decide; [by apply same_config_after; keeps|].
  apply wp_bind, wp_modify. simpl. apply wp_bind, wp_gets. simpl.
  apply wp_bind, wp_modify. simpl. apply same_config_after.
  - transitivity (set_seq (u64_succ (seq p)) p); [by split_and!|].
    unfold enqueue. case_bool_decide; simpl.
    + replace m with (set_queue (queue m) m) by by destruct m. by apply same_config_put.
    + by apply same_config_put.
  - keeps.
Qed.

Lemma same_config_handleCancel s c : keeps same_config (handleCancel s c).
Proof.
  intros p. unfold handleCancel. apply wp_bind, wp_gets. simpl.
  destruct (members p !! s) as [m|] eqn:Hm; [|by apply same_config_after; keeps].
  apply wp_modify. by apply same_config_put.
Qed.
#[export] Hint Resolve same_config_handleAdmit same_config_handleCancel : keeps.

Lemma same_config_handle i now1 now2 : keeps same_config (handle i now1 now2).
Proof.
  destruct i as [[]| | | | |]; simpl;
    unfold handleAdminSwap, handleAdminStop, handleSwap, handleTick, handleExternalEvent, shutdown;
    keeps.
Qed.

(** ** Reachable states *)

Lemma step_same_config s s' : step s s' → same_config (pool s) (pool s').
Proof.
  intros [s0 i now1 now2 e1 p' es _ _ _ _ Hh|s0]; [|done].
  pose proof (same_config_handle i now1 now2 (pool s0)) as H. unfold wp in H.
  by rewrite Hh in H.
Qed.

Lemma reach_same_config cfg n s : reach cfg n s → same_config (NewPool cfg) (pool s).
Proof.
  intros (t0 & _ & Hs). change (NewPool cfg) with (pool (init cfg t0)).
  induction Hs as [x|n x y z Hxy Hyz IH]; [reflexivity|].
  transitivity (pool y); [by apply step_same_config|done].
Qed.

(** A member of a reachable pool is a configured member with some queue. *)
Lemma reach_member cfg n s k m :
  reach cfg n s → members (pool s) !! k = Some m →
  ∃ mc, mc ∈ pc_Members cfg ∧ mc_Name mc = k ∧ set_queue [] m = new_member mc.
Proof.
  intros Hr Hm. destruct (reach_same_config _ _ _ Hr) as (_&_&_&_&Hs).
  assert (Hk : static_members (pool s) !! k = Some (set_queue [] m)).
  { unfold static_members. by rewrite lookup_fmap, Hm. }
  rewrite Hs in Hk. unfold static_members in Hk. simpl in Hk.
  rewrite lookup_fmap in Hk.
  destruct (new_members (pc_Members cfg) !! k) as [m0|] eqn:Hm0; [|done].
  apply (inj Some) in Hk.
  apply new_members_lookup in Hm0 as (mc & ? & -> & ->). by exists mc.
Qed.
