(* ===== verification/Spawning.v ===== *)
(** * What a handler may start

    One message makes the manager start at most one worker. The worker carries the
    operation number the manager waits for from then on, and is told to stop the
    containers of all the members but its target. A pool becomes active by the
    report of that worker, and by nothing else. *)

From S2P Require Import Prelude State Queue Pool PoolFacts QueueInv System Invariant.
From S2P Require Import Handlers Static.
Open Scope Z_scope.

(** ** Workers started *)

Definition spawn_of (x : effect) : option Z :=
  match x with GoSwap op _ _ | GoStopAll op => Some op | _ => None end.

Definition spawns (es : list effect) : list Z := omap spawn_of es.

Lemma spawns_app es es' : spawns (es ++ es') = spawns es ++ spawns es'.
Proof. apply omap_app. Qed.

Lemma spawns_cancel p : spawns (cancel_effects p) = [].
Proof. unfold cancel_effects. by destruct (swapCancel p). Qed.

Lemma spawns_replies m r : spawns (reply_all m r) = [].
Proof. unfold reply_all. by induction (queue m). Qed.

Lemma spawns_elem es op : op ∈ spawns es ↔ ∃ x, x ∈ es ∧ spawn_of x = Some op.
Proof. apply list_elem_of_omap. Qed.

(** ** Code that starts no worker

    [still m]: [m] starts no worker and keeps the operation number. [starting m]:
    it may also end by starting one, which then carries the new number. *)

Definition started (p p' : Pool) (es : list effect) : Prop :=
  opSeq p' = u64_succ (opSeq p) ∧ spawns es = [opSeq p'] ∧
  ∀ op m others, GoSwap op m others ∈ es →
    ∃ t, m = name <$> members p' !! t ∧ others = otherContainers (members p') t.

Definition unmoved (p p' : Pool) (es : list effect) : Prop :=
  opSeq p' = opSeq p ∧ spawns es = [].

Definition still {A} (m : M A) : Prop := ∀ p, wp m (λ _ p' es, unmoved p p' es) p.
Definition starting {A} (m : M A) : Prop :=
  ∀ p, wp m (λ _ p' es, unmoved p p' es ∨ started p p' es) p.
(** Code that only answers. *)
Definition answering {A} (m : M A) : Prop := ∀ p, wp m (λ _ p' es, p' = p ∧ spawns es = []) p.

Lemma unmoved_nil p : unmoved p p [].
Proof. done. Qed.

Lemma unmoved_app p p1 p' es es' : unmoved p p1 es → unmoved p1 p' es' → unmoved p p' (es ++ es').
Proof.
  intros [Hop Hes] [Hop' Hes']. split; [congruence|]. by rewrite spawns_app, Hes, Hes'.
Qed.

Lemma no_swap es op m others : spawns es = [] → GoSwap op m others ∉ es.
Proof.
  intros Hes Hin. assert (Hop : op ∈ spawns es) by (apply spawns_elem; eauto).
  rewrite Hes in Hop. by apply not_elem_of_nil in Hop.
Qed.

Lemma started_after p p1 p' es es' : unmoved p p1 es → started p1 p' es' → started p p' (es ++ es').
Proof.
  intros [Hop Hes] (Hop' & Hs & Hargs).
  split_and!; [by rewrite Hop', Hop|by rewrite spawns_app, Hes|].
  intros op m others [Hin|Hin]%elem_of_app; [by apply no_swap in Hin|eauto].
Qed.

Lemma started_before p p' es es' : started p p' es → spawns es' = [] → started p p' (es ++ es').
Proof.
  intros (Hop & Hs & Hargs) Hes'. split_and!; [done|by rewrite spawns_app, Hs, Hes'|].
  intros op m others [Hin|Hin]%elem_of_app; [eauto|by apply no_swap in Hin].
Qed.

Lemma still_bind {A B} (m : M A) (k : A → M B) :
  still m → (∀ a, still (k a)) → still (m ≫= k).
Proof.
  intros Hm Hk p. apply wp_bind. eapply wp_mono; [|apply Hm].
  intros [a| |] p1 es H1; [|done..]. eapply wp_mono; [|apply Hk].
  intros o p2 es' H2. by eapply unmoved_app.
Qed.

Lemma starting_bind {A B} (m : M A) (k : A → M B) :
  still m → (∀ a, starting (k a)) → starting (m ≫= k).
Proof.
  intros Hm Hk p. apply wp_bind. eapply wp_mono; [|apply Hm].
  intros [a| |] p1 es H1; [|by left..]. eapply wp_mono; [|apply Hk].
  intros o p2 es' [H2|H2]; [left; by eapply unmoved_app|right; by eapply started_after].
Qed.

Lemma starting_then {A B} (m : M A) (k : A → M B) :
  starting m → (∀ a, answering (k a)) → starting (m ≫= k).
Proof.
  intros Hm Hk p. apply wp_bind. eapply wp_mono; [|apply Hm].
  intros [a| |] p1 es H1; [|done..]. eapply wp_mono; [|apply Hk].
  intros o p2 es' [-> Hes']. destruct H1 as [H1|H1]; [left|right; by apply started_before].
  eapply unmoved_app; [done|]. by split.
Qed.

Lemma still_starting {A} (m : M A) : still m → starting m.
Proof. intros Hm p. eapply wp_mono; [|apply Hm]. by left. Qed.

Lemma answering_mret {A} (a : A) : answering (mret a).
Proof. by intros p. Qed.

Lemma answering_emit x : spawn_of x = None → answering (emit x).
Proof. intros Hx p. apply wp_emit. unfold spawns. simpl. by rewrite Hx. Qed.

Lemma still_mret {A} (a : A) : still (mret a).
Proof. by intros p. Qed.

Lemma still_gets {A} (f : Pool → A) : still (gets f).
Proof. by intros p. Qed.

Lemma still_deref {A} (o : option A) : still (deref o).
Proof. intros p. by destruct o. Qed.

Lemma still_emit x : spawn_of x = None → still (emit x).
Proof. intros Hx p. apply wp_emit. split; [done|]. unfold spawns. simpl. by rewrite Hx. Qed.

Lemma still_modify f : (∀ p, opSeq (f p) = opSeq p) → still (modify f).
Proof. intros Hf p. apply wp_modify. by split. Qed.

Lemma still_for_each {A} (body : A → M ()) l : (∀ x, still (body x)) → still (for_each body l).
Proof. intros Hb. induction l; simpl; [apply still_mret|by apply still_bind]. Qed.

Create HintDb still.
#[export] Hint Resolve still_mret still_gets still_deref still_for_each answering_mret : still.
#[export] Hint Extern 1 (still (emit _)) => (apply still_emit; reflexivity) : still.
#[export] Hint Extern 1 (answering (emit _)) => (apply answering_emit; reflexivity) : still.
#[export] Hint Extern 1 (still (modify _)) => (apply still_modify; reflexivity) : still.

(** Prove [still] and [starting] by the structure of the code. *)
Ltac still :=
  repeat first
    [ solve [eauto with still]
    | apply still_bind; [|intros]
    | apply starting_bind; [solve [still]|intros]
    | apply starting_then; [|intros]
    | match goal with
      | |- still (match ?x with _ => _ end) => destruct x
      | |- starting (match ?x with _ => _ end) => destruct x
      | |- answering (match ?x with _ => _ end) => destruct x
      end
    | apply still_starting ].

(** ** The helpers *)

Lemma still_armTimer k d : still (armTimer k d).
Proof. intros p. eapply wp_eq; [apply armTimer_eq|]. by destruct k. Qed.

Lemma still_bumpEpochs : still bumpEpochs.
Proof. intros p. by eapply wp_eq; [apply bumpEpochs_eq|]. Qed.

Lemma still_settle st act : still (settle st act).
Proof. intros p. by eapply wp_eq; [apply settle_eq|]. Qed.

Lemma still_release_ctx : still release_ctx.
Proof.
  intros p. eapply wp_eq; [apply release_ctx_eq|]. split; [done|apply spawns_cancel].
Qed.

Lemma still_touch s now : still (touch s now).
Proof. apply still_modify. intros p. by case_decide. Qed.

Lemma still_publish : still publish.
Proof. intros p. eapply wp_eq; [apply publish_eq|]. by split. Qed.

Lemma still_flush_member n r : still (flush_member n r).
Proof. unfold flush_member. still. Qed.

#[export] Hint Resolve still_armTimer still_bumpEpochs still_settle still_release_ctx
  still_touch still_publish still_flush_member : still.

Lemma still_flush_all r : still (flush_all r).
Proof. unfold flush_all. still. Qed.
#[export] Hint Resolve still_flush_all : still.

Lemma starting_startSwap t : starting (startSwap t).
Proof.
  intros p. eapply wp_eq; [apply startSwap_eq|]. right. split_and!; [done| |].
  - by rewrite spawns_app, spawns_cancel.
  - intros op m others [Hin|[Heq|Hin%list_elem_of_singleton]%elem_of_cons]%elem_of_app; [|done|].
    + exfalso. revert Hin. apply no_swap, spawns_cancel.
    + simplify_eq. by exists t.
Qed.

Lemma starting_startStopAll : starting startStopAll.
Proof.
  intros p. eapply wp_eq; [apply startStopAll_eq|]. right. split_and!; [done| |].
  - by rewrite spawns_app, spawns_cancel.
  - intros op m others [Hin|[Heq|Hin%list_elem_of_singleton]%elem_of_cons]%elem_of_app; [|done..].
    exfalso. revert Hin. apply no_swap, spawns_cancel.
Qed.
#[export] Hint Resolve starting_startSwap starting_startStopAll : still.

(** ** The handlers *)

Lemma starting_chainNow : starting chainNow.
Proof. unfold chainNow. still. Qed.

Lemma starting_chain b now : starting (chainAfterTerminal b now).
Proof. unfold chainAfterTerminal. still. Qed.
#[export] Hint Resolve starting_chainNow starting_chain : still.

Lemma starting_handleAdmit s c now : starting (handleAdmit s c now).
Proof. unfold handleAdmit. still. Qed.

Lemma starting_handleSwap msg now1 now2 : starting (handleSwap msg now1 now2).
Proof. unfold handleSwap. still. Qed.

Lemma starting_handleAdminSwap s : starting (handleAdminSwap s).
Proof. unfold handleAdminSwap. still. Qed.

Lemma starting_handleAdminStop : starting handleAdminStop.
Proof. unfold handleAdminStop. still. Qed.

Lemma starting_handleTick t now : starting (handleTick t now).
Proof. unfold handleTick. still. Qed.

Lemma still_shutdown : still shutdown.
Proof. unfold shutdown. still. Qed.

#[export] Hint Resolve starting_handleAdmit starting_handleSwap starting_handleAdminSwap
  starting_handleAdminStop starting_handleTick still_shutdown : still.

(** The operation number after a message, and the worker started, if any. *)
Definition launches (p p' : Pool) (es : list effect) : Prop :=
  opSeq p ≤ opSeq p' ∧
  (spawns es = [] ∨
   opSeq p < opSeq p' ∧ spawns es = [opSeq p'] ∧
   ∀ op m others, GoSwap op m others ∈ es →
     ∃ t, m = name <$> members p' !! t ∧ others = otherContainers (members p') t).

Lemma starting_launches {A} (m : M A) p :
  0 ≤ opSeq p → opSeq p + 2 < u64_modulus →
  starting m → wp m (λ _ p' es, launches p p' es) p.
Proof.
  intros ?? Hm. eapply wp_mono; [|apply Hm].
  intros o p' es [[Hop Hes]|(Hop & Hs & Hargs)].
  - split; [lia|by left].
  - rewrite u64_succ_small in Hop by lia. split; [lia|right]. split_and!; [lia|done..].
Qed.

(** The death of the target while swapping supersedes the worker, and may then
    start the next one. *)
Lemma handleExternalEvent_launches ev p :
  0 ≤ opSeq p → opSeq p + 2 < u64_modulus →
  wp (handleExternalEvent ev) (λ _ p' es, launches p p' es) p.
Proof.
  intros ? Hb. unfold handleExternalEvent. apply wp_bind, wp_gets. simpl.
  destruct (memberByContainer _ _) as [svc|]; [|apply starting_launches; still].
  do 3 (apply wp_bind, wp_gets; simpl).
  case_if as Hstop; [|apply starting_launches; still].
  destruct (state p); try solve [apply starting_launches; still].
  case_decide; [apply starting_launches; still|].
  apply wp_bind. eapply wp_eq; [apply supersedeWorker_eq|]. simpl.
  assert (Hop : opSeq (superseded p) = opSeq p + 1) by (apply u64_succ_small; lia).
  assert (Hrest : starting (settle StateError "";; publish;;
    flush_member (name svc) (reply_err AdmitDockerError (Some (ErrDiedDuringStartup
      (ev_container ev))));; chainNow)) by still.
  eapply wp_mono; [|apply Hrest]. intros o p' es [[Hop' Hes]|(Hop' & Hs & Hargs)].
  - split; [lia|]. left. by rewrite spawns_app, spawns_cancel.
  - rewrite Hop, u64_succ_small in Hop' by lia. split; [lia|right].
    split_and!; [lia|by rewrite spawns_app, spawns_cancel|].
    intros op m others [Hin|Hin]%elem_of_app; [|eauto].
    exfalso. revert Hin. apply no_swap, spawns_cancel.
Qed.

Lemma handle_launches i now1 now2 p :
  0 ≤ opSeq p → opSeq p + 2 < u64_modulus →
  wp (handle i now1 now2) (λ _ p' es, launches p p' es) p.
Proof.
  intros ??. destruct i as [[]| | | | |]; simpl;
    try solve [apply starting_launches; unfold handleCancel; still].
  by apply handleExternalEvent_launches.
Qed.

(** ** How a pool becomes active *)

(** [p'] is active only if [p] was, on the same service and by the same worker. *)
Definition no_activation (p p' : Pool) : Prop :=
  state p' = StateActive →
  state p = StateActive ∧ active p' = active p ∧ opSeq p' = opSeq p.

#[global] Instance no_activation_preorder : PreOrder no_activation.
Proof.
  split; [by intros p|]. intros p1 p2 p3 H12 H23 H3.
  destruct (H23 H3) as (H2 & ? & ?). destruct (H12 H2) as (? & ? & ?).
  split_and!; congruence.
Qed.

Lemma inactive_no_activation p p' : state p' ≠ StateActive → no_activation p p'.
Proof. by intros ??. Qed.

Lemma no_activation_modify f :
  (∀ p, state (f p) = state p ∧ active (f p) = active p ∧ opSeq (f p) = opSeq p) →
  keeps (E := effect) no_activation (modify f).
Proof. intros Hf. apply keeps_modify. intros p. destruct (Hf p) as (?&?&?). intros ?. split_and!; congruence. Qed.

Lemma no_activation_startSwap t : keeps no_activation (startSwap t).
Proof. intros p. eapply wp_eq; [apply startSwap_eq|]. by apply inactive_no_activation. Qed.

Lemma no_activation_startStopAll : keeps no_activation startStopAll.
Proof. intros p. eapply wp_eq; [apply startStopAll_eq|]. by apply inactive_no_activation. Qed.

Lemma no_activation_armTimer k d : keeps no_activation (armTimer k d).
Proof. intros p. eapply wp_eq; [apply armTimer_eq|]. by destruct k. Qed.

Lemma no_activation_touch s now : keeps no_activation (touch s now).
Proof. apply no_activation_modify. intros p. by case_decide. Qed.

Lemma no_activation_release_ctx : keeps no_activation release_ctx.
Proof. intros p. by eapply wp_eq; [apply release_ctx_eq|]. Qed.

#[export] Hint Resolve no_activation_startSwap no_activation_startStopAll no_activation_armTimer
  no_activation_touch no_activation_release_ctx no_activation_preorder : keeps.
#[export] Hint Extern 1 (keeps no_activation (modify _)) =>
  (apply no_activation_modify; intros; split_and!; reflexivity) : keeps.

Lemma no_activation_flush_member n r : keeps no_activation (flush_member n r).
Proof. unfold flush_member. keeps. Qed.
#[export] Hint Resolve no_activation_flush_member : keeps.

Lemma no_activation_flush_all r : keeps no_activation (flush_all r).
Proof. unfold flush_all. keeps. Qed.

Lemma no_activation_chainNow : keeps no_activation chainNow.
Proof. unfold chainNow. keeps. Qed.

Lemma no_activation_chain b now : keeps no_activation (chainAfterTerminal b now).
Proof. unfold chainAfterTerminal. keeps. Qed.
#[export] Hint Resolve no_activation_flush_all no_activation_chainNow no_activation_chain : keeps.

(** Code run after the state was set to something else than active. *)
Lemma no_activation_after {A} (m : M A) p p1 :
  state p1 ≠ StateActive → keeps no_activation m → wp m (λ _ p' _, no_activation p p') p1.
Proof.
  intros Hst Hm. eapply wp_mono; [|apply Hm]. intros o p' es Hp Hact.
  by destruct (Hp Hact) as [? _].
Qed.

Lemma no_activation_handleExternalEvent ev : keeps no_activation (handleExternalEvent ev).
Proof.
  intros p. unfold handleExternalEvent. apply wp_bind, wp_gets. simpl.
  destruct (memberByContainer _ _) as [svc|]; [|by apply wp_mret].
  do 3 (apply wp_bind, wp_gets; simpl). case_if as Hstop.
  - destruct (state p) eqn:Hst; try by apply wp_mret.
    + case_decide; [by apply wp_mret|]. do 2 (apply wp_bind, wp_modify; simpl).
      run_eq bumpEpochs_eq. apply no_activation_after; [done|]. unfold publish. keeps.
    + case_decide; [by apply wp_mret|]. run_eq supersedeWorker_eq. run_eq settle_eq.
      apply no_activation_after; [done|]. unfold publish. keeps.
  - match goal with |- wp ?m _ _ => cut (keeps no_activation m); [by intros Hk; apply Hk|] end.
    keeps.
Qed.

(** The pool becomes active by the report of the worker it waits for. *)
Definition activated_by (i : input) (p p' : Pool) : Prop :=
  ∃ msg, i = InSwap msg ∧ msg_op msg = opSeq p ∧ msg_kind msg = swapComplete ∧
    active p' = msg_target msg ∧ opSeq p' = opSeq p.

Definition activation (i : input) (p p' : Pool) : Prop :=
  state p' = StateActive →
  (state p = StateActive ∧ active p' = active p ∧ opSeq p' = opSeq p) ∨ activated_by i p p'.

Lemma keeps_activation {A} (m : M A) i p :
  keeps no_activation m → wp m (λ _ p' _, activation i p p') p.
Proof. intros Hm. eapply wp_mono; [|apply Hm]. intros o p' es Hp Hact. left. by apply Hp. Qed.

Lemma after_activation {A} (m : M A) i p p1 :
  state p1 ≠ StateActive → keeps no_activation m → wp m (λ _ p' _, activation i p p') p1.
Proof.
  intros Hst Hm. eapply wp_mono; [|by apply (no_activation_after m p)].
  intros o p' es Hp Hact. left. by apply Hp.
Qed.

Lemma handleSwap_activation msg now1 now2 p :
  wp (handleSwap msg now1 now2) (λ _ p' _, activation (InSwap msg) p p') p.
Proof.
  unfold handleSwap. apply wp_bind, wp_gets. simpl. case_decide as Hop.
  { apply keeps_activation. keeps. }
  run_eq release_ctx_eq. destruct (msg_kind msg) eqn:Hk.
  - run_eq settle_eq. apply wp_bind, wp_modify. simpl.
    match goal with |- wp ?m _ _ => assert (Hm : keeps no_activation m) by (unfold publish; keeps) end.
    eapply wp_mono; [|apply Hm]. intros o p' es Hp Hact. right.
    destruct (Hp Hact) as (_ & Hact' & Hop'). by exists msg.
  - run_eq settle_eq. apply after_activation; [done|]. unfold publish. keeps.
  - apply wp_bind, wp_gets. simpl.
    destruct (members p !! msg_target msg) as [m|]; simpl; [|apply wp_bind; by left].
    apply wp_bind, wp_mret, wp_bind, wp_emit. run_eq settle_eq.
    apply after_activation; [done|]. unfold publish. keeps.
  - run_eq settle_eq. apply after_activation; [done|]. unfold publish. keeps.
Qed.

Lemma handle_activation i now1 now2 p :
  wp (handle i now1 now2) (λ _ p' _, activation i p p') p.
Proof.
  destruct i as [[]|msg| | |ev|]; simpl;
    try solve [apply keeps_activation;
               unfold handleAdmit, handleCancel, handleAdminSwap, handleAdminStop, handleTick;
               keeps].
  - apply handleSwap_activation.
  - apply keeps_activation, no_activation_handleExternalEvent.
  - unfold shutdown. do 2 (apply wp_bind, wp_modify; simpl).
    apply after_activation; [done|]. unfold publish. keeps.
Qed.
