(* ===== verification/Exclusion.v ===== *)
(** * Mutual exclusion: the manager, its workers and docker together

    [System.v] runs the manager against workers that only report. Here the workers
    are the code of [Worker.v], step by step, on one docker host: a history records
    what the manager did, what each worker did, and when containers came up and
    went down. Any interleaving is allowed. A worker's answers are truthful: what
    it sees of its context and of a container is what holds at that instant.

    A container comes up only while a worker's call to start it is in progress: the
    containers of a pool are not started by anybody else, and a start has no effect
    after it has returned. Containers go down at any time, by themselves, by hand,
    by a stop, or by a teardown. *)

From S2P Require Import Prelude State Docker Queue Worker WorkerFacts WorkerTheorems.
From S2P Require Import Pool PoolFacts QueueInv System Invariant Handlers Reachable Static Spawning.
Open Scope Z_scope.

(** ** Histories *)

Inductive gevent :=
| EvMgr (es : list effect)
| EvAct (op : Z) (a : wact)
| EvUp (c : string)
| EvDown (c : string).

(** The workers started, the contexts cancelled, the containers that run. *)
Definition spawned (h : list gevent) : list Z :=
  h ≫= λ ev, match ev with EvMgr es => spawns es | _ => [] end.

Definition cancels (es : list effect) : list Z :=
  omap (λ x, match x with CancelCtx op => Some op | _ => None end) es.

Definition gone (h : list gevent) : list Z :=
  h ≫= λ ev, match ev with EvMgr es => cancels es | _ => [] end.

Definition switch (on : gset string) (ev : gevent) : gset string :=
  match ev with EvUp c => {[c]} ∪ on | EvDown c => on ∖ {[c]} | _ => on end.

Definition running_in (h : list gevent) : gset string := foldl switch ∅ h.

(** What one worker did, and what the manager did. *)
Definition acts (op : Z) (h : list gevent) : list wact :=
  omap (λ ev, match ev with EvAct o a => if decide (o = op) then Some a else None | _ => None end) h.

Definition outputs (h : list gevent) : list effect :=
  h ≫= λ ev, match ev with EvMgr es => es | _ => [] end.

(** The workers that effects start. *)
Definition works (es : list effect) : list work :=
  omap (λ x, match x with
             | GoSwap op (Some t) _ => Some (WSwap op t)
             | GoStopAll op => Some (WStopAll op)
             | _ => None
             end) es.

(** ** Steps

    [swap_run] and [stop_run]: the beginnings of the traces the code of a worker
    leaves in some world. *)

Definition swap_run (op : Z) (m : member) (others : list string) (es : list wact) : Prop :=
  ∃ (W : Type) (C : Client W) (G : Host W) fuel w,
    (doSwap fuel op m others w).1.1 ≠ NoFuel ∧ es `prefix_of` (doSwap fuel op m others w).2.

Definition stop_run (op : Z) (ms : list member) (es : list wact) : Prop :=
  ∃ (W : Type) (C : Client W) (G : Host W) fuel w,
    (doStopAll fuel op ms w).1.1 ≠ NoFuel ∧ es `prefix_of` (doStopAll fuel op ms w).2.

(** ** Facts on the traces of workers *)

Lemma last_snoc_inv {A} (l : list A) x : last l = Some x → ∃ l', l = l' ++ [x].
Proof. intros Hl. by apply last_Some in Hl. Qed.

Section runs.
Context (op : Z) (m : member) (others : list string).

(** A worker about to hear of its start has swept, and has reported nothing. *)
Lemma swap_run_start es c :
  swap_run op m others es → last es = Some (CallStart c) →
  c = containerName m ∧ ∃ a, swept others a ∧ es = a ++ start_acts c.
Proof.
  intros (W & C & G & fuel & w & Ho & [k Hk]) [es0 ->]%last_snoc_inv.
  pose proof (doSwap_ordered fuel op m others w) as H.
  destruct (doSwap fuel op m others w) as [[o w'] full]. simpl in *. subst full.
  destruct H as [?|[Hn|(a & b & Ha & Hb & Hes)]]; [done| |].
  - exfalso. apply (no_start_elem c _ Hn). set_solver.
  - assert (Hsplit : (a ++ [CtxErr false; Expect (containerName m) "start"])
                       ++ CallStart (containerName m) :: b = es0 ++ CallStart c :: k).
    { rewrite <- (assoc_L (++)) in Hes. rewrite <- (assoc_L (++)). symmetry. exact Hes. }
    apply split_start in Hsplit as (<- & <- & <-);
      [|apply no_start_app; [by apply no_start_calm, Ha|by repeat constructor]|done].
    split; [done|]. exists a. split; [done|]. by rewrite <- (assoc_L (++)).
Qed.

Lemma deliver_deliveries msg es : Deliver msg ∈ es ↔ msg ∈ deliveries es.
Proof.
  unfold deliveries. rewrite list_elem_of_omap. split.
  - intros Hin. by exists (Deliver msg).
  - intros ([] & Hin & [= ->]). done.
Qed.

(** The report is the last action. *)
Lemma deliver_last es k x msg msg' :
  es ++ k = x ++ [Deliver msg'] → deliveries x = [] → Deliver msg ∈ es →
  es = x ++ [Deliver msg'].
Proof.
  intros Heq Hx Hin. destruct k as [|y k _] using rev_ind; [by rewrite app_nil_r in Heq|].
  exfalso. rewrite (assoc_L (++)) in Heq. apply app_inj_tail in Heq as [<- _].
  apply deliver_deliveries in Hin. rewrite deliveries_app in Hx.
  apply app_nil in Hx as [Hx _]. rewrite Hx in Hin. by apply not_elem_of_nil in Hin.
Qed.

(** What a worker that has reported success has done, all of it. *)
Definition completed (es : list wact) : Prop :=
  ∃ a b, swept others a ∧ calm b ∧
    es = a ++ start_acts (containerName m) ++ [Started (containerName m) None; CtxErr false] ++
         b ++ [Got (healthURL m) (Some 200); Probed true; Deliver (swap_report op m swapComplete None)].

Lemma swap_run_success es msg :
  swap_run op m others es → Deliver msg ∈ es → msg_kind msg = swapComplete → completed es.
Proof.
  intros (W & C & G & fuel & w & Ho & [k Hk]) Hd Hkind.
  pose proof (doSwap_body_script fuel op m others w) as Hs. unfold wp in Hs.
  unfold doSwap, with_recover in *.
  destruct (doSwap_body fuel op m others w) as [[o w'] full].
  destruct Hs as [->|Hs]; [done|].
  assert (Hin : msg ∈ deliveries (es ++ k)).
  { rewrite deliveries_app. apply elem_of_app. left. by apply deliver_deliveries. }
  destruct o as [[]| |]; simpl in *; [| |done].
  - subst full. destruct (script_deliveries _ _ _ _ _ Hs) as [[? _]|[_ Hds]]; [done|].
    destruct Hds as [(kd & e & _ & Hds)|[Hds _]]; rewrite Hds in Hin;
      [|by apply not_elem_of_nil in Hin].
    apply list_elem_of_singleton in Hin as ->. simpl in Hkind. subst kd.
    destruct (script_success op m others (Ret tt) (es ++ k) e Hs) as (a & b & Hsw & Hb & Heq).
    { rewrite Hds. by left. }
    exists a, b. split; [done|]. split; [done|].
    set (x := a ++ start_acts (containerName m) ++ [Started (containerName m) None; CtxErr false]
                ++ b ++ [Got (healthURL m) (Some 200); Probed true]).
    assert (Heq' : es ++ k = x ++ [Deliver (swap_report op m swapComplete None)]).
    { rewrite Heq. unfold x. by rewrite <- !(assoc_L (++)). }
    assert (Hx : deliveries x = []).
    { unfold x. destruct Hsw as [Ha _].
      by rewrite !deliveries_app, (deliveries_calm _ Ha), (deliveries_calm _ Hb). }
    rewrite (deliver_last _ _ _ _ _ Heq' Hx Hd). unfold x. by rewrite <- !(assoc_L (++)).
  - exfalso. destruct (script_deliveries _ _ _ _ _ Hs) as [[_ Hds]|[? _]]; [|done].
    rewrite <- Hk, deliveries_app, Hds in Hin. apply list_elem_of_singleton in Hin as ->. done.
Qed.

(** It has reported its target, has seen every sibling stopped, and has started
    nothing but its target. *)
Lemma completed_facts es msg :
  completed es → Deliver msg ∈ es →
  msg_target msg = name m ∧ (∀ c, c ∈ others → Inspected c (inr false) ∈ es) ∧
  (∀ c, CallStart c ∈ es → c = containerName m).
Proof.
  intros (a & b & [Ha Hsw] & Hb & ->) Hd. split_and!.
  - apply deliver_deliveries in Hd.
    rewrite !deliveries_app, (deliveries_calm _ Ha), (deliveries_calm _ Hb) in Hd.
    by apply list_elem_of_singleton in Hd as ->.
  - intros c Hc. specialize (Hsw c Hc). set_solver.
  - intros c Hc. pose proof (no_start_elem c _ (no_start_calm _ Ha)).
    pose proof (no_start_elem c _ (no_start_calm _ Hb)). set_solver.
Qed.

(** A worker that has asked for its start, and never saw itself current after it,
    has done this by the time it reports: it has asked docker to stop the container,
    unless docker had refused the start, or one of its calls has panicked. *)
Lemma script_withdrawn o es pre post :
  swap_script op m others o es → es = pre ++ start_acts (containerName m) ++ post →
  CtxErr false ∉ post →
  o = Panic ∨ CallStop (containerName m) ∈ post ∨ ∃ e, Started (containerName m) (Some e) ∈ post.
Proof.
  intros Hs Heq Hno.
  assert (Hsplit : ∀ a b, calm a → es = a ++ start_acts (containerName m) ++ b → no_start b → b = post).
  { intros a b Ha -> Hb. unfold start_acts in Heq. simpl in Heq.
    apply (split_start (a ++ [CtxErr false; Expect (containerName m) "start"]) (containerName m) b
      (pre ++ [CtxErr false; Expect (containerName m) "start"]) (containerName m) post);
      [no_start|done|by rewrite <- !(assoc_L (++))]. }
  assert (Hnone : no_start es → False).
  { intros Hn. apply (no_start_elem (containerName m) _ Hn). rewrite Heq. set_solver. }
  destruct Hs as [es e Hc|es Hc|es [Hc _]|es [Hc _]|es [Hc _]|es e [Hc _]|es es' [Hc _] Hc'
    |es [Hc _]|es b es' [Hc _] Hc'|es es' [Hc _] Hc'|es es' [Hc _] Hc'|es es' [Hc _] Hc'];
    try (by left); right.
  - exfalso. apply Hnone. no_start.
  - exfalso. apply Hnone. no_start.
  - right. exists e. rewrite <- (Hsplit es _ Hc eq_refl) by no_start. by left.
  - left. rewrite <- (Hsplit es _ Hc eq_refl) by no_start. set_solver.
  - exfalso. apply Hno. rewrite <- (Hsplit es _ Hc eq_refl) by no_start. set_solver.
  - exfalso. apply Hno. rewrite <- (Hsplit es _ Hc eq_refl) by no_start. set_solver.
  - exfalso. apply Hno. rewrite <- (Hsplit es _ Hc eq_refl) by no_start. set_solver.
Qed.

(** A run that returns ends in its report, if it has one. *)
Lemma script_last es r :
  swap_script op m others (Ret tt) es → deliveries es = [r] → ∃ r', last es = Some (Deliver r').
Proof.
  intros Hs Hd. remember (Ret tt) as o eqn:Ho.
  destruct Hs as [es e Hc|es Hc|es Hc|es Hc|es Hc|es e Hc|es es' Hc Hc' ?
    |es Hc|es b es' Hc Hc'|es es' Hc Hc'|es es' Hc Hc'|es es' Hc Hc']; try done;
    try (eexists; rewrite !last_app; reflexivity).
  exfalso. destruct Hc as [Hc _]. by rewrite !deliveries_app, (deliveries_calm _ Hc), (deliveries_calm _ Hc') in Hd.
Qed.

Lemma swap_run_withdrawn pre post msg :
  swap_run op m others (pre ++ start_acts (containerName m) ++ post) → Deliver msg ∈ post →
  CtxErr false ∉ post →
  CallStop (containerName m) ∈ post ∨ (∃ e, Started (containerName m) (Some e) ∈ post) ∨
  msg_err msg = Some ErrSwapWorkerPanic.
Proof.
  intros (W & C & G & fuel & w & Ho & k & Hk) Hd Hno.
  pose proof (doSwap_body_script fuel op m others w) as Hs. unfold wp in Hs.
  unfold doSwap, with_recover in *. destruct (doSwap_body fuel op m others w) as [[o w'] full].
  destruct Hs as [->|Hs]; [done|].
  set (es := pre ++ start_acts (containerName m) ++ post) in *.
  assert (Hin : msg ∈ deliveries es) by (apply deliver_deliveries; set_solver).
  destruct (script_deliveries _ _ _ _ _ Hs) as [[-> Hn]|[-> [(kd & e & _ & Hn)|[Hn _]]]]; simpl in *.
  - right; right. assert (Hr : msg ∈ deliveries (es ++ k)) by (rewrite deliveries_app; set_solver).
    rewrite <- Hk, deliveries_app, Hn in Hr. by apply list_elem_of_singleton in Hr as ->.
  - subst full. destruct (script_last _ _ Hs Hn) as [r' Hl].
    assert (k = []) as ->.
    { destruct k as [|x k _] using rev_ind; [done|]. exfalso.
      rewrite (assoc_L (++)), last_snoc in Hl. injection Hl as ->.
      rewrite !deliveries_app in Hn. destruct (deliveries es) as [|y l]; [by apply not_elem_of_nil in Hin|].
      injection Hn as _ Hn. apply app_nil in Hn as [_ Hn]. by apply app_nil in Hn as [_ Hn]. }
    rewrite app_nil_r in Hs.
    destruct (script_withdrawn _ _ pre post Hs eq_refl Hno) as [?|[?|?]]; [done|auto..].
  - exfalso. subst full. rewrite deliveries_app in Hn. apply app_nil in Hn as [Hn _].
    rewrite Hn in Hin. by apply not_elem_of_nil in Hin.
Qed.
End runs.

(** A prefix of a trace with one report at most. *)
Lemma deliveries_prefix es full msg msg' :
  es `prefix_of` full → Deliver msg ∈ es →
  deliveries full = [msg'] ∨ deliveries full = [] → deliveries es = [msg] ∧ msg' = msg.
Proof.
  intros [k ->] Hin%deliver_deliveries. rewrite deliveries_app.
  destruct (deliveries es) as [|x l]; [by apply not_elem_of_nil in Hin|].
  intros [Heq|Heq]; [|done]. simpl in Heq. injection Heq as -> Heq.
  apply app_nil in Heq as [-> _]. by apply list_elem_of_singleton in Hin as ->.
Qed.

Lemma swap_run_report op m others es msg :
  swap_run op m others es → Deliver msg ∈ es →
  report_ok (WSwap op (name m)) msg ∧ deliveries es = [msg].
Proof.
  intros (W & C & G & fuel & w & Ho & Hp) Hd.
  pose proof (doSwap_body_script fuel op m others w) as Hs. unfold wp in Hs.
  unfold doSwap, with_recover in *.
  destruct (doSwap_body fuel op m others w) as [[o w'] full]. destruct Hs as [->|Hs]; [done|].
  destruct (script_deliveries _ _ _ _ _ Hs) as [[-> Hf]|[-> [(k & e & Hk & Hf)|[Hf _]]]]; simpl in *.
  - destruct (deliveries_prefix _ _ _ (swap_report op m swapFailed (Some ErrSwapWorkerPanic)) Hp Hd)
      as [? <-]; [left; by rewrite deliveries_app, Hf|]. done.
  - destruct (deliveries_prefix _ _ _ (swap_report op m k e) Hp Hd) as [? <-]; [by left|]. done.
  - destruct (deliveries_prefix _ _ _ (swap_report op m swapFailed None) Hp Hd) as [? <-];
      [by right|]. done.
Qed.

(** A stop worker starts nothing, and reports that the pool is stopped, once. *)
Lemma stop_run_quiet op ms es :
  stop_run op ms es →
  no_start es ∧
  ∀ msg, Deliver msg ∈ es → report_ok (WStopAll op) msg ∧ deliveries es = [msg].
Proof.
  intros (W & C & G & fuel & w & Ho & Hp).
  pose proof (stop_loop_script fuel op ms None w) as Hs. unfold wp in Hs.
  unfold doStopAll, with_recover in *.
  destruct (stop_loop fuel op ms None w) as [[o w'] full].
  destruct Hs as [->|[Hn Hs]]; [done|].
  assert (Hfull : ∃ full' e, es `prefix_of` full' ∧ no_start full' ∧
    deliveries full' = [stop_report op e]).
  { destruct Hs as [[-> Hd]|(-> & e & Hd & _)]; simpl in *; [|by exists full, e].
    eexists _, _. split; [exact Hp|]. split; [apply no_start_app; [done|by repeat constructor]|].
    by rewrite deliveries_app, Hd. }
  destruct Hfull as (full' & e & Hp' & Hn' & Hd'). split.
  - destruct Hp' as [k ->]. by apply Forall_app in Hn' as [? _].
  - intros msg Hin. destruct (deliveries_prefix _ _ _ _ Hp' Hin (or_introl Hd')) as [? <-]. done.
Qed.

Definition truthful (h : list gevent) (op : Z) (a : wact) : Prop :=
  match a with
  | CtxErr b => b = bool_decide (op ∈ gone h)
  | Inspected c (inr b) => b = bool_decide (c ∈ running_in h)
  | _ => True
  end.

Record World := { w_sys : System; w_hist : list gevent }.

Section world.
Context (cfg : PoolConfig).

(** The next action of a worker: the goroutine was started with these arguments. *)
Definition act_ok (h : list gevent) (op : Z) (a : wact) : Prop :=
  truthful h op a ∧
  ((∃ t m others, GoSwap op (Some t) others ∈ outputs h ∧
      new_members (pc_Members cfg) !! t = Some m ∧ swap_run op m others (acts op h ++ [a])) ∨
   (GoStopAll op ∈ outputs h ∧ ∃ ms, stop_run op ms (acts op h ++ [a]))).

(** A report is received only if a worker has delivered it. *)
Definition reported (h : list gevent) (i : input) : Prop :=
  match i with InSwap msg => Deliver msg ∈ acts (msg_op msg) h | _ => True end.

Inductive gstep : World → World → Prop :=
| gstep_handle s h i now1 now2 e1 p' es :
    running s = true → clock s ≤ now1 → now1 ≤ now2 →
    take (closed s) now1 (environment s) i e1 → reported h i →
    handle i now1 now2 (pool s) = (Ret tt, p', es) →
    gstep {| w_sys := s; w_hist := h |}
      {| w_sys := Sys p' (performs now1 e1 es) now2 (closed s) (negb (is_done i));
         w_hist := h ++ [EvMgr es] |}
| gstep_close s h :
    gstep {| w_sys := s; w_hist := h |}
      {| w_sys := pool_close s; w_hist := h |}
| gstep_act s h op a :
    act_ok h op a →
    gstep {| w_sys := s; w_hist := h |} {| w_sys := s; w_hist := h ++ [EvAct op a] |}
| gstep_up s h op c :
    last (acts op h) = Some (CallStart c) →
    gstep {| w_sys := s; w_hist := h |} {| w_sys := s; w_hist := h ++ [EvUp c] |}
| gstep_down s h c :
    gstep {| w_sys := s; w_hist := h |} {| w_sys := s; w_hist := h ++ [EvDown c] |}.

Definition greach (n : nat) (w : World) : Prop :=
  ∃ t0, time_Zero ≤ t0 ∧ nsteps gstep n {| w_sys := init cfg t0; w_hist := [] |} w.

(** ** What a history records *)

(** The list of containers handed to a worker names those of all the members but
    its target. *)
Definition covers (t : string) (others : list string) : Prop :=
  ∀ n m, new_members (pc_Members cfg) !! n = Some m → n ≠ t → containerName m ∈ others.

(** A worker is started after those before it have been cancelled or have reported. *)
Definition mgr_ok (h : list gevent) (es : list effect) : Prop :=
  spawns es = [] ∨
  ∃ op, spawns es = [op] ∧
    (∀ op', op' ∈ spawned h → op' < op ∧
       (op' ∈ gone (h ++ [EvMgr es]) ∨ ∃ msg, Deliver msg ∈ acts op' h)) ∧
    (∀ op' t others, GoSwap op' (Some t) others ∈ es → covers t others).

Definition ev_ok (h : list gevent) (ev : gevent) : Prop :=
  match ev with
  | EvMgr es => mgr_ok h es
  | EvAct op a => act_ok h op a
  | EvUp c => ∃ op, last (acts op h) = Some (CallStart c)
  | EvDown _ => True
  end.

Definition hist_ok (h : list gevent) : Prop :=
  ∀ h1 ev h2, h = h1 ++ ev :: h2 → ev_ok h1 ev.

Record WInv (n : nat) (w : World) : Prop := {
  wi_reach : ∃ k, (k ≤ n)%nat ∧ reach cfg k (w_sys w);
  wi_hist : hist_ok (w_hist w);
  wi_gone : ctx_done (environment (w_sys w)) = gone (w_hist w);
  wi_spawned : running (w_sys w) = true → ∀ op, op ∈ spawned (w_hist w) →
    op ≤ opSeq (pool (w_sys w)) ∧
    (op ∈ map work_op (workers (environment (w_sys w))) ∨
     ∃ msg, Deliver msg ∈ acts op (w_hist w));
  wi_active : running (w_sys w) = true → state (pool (w_sys w)) = StateActive →
    ∃ msg, Deliver msg ∈ acts (opSeq (pool (w_sys w))) (w_hist w) ∧
      msg_kind msg = swapComplete ∧ msg_target msg = active (pool (w_sys w));
  wi_works : ∀ v, v ∈ workers (environment (w_sys w)) → v ∈ works (outputs (w_hist w))
}.

(** ** Histories grow *)

Lemma spawned_app h1 h2 : spawned (h1 ++ h2) = spawned h1 ++ spawned h2.
Proof. apply bind_app. Qed.
Lemma gone_app h1 h2 : gone (h1 ++ h2) = gone h1 ++ gone h2.
Proof. apply bind_app. Qed.
Lemma outputs_app h1 h2 : outputs (h1 ++ h2) = outputs h1 ++ outputs h2.
Proof. apply bind_app. Qed.
Lemma works_app es es' : works (es ++ es') = works es ++ works es'.
Proof. apply omap_app. Qed.
Lemma acts_app op h1 h2 : acts op (h1 ++ h2) = acts op h1 ++ acts op h2.
Proof. apply omap_app. Qed.
Lemma running_in_app h1 h2 : running_in (h1 ++ h2) = foldl switch (running_in h1) h2.
Proof. apply foldl_app. Qed.

Lemma acts_elem op a h : a ∈ acts op h ↔ EvAct op a ∈ h.
Proof.
  unfold acts. rewrite list_elem_of_omap. split.
  - intros ([|o b| |] & Hin & Heq); try done. case_decide; simplify_eq. done.
  - intros Hin. exists (EvAct op a). split; [done|]. by rewrite decide_True.
Qed.

Lemma spawned_outputs op h : op ∈ spawned h ↔ ∃ x, x ∈ outputs h ∧ spawn_of x = Some op.
Proof.
  unfold spawned, outputs. setoid_rewrite list_elem_of_bind. split.
  - intros ([es| | |] & Hop & Hin); try by apply not_elem_of_nil in Hop.
    apply spawns_elem in Hop as (x & Hx & Heq). exists x. split; [|done]. by exists (EvMgr es).
  - intros (x & ([es| | |] & Hx & Hin) & Heq); try by apply not_elem_of_nil in Hx.
    exists (EvMgr es). split; [|done]. apply spawns_elem. eauto.
Qed.

Lemma hist_ok_snoc h ev : hist_ok h → ev_ok h ev → hist_ok (h ++ [ev]).
Proof.
  intros Hh He h1 ev' h2 Heq. destruct h2 as [|y h2 _] using rev_ind.
  - apply app_inj_tail in Heq as [<- <-]. done.
  - rewrite app_comm_cons, (assoc_L (++)) in Heq. apply app_inj_tail in Heq as [-> _].
    by eapply Hh.
Qed.

Lemma hist_ok_app h1 h2 : hist_ok (h1 ++ h2) → hist_ok h1.
Proof.
  intros Hh l1 ev l2 ->. apply (Hh l1 ev (l2 ++ h2)). by rewrite <- (assoc_L (++)).
Qed.

(** ** The invariant *)

Lemma reach_step k s s' : reach cfg k s → step s s' → reach cfg (S k) s'.
Proof. intros (t0 & Ht0 & Hs) Hstep. exists t0. split; [done|]. by eapply nsteps_r. Qed.

Lemma performs_workers now e es : workers (performs now e es) = workers e ++ works es.
Proof.
  unfold performs. revert e. induction es as [|x es IH]; intros e; simpl.
  { by rewrite app_nil_r. }
  rewrite IH. destruct x as [| |op [t|] others|op| | | | | | |]; simpl; try done;
    by rewrite <- (assoc_L (++)).
Qed.

Lemma performs_gone now e es : ctx_done (performs now e es) = ctx_done e ++ cancels es.
Proof.
  unfold performs. revert e. induction es as [|x es IH]; intros e; simpl.
  { by rewrite app_nil_r. }
  rewrite IH. destruct x as [| |op [t|] others|op| | | | | | |]; simpl; try done.
  by rewrite <- (assoc_L (++)).
Qed.

Lemma spawned_snoc h es : spawned (h ++ [EvMgr es]) = spawned h ++ spawns es.
Proof. rewrite spawned_app. unfold spawned at 2. simpl. by rewrite app_nil_r. Qed.

Lemma gone_snoc h es : gone (h ++ [EvMgr es]) = gone h ++ cancels es.
Proof. rewrite gone_app. unfold gone at 2. simpl. by rewrite app_nil_r. Qed.

(** Receiving a message takes at most the worker that reported. *)
Lemma take_workers c now e i e1 h w :
  take c now e i e1 → reported h i → w ∈ workers e →
  w ∈ workers e1 ∨ ∃ msg, Deliver msg ∈ acts (work_op w) h.
Proof.
  intros Ht Hrep Hw. destruct Ht as [| | | | | |l1 v l2 msg Hl (Hop & _)| | | |]; try by left.
  rewrite Hl in Hw. simpl in *. destruct (decide (w = v)) as [->|Hne].
  - right. exists msg. by rewrite <- Hop.
  - left. set_solver.
Qed.

Lemma take_sub c now e i e1 w : take c now e i e1 → w ∈ workers e1 → w ∈ workers e.
Proof.
  intros [| | | | | |l1 v l2 msg Hl _| | | |] Hw; try done. rewrite Hl.
  apply elem_of_app in Hw as [?|?]; apply elem_of_app; [by left|right; by right].
Qed.

Lemma take_ctx_done c now e i e1 : take c now e i e1 → ctx_done e1 = ctx_done e.
Proof. by intros []. Qed.

Lemma Good_workers now b clk e p es op :
  Good now b clk e p es → op ∈ spawns es → op ∈ map work_op (workers (performs now e es)).
Proof.
  intros [_ _ Hc] (x & Hx & Hop)%spawns_elem. rewrite performs_workers, map_app.
  apply elem_of_app. right. rewrite Forall_forall in Hc. specialize (Hc x Hx).
  assert (Hw : ∃ w, w ∈ works es ∧ work_op w = op).
  { destruct x as [| |o [t|] ?|o| | | | | | |]; simpl in *; try done; injection Hop as ->.
    - exists (WSwap op t). split; [|done]. apply list_elem_of_omap. eauto.
    - exists (WStopAll op). split; [|done]. apply list_elem_of_omap. eauto. }
  destruct Hw as (w & Hw & <-). by apply list_elem_of_fmap_2.
Qed.

(** The facts on one message that the invariant rests on. *)
Record mgr_step (k : nat) (s : System) (i : input) (s' : System) (es : list effect) : Prop := {
  ms_reach : reach cfg (S k) s';
  ms_launch : launches (pool s) (pool s') es;
  ms_active : activation i (pool s) (pool s');
  ms_gone : ctx_done (environment s') = ctx_done (environment s) ++ cancels es;
  ms_workers : ∀ op, op ∈ spawns es → op ∈ map work_op (workers (environment s'));
  ms_kept : ∀ h w, reported h i → w ∈ workers (environment s) →
    w ∈ workers (environment s') ∨ ∃ msg, Deliver msg ∈ acts (work_op w) h;
  ms_done : spawns es ≠ [] → running s' = true;
  ms_new : ∀ w, w ∈ workers (environment s') → w ∈ workers (environment s) ∨ w ∈ works es
}.

Lemma handle_mgr_step k s i now1 now2 e1 p' es :
  config_ok cfg → Z.of_nat k < max_steps → reach cfg k s →
  running s = true → clock s ≤ now1 → now1 ≤ now2 →
  take (closed s) now1 (environment s) i e1 →
  handle i now1 now2 (pool s) = (Ret tt, p', es) →
  mgr_step k s i (Sys p' (performs now1 e1 es) now2 (closed s) (negb (is_done i))) es.
Proof.
  intros Hcfg Hk Hr Hrun H1 H2 Ht Hh.
  destruct (reach_running _ _ _ Hcfg Hk Hr Hrun) as [HB _].
  assert (Hb : 2 * Z.of_nat k + 2 < u64_modulus) by (unfold max_steps, u64_modulus in *; lia).
  pose proof (b_opSeq _ _ _ _ HB) as Hop.
  assert (Hs : is_done i = true → spawns es = []).
  { intros Hi. destruct i; try done. simpl in Hh. pose proof (still_shutdown (pool s)) as Hst.
    unfold wp in Hst. rewrite Hh in Hst. apply Hst. }
  assert (Hg : is_done i = false → Good now1 (2 * Z.of_nat k + 2) now2 e1 p' es).
  { intros Hi. eapply handle_inv; try done. by eapply reach_inv. }
  split; simpl.
  - eapply reach_step; [done|]. by eapply step_handle.
  - pose proof (handle_launches i now1 now2 (pool s)) as Hl. unfold wp in Hl.
    rewrite Hh in Hl. apply Hl; lia.
  - pose proof (handle_activation i now1 now2 (pool s)) as Ha. unfold wp in Ha. by rewrite Hh in Ha.
  - by rewrite performs_gone, (take_ctx_done _ _ _ _ _ Ht).
  - intros op Hin. destruct (is_done i) eqn:Hi.
    + rewrite (Hs eq_refl) in Hin. by apply not_elem_of_nil in Hin.
    + eapply Good_workers; [by apply Hg|done].
  - intros h w Hrep Hw. destruct (take_workers _ _ _ _ _ h w Ht Hrep Hw) as [?|?]; [left|by right].
    rewrite performs_workers. apply elem_of_app. by left.
  - intros Hne. destruct (is_done i); [by destruct Hne; apply Hs|done].
  - intros w. rewrite performs_workers, elem_of_app. intros [Hw|?]; [left|by right].
    by eapply take_sub.
Qed.

(** The members of a reachable pool, against those of the configuration. *)
Lemma reach_covers k s t :
  config_ok cfg → Z.of_nat k < max_steps → reach cfg k s → running s = true →
  covers t (otherContainers (members (pool s)) t).
Proof.
  intros Hcfg Hk Hr Hrun n m Hm Hne.
  destruct (reach_running _ _ _ Hcfg Hk Hr Hrun) as [HB _].
  destruct (reach_same_config _ _ _ Hr) as (_&_&_&_&Hst).
  assert (Hn : static_members (pool s) !! n = Some (set_queue [] m)).
  { rewrite Hst. unfold static_members. simpl. by rewrite lookup_fmap, Hm. }
  unfold static_members in Hn. rewrite lookup_fmap in Hn.
  destruct (members (pool s) !! n) as [m1|] eqn:Hm1; [|done]. apply (inj Some) in Hn.
  unfold otherContainers. apply list_elem_of_fmap. exists m1. split.
  - change (containerName (set_queue [] m) = containerName (set_queue [] m1)). by rewrite Hn.
  - apply list_elem_of_filter. split; [by rewrite (b_names _ _ _ _ HB _ _ Hm1)|].
    apply sortedMembers_elem. eauto.
Qed.

Lemma mgr_step_ok n k s h i s' es :
  config_ok cfg → Z.of_nat (S k) < max_steps → WInv n {| w_sys := s; w_hist := h |} →
  running s = true → reported h i → mgr_step k s i s' es → mgr_ok h es.
Proof.
  intros Hcfg Hk [_ _ Hgone Hsp _ _] Hrun Hrep [Hr' [Hle Hl] _ Hg _ Hkeep Hdone _]; simpl in *.
  destruct Hl as [?|(Hlt & Hs & Hargs)]; [by left|right]. exists (opSeq (pool s')).
  assert (Hrun' : running s' = true) by (apply Hdone; by rewrite Hs).
  destruct (reach_running _ _ _ Hcfg Hk Hr' Hrun') as [HB' [HC' _ _ _]].
  split_and!; [done| |].
  - intros op Hop. destruct (Hsp Hrun op Hop) as [Hle' Hw]. split; [lia|].
    destruct Hw as [(w & -> & Hw)%list_elem_of_fmap|?]; [|by right].
    destruct (Hkeep h w Hrep Hw) as [Hw'|?]; [left|by right].
    rewrite gone_snoc, <- Hgone, <- Hg.
    destruct (b_wctx _ _ _ _ HB' w Hw') as [?|Hc]; [done|].
    rewrite (c_cancel _ _ HC') in Hc. destruct (decide _); simplify_eq. lia.
  - intros op t others Hin. destruct (Hargs _ _ _ Hin) as (t' & Ht & ->).
    destruct (members (pool s') !! t') as [m|] eqn:Hm; [|done]. apply (inj Some) in Ht.
    rewrite (b_names _ _ _ _ HB' _ _ Hm) in Ht. subst. by eapply reach_covers.
Qed.

Lemma acts_mgr op h es : acts op (h ++ [EvMgr es]) = acts op h.
Proof. rewrite acts_app. by rewrite app_nil_r. Qed.

Lemma handle_winv n k s h i s' es :
  config_ok cfg → Z.of_nat (S k) < max_steps → (k ≤ n)%nat →
  WInv n {| w_sys := s; w_hist := h |} →
  running s = true → reported h i → mgr_step k s i s' es →
  WInv (S n) {| w_sys := s'; w_hist := h ++ [EvMgr es] |}.
Proof.
  intros Hcfg Hk Hkn HI Hrun Hrep Hm. pose proof (mgr_step_ok _ _ _ _ _ _ _ Hcfg Hk HI Hrun Hrep Hm) as Hok.
  destruct HI as [_ Hh Hgone Hsp Hact Hwk], Hm as [Hr' [Hle Hl] Ha Hg Hw Hkeep Hdone Hnew].
  simpl in *.
  split; simpl.
  - exists (S k). split; [lia|done].
  - by apply hist_ok_snoc.
  - by rewrite Hg, Hgone, gone_snoc.
  - intros Hrun' op. rewrite spawned_snoc, acts_mgr. intros [Hop|Hop]%elem_of_app.
    + destruct (Hsp Hrun op Hop) as [? [(w & -> & Hw')%list_elem_of_fmap|?]];
        (split; [lia|]); [|by right].
      destruct (Hkeep h w Hrep Hw') as [?|?]; [left|by right]. apply list_elem_of_fmap. eauto.
    + split; [|left; by apply Hw]. destruct Hl as [Hl|(_ & Hl & _)]; rewrite Hl in Hop.
      * by apply not_elem_of_nil in Hop.
      * apply list_elem_of_singleton in Hop. lia.
  - intros Hrun' Hst. rewrite acts_mgr.
    destruct (Ha Hst) as [(Hst' & -> & ->)|(msg & -> & Hop & Hk' & -> & ->)]; [by apply Hact|].
    exists msg. split_and!; [|done..]. rewrite <- Hop. exact Hrep.
  - intros v Hv. rewrite outputs_app, works_app. apply elem_of_app.
    destruct (Hnew v Hv) as [?|?]; [left; auto|right]. unfold outputs. simpl. by rewrite app_nil_r.
Qed.

(** What a worker or docker does leaves the manager as it is. *)
Lemma env_winv n s h ev :
  WInv n {| w_sys := s; w_hist := h |} → (∀ es, ev ≠ EvMgr es) → ev_ok h ev →
  WInv (S n) {| w_sys := s; w_hist := h ++ [ev] |}.
Proof.
  intros [(k & Hk & Hr) Hh Hgone Hsp Hact Hwk] Hne Hok; simpl in *.
  assert (Hsg : spawned (h ++ [ev]) = spawned h ∧ gone (h ++ [ev]) = gone h).
  { rewrite spawned_app, gone_app. unfold spawned at 2, gone at 2. simpl.
    destruct ev; [by destruct (Hne es)|by rewrite !app_nil_r..]. }
  destruct Hsg as [Hs1 Hg1].
  assert (Hmore : ∀ op msg, Deliver msg ∈ acts op h → Deliver msg ∈ acts op (h ++ [ev])).
  { intros op msg Hin. rewrite acts_app. apply elem_of_app. by left. }
  split; simpl.
  - exists k. split; [lia|done].
  - by apply hist_ok_snoc.
  - by rewrite Hg1.
  - intros Hrun op. rewrite Hs1. intros Hop.
    destruct (Hsp Hrun op Hop) as [? [?|[msg ?]]]; split; eauto.
  - intros Hrun Hst. destruct (Hact Hrun Hst) as (msg & ? & ? & ?). eauto.
  - intros v Hv. rewrite outputs_app, works_app. apply elem_of_app. left. auto.
Qed.

Lemma gstep_winv n w w' :
  config_ok cfg → Z.of_nat (S n) < max_steps → WInv n w → gstep w w' → WInv (S n) w'.
Proof.
  intros Hcfg Hn HI Hstep. destruct (wi_reach _ _ HI) as (k & Hk & Hr).
  destruct Hstep as [s h i now1 now2 e1 p' es Hrun H1 H2 Ht Hrep Hh|s h|s h op a Ha|s h op c Hl|s h c];
    simpl in *.
  - eapply handle_winv; [done| |exact Hk|done..|eapply handle_mgr_step; try done]; lia.
  - destruct HI as [_ Hh Hgone Hsp Hact Hwk]. split; simpl in *; try done.
    exists (S k). split; [lia|]. eapply reach_step; [done|]. constructor.
  - by apply env_winv.
  - apply env_winv; [done..|]. by exists op.
  - by apply env_winv.
Qed.

Lemma greach_winv n w :
  config_ok cfg → Z.of_nat n < max_steps → greach n w → WInv n w.
Proof.
  intros Hcfg Hn (t0 & Ht0 & Hs). revert w Hn Hs. induction n as [|n IH]; intros w Hn Hs.
  - inversion Hs; subst. split; simpl.
    + exists 0%nat. split; [done|]. exists t0. split; [done|constructor].
    + intros h1 ev h2 Heq. by destruct h1.
    + done.
    + intros _ op Hop. by apply not_elem_of_nil in Hop.
    + done.
    + intros v Hv. by apply not_elem_of_nil in Hv.
  - apply nsteps_inv_r in Hs as (w0 & Hs & Hstep).
    eapply gstep_winv; [done..| |exact Hstep]. apply IH; [lia|done].
Qed.

(** ** Reading a history *)

Lemma acts_split op a h : a ∈ acts op h → ∃ h1 h2, h = h1 ++ EvAct op a :: h2.
Proof. intros Hin%acts_elem. by apply list_elem_of_split. Qed.

Lemma acts_last op a h :
  last (acts op h) = Some a →
  ∃ h1 h2, h = h1 ++ EvAct op a :: h2 ∧ acts op h = acts op h1 ++ [a].
Proof.
  induction h as [|ev h IH] using rev_ind; [done|]. rewrite acts_app.
  unfold acts at 2 4. simpl. destruct ev as [es|o b|c|c]; simpl; rewrite ?app_nil_r.
  2: case_decide as Ho; [subst; rewrite last_snoc; intros [= ->]; by exists h, []|].
  2: rewrite app_nil_r.
  all: intros Hl; destruct (IH Hl) as (h1 & h2 & -> & Heq); eexists h1, (h2 ++ [_]);
    (split; [by rewrite <- (assoc_L (++))|exact Heq]).
Qed.

Lemma spawned_split op h : op ∈ spawned h → ∃ h1 es h2, h = h1 ++ EvMgr es :: h2 ∧ op ∈ spawns es.
Proof.
  intros ([es| | |] & Hop & Hin)%list_elem_of_bind; try by apply not_elem_of_nil in Hop.
  apply list_elem_of_split in Hin as (h1 & h2 & ->). by exists h1, es, h2.
Qed.

Lemma act_ok_spawned h op a : act_ok h op a → op ∈ spawned h.
Proof.
  intros [_ [(t & m & others & Hin & _)|[Hin _]]]; apply spawned_outputs; by eexists.
Qed.

Lemma swap_covers h op t others :
  hist_ok h → GoSwap op (Some t) others ∈ outputs h → covers t others.
Proof.
  intros Hh ([es| | |] & Hin & Hev)%list_elem_of_bind; try by apply not_elem_of_nil in Hin.
  apply list_elem_of_split in Hev as (h1 & h2 & ->).
  destruct (Hh _ _ _ eq_refl) as [Hs|(op' & _ & _ & Hc)]; [|eauto].
  by apply (no_swap _ op (Some t) others) in Hs.
Qed.

(** A container that runs now and did not run then has been started in between,
    and has not gone down since. *)
Lemma came_up c h1 h2 :
  c ∉ running_in h1 → c ∈ running_in (h1 ++ h2) →
  ∃ h3 h4, h2 = h3 ++ EvUp c :: h4 ∧
    ∀ h5 h6, h4 = h5 ++ h6 → c ∈ running_in (h1 ++ h3 ++ EvUp c :: h5).
Proof.
  intros Hoff. induction h2 as [|ev h2 IH] using rev_ind; rewrite ?app_nil_r; [done|].
  rewrite (assoc_L (++)), running_in_app. simpl. intros Hon.
  destruct (decide (c ∈ running_in (h1 ++ h2))) as [Hc|Hc].
  2: { assert (ev = EvUp c) as -> by (destruct ev; simpl in Hon; set_solver).
    exists h2, []. split; [done|]. intros h5 h6 Heq. symmetry in Heq. apply app_nil in Heq as [-> _].
    rewrite (assoc_L (++)), running_in_app. simpl. set_solver. }
  destruct (IH Hc) as (h3 & h4 & -> & Hup). exists h3, (h4 ++ [ev]).
  split; [by rewrite <- (assoc_L (++))|]. intros h5 h6 Heq.
  destruct h6 as [|y h6 _] using rev_ind.
  + rewrite app_nil_r in Heq. subst h5.
    replace (h1 ++ h3 ++ EvUp c :: h4 ++ [ev]) with ((h1 ++ h3 ++ EvUp c :: h4) ++ [ev])
      by (by rewrite <- !(assoc_L (++))).
    rewrite running_in_app. exact Hon.
  + rewrite (assoc_L (++)) in Heq. apply app_inj_tail in Heq as [-> _]. by eapply Hup.
Qed.

(** A worker whose call to start a container is in progress. *)
Lemma starting_worker h op c :
  hist_ok h → last (acts op h) = Some (CallStart c) →
  op ∈ spawned h ∧ ∃ a, calm a ∧ acts op h = a ++ start_acts c.
Proof.
  intros Hh (h1 & h2 & -> & Heq)%acts_last. pose proof (Hh _ _ _ eq_refl) as Ha. simpl in Ha.
  split.
  - rewrite spawned_app. apply elem_of_app. left. by eapply act_ok_spawned.
  - rewrite Heq. destruct Ha as [_ [(t & m & others & _ & _ & Hr)|(_ & ms & Hr)]].
    + destruct (swap_run_start _ _ _ _ c Hr) as (_ & a & [Ha _] & ->); [by apply last_snoc|].
      by exists a.
    + apply stop_run_quiet in Hr as [Hn _]. exfalso. apply (no_start_elem c _ Hn). set_solver.
Qed.

(** After its report a worker starts nothing more. *)
Lemma no_late_start op msg h1 h2 l1 l2 c :
  hist_ok l1 → h1 ++ EvAct op (Deliver msg) :: h2 = l1 ++ l2 →
  last (acts op l1) = Some (CallStart c) → CallStart c ∈ acts op h1.
Proof.
  intros Hl Heq Hlast. destruct (starting_worker _ _ _ Hl Hlast) as (_ & a & Ha & Hacts).
  assert (Hin : CallStart c ∈ acts op l1) by (rewrite Hacts; set_solver).
  apply app_eq_app in Heq as (k & [[-> _]|[-> Hk]]).
  - rewrite acts_app. set_solver.
  - destruct k as [|ev k]; [by rewrite app_nil_r in Hin|]. injection Hk as <- ->.
    assert (Hd : Deliver msg ∈ acts op (h1 ++ EvAct op (Deliver msg) :: k)).
    { apply acts_elem. set_solver. }
    rewrite Hacts in Hd. apply deliver_deliveries in Hd.
    rewrite deliveries_app, (deliveries_calm _ Ha) in Hd. by apply not_elem_of_nil in Hd.
Qed.

(** What a worker has done is the beginning of a run of its code. *)
Lemma acts_run op h a :
  hist_ok h → a ∈ acts op h →
  (∃ t m others, GoSwap op (Some t) others ∈ outputs h ∧
     new_members (pc_Members cfg) !! t = Some m ∧ swap_run op m others (acts op h)) ∨
  (GoStopAll op ∈ outputs h ∧ ∃ ms, stop_run op ms (acts op h)).
Proof.
  intros Hh Hin. destruct (last (acts op h)) as [b|] eqn:Hl.
  2: { apply last_None in Hl. rewrite Hl in Hin. by apply not_elem_of_nil in Hin. }
  destruct (acts_last _ _ _ Hl) as (h1 & h2 & -> & ->).
  destruct (Hh _ _ _ eq_refl) as [_ [(t & m & others & Hgo & Hm & Hr)|(Hgo & ms & Hr)]].
  - left. exists t, m, others. rewrite outputs_app. set_solver.
  - right. rewrite outputs_app. set_solver.
Qed.

Lemma swap_run_prefix op m others l1 l2 : swap_run op m others (l1 ++ l2) → swap_run op m others l1.
Proof.
  intros (W & C & G & fuel & w & Ho & Hp). exists W, C, G, fuel, w. split; [done|].
  etrans; [|exact Hp]. by exists l2.
Qed.

(** A worker that has been replaced while it was starting its target, and has
    reported: [swap_run_withdrawn] in a history. *)
Lemma started_withdrawn op h a c post msg :
  hist_ok h → calm a → acts op h = a ++ start_acts c ++ post → Deliver msg ∈ acts op h →
  CtxErr false ∉ post →
  CallStop c ∈ post ∨ (∃ e, Started c (Some e) ∈ post) ∨ msg_err msg = Some ErrSwapWorkerPanic.
Proof.
  intros Hh Ha Heq Hd Hno. destruct (acts_run _ _ _ Hh Hd) as [(t & m & others & _ & _ & Hr)|(_ & ms & Hr)].
  - assert (c = containerName m) as ->.
    { apply (swap_run_start op m others (a ++ start_acts c)); [|by rewrite last_app].
      apply (swap_run_prefix _ _ _ _ post). by rewrite <- (assoc_L (++)), <- Heq. }
    rewrite Heq in Hr. apply (swap_run_withdrawn op m others a post msg Hr); [|done].
    rewrite Heq in Hd. apply deliver_deliveries in Hd. rewrite !deliveries_app, (deliveries_calm _ Ha) in Hd.
    by apply deliver_deliveries.
  - apply stop_run_quiet in Hr as [Hn _]. exfalso. apply (no_start_elem c _ Hn). rewrite Heq. set_solver.
Qed.

(** A worker is started once. *)
Lemma omap_singleton_eq {A B} (f : A → option B) l b x y :
  omap f l = [b] → x ∈ l → y ∈ l → f x = Some b → f y = Some b → x = y.
Proof.
  intros Hl Hx Hy Hfx Hfy. apply list_elem_of_split in Hx as (l1 & l2 & ->).
  rewrite omap_app in Hl. simpl in Hl. rewrite Hfx in Hl.
  destruct (omap f l1) as [|c l'] eqn:H1; simplify_eq/=; [|by destruct l'].
  rewrite elem_of_app, elem_of_cons in Hy. destruct Hy as [Hy|[->|Hy]]; [|done|].
  - assert (Hb : b ∈ omap f l1) by (apply list_elem_of_omap; eauto).
    rewrite H1 in Hb. by apply not_elem_of_nil in Hb.
  - assert (Hb : b ∈ omap f l2) by (apply list_elem_of_omap; eauto).
    rewrite Hl in Hb. by apply not_elem_of_nil in Hb.
Qed.

Lemma outputs_unique h x y op :
  hist_ok h → x ∈ outputs h → y ∈ outputs h → spawn_of x = Some op → spawn_of y = Some op → x = y.
Proof.
  induction h as [|ev h IH] using rev_ind; intros Hh Hx Hy Ex Ey.
  { by apply not_elem_of_nil in Hx. }
  pose proof (hist_ok_app _ _ Hh) as Hh'. pose proof (Hh h ev [] eq_refl) as Hev.
  rewrite outputs_app in Hx, Hy. unfold outputs at 2 in Hx. unfold outputs at 2 in Hy.
  destruct ev as [es| | |]; simpl in *; rewrite ?app_nil_r in Hx, Hy; try by auto.
  assert (Hsp : ∀ z, z ∈ es → spawn_of z = Some op → op ∈ spawns es).
  { intros z ??. apply spawns_elem. eauto. }
  assert (Hold : ∀ z, z ∈ outputs h → spawn_of z = Some op → op ∈ spawned h).
  { intros z ??. apply spawned_outputs. eauto. }
  destruct Hev as [Hs|(o & Hs & Hb & _)].
  - apply elem_of_app in Hx as [Hx|Hx]; [|specialize (Hsp _ Hx Ex); rewrite Hs in Hsp;
      by apply not_elem_of_nil in Hsp].
    apply elem_of_app in Hy as [Hy|Hy]; [by auto|specialize (Hsp _ Hy Ey); rewrite Hs in Hsp;
      by apply not_elem_of_nil in Hsp].
  - rewrite Hs in Hsp. setoid_rewrite list_elem_of_singleton in Hsp.
    apply elem_of_app in Hx as [Hx|Hx], Hy as [Hy|Hy].
    + by auto.
    + pose proof (Hsp _ Hy Ey) as <-. destruct (Hb op (Hold _ Hx Ex)). lia.
    + pose proof (Hsp _ Hx Ex) as <-. destruct (Hb op (Hold _ Hy Ey)). lia.
    + pose proof (Hsp _ Hx Ex) as <-. by eapply (omap_singleton_eq spawn_of).
Qed.

(** The worker that activated the service was started, then saw the container of
    every other member stopped, and starts none of them. *)
Lemma active_worker_swept n w s m :
  config_ok cfg → NoDup (map mc_ContainerName (pc_Members cfg)) →
  WInv n w → running (w_sys w) = true → state (pool (w_sys w)) = StateActive →
  new_members (pc_Members cfg) !! s = Some m → s ≠ active (pool (w_sys w)) →
  ∃ h0 h1, w_hist w = h0 ++ h1 ∧ opSeq (pool (w_sys w)) ∈ spawned h0 ∧
    (containerName m ∉ running_in h0) ∧
    ∀ l1 l2, w_hist w = l1 ++ l2 →
      last (acts (opSeq (pool (w_sys w))) l1) ≠ Some (CallStart (containerName m)).
Proof.
  intros Hcfg Hnd [_ Hh _ _ Hact _] Hrun Hst Hm Hne.
  destruct (Hact Hrun Hst) as (msg & Hmsg & Hk & Htgt). set (op := opSeq _) in *. clearbody op.
  destruct (acts_split _ _ _ Hmsg) as (hd1 & hd2 & Heq).
  pose proof (Hh _ _ _ Heq) as [_ [(t & mt & others & Hgo & Hmt & Hr)|(_ & ms & Hr)]].
  2: { apply stop_run_quiet in Hr as [_ Hr]. destruct (Hr msg) as [(_ & _ & Hk') _];
       [set_solver|congruence]. }
  assert (Hin : Deliver msg ∈ acts op hd1 ++ [Deliver msg]) by set_solver.
  pose proof (swap_run_success _ _ _ _ _ Hr Hin Hk) as Hdone.
  destruct (completed_facts _ _ _ _ _ Hdone Hin) as (Ht & Hseen & Honly).
  apply new_members_lookup in Hmt as (mct & Hmct & -> & ->). simpl in Ht.
  assert (Hh1 : hist_ok hd1) by (apply (hist_ok_app hd1 (EvAct op (Deliver msg) :: hd2));
                                 by rewrite <- Heq).
  assert (Hc : containerName m ∈ others).
  { eapply swap_covers; [exact Hh1|exact Hgo|exact Hm|]. congruence. }
  assert (Hcne : containerName m ≠ mc_ContainerName mct).
  { apply new_members_lookup in Hm as (mc & Hmc & -> & ->). simpl. intros Hcc.
    destruct Hne. rewrite <- Htgt, Ht. f_equal. by eapply (NoDup_map_inj mc_ContainerName). }
  specialize (Hseen _ Hc). apply elem_of_app in Hseen as [Hseen|Hseen%list_elem_of_singleton]; [|done].
  destruct (acts_split _ _ _ Hseen) as (hi1 & hi2 & ->).
  pose proof (Hh1 _ _ _ eq_refl) as Hi. simpl in Hi.
  exists hi1, (EvAct op (Inspected (containerName m) (inr false)) :: hi2 ++ EvAct op (Deliver msg) :: hd2).
  split_and!; [by rewrite Heq, <- (assoc_L (++))|by eapply act_ok_spawned| |].
  - destruct Hi as [Hi _]. simpl in Hi. symmetry in Hi. by apply bool_decide_eq_false in Hi.
  - intros l1 l2 Hl Hlast. apply Hcne, Honly, elem_of_app. left.
    eapply no_late_start; [|by rewrite <- Heq|exact Hlast].
    apply (hist_ok_app l1 l2). by rewrite <- Hl.
Qed.

(** A worker about to start a container after a later one was started has been
    cancelled before that. *)
Lemma earlier_is_cancelled h h0 h1 op op' c :
  hist_ok h → h = h0 ++ h1 → op ∈ spawned h0 → op' < op →
  last (acts op' h) = Some (CallStart c) → op' ∈ gone h0.
Proof.
  intros Hh -> Hop Hlt Hlast. destruct (starting_worker _ _ _ Hh Hlast) as (Hop' & a & Ha & Hacts).
  destruct (spawned_split _ _ Hop) as (hp & es & hq & -> & Hes).
  rewrite <- (assoc_L (++)) in *. simpl in *.
  destruct (Hh hp (EvMgr es) (hq ++ h1) eq_refl) as [Hs|(op1 & Hs & Hbefore & _)];
    [rewrite Hs in Hes; by apply not_elem_of_nil in Hes|].
  assert (op1 = op) as -> by (rewrite Hs in Hes; by apply list_elem_of_singleton in Hes).
  assert (Hin : op' ∈ spawned hp).
  { destruct (decide (op' ∈ spawned hp)) as [?|Hn]; [done|exfalso].
    change (EvMgr es :: hq ++ h1) with ([EvMgr es] ++ (hq ++ h1)) in Hop'.
    rewrite (assoc_L (++)), spawned_app, spawned_snoc, Hs in Hop'.
    apply elem_of_app in Hop' as [[?|?%list_elem_of_singleton]%elem_of_app|Hlate]; [done|lia|].
    destruct (spawned_split _ _ Hlate) as (l1 & es' & l2 & Heq & Hes').
    destruct (Hh (hp ++ EvMgr es :: l1) (EvMgr es') l2) as [Hs'|(op2 & Hs' & Hb' & _)].
    - by rewrite <- (assoc_L (++)), Heq.
    - rewrite Hs' in Hes'. by apply not_elem_of_nil in Hes'.
    - rewrite Hs' in Hes'. apply list_elem_of_singleton in Hes' as <-.
      destruct (Hb' op) as [? _]; [|lia].
      rewrite spawned_app. unfold spawned at 2. simpl. rewrite Hs. set_solver. }
  destruct (Hbefore _ Hin) as [_ [Hg|[msg Hmsg]]].
  - change (EvMgr es :: hq) with ([EvMgr es] ++ hq). rewrite (assoc_L (++)), gone_app. set_solver.
  - exfalso. assert (Hd : Deliver msg ∈ a ++ start_acts c).
    { rewrite <- Hacts, acts_app. set_solver. }
    apply deliver_deliveries in Hd. rewrite deliveries_app, (deliveries_calm _ Ha) in Hd.
    by apply not_elem_of_nil in Hd.
Qed.

(** What is done after [ev] is truthful about a history that includes it. *)
Lemma later_act h h1 ev h2 op a :
  hist_ok h → h = h1 ++ ev :: h2 → a ∈ acts op h2 →
  ∃ l1 l2, h2 = l1 ++ l2 ∧ truthful (h1 ++ ev :: l1) op a.
Proof.
  intros Hh -> (l1 & l2 & ->)%acts_split. exists l1, (EvAct op a :: l2). split; [done|].
  destruct (Hh (h1 ++ ev :: l1) (EvAct op a) l2) as [? _]; [|done].
  by rewrite <- !(assoc_L (++)).
Qed.

(** A worker that has reported success has done the whole of a swap. *)
Lemma delivered_success h op msg :
  hist_ok h → Deliver msg ∈ acts op h → msg_kind msg = swapComplete →
  ∃ m a b, new_members (pc_Members cfg) !! msg_target msg = Some m ∧
    acts op h =
      a ++ start_acts (containerName m) ++ [Started (containerName m) None; CtxErr false] ++ b ++
      [Got (healthURL m) (Some 200); Probed true; Deliver (swap_report op m swapComplete None)] ∧
    calm b ∧
    ∀ s m', new_members (pc_Members cfg) !! s = Some m' → s ≠ msg_target msg →
      Inspected (containerName m') (inr false) ∈ a.
Proof.
  intros Hh Hmsg Hk.
  destruct (acts_run _ _ _ Hh Hmsg) as [(t & m & others & Hgo & Hm & Hrun')|(_ & ms & Hrun')].
  2: { apply stop_run_quiet in Hrun' as [_ Hq]. destruct (Hq _ Hmsg) as [(_ & _ & Hk') _].
       congruence. }
  pose proof (swap_run_success _ _ _ _ _ Hrun' Hmsg Hk) as Hdone.
  destruct (completed_facts _ _ _ _ _ Hdone Hmsg) as (Ht & _ & _).
  destruct Hdone as (a & b & [_ Ha] & Hb & Heq). exists m, a, b.
  assert (t = msg_target msg) as <-.
  { rewrite Ht. apply new_members_lookup in Hm as (mc & _ & -> & ->). done. }
  split_and!; [done|exact Heq|done|].
  intros s m' Hm' Hne. apply Ha. by eapply swap_covers.
Qed.

End world.
