(* ===== verification/MutualExclusion.v ===== *)
(** * The mutual-exclusion theorem, and the race it allows for

    The theorem on the composition of [Exclusion.v], and a run in which two
    containers of one pool are up: docker is slow to start the first target, an
    operator stops the pool meanwhile, and another service is started. *)

From S2P Require Import Prelude GoStrings State Docker Registry Queue Worker WorkerFacts WorkerTheorems.
From S2P Require Import Pool PoolFacts QueueInv System Invariant Handlers Reachable Demo Static.
From S2P Require Import Spawning Exclusion.
Open Scope Z_scope.

(** ** Mutual exclusion *)

(** C1: at most one container of a pool runs, up to a worker that was replaced while
    docker was starting its target. With the manager, its workers and docker running
    concurrently in any interleaving, whenever a pool is active on one service and
    the container of another member runs, that container was started for a worker
    which has since been replaced and cancelled. That worker asked docker for the
    start after a check that it was not cancelled; it has made no check with that
    answer since, and has not seen the container stopped since. And if it has
    already reported, it had asked docker to stop the container before, unless
    docker had answered the start with an error, or one of its calls panicked. *)
Theorem mutual_exclusion cfg n w s m :
  config_ok cfg → NoDup (map mc_ContainerName (pc_Members cfg)) →
  Z.of_nat n < max_steps → greach cfg n w →
  running (w_sys w) = true → state (pool (w_sys w)) = StateActive →
  new_members (pc_Members cfg) !! s = Some m → s ≠ active (pool (w_sys w)) →
  containerName m ∈ running_in (w_hist w) →
  ∃ op pre post, op < opSeq (pool (w_sys w)) ∧ op ∈ ctx_done (environment (w_sys w)) ∧
    acts op (w_hist w) = pre ++ start_acts (containerName m) ++ post ∧
    (CtxErr false ∉ post) ∧ (Inspected (containerName m) (inr false) ∉ post) ∧
    ∀ msg, Deliver msg ∈ acts op (w_hist w) →
      CallStop (containerName m) ∈ post ∨ (∃ e, Started (containerName m) (Some e) ∈ post) ∨
      msg_err msg = Some ErrSwapWorkerPanic.
Proof.
  intros Hcfg Hnd Hn Hr Hrun Hst Hm Hne Hon.
  pose proof (greach_winv _ _ _ Hcfg Hn Hr) as HI.
  destruct (active_worker_swept _ _ _ _ _ Hcfg Hnd HI Hrun Hst Hm Hne)
    as (h0 & h1 & Heq & Hop & Hoff & Hnever).
  destruct HI as [_ Hh Hgone Hsp _ _]. set (h := w_hist w) in *.
  set (c := containerName m) in *. set (op := opSeq _) in *.
  assert (Hup : c ∈ running_in (h0 ++ h1)) by (by rewrite <- Heq).
  destruct (came_up _ _ _ Hoff Hup) as (h3 & h4 & -> & Hstay).
  assert (Heq1 : h = (h0 ++ h3) ++ EvUp c :: h4) by (by rewrite Heq, (assoc_L (++))).
  destruct (Hh _ _ _ Heq1) as [op' Hlast].
  assert (Hh1 : hist_ok cfg (h0 ++ h3)) by (eapply hist_ok_app; by rewrite <- Heq1).
  destruct (starting_worker _ _ _ _ Hh1 Hlast) as (Hop' & a & Ha & Hacts).
  assert (Hlt : op' < op).
  { destruct (Hsp Hrun op') as [Hle _]; [rewrite Heq1, spawned_app; set_solver|].
    assert (op' ≠ op) by (intros ->; by apply (Hnever _ _ Heq1)). fold op in Hle. lia. }
  pose proof (earlier_is_cancelled _ _ _ _ _ _ _ Hh1 eq_refl Hop Hlt Hlast) as Hg.
  assert (Hall : acts op' h = a ++ start_acts c ++ acts op' h4)
    by (rewrite Heq1, acts_app, Hacts, <- (assoc_L (++)); done).
  assert (Hno : CtxErr false ∉ acts op' h4).
  { intros Hin. destruct (later_act _ _ _ _ _ _ _ Hh Heq1 Hin) as (l1 & l2 & -> & Ht).
    simpl in Ht. symmetry in Ht. apply bool_decide_eq_false in Ht. destruct Ht.
    rewrite <- (assoc_L (++)), gone_app. set_solver. }
  exists op', a, (acts op' h4). split_and!; [done| |done|done| |].
  - rewrite Hgone. fold h. rewrite Heq, gone_app. set_solver.
  - intros Hin. destruct (later_act _ _ _ _ _ _ _ Hh Heq1 Hin) as (l1 & l2 & -> & Ht).
    simpl in Ht. symmetry in Ht. apply bool_decide_eq_false in Ht. destruct Ht.
    rewrite <- (assoc_L (++)). by eapply Hstay.
  - intros msg Hd. exact (started_withdrawn cfg op' h a c (acts op' h4) msg Hh Ha Hall Hd Hno).
Qed.

(** A pool is active only on a service that was seen to work. With manager, workers
    and docker together, whenever a pool is active, the worker of its current
    operation has done exactly this: it saw the containers of all the other members
    stopped, was not replaced, started the container of the active service, docker
    accepted the start, it was still not replaced, and its last health probe was
    answered with status 200. *)
Theorem active_is_healthy cfg n w :
  config_ok cfg → Z.of_nat n < max_steps → greach cfg n w →
  running (w_sys w) = true → state (pool (w_sys w)) = StateActive →
  ∃ m a b, new_members (pc_Members cfg) !! active (pool (w_sys w)) = Some m ∧
    acts (opSeq (pool (w_sys w))) (w_hist w) =
      a ++ start_acts (containerName m) ++ [Started (containerName m) None; CtxErr false] ++ b ++
      [Got (healthURL m) (Some 200); Probed true; Deliver (swap_report (opSeq (pool (w_sys w))) m swapComplete None)] ∧
    calm b ∧
    ∀ s m', new_members (pc_Members cfg) !! s = Some m' → s ≠ active (pool (w_sys w)) →
      Inspected (containerName m') (inr false) ∈ a.
Proof.
  intros Hcfg Hn Hr Hrun Hst. destruct (greach_winv _ _ _ Hcfg Hn Hr) as [_ Hh _ _ Hact _].
  destruct (Hact Hrun Hst) as (msg & Hmsg & Hk & Htgt). rewrite <- Htgt.
  by apply (delivered_success cfg).
Qed.

(** ** The contract between the manager and its workers *)

Lemma works_spawn v es :
  v ∈ works es ↔ ∃ x, x ∈ es ∧ works [x] = [v] ∧ spawn_of x = Some (work_op v).
Proof.
  unfold works. rewrite list_elem_of_omap. split.
  - intros (x & Hx & Hv). exists x. split; [done|].
    destruct x as [| |? [?|] ?| | | | | | | |]; by simplify_eq/=.
  - intros (x & Hx & Hw & _). exists x. split; [done|].
    destruct x as [| |? [?|] ?| | | | | | | |]; by simplify_eq/=.
Qed.

(** C10: the assumption the manager is verified under holds of its workers. In the
    composition of the manager with the code of its workers, whoever delivers a
    report, at any time and even after it has been replaced, is a worker that the
    manager has started, and the only one it has started under that number; the
    report has the operation number, the target and the kind the manager expects of
    that worker, and it is the only one that worker has delivered so far. *)
Theorem reports_meet_contract cfg n w op msg :
  config_ok cfg → Z.of_nat n < max_steps → greach cfg n w →
  EvAct op (Deliver msg) ∈ w_hist w →
  ∃ v, v ∈ works (outputs (w_hist w)) ∧ work_op v = op ∧
    (∀ v', v' ∈ works (outputs (w_hist w)) → work_op v' = op → v' = v) ∧
    report_ok v msg ∧ deliveries (acts op (w_hist w)) = [msg].
Proof.
  intros Hcfg Hn Hr Hd%acts_elem. destruct (greach_winv _ _ _ Hcfg Hn Hr) as [_ Hh _ _ _ _].
  assert (Hone : ∀ x v, x ∈ outputs (w_hist w) → works [x] = [v] → spawn_of x = Some op →
    work_op v = op ∧ v ∈ works (outputs (w_hist w)) ∧
    ∀ v', v' ∈ works (outputs (w_hist w)) → work_op v' = op → v' = v).
  { intros x v Hx Hv Hs.
    assert (Hop : work_op v = op) by (destruct x as [| |? [?|] ?| | | | | | | |]; by simplify_eq/=).
    split_and!; [done| |].
    - apply works_spawn. exists x. by rewrite Hop.
    - intros v' (y & Hy & Hv' & Hs')%works_spawn Hop'. rewrite Hop' in Hs'.
      rewrite (outputs_unique _ _ _ _ _ Hh Hy Hx Hs' Hs) in Hv'. congruence. }
  destruct (acts_run _ _ _ _ Hh Hd) as [(t & m & others & Hgo & Hm & Hrun)|(Hgo & ms & Hrun)].
  - destruct (Hone _ (WSwap op t) Hgo eq_refl eq_refl) as (Hop & Hin & Huniq).
    exists (WSwap op t). split_and!; [done..| |]; apply new_members_lookup in Hm as (mc & _ & -> & ->);
      by eapply (swap_run_report _ (new_member mc)).
  - destruct (Hone _ (WStopAll op) Hgo eq_refl eq_refl) as (Hop & Hin & Huniq).
    exists (WStopAll op). apply stop_run_quiet in Hrun as [_ Hrun].
    destruct (Hrun msg Hd) as [? ?]. by split_and!.
Qed.

(** ** A concrete run *)

Definition race_docker : FakeClient :=
  NewFake (λ _ n, n) ["llama-container"; "comfy-container"].

Definition race_sim : Sim :=
  {| sim_docker := race_docker; sim_ops := ∅; sim_now := 0; sim_cancelled := false;
     sim_closed := false |}.

#[local] Instance race_host : Host Sim := sim_host (λ _ _, Some 200).

Definition llama : member := new_member (demo_member "llama").
Definition comfy : member := new_member (demo_member "comfy").

(** The first worker, up to the call that starts [llama]; the worker that stops the
    pool; the worker that starts [comfy], up to that call and from there on. *)
Definition race_first : list wact :=
  [CallInspect "comfy-container"; Inspected "comfy-container" (inr false)] ++
  start_acts "llama-container".
Definition race_stop : list wact :=
  [CtxErr false; CallInspect "comfy-container"; Inspected "comfy-container" (inr false);
   CtxErr false; CallInspect "llama-container"; Inspected "llama-container" (inr false);
   Deliver (stop_report 2 None)].
Definition race_second : list wact :=
  [CallInspect "llama-container"; Inspected "llama-container" (inr false)] ++
  start_acts "comfy-container".
Definition race_ready : list wact :=
  [Started "comfy-container" None; CtxErr false;
   Got "http://comfy:8080/health" (Some 200); Probed true; Deliver (complete 3 "comfy")].

Lemma race_first_run : swap_run 1 llama ["comfy-container"] race_first.
Proof.
  exists Sim, sim_client, race_host, 200%nat, race_sim. split; [vm_compute; discriminate|].
  apply (bool_decide_unpack _). vm_compute. exact I.
Qed.

Lemma race_stop_run : stop_run 2 [comfy; llama] race_stop.
Proof.
  exists Sim, sim_client, race_host, 200%nat, race_sim. split; [vm_compute; discriminate|].
  apply (bool_decide_unpack _). vm_compute. exact I.
Qed.

Lemma race_second_run : swap_run 3 comfy ["llama-container"] (race_second ++ race_ready).
Proof.
  exists Sim, sim_client, race_host, 200%nat, race_sim. split; [vm_compute; discriminate|].
  apply (bool_decide_unpack _). vm_compute. exact I.
Qed.

(** Several actions of one worker in a row. *)
Lemma acts_map op h l : acts op (h ++ map (EvAct op) l) = acts op h ++ l.
Proof.
  rewrite acts_app. f_equal. induction l as [|a l IH]; [done|].
  unfold acts. simpl. rewrite decide_True by done. by f_equal.
Qed.

Lemma quiet_map op h l :
  outputs (h ++ map (EvAct op) l) = outputs h ∧ gone (h ++ map (EvAct op) l) = gone h ∧
  running_in (h ++ map (EvAct op) l) = running_in h.
Proof.
  rewrite outputs_app, gone_app, running_in_app. induction l as [|a l IH]; [|exact IH].
  by rewrite !app_nil_r.
Qed.

Lemma truthful_map op h l a : truthful h op a → truthful (h ++ map (EvAct op) l) op a.
Proof.
  destruct (quiet_map op h l) as (_ & Hg & Hr).
  destruct a as [| |c [e|b]| | | | | | | |]; simpl; rewrite ?Hg, ?Hr; done.
Qed.

Lemma gsteps_acts cfg s h op l :
  (∀ l1 a l2, l = l1 ++ a :: l2 → act_ok cfg (h ++ map (EvAct op) l1) op a) →
  nsteps (gstep cfg) (length l) {| w_sys := s; w_hist := h |}
    {| w_sys := s; w_hist := h ++ map (EvAct op) l |}.
Proof.
  induction l as [|a l IH] using rev_ind; intros Hl.
  - simpl. rewrite app_nil_r. constructor.
  - rewrite length_app, Nat.add_1_r, map_app, (assoc_L (++)). eapply nsteps_r.
    + apply IH. intros l1 b l2 ->. apply (Hl l1 b (l2 ++ [a])). by rewrite <- (assoc_L (++)).
    + apply gstep_act. by apply (Hl l a []).
Qed.

Lemma gsteps_swap cfg s h op t m others l :
  GoSwap op (Some t) others ∈ outputs h → new_members (pc_Members cfg) !! t = Some m →
  swap_run op m others (acts op h ++ l) → Forall (truthful h op) l →
  nsteps (gstep cfg) (length l) {| w_sys := s; w_hist := h |}
    {| w_sys := s; w_hist := h ++ map (EvAct op) l |}.
Proof.
  intros Hgo Hm (W & C & G & fuel & w & Ho & Hp) Ht. apply gsteps_acts. intros l1 a l2 ->.
  split.
  - apply truthful_map. rewrite Forall_forall in Ht. apply Ht. set_solver.
  - left. exists t, m, others. destruct (quiet_map op h l1) as (-> & _). split_and!; [done..|].
    exists W, C, G, fuel, w. split; [done|]. etrans; [|exact Hp]. rewrite acts_map.
    exists l2. by rewrite <- !(assoc_L (++)).
Qed.

Lemma gsteps_stop cfg s h op ms l :
  GoStopAll op ∈ outputs h → stop_run op ms (acts op h ++ l) → Forall (truthful h op) l →
  nsteps (gstep cfg) (length l) {| w_sys := s; w_hist := h |}
    {| w_sys := s; w_hist := h ++ map (EvAct op) l |}.
Proof.
  intros Hgo (W & C & G & fuel & w & Ho & Hp) Ht. apply gsteps_acts. intros l1 a l2 ->.
  split.
  - apply truthful_map. rewrite Forall_forall in Ht. apply Ht. set_solver.
  - right. destruct (quiet_map op h l1) as (-> & _). split; [done|]. exists ms.
    exists W, C, G, fuel, w. split; [done|]. etrans; [|exact Hp]. rewrite acts_map.
    exists l2. by rewrite <- !(assoc_L (++)).
Qed.

(** The manager: [llama] is asked for, the pool is stopped, [comfy] is asked for. *)
Definition race1 : System := demo1.
Definition race2 : System :=
  run_step race1 (InCmd adminStopCmd) (2 * sec) (2 * sec) (environment race1).
Definition race3 : System :=
  run_step race2 (InSwap (stop_report 2 None)) (3 * sec) (3 * sec)
    (set_workers [WSwap 1 "llama"] (environment race2)).
Definition race4 : System := demo_admit race3 "comfy" 2 (4 * sec).
Definition race5 : System :=
  run_step race4 (InSwap (complete 3 "comfy")) (9 * sec) (9 * sec)
    (set_workers [WSwap 1 "llama"] (environment race4)).

(** The executable form of [gstep_handle]. *)
Definition emitted (s : System) (i : input) (now : Z) : list effect :=
  (handle i now now (pool s)).2.

Lemma gstep_run cfg s h i now e1 :
  running s = true → clock s ≤ now → take (closed s) now (environment s) i e1 →
  reported h i → (handle i now now (pool s)).1.1 = Ret tt →
  gstep cfg {| w_sys := s; w_hist := h |}
    {| w_sys := run_step s i now now e1; w_hist := h ++ [EvMgr (emitted s i now)] |}.
Proof.
  intros Hrun Hc Ht Hrep Hret. unfold run_step, emitted.
  destruct (handle i now now (pool s)) as [[o p'] es] eqn:Hh. simpl in Hret. subst o.
  eapply gstep_handle; [done|exact Hc|done|exact Ht|done|exact Hh].
Qed.

Definition race_hist1 : list gevent :=
  [EvMgr (emitted demo0 (InCmd (admitCmd "llama" 1)) (1 * sec))] ++ map (EvAct 1) race_first.
Definition race_hist2 : list gevent :=
  race_hist1 ++ [EvMgr (emitted race1 (InCmd adminStopCmd) (2 * sec))] ++ map (EvAct 2) race_stop.
Definition race_hist3 : list gevent :=
  race_hist2 ++ [EvMgr (emitted race2 (InSwap (stop_report 2 None)) (3 * sec));
                 EvMgr (emitted race3 (InCmd (admitCmd "comfy" 2)) (4 * sec))] ++
  map (EvAct 3) race_second ++ [EvUp "comfy-container"] ++ map (EvAct 3) race_ready.
Definition race_hist : list gevent :=
  race_hist3 ++ [EvMgr (emitted race4 (InSwap (complete 3 "comfy")) (9 * sec));
                 EvUp "llama-container"].
Definition race_world : World := {| w_sys := race5; w_hist := race_hist |}.

Lemma greach_app cfg n k w w' :
  greach cfg n w → nsteps (gstep cfg) k w w' → greach cfg (n + k) w'.
Proof. intros (t0 & Ht0 & Hs) Hk. exists t0. split; [done|]. by eapply nsteps_trans. Qed.

Lemma greach_S cfg n w w' : greach cfg n w → gstep cfg w w' → greach cfg (n + 1) w'.
Proof. intros Hr Hs. eapply greach_app; [done|]. by apply nsteps_once. Qed.

(** Decide a statement on explicit traces. *)
Ltac by_eval := apply (bool_decide_unpack _); vm_compute; exact I.

Lemma race_reach1 : greach demo_cfg 6 {| w_sys := race1; w_hist := race_hist1 |}.
Proof.
  apply (greach_app _ 1 5 {| w_sys := race1;
    w_hist := [EvMgr (emitted demo0 (InCmd (admitCmd "llama" 1)) (1 * sec))] |}).
  - apply (greach_S _ 0 {| w_sys := demo0; w_hist := [] |}).
    + exists 0. split; [vm_compute; discriminate|constructor].
    + apply (gstep_run _ demo0 [] (InCmd (admitCmd "llama" 1)) (1 * sec)
               (add_issued 1 (environment demo0)));
        [reflexivity|vm_compute; discriminate|by apply demo_take_admit|done|vm_compute; reflexivity].
  - apply (gsteps_swap demo_cfg race1 _ 1 "llama" llama ["comfy-container"] race_first).
    + vm_compute. repeat (left || right).
    + vm_compute. reflexivity.
    + exact race_first_run.
    + repeat constructor.
Qed.

Lemma race_reach2 : greach demo_cfg 14 {| w_sys := race2; w_hist := race_hist2 |}.
Proof.
  unfold race_hist2. rewrite (assoc_L (++)).
  apply (greach_app _ 7 7 {| w_sys := race2;
    w_hist := race_hist1 ++ [EvMgr (emitted race1 (InCmd adminStopCmd) (2 * sec))] |}).
  - apply (greach_S _ 6 {| w_sys := race1; w_hist := race_hist1 |}); [exact race_reach1|].
    apply (gstep_run _ race1 _ (InCmd adminStopCmd) (2 * sec) (environment race1));
      [reflexivity|vm_compute; discriminate|apply take_admin_stop|done|vm_compute; reflexivity].
  - apply (gsteps_stop demo_cfg race2 _ 2 [comfy; llama] race_stop).
    + vm_compute. repeat (left || right).
    + exact race_stop_run.
    + repeat constructor.
Qed.

Definition race_hist24 : list gevent :=
  race_hist2 ++ [EvMgr (emitted race2 (InSwap (stop_report 2 None)) (3 * sec))].

Lemma race_reach24 : greach demo_cfg 15 {| w_sys := race3; w_hist := race_hist24 |}.
Proof.
  apply (greach_S _ 14 {| w_sys := race2; w_hist := race_hist2 |}); [exact race_reach2|].
  apply (gstep_run _ race2 _ (InSwap (stop_report 2 None)) (3 * sec)
           (set_workers [WSwap 1 "llama"] (environment race2)));
    [reflexivity|vm_compute; discriminate| |simpl; by_eval|vm_compute; reflexivity].
  apply (take_swap _ _ _ [WSwap 1 "llama"] (WStopAll 2) [] (stop_report 2 None));
    [vm_compute; reflexivity|by repeat split].
Qed.

Definition race_hist25 : list gevent :=
  race_hist2 ++ [EvMgr (emitted race2 (InSwap (stop_report 2 None)) (3 * sec));
                 EvMgr (emitted race3 (InCmd (admitCmd "comfy" 2)) (4 * sec))].

Lemma race_reach25 : greach demo_cfg 16 {| w_sys := race4; w_hist := race_hist25 |}.
Proof.
  change race_hist25 with (race_hist2 ++
    [EvMgr (emitted race2 (InSwap (stop_report 2 None)) (3 * sec))] ++
    [EvMgr (emitted race3 (InCmd (admitCmd "comfy" 2)) (4 * sec))]).
  rewrite (assoc_L (++)). fold race_hist24.
  apply (greach_S _ 15 {| w_sys := race3; w_hist := race_hist24 |}).
  - exact race_reach24.
  - apply (gstep_run _ race3 _ (InCmd (admitCmd "comfy" 2)) (4 * sec)
             (add_issued 2 (environment race3)));
      [reflexivity|vm_compute; discriminate|by apply demo_take_admit|done|vm_compute; reflexivity].
Qed.

Lemma race_reach3 : greach demo_cfg 27 {| w_sys := race4; w_hist := race_hist3 |}.
Proof.
  change race_hist3 with (race_hist2 ++ [EvMgr (emitted race2 (InSwap (stop_report 2 None)) (3 * sec));
                 EvMgr (emitted race3 (InCmd (admitCmd "comfy" 2)) (4 * sec))] ++
    map (EvAct 3) race_second ++ [EvUp "comfy-container"] ++ map (EvAct 3) race_ready).
  rewrite !(assoc_L (++)). fold race_hist25.
  apply (greach_app _ 22 5 {| w_sys := race4;
    w_hist := (race_hist25 ++ map (EvAct 3) race_second) ++ [EvUp "comfy-container"] |}).
  - apply (greach_S _ 21 {| w_sys := race4; w_hist := race_hist25 ++ map (EvAct 3) race_second |}).
    + apply (greach_app _ 16 5 _ _ race_reach25).
      apply (gsteps_swap demo_cfg race4 _ 3 "comfy" comfy ["llama-container"] race_second).
      * vm_compute. repeat (left || right).
      * vm_compute. reflexivity.
      * apply (swap_run_prefix _ _ _ _ race_ready). exact race_second_run.
      * repeat constructor.
    + apply (gstep_up _ _ _ 3). vm_compute. reflexivity.
  - apply (gsteps_swap demo_cfg race4 _ 3 "comfy" comfy ["llama-container"] race_ready).
    + vm_compute. repeat (left || right).
    + vm_compute. reflexivity.
    + exact race_second_run.
    + repeat constructor.
Qed.

Lemma race_reach : greach demo_cfg 29 race_world.
Proof.
  unfold race_world, race_hist.
  apply (greach_S _ 28 {| w_sys := race5;
    w_hist := race_hist3 ++ [EvMgr (emitted race4 (InSwap (complete 3 "comfy")) (9 * sec))] |}).
  - apply (greach_S _ 27 {| w_sys := race4; w_hist := race_hist3 |}); [exact race_reach3|].
    apply (gstep_run _ race4 _ (InSwap (complete 3 "comfy")) (9 * sec)
             (set_workers [WSwap 1 "llama"] (environment race4)));
      [reflexivity|vm_compute; discriminate| |simpl; by_eval|vm_compute; reflexivity].
    apply (take_swap _ _ _ [WSwap 1 "llama"] (WSwap 3 "comfy") [] (complete 3 "comfy"));
      [vm_compute; reflexivity|by repeat split].
  - pose proof (gstep_up demo_cfg race5 (race_hist3 ++ [EvMgr (emitted race4
      (InSwap (complete 3 "comfy")) (9 * sec))]) 1 "llama-container") as Hup.
    rewrite <- (assoc_L (++)) in Hup. apply Hup. vm_compute. reflexivity.
Qed.

(** Two containers of one pool run: docker completes the start that the replaced
    worker had asked for before it was cancelled. *)
Theorem replaced_start_completes :
  ∃ n w, greach demo_cfg n w ∧ state (pool (w_sys w)) = StateActive ∧
    active (pool (w_sys w)) = "comfy" ∧
    running_in (w_hist w) = {["comfy-container"; "llama-container"]}.
Proof.
  exists 29%nat, race_world. split; [exact race_reach|].
  split; [vm_compute; reflexivity|]. split; [vm_compute; reflexivity|].
  by_eval.
Qed.

Lemma mutual_exclusion_witness :
  ∃ op pre post, op < opSeq (pool race5) ∧ op ∈ ctx_done (environment race5) ∧
    acts op race_hist = pre ++ start_acts "llama-container" ++ post ∧
    (CtxErr false ∉ post) ∧ (Inspected "llama-container" (inr false) ∉ post) ∧
    ∀ msg, Deliver msg ∈ acts op race_hist →
      CallStop "llama-container" ∈ post ∨ (∃ e, Started "llama-container" (Some e) ∈ post) ∨
      msg_err msg = Some ErrSwapWorkerPanic.
Proof.
  apply (mutual_exclusion demo_cfg 29 race_world "llama" llama).
  - exact demo_cfg_ok.
  - by_eval.
  - vm_compute. reflexivity.
  - exact race_reach.
  - reflexivity.
  - vm_compute. reflexivity.
  - vm_compute. reflexivity.
  - vm_compute. discriminate.
  - by_eval.
Defined.

Lemma reports_meet_contract_witness :
  ∃ v, v ∈ works (outputs race_hist3) ∧ work_op v = 3 ∧
    (∀ v', v' ∈ works (outputs race_hist3) → work_op v' = 3 → v' = v) ∧
    report_ok v (complete 3 "comfy") ∧ deliveries (acts 3 race_hist3) = [complete 3 "comfy"].
Proof.
  apply (reports_meet_contract demo_cfg 27 {| w_sys := race4; w_hist := race_hist3 |} 3).
  - exact demo_cfg_ok.
  - reflexivity.
  - exact race_reach3.
  - apply acts_elem. vm_compute. repeat (left || right).
Defined.

Lemma active_is_healthy_witness :
  ∃ m a b, new_members (pc_Members demo_cfg) !! "comfy" = Some m ∧
    acts 3 race_hist =
      a ++ start_acts (containerName m) ++ [Started (containerName m) None; CtxErr false] ++ b ++
      [Got (healthURL m) (Some 200); Probed true; Deliver (swap_report 3 m swapComplete None)].
Proof.
  destruct (active_is_healthy demo_cfg 29 race_world) as (m & a & b & Hm & Ha & _);
    [exact demo_cfg_ok|reflexivity|exact race_reach|reflexivity|vm_compute; reflexivity|].
  exists m, a, b. exact (conj Hm Ha).
Defined.

(** ** A stop that stops nothing *)

(** As above, up to the stop of the pool; then docker completes the start of [llama]
    although the call of the replaced worker, whose context was cancelled, has
    returned an error, and the worker reports it. *)
Definition stray_docker : FakeClient :=
  Fake (containers race_docker) [] {["llama-container" := Some ErrContextCanceled]} ∅ [] [].

Definition stray_msg : swapMsg :=
  swap_report 1 llama swapFailed (Some (ErrStarting "llama-container" ErrContextCanceled)).
Definition stray_end : list wact :=
  [Started "llama-container" (Some ErrContextCanceled); Deliver stray_msg].
Definition stray_hist1 : list gevent :=
  (race_hist24 ++ [EvUp "llama-container"]) ++ map (EvAct 1) stray_end.
Definition stray : System :=
  run_step race3 (InSwap stray_msg) (4 * sec) (4 * sec) (set_workers [] (environment race3)).
Definition stray_hist : list gevent :=
  stray_hist1 ++ [EvMgr (emitted race3 (InSwap stray_msg) (4 * sec))].

Lemma stray_run : swap_run 1 llama ["comfy-container"] (race_first ++ stray_end).
Proof.
  exists Sim, sim_client, race_host, 200%nat, (sim_set_docker stray_docker race_sim).
  split; [vm_compute; discriminate|]. apply (bool_decide_unpack _). vm_compute. exact I.
Qed.

Lemma stray_reach : greach demo_cfg 19 {| w_sys := stray; w_hist := stray_hist |}.
Proof.
  apply (greach_S _ 18 {| w_sys := race3; w_hist := stray_hist1 |}).
  - apply (greach_app _ 16 2 {| w_sys := race3; w_hist := race_hist24 ++ [EvUp "llama-container"] |}).
    + apply (greach_S _ 15 _ _ race_reach24). apply (gstep_up _ _ _ 1). vm_compute. reflexivity.
    + apply (gsteps_swap demo_cfg race3 _ 1 "llama" llama ["comfy-container"] stray_end).
      * vm_compute. repeat (left || right).
      * vm_compute. reflexivity.
      * exact stray_run.
      * repeat constructor.
  - apply (gstep_run _ race3 _ (InSwap stray_msg) (4 * sec) (set_workers [] (environment race3)));
      [reflexivity|vm_compute; discriminate| |simpl; by_eval|vm_compute; reflexivity].
    apply (take_swap _ _ _ [] (WSwap 1 "llama") [] stray_msg); [vm_compute; reflexivity|by repeat split].
Qed.

(** The pool is [IDLE] while one of its containers runs, no worker is left that would
    stop it, and an operator's stop starts none: it answers that the pool is idle. *)
Theorem idle_pool_is_not_swept :
  ∃ n w, greach demo_cfg n w ∧ state (pool (w_sys w)) = StateIdle ∧
    workers (environment (w_sys w)) = [] ∧
    running_in (w_hist w) = {["llama-container"]} ∧
    (handle (InCmd adminStopCmd) (5 * sec) (5 * sec) (pool (w_sys w))).2
    = [ReplyAdmin AdminAlreadyIdle].
Proof.
  exists 19%nat, {| w_sys := stray; w_hist := stray_hist |}. split; [exact stray_reach|].
  split; [vm_compute; reflexivity|]. split; [vm_compute; reflexivity|].
  split; [by_eval|vm_compute; reflexivity].
Qed.
