(* ===== verification/Grants.v ===== *)
(** * What a client is told: go

    [AdmitGo] is the only answer after which the HTTP layer forwards a request. Here
    the handlers are read for the clients they tell to go, and the composition of
    [Exclusion.v] for what the workers have done by then. *)

From S2P Require Import Prelude State Docker Queue Worker WorkerFacts WorkerTheorems.
From S2P Require Import Pool PoolFacts QueueInv System Invariant Handlers Reachable Demo Static Spawning.
From S2P Require Import Exclusion MutualExclusion.
Open Scope Z_scope.

(** ** Code whose actions satisfy a predicate *)

Definition emits {A} (P : effect → Prop) (m : M A) : Prop := ∀ p, wp m (λ _ _ es, Forall P es) p.

Section emits.
Context (P : effect → Prop).

Lemma emits_bind {A B} (m : M A) (k : A → M B) :
  emits P m → (∀ a, emits P (k a)) → emits P (m ≫= k).
Proof.
  intros Hm Hk p. apply wp_bind. eapply wp_mono; [|apply Hm].
  intros [a| |] p1 es H1; [|done..]. eapply wp_mono; [|apply Hk].
  intros o p2 es' H2. by apply Forall_app.
Qed.

Lemma emits_mret {A} (a : A) : emits P (mret a).
Proof. intros p. by apply wp_mret. Qed.

Lemma emits_gets {A} (f : Pool → A) : emits P (gets f).
Proof. intros p. by apply wp_gets. Qed.

Lemma emits_modify f : emits P (modify f).
Proof. intros p. by apply wp_modify. Qed.

Lemma emits_deref {A} (o : option A) : emits P (deref o).
Proof. intros p. by destruct o; unfold wp; simpl. Qed.

Lemma emits_emit x : P x → emits P (emit x).
Proof. intros Hx p. apply wp_emit. by repeat constructor. Qed.

Lemma emits_for_each {A} (body : A → M ()) l : (∀ x, emits P (body x)) → emits P (for_each body l).
Proof. intros Hb. induction l; simpl; [apply emits_mret|by apply emits_bind]. Qed.

End emits.

Create HintDb emits.
#[export] Hint Resolve emits_mret emits_gets emits_modify emits_deref : emits.
#[export] Hint Extern 1 (emits _ (emit _)) => (apply emits_emit; done) : emits.

(** Prove [emits P m] by the structure of [m]. *)
Ltac emits :=
  repeat first
    [ solve [eauto with emits]
    | match goal with
      | |- emits _ (_ ≫= _) => apply emits_bind; [|intros]
      | |- emits _ (for_each _ _) => apply emits_for_each; intros
      | |- emits _ (match ?x with _ => _ end) => destruct x
      end ].

(** ** Handlers that tell nobody to go *)

Definition no_grant (x : effect) : Prop :=
  match x with Reply _ r => result r ≠ AdmitGo | _ => True end.

Lemma no_grant_flush n r : result r ≠ AdmitGo → emits no_grant (flush_member n r).
Proof.
  intros Hr p. destruct (members p !! n) as [m|] eqn:Hm.
  - eapply wp_eq; [by apply flush_member_eq|]. unfold reply_all.
    apply Forall_forall. intros x (w & -> & _)%list_elem_of_fmap. exact Hr.
  - unfold flush_member. apply wp_bind, wp_gets. simpl. rewrite Hm. apply wp_bind. constructor.
Qed.

#[export] Hint Resolve no_grant_flush : emits.
#[export] Hint Extern 1 (result _ ≠ _) => done : emits.

Lemma no_grant_flush_all r : result r ≠ AdmitGo → emits no_grant (flush_all r).
Proof. intros Hr. unfold flush_all. emits. Qed.

#[export] Hint Resolve no_grant_flush_all : emits.

Lemma no_grant_startSwap t : emits no_grant (startSwap t).
Proof. unfold startSwap, bumpEpochs, supersedeWorker, publish. emits. Qed.
Lemma no_grant_startStopAll : emits no_grant startStopAll.
Proof. unfold startStopAll, bumpEpochs, supersedeWorker, publish. emits. Qed.
Lemma no_grant_armTimer k d : emits no_grant (armTimer k d).
Proof. unfold armTimer. emits. Qed.
Lemma no_grant_settle st act : emits no_grant (settle st act).
Proof. unfold settle. emits. Qed.
Lemma no_grant_release_ctx : emits no_grant release_ctx.
Proof. unfold release_ctx. emits. Qed.
#[export] Hint Resolve no_grant_startSwap no_grant_startStopAll no_grant_armTimer no_grant_settle
  no_grant_release_ctx : emits.

Lemma no_grant_chain activated now : emits no_grant (chainAfterTerminal activated now).
Proof. unfold chainAfterTerminal. emits. Qed.
Lemma no_grant_chainNow : emits no_grant chainNow.
Proof. unfold chainNow. emits. Qed.
#[export] Hint Resolve no_grant_chain no_grant_chainNow : emits.

(** ** Who is told to go *)

(** The client of a request for the active service, and the clients queued for the
    target of the swap that has just succeeded. *)
Inductive granted (i : input) (p : Pool) (c : chan) : string → Prop :=
| granted_active :
    state p = StateActive → i = InCmd (admitCmd (active p) c) → granted i p c (active p)
| granted_swap msg w :
    i = InSwap msg → msg_op msg = opSeq p → msg_kind msg = swapComplete →
    waiting (members p) (msg_target msg) w → w_reply w = c → granted i p c (msg_target msg).

Definition grants (i : input) (p : Pool) (x : effect) : Prop :=
  ∀ c r, x = Reply c r → result r = AdmitGo → ∃ service, granted i p c service.

Lemma no_grant_grants i p {A} (m : M A) p1 :
  emits no_grant m → wp m (λ _ _ es, Forall (grants i p) es) p1.
Proof.
  intros Hm. eapply wp_mono; [|apply Hm]. intros o p' es Hes.
  eapply Forall_impl; [exact Hes|]. intros x Hx c r -> Hr. done.
Qed.

Lemma handle_grants i now1 now2 p :
  wp (handle i now1 now2) (λ _ _ es, Forall (grants i p) es) p.
Proof.
  destruct i as [[s c|s c| | |s|]|msg|t|s|ev|]; simpl.
  - unfold handleAdmit. apply wp_bind, wp_gets. simpl.
    destruct (members p !! s) as [m|]; [|apply no_grant_grants; emits].
    do 2 (apply wp_bind, wp_gets; simpl). case_decide as Ha.
    + destruct Ha as [Hst <-]. apply wp_bind, wp_emit, wp_modify. constructor; [|done].
      intros c' r [= <- <-] _. exists (active p). by constructor.
    + apply no_grant_grants. emits.
  - apply no_grant_grants. unfold handleCancel. emits.
  - apply no_grant_grants. emits.
  - apply no_grant_grants. emits.
  - apply no_grant_grants. unfold handleAdminSwap. emits.
  - apply no_grant_grants. unfold handleAdminStop. emits.
  - unfold handleSwap. apply wp_bind, wp_gets. simpl. case_decide as Hop; [by apply wp_mret|].
    assert (Hop' : msg_op msg = opSeq p) by (by destruct (decide (msg_op msg = opSeq p))).
    destruct (msg_kind msg) eqn:Hk; [|apply no_grant_grants; unfold publish; emits..].
    run_eq release_ctx_eq. run_eq settle_eq. apply wp_bind, wp_modify. simpl. run_eq publish_eq.
    set (p1 := publish_state _). apply wp_bind.
    assert (Hc : Forall (grants (InSwap msg) p) (cancel_effects p)).
    { apply Forall_forall. unfold cancel_effects. destruct (swapCancel p); [|by intros ? ?%not_elem_of_nil].
      by intros x ->%list_elem_of_singleton. }
    destruct (members p !! msg_target msg) as [m|] eqn:Hm.
    + eapply wp_eq; [by apply flush_member_eq|]. cbn beta iota.
      eapply wp_mono; [|apply (no_grant_grants (InSwap msg) p), no_grant_chain].
      intros o p' es Hes. apply Forall_app. split; [exact Hc|]. constructor; [done|].
      apply Forall_app. split; [|exact Hes]. unfold reply_all.
      apply Forall_forall. intros x (w & -> & Hw)%list_elem_of_fmap c r [= <- <-] _.
      exists (msg_target msg). eapply granted_swap; try done. by exists m.
    + unfold flush_member. apply wp_bind, wp_gets. simpl. rewrite Hm. apply wp_bind.
      unfold wp. simpl. apply Forall_app. split; [exact Hc|]. by repeat constructor.
  - apply no_grant_grants. unfold handleTick. emits.
  - apply no_grant_grants. unfold touch. emits.
  - apply no_grant_grants. unfold handleExternalEvent, bumpEpochs, supersedeWorker, publish. emits.
  - apply no_grant_grants. unfold shutdown, publish. emits.
Qed.

(** Whoever is told to go is told before the message starts a worker. *)
Definition early (es : list effect) : Prop :=
  ∃ a b, es = a ++ b ∧ spawns a = [] ∧ Forall no_grant b.

Lemma no_grant_early {A} (m : M A) p : emits no_grant m → wp m (λ _ _ es, early es) p.
Proof. intros Hm. eapply wp_mono; [|apply Hm]. intros o p' es Hes. by exists [], es. Qed.

Lemma handle_early i now1 now2 p : wp (handle i now1 now2) (λ _ _ es, early es) p.
Proof.
  destruct i as [[s c|s c| | |s|]|msg|t|s|ev|]; simpl.
  - unfold handleAdmit. apply wp_bind, wp_gets. simpl.
    destruct (members p !! s) as [m|]; [|apply no_grant_early; emits].
    do 2 (apply wp_bind, wp_gets; simpl). case_decide as Ha; [|apply no_grant_early; emits].
    apply wp_bind, wp_emit, wp_modify. by exists [Reply c (reply_ok AdmitGo)], [].
  - apply no_grant_early. unfold handleCancel. emits.
  - apply no_grant_early. emits.
  - apply no_grant_early. emits.
  - apply no_grant_early. unfold handleAdminSwap. emits.
  - apply no_grant_early. unfold handleAdminStop. emits.
  - unfold handleSwap. apply wp_bind, wp_gets. simpl. case_decide as Hop; [by exists [], []|].
    destruct (msg_kind msg) eqn:Hk; [|apply no_grant_early; unfold publish; emits..].
    run_eq release_ctx_eq. run_eq settle_eq. apply wp_bind, wp_modify. simpl. run_eq publish_eq.
    set (p1 := publish_state _). apply wp_bind.
    assert (Hc : spawns (cancel_effects p) = []) by (unfold cancel_effects; by destruct (swapCancel p)).
    destruct (members p !! msg_target msg) as [m|] eqn:Hm.
    + eapply wp_eq; [by apply flush_member_eq|]. cbn beta iota.
      eapply wp_mono; [|apply no_grant_chain].
      intros o p' es Hes. eexists (cancel_effects p ++ _ :: reply_all _ _), es.
      split; [by rewrite <- (assoc_L (++))|]. split; [|done].
      rewrite spawns_app, Hc. unfold reply_all. simpl. unfold spawns. simpl.
      induction (queue m) as [|w q IH]; [done|exact IH].
    + unfold flush_member. apply wp_bind, wp_gets. simpl. rewrite Hm. apply wp_bind.
      unfold wp. simpl. eexists _, []. split; [by rewrite app_nil_r|]. split; [|done].
      by rewrite !spawns_app, Hc.
  - apply no_grant_early. unfold handleTick. emits.
  - apply no_grant_early. unfold touch. emits.
  - apply no_grant_early. unfold handleExternalEvent, bumpEpochs, supersedeWorker, publish. emits.
  - apply no_grant_early. unfold shutdown, publish. emits.
Qed.

Lemma early_split e1 c r e2 :
  early (e1 ++ Reply c r :: e2) → result r = AdmitGo → spawns e1 = [].
Proof.
  intros (a & b & Heq & Ha & Hb) Hr. apply app_eq_inv in Heq as [(k & -> & ->)|(k & -> & _)].
  - apply Forall_app in Hb as [_ Hb]. by apply Forall_cons in Hb as [Hb _].
  - rewrite spawns_app in Ha. by apply app_nil in Ha as [? _].
Qed.

(** The service of a client told to go is the one the current worker has reported. *)
Lemma grant_reported cfg n s h i now1 now2 p' es c r :
  config_ok cfg → Z.of_nat n < max_steps → greach cfg n {| w_sys := s; w_hist := h |} →
  running s = true → reported h i → handle i now1 now2 (pool s) = (Ret tt, p', es) →
  Reply c r ∈ es → result r = AdmitGo →
  ∃ service msg, granted i (pool s) c service ∧ Deliver msg ∈ acts (opSeq (pool s)) h ∧
    msg_kind msg = swapComplete ∧ msg_target msg = service.
Proof.
  intros Hcfg Hn Hr Hrun Hrep Hh Hin Hgo.
  destruct (greach_winv _ _ _ Hcfg Hn Hr) as [_ _ _ _ Hact _]. simpl in *.
  pose proof (handle_grants i now1 now2 (pool s)) as Hg. unfold wp in Hg. rewrite Hh in Hg.
  rewrite Forall_forall in Hg. destruct (Hg _ Hin c r eq_refl Hgo) as [service Hs].
  exists service. destruct Hs as [Hst Hi|msg w Hi Hop Hk Hw Hc].
  - destruct (Hact Hrun Hst) as (msg & ?). exists msg. split; [by constructor|done].
  - exists msg. subst i. split_and!; [by eapply granted_swap| |done..].
    rewrite <- Hop. exact Hrep.
Qed.

(** C6: a client is told to go only to a service that was seen to work. With manager,
    workers and docker together, whenever the manager answers a client with
    [AdmitGo], it is a client of the active service or of the target of the swap
    that has just been reported, and by then the worker of the current operation has
    done exactly this: it saw the containers of all the other members stopped, was
    not replaced, started the container of that service, docker accepted the start,
    it was still not replaced, and its last health probe was answered with status
    200. *)
Theorem granted_is_up cfg n s h i now1 now2 p' es c r :
  config_ok cfg → Z.of_nat n < max_steps → greach cfg n {| w_sys := s; w_hist := h |} →
  running s = true → reported h i → handle i now1 now2 (pool s) = (Ret tt, p', es) →
  Reply c r ∈ es → result r = AdmitGo →
  ∃ service m a b, granted i (pool s) c service ∧
    new_members (pc_Members cfg) !! service = Some m ∧
    acts (opSeq (pool s)) h =
      a ++ start_acts (containerName m) ++ [Started (containerName m) None; CtxErr false] ++ b ++
      [Got (healthURL m) (Some 200); Probed true;
       Deliver (swap_report (opSeq (pool s)) m swapComplete None)] ∧
    calm b ∧
    ∀ t m', new_members (pc_Members cfg) !! t = Some m' → t ≠ service →
      Inspected (containerName m') (inr false) ∈ a.
Proof.
  intros Hcfg Hn Hr Hrun Hrep Hh Hin Hgo.
  destruct (grant_reported cfg n s h i now1 now2 p' es c r) as (service & msg & Hs & Hmsg & Hk & <-);
    [done..|].
  destruct (greach_winv _ _ _ Hcfg Hn Hr) as [_ Hok _ _ _ _]. simpl in *.
  destruct (delivered_success cfg h _ msg Hok Hmsg Hk) as (m & a & b & ?).
  by exists (msg_target msg), m, a, b.
Qed.

(** The client of [comfy] of the run of [MutualExclusion]. *)
Lemma granted_is_up_witness :
  ∃ service m a b, granted (InSwap (complete 3 "comfy")) (pool race4) 2 service ∧
    acts 3 race_hist3 =
      a ++ start_acts (containerName m) ++ [Started (containerName m) None; CtxErr false] ++ b ++
      [Got (healthURL m) (Some 200); Probed true; Deliver (swap_report 3 m swapComplete None)].
Proof.
  destruct (granted_is_up demo_cfg 27 race4 race_hist3 (InSwap (complete 3 "comfy")) (9 * sec)
    (9 * sec) (pool race5) (handle (InSwap (complete 3 "comfy")) (9 * sec) (9 * sec) (pool race4)).2
    2 (reply_ok AdmitGo)) as (service & m & a & b & Hg & _ & Ha & _).
  - exact demo_cfg_ok.
  - reflexivity.
  - exact race_reach3.
  - reflexivity.
  - simpl. by_eval.
  - vm_compute. reflexivity.
  - vm_compute. repeat (left || right).
  - reflexivity.
  - exists service, m, a, b. exact (conj Hg Ha).
Defined.
