(* ===== verification/Snapshot.v ===== *)
(** * What the callers can read without asking the manager

    [publish] stores a snapshot of the pool that callers load at any time, in the
    middle of a message too. Here the snapshots are read off the actions of the
    manager: [visible] is the one that can be seen after some of them. *)

From S2P Require Import Prelude State Docker Queue Worker WorkerFacts WorkerTheorems.
From S2P Require Import Pool PoolFacts QueueInv System Invariant Handlers Reachable Demo Static Spawning.
From S2P Require Import Exclusion MutualExclusion Grants.
Open Scope Z_scope.

(** ** Snapshots *)

Definition visible (sn : PoolSnapshot) (es : list effect) : PoolSnapshot :=
  foldl (λ sn x, match x with Publish s => s | _ => sn end) sn es.

Lemma visible_app sn es es' : visible sn (es ++ es') = visible (visible sn es) es'.
Proof. apply foldl_app. Qed.

(** An action that neither starts a worker nor publishes; a snapshot that admits
    nobody. *)
Definition plain (x : effect) : Prop :=
  match x with GoSwap _ _ _ | GoStopAll _ | Publish _ => False | _ => True end.

Definition inert (x : effect) : Prop :=
  match x with Publish s => snap_State s ≠ StateActive | _ => True end.

(** No worker is started while the snapshot says that a service is active, and none
    becomes active once a worker has been started. *)
Fixpoint shielded (sn : PoolSnapshot) (es : list effect) : Prop :=
  match es with
  | [] => True
  | x :: es =>
      (spawn_of x = None ∨ snap_State sn ≠ StateActive ∧ Forall inert (x :: es)) ∧
      shielded (visible sn [x]) es
  end.

Lemma shielded_before sn es es' :
  spawns es = [] → shielded (visible sn es) es' → shielded sn (es ++ es').
Proof.
  revert sn. induction es as [|x es IH]; intros sn Hs He; [done|]. simpl.
  unfold spawns in Hs. simpl in Hs. destruct (spawn_of x) eqn:Hx; [done|].
  split; [by left|]. by apply IH.
Qed.

Lemma shielded_after sn es es' : shielded sn es → Forall plain es' → shielded sn (es ++ es').
Proof.
  intros He Hp. revert sn He. induction es as [|x es IH]; intros sn He; simpl.
  - clear He. revert sn. induction Hp as [|y es' Hy Hp IH]; intros sn; [done|].
    split; [left|apply IH]. by destruct y.
  - destruct He as [Hx He]. split; [|by apply IH]. destruct Hx as [?|[? Hf]]; [by left|right].
    split; [done|]. change (Forall inert ((x :: es) ++ es')). apply Forall_app. split; [done|].
    eapply Forall_impl; [exact Hp|]. by intros [].
Qed.

Lemma visible_plain sn es : Forall plain es → visible sn es = sn.
Proof. intros Hp. revert sn. induction Hp as [|x es Hx _ IH]; intros sn; [done|]. by destruct x; try apply IH. Qed.

Lemma visible_inert sn es : Forall inert es → snap_State sn ≠ StateActive → snap_State (visible sn es) ≠ StateActive.
Proof.
  intros Hf. revert sn. induction Hf as [|x es Hx _ IH]; intros sn Hsn; [done|]. simpl.
  apply IH. by destruct x.
Qed.

(** While the snapshot shows an active service, nothing has been started. *)
Lemma shielded_active sn e1 e2 :
  shielded sn (e1 ++ e2) → snap_State (visible sn e1) = StateActive → spawns e1 = [].
Proof.
  revert sn. induction e1 as [|x e1 IH]; intros sn; [done|]. simpl. intros [Hx He] Hv.
  unfold spawns. simpl. destruct Hx as [->|[Hsn Hf]]; [by eapply IH|].
  change (Forall inert ((x :: e1) ++ e2)) in Hf. apply Forall_app in Hf as [Hf _].
  exfalso. revert Hv. by apply (visible_inert sn (x :: e1)).
Qed.

(** ** Code, and the snapshots it shows *)

(** [mute]: starts no worker. [guarded]: shields. [answers_only]: only answers. *)
Definition mute {A} (m : M A) : Prop :=
  ∀ p, wp m (λ _ p' es, snap p' = visible (snap p) es ∧ spawns es = []) p.
Definition guarded {A} (m : M A) : Prop :=
  ∀ p, wp m (λ _ p' es, snap p' = visible (snap p) es ∧ shielded (snap p) es) p.
Definition answers_only {A} (m : M A) : Prop := ∀ p, wp m (λ _ p' es, p' = p ∧ Forall plain es) p.

Lemma mute_bind {A B} (m : M A) (k : A → M B) : mute m → (∀ a, mute (k a)) → mute (m ≫= k).
Proof.
  intros Hm Hk p. apply wp_bind. eapply wp_mono; [|apply Hm].
  intros [a| |] p1 es [H1 H2]; [|done..]. eapply wp_mono; [|apply Hk].
  intros o p2 es' [H3 H4]. split; [by rewrite visible_app, <- H1|].
  by rewrite spawns_app, H2, H4.
Qed.

Lemma guarded_bind {A B} (m : M A) (k : A → M B) :
  mute m → (∀ a, guarded (k a)) → guarded (m ≫= k).
Proof.
  intros Hm Hk p. apply wp_bind. eapply wp_mono; [|apply Hm].
  intros [a| |] p1 es [H1 H2].
  - eapply wp_mono; [|apply Hk]. intros o p2 es' [H3 H4].
    split; [by rewrite visible_app, <- H1|]. apply shielded_before; [done|]. by rewrite <- H1.
  - split; [done|]. rewrite <- (app_nil_r es). by apply shielded_before.
  - split; [done|]. rewrite <- (app_nil_r es). by apply shielded_before.
Qed.

Lemma guarded_then {A B} (m : M A) (k : A → M B) :
  guarded m → (∀ a, answers_only (k a)) → guarded (m ≫= k).
Proof.
  intros Hm Hk p. apply wp_bind. eapply wp_mono; [|apply Hm].
  intros [a| |] p1 es [H1 H2]; [|done..]. eapply wp_mono; [|apply Hk].
  intros o p2 es' [-> Hp]. split; [|by apply shielded_after].
  by rewrite visible_app, <- H1, visible_plain.
Qed.

Lemma mute_guarded {A} (m : M A) : mute m → guarded m.
Proof.
  intros Hm p. eapply wp_mono; [|apply Hm]. intros o p' es [H1 H2]. split; [done|].
  rewrite <- (app_nil_r es). by apply shielded_before.
Qed.

Lemma mute_mret {A} (a : A) : mute (mret a).
Proof. by intros p. Qed.
Lemma mute_gets {A} (f : Pool → A) : mute (gets f).
Proof. by intros p. Qed.
Lemma mute_deref {A} (o : option A) : mute (deref o).
Proof. intros p. by destruct o. Qed.
Lemma mute_modify f : (∀ p, snap (f p) = snap p) → mute (modify f).
Proof. intros Hf p. apply wp_modify. by split; [apply Hf|]. Qed.
Lemma mute_emit x : plain x → mute (emit x).
Proof. intros Hx p. apply wp_emit. split; [by destruct x|]. by destruct x. Qed.
Lemma mute_for_each {A} (body : A → M ()) l : (∀ x, mute (body x)) → mute (for_each body l).
Proof. intros Hb. induction l; simpl; [apply mute_mret|by apply mute_bind]. Qed.
Lemma answers_only_mret {A} (a : A) : answers_only (mret a).
Proof. intros p. by apply wp_mret. Qed.
Lemma answers_only_emit x : plain x → answers_only (emit x).
Proof. intros Hx p. apply wp_emit. by repeat constructor. Qed.

Create HintDb shows.
#[export] Hint Resolve mute_mret mute_gets mute_deref mute_for_each answers_only_mret : shows.
#[export] Hint Extern 1 (mute (emit _)) => (apply mute_emit; exact I) : shows.
#[export] Hint Extern 1 (answers_only (emit _)) => (apply answers_only_emit; exact I) : shows.
#[export] Hint Extern 1 (mute (modify _)) => (apply mute_modify; reflexivity) : shows.

(** Prove [mute] and [guarded] by the structure of the code. *)
Ltac shows :=
  repeat first
    [ solve [eauto with shows]
    | apply mute_bind; [|intros]
    | apply guarded_bind; [solve [shows]|intros]
    | apply guarded_then; [|intros]
    | match goal with
      | |- mute (match ?x with _ => _ end) => destruct x
      | |- guarded (match ?x with _ => _ end) => destruct x
      | |- answers_only (match ?x with _ => _ end) => destruct x
      end
    | apply mute_guarded ].

Lemma visible_cancel sn p : visible sn (cancel_effects p) = sn.
Proof. unfold cancel_effects. by destruct (swapCancel p). Qed.

Lemma mute_armTimer k d : mute (armTimer k d).
Proof. intros p. eapply wp_eq; [apply armTimer_eq|]. by destruct k. Qed.
Lemma mute_bumpEpochs : mute bumpEpochs.
Proof. intros p. by eapply wp_eq; [apply bumpEpochs_eq|]. Qed.
Lemma mute_settle st act : mute (settle st act).
Proof. intros p. by eapply wp_eq; [apply settle_eq|]. Qed.
Lemma mute_release_ctx : mute release_ctx.
Proof.
  intros p. eapply wp_eq; [apply release_ctx_eq|]. split; [by rewrite visible_cancel|apply spawns_cancel].
Qed.
Lemma mute_supersedeWorker : mute supersedeWorker.
Proof.
  intros p. eapply wp_eq; [apply supersedeWorker_eq|].
  split; [by rewrite visible_cancel|apply spawns_cancel].
Qed.
Lemma mute_touch s now : mute (touch s now).
Proof. apply mute_modify. intros p. by case_decide. Qed.
Lemma mute_publish : mute publish.
Proof. intros p. by eapply wp_eq; [apply publish_eq|]. Qed.
Lemma mute_flush_member n r : mute (flush_member n r).
Proof. unfold flush_member. shows. Qed.
#[export] Hint Resolve mute_armTimer mute_bumpEpochs mute_settle mute_release_ctx
  mute_supersedeWorker mute_touch mute_publish mute_flush_member : shows.

Lemma mute_flush_all r : mute (flush_all r).
Proof. unfold flush_all. shows. Qed.
#[export] Hint Resolve mute_flush_all : shows.

(** The snapshot says [SWAPPING] before the worker is started. *)
Lemma guarded_startSwap t : guarded (startSwap t).
Proof.
  intros p. eapply wp_eq; [apply startSwap_eq|].
  split; [by rewrite visible_app, visible_cancel|].
  apply shielded_before; [apply spawns_cancel|]. rewrite visible_cancel. simpl.
  split; [by left|]. split; [|done]. right. by repeat constructor.
Qed.

Lemma guarded_startStopAll : guarded startStopAll.
Proof.
  intros p. eapply wp_eq; [apply startStopAll_eq|].
  split; [by rewrite visible_app, visible_cancel|].
  apply shielded_before; [apply spawns_cancel|]. rewrite visible_cancel. simpl.
  split; [by left|]. split; [|done]. right. by repeat constructor.
Qed.
#[export] Hint Resolve guarded_startSwap guarded_startStopAll : shows.

Lemma guarded_chainNow : guarded chainNow.
Proof. unfold chainNow. shows. Qed.
Lemma guarded_chain b now : guarded (chainAfterTerminal b now).
Proof. unfold chainAfterTerminal. shows. Qed.
#[export] Hint Resolve guarded_chainNow guarded_chain : shows.

Lemma guarded_handle i now1 now2 : guarded (handle i now1 now2).
Proof.
  destruct i as [[]| | | | |]; simpl;
    unfold handleAdmit, handleCancel, handleAdminSwap, handleAdminStop, handleSwap, handleTick,
      handleExternalEvent, shutdown; shows.
Qed.

(** ** Which message shows an active service *)

Lemma inert_settle st act {A} (k : M A) :
  st ≠ StateActive → emits inert k → emits inert (settle st act;; publish;; k).
Proof.
  intros Hst Hk p. run_eq settle_eq. run_eq publish_eq.
  eapply wp_mono; [|apply Hk]. intros o p' es Hes. by constructor.
Qed.

Lemma inert_startSwap t : emits inert (startSwap t).
Proof.
  intros p. eapply wp_eq; [apply startSwap_eq|]. apply Forall_app.
  split; [|by repeat constructor]. unfold cancel_effects. destruct (swapCancel p); by repeat constructor.
Qed.
Lemma inert_startStopAll : emits inert startStopAll.
Proof.
  intros p. eapply wp_eq; [apply startStopAll_eq|]. apply Forall_app.
  split; [|by repeat constructor]. unfold cancel_effects. destruct (swapCancel p); by repeat constructor.
Qed.
Lemma inert_armTimer k d : emits inert (armTimer k d).
Proof. unfold armTimer. emits. Qed.
Lemma inert_flush_member n r : emits inert (flush_member n r).
Proof. unfold flush_member. emits. Qed.
Lemma inert_release_ctx : emits inert release_ctx.
Proof. unfold release_ctx. emits. Qed.
#[export] Hint Resolve inert_startSwap inert_startStopAll inert_armTimer inert_flush_member
  inert_release_ctx : emits.

Lemma inert_flush_all r : emits inert (flush_all r).
Proof. unfold flush_all. emits. Qed.
Lemma inert_chainNow : emits inert chainNow.
Proof. unfold chainNow. emits. Qed.
Lemma inert_chain b now : emits inert (chainAfterTerminal b now).
Proof. unfold chainAfterTerminal. emits. Qed.
#[export] Hint Resolve inert_flush_all inert_chainNow inert_chain : emits.

Lemma inert_handleExternalEvent ev : emits inert (handleExternalEvent ev).
Proof.
  unfold handleExternalEvent. apply emits_bind; [emits|intros [svc|]]; [|emits].
  do 3 (apply emits_bind; [emits|intros]). destruct (is_stop_action _); [|emits].
  match goal with |- emits _ (match ?st with _ => _ end) => destruct st end; [emits| | |emits].
  - case_match; [emits|]. intros p. do 2 (apply wp_bind, wp_modify; simpl).
    run_eq bumpEpochs_eq. run_eq publish_eq.
    match goal with |- wp ?m _ ?p1 => assert (Hm : emits inert m) by emits end.
    eapply wp_mono; [|apply Hm]. intros o p' es Hes. by constructor.
  - case_match; [emits|]. apply emits_bind; [unfold supersedeWorker; emits|intros].
    apply inert_settle; [done|]. emits.
Qed.

Lemma inert_shutdown : emits inert shutdown.
Proof.
  intros p. unfold shutdown. do 2 (apply wp_bind, wp_modify; simpl). run_eq publish_eq.
  eapply wp_mono; [|apply (inert_flush_all _ _)]. intros o p' es Hes. by constructor.
Qed.

(** The report that ends a swap well. *)
Definition comes_up (i : input) (p : Pool) (service : string) : Prop :=
  ∃ msg, i = InSwap msg ∧ msg_op msg = opSeq p ∧ msg_kind msg = swapComplete ∧
    msg_target msg = service.

Definition shown (i : input) (p : Pool) (x : effect) : Prop :=
  match x with
  | Publish s => snap_State s = StateActive → comes_up i p (snap_ActiveService s)
  | _ => True
  end.

Lemma inert_shown i p {A} (m : M A) p1 :
  emits inert m → wp m (λ _ _ es, Forall (shown i p) es) p1.
Proof.
  intros Hm. eapply wp_mono; [|apply Hm]. intros o p' es Hes.
  eapply Forall_impl; [exact Hes|]. intros x Hx. destruct x; try done.
  intros Hst. by destruct Hx.
Qed.

Lemma handle_shown i now1 now2 p : wp (handle i now1 now2) (λ _ _ es, Forall (shown i p) es) p.
Proof.
  destruct i as [[s c|s c| | |s|]|msg|t|s|ev|]; simpl.
  - apply inert_shown. unfold handleAdmit. emits.
  - apply inert_shown. unfold handleCancel. emits.
  - apply inert_shown. emits.
  - apply inert_shown. emits.
  - apply inert_shown. unfold handleAdminSwap. emits.
  - apply inert_shown. unfold handleAdminStop. emits.
  - unfold handleSwap. apply wp_bind, wp_gets. simpl. case_decide as Hop; [by apply wp_mret|].
    assert (Hop' : msg_op msg = opSeq p) by (by destruct (decide (msg_op msg = opSeq p))).
    run_eq release_ctx_eq. destruct (msg_kind msg) eqn:Hk.
    { run_eq settle_eq. apply wp_bind, wp_modify. simpl. run_eq publish_eq.
      eapply wp_mono; [|apply (inert_shown (InSwap msg) p); emits].
      intros o p' es Hes. apply Forall_app. split.
      - unfold cancel_effects. destruct (swapCancel p); by repeat constructor.
      - constructor; [|done]. intros _. by exists msg. }
    all: eapply wp_mono; [|apply (inert_shown (InSwap msg) p)].
    all: try (intros o p' es Hes; apply Forall_app; split; [|exact Hes];
      unfold cancel_effects; destruct (swapCancel p); by repeat constructor).
    + apply inert_settle; [done|]. emits.
    + do 3 (apply emits_bind; [emits|intros]). apply inert_settle; [done|]. emits.
    + apply inert_settle; [done|]. emits.
  - apply inert_shown. unfold handleTick. emits.
  - apply inert_shown. unfold touch. emits.
  - apply inert_shown, inert_handleExternalEvent.
  - apply inert_shown, inert_shutdown.
Qed.

(** What can be seen in the middle of a message: nothing has been started by it, and
    the service was active before, or has just been reported. *)
Lemma handle_visible i now1 now2 p p' e1 e2 service :
  handle i now1 now2 p = (Ret tt, p', e1 ++ e2) →
  admit_fast (visible (snap p) e1) service = true →
  spawns e1 = [] ∧ (admit_fast (snap p) service = true ∨ comes_up i p service).
Proof.
  intros Hh. unfold admit_fast. rewrite !andb_true_iff, !bool_decide_eq_true. intros [Hst Ha].
  pose proof (guarded_handle i now1 now2 p) as Hg. unfold wp in Hg. rewrite Hh in Hg.
  pose proof (handle_shown i now1 now2 p) as Hs. unfold wp in Hs. rewrite Hh in Hs.
  destruct Hg as [_ Hg]. split; [by eapply shielded_active|].
  apply Forall_app in Hs as [Hs _]. clear Hh Hg. generalize dependent (snap p). intros sn.
  revert sn. induction Hs as [|x e1 Hx _ IH]; intros sn Hst Ha; [by left|]. simpl in Hst, Ha.
  destruct (IH _ Hst Ha) as [[H1 H2]|?]; [|by right].
  destruct x; try (by left). right. simpl in *. rewrite <- H2. by apply Hx.
Qed.

(** ** Instants of a history *)

(** The manager handles a message: [gstep_handle], with its labels. *)
Inductive handled : World → input → list effect → World → Prop :=
| Handled s h i now1 now2 e1 p' es :
    running s = true → clock s ≤ now1 → now1 ≤ now2 →
    take (closed s) now1 (environment s) i e1 → reported h i →
    handle i now1 now2 (pool s) = (Ret tt, p', es) →
    handled {| w_sys := s; w_hist := h |} i es
      {| w_sys := Sys p' (performs now1 e1 es) now2 (closed s) (negb (is_done i));
         w_hist := h ++ [EvMgr es] |}.

Lemma handled_gstep cfg w i es w' : handled w i es w' → gstep cfg w w'.
Proof. intros []. by eapply gstep_handle. Qed.

Section instants.
Context (cfg : PoolConfig).

(** The manager's actions before some instant: those of the messages handled, and a
    part of those of the message it is at. *)
Lemma outputs_split h pre post :
  outputs h = pre ++ post →
  pre = [] ∨ ∃ h1 es h2 e1 e2, h = h1 ++ EvMgr es :: h2 ∧ es = e1 ++ e2 ∧ pre = outputs h1 ++ e1.
Proof.
  revert pre post. induction h as [|ev h IH] using rev_ind; intros pre post Heq.
  { left. symmetry in Heq. by apply app_nil in Heq as [? _]. }
  rewrite outputs_app in Heq. unfold outputs at 2 in Heq. simpl in Heq. rewrite app_nil_r in Heq.
  assert (Hold : ∀ post', outputs h = pre ++ post' → pre = [] ∨ ∃ h1 es h2 e1 e2,
    h ++ [ev] = h1 ++ EvMgr es :: h2 ∧ es = e1 ++ e2 ∧ pre = outputs h1 ++ e1).
  { intros post' Hpost. destruct (IH pre post' Hpost) as [?|(h1 & es & h2 & e1 & e2 & -> & Hes & ->)];
      [by left|right]. exists h1, es, (h2 ++ [ev]), e1, e2. by rewrite <- (assoc_L (++)). }
  apply app_eq_inv in Heq as [(k & Hk & _)|(k & Hpre & Hk)]; [by eapply Hold|].
  destruct ev as [es| | |]; [right; by exists h, es, [], k, post|..];
    (symmetry in Hk; apply app_nil in Hk as [-> _]; apply (Hold []); by rewrite Hpre, !app_nil_r).
Qed.

(** A message in a history was handled in a reachable state, with the history up to it. *)
Lemma greach_at n w h1 es h2 :
  greach cfg n w → w_hist w = h1 ++ EvMgr es :: h2 →
  ∃ k w1 i w2, (k < n)%nat ∧ greach cfg k w1 ∧ w_hist w1 = h1 ∧ handled w1 i es w2.
Proof.
  intros (t0 & Ht0 & Hs). revert w h2 Hs. induction n as [|n IH]; intros w h2 Hs Hh.
  { inversion Hs; subst. by destruct h1. }
  apply nsteps_inv_r in Hs as (w0 & Hs & Hstep).
  assert (Hold : ∀ h2, w_hist w0 = h1 ++ EvMgr es :: h2 →
    ∃ k w1 i w2, (k < S n)%nat ∧ greach cfg k w1 ∧ w_hist w1 = h1 ∧ handled w1 i es w2).
  { intros h2' Hw. destruct (IH _ _ Hs Hw) as (k & w1 & i & w2 & ? & ?).
    exists k, w1, i, w2. split; [lia|done]. }
  assert (Hnew : ∀ ev, w_hist w = w_hist w0 ++ [ev] →
    (∃ h2, w_hist w0 = h1 ++ EvMgr es :: h2) ∨ w_hist w0 = h1 ∧ ev = EvMgr es).
  { intros ev Hev. rewrite Hh in Hev. destruct h2 as [|y h2 _] using rev_ind.
    - apply app_inj_tail in Hev as [<- <-]. by right.
    - rewrite app_comm_cons, (assoc_L (++)) in Hev. apply app_inj_tail in Hev as [<- _].
      left. by exists h2. }
  destruct Hstep as [s h i now1 now2 e1 p' es' ? ? ? ? ? ?|s h|s h op a ?|s h op c ?|s h c]; simpl in *.
  - destruct (Hnew (EvMgr es') eq_refl) as [[h2' Hw]|[-> [= ->]]]; [by eapply Hold|].
    exists n, {| w_sys := s; w_hist := h1 |}, i. eexists. split; [lia|].
    split; [by exists t0|]. split; [done|]. by eapply Handled.
  - by eapply Hold.
  - destruct (Hnew (EvAct op a) eq_refl) as [[h2' Hw]|[_ ?]]; [by eapply Hold|done].
  - destruct (Hnew (EvUp c) eq_refl) as [[h2' Hw]|[_ ?]]; [by eapply Hold|done].
  - destruct (Hnew (EvDown c) eq_refl) as [[h2' Hw]|[_ ?]]; [by eapply Hold|done].
Qed.

(** Between two messages the snapshot is the last one published. *)
Lemma greach_snap n w :
  greach cfg n w → snap (pool (w_sys w)) = visible snap_idle (outputs (w_hist w)).
Proof.
  intros (t0 & Ht0 & Hs). revert w Hs. induction n as [|n IH]; intros w Hs.
  { by inversion Hs; subst. }
  apply nsteps_inv_r in Hs as (w0 & Hs & Hstep). apply IH in Hs. clear IH.
  destruct Hstep as [s h i now1 now2 e1 p' es ? ? ? ? ? Hh|s h|s h op a ?|s h op c ?|s h c];
    simpl in *; rewrite ?outputs_app, ?visible_app; try done.
  pose proof (guarded_handle i now1 now2 (pool s)) as Hg. unfold wp in Hg. rewrite Hh in Hg.
  destruct Hg as [-> _]. rewrite Hs. unfold outputs at 2. simpl. by rewrite app_nil_r.
Qed.

Lemma spawns_outputs h : spawns (outputs h) = spawned h.
Proof.
  induction h as [|ev h IH]; [done|]. change (ev :: h) with ([ev] ++ h).
  rewrite outputs_app, spawned_app, spawns_app, IH. f_equal. by destruct ev; simpl; rewrite ?app_nil_r.
Qed.

(** The worker with the highest number is the one started last. *)
Lemma spawned_last h op :
  hist_ok cfg h → op ∈ spawned h → (∀ op', op' ∈ spawned h → op' ≤ op) → last (spawned h) = Some op.
Proof.
  induction h as [|ev h IH] using rev_ind; intros Hok Hin Hmax; [by apply not_elem_of_nil in Hin|].
  assert (Hev : ev_ok cfg h ev) by by apply (Hok h ev []).
  apply hist_ok_app in Hok. rewrite spawned_app in *. unfold spawned at 2.
  unfold spawned at 2 in Hin. unfold spawned at 2 in Hmax. simpl in *. rewrite app_nil_r in *.
  assert (Hquiet : ∀ l : list Z, l = [] → op ∈ spawned h ++ l → (∀ op', op' ∈ spawned h ++ l → op' ≤ op) →
    last (spawned h ++ l) = Some op).
  { intros l ->. rewrite app_nil_r. by apply IH. }
  destruct ev as [es| | |]; try by apply Hquiet.
  destruct Hev as [?|(op1 & Hs & Hbefore & _)]; [by apply Hquiet|]. rewrite Hs in *. rewrite last_snoc.
  apply elem_of_app in Hin as [Hin|Hin%list_elem_of_singleton]; [|by subst].
  destruct (Hbefore op Hin) as [Hlt _]. assert (op1 ≤ op) by (apply Hmax; set_solver). lia.
Qed.

(** The worker of the current operation, once it has reported, is the one started last. *)
Lemma current_last n w msg :
  config_ok cfg → Z.of_nat n < max_steps → greach cfg n w → running (w_sys w) = true →
  Deliver msg ∈ acts (opSeq (pool (w_sys w))) (w_hist w) →
  last (spawned (w_hist w)) = Some (opSeq (pool (w_sys w))).
Proof.
  intros Hcfg Hn Hr Hrun Hdel. destruct (greach_winv cfg n w Hcfg Hn Hr) as [_ Hok _ Hsp _ _].
  destruct (acts_split _ _ _ Hdel) as (l1 & l2 & Hl). apply spawned_last; [done| |].
  - rewrite Hl, spawned_app. apply elem_of_app. left. eapply act_ok_spawned.
    by apply (Hok l1 (EvAct (opSeq (pool (w_sys w))) (Deliver msg)) l2).
  - intros op' Hop'. by destruct (Hsp Hrun op' Hop').
Qed.

(** An instant at which the snapshot shows an active service, and the state at the
    beginning of the message the manager is at: the worker started last is that of
    the current operation, and it has reported that service. *)
Lemma visible_reported n w pre post service :
  config_ok cfg → Z.of_nat n < max_steps → greach cfg n w →
  outputs (w_hist w) = pre ++ post → admit_fast (visible snap_idle pre) service = true →
  ∃ k w1 h2 msg, (k ≤ n)%nat ∧ greach cfg k w1 ∧ w_hist w = w_hist w1 ++ h2 ∧
    outputs (w_hist w1) `prefix_of` pre ∧
    last (spawns pre) = Some (opSeq (pool (w_sys w1))) ∧
    Deliver msg ∈ acts (opSeq (pool (w_sys w1))) (w_hist w1) ∧
    msg_kind msg = swapComplete ∧ msg_target msg = service.
Proof.
  intros Hcfg Hn Hr Hout Hv.
  destruct (outputs_split _ _ _ Hout) as [->|(h1 & es0 & h2 & e1 & e2 & Hh & Hes & ->)]; [done|].
  destruct (greach_at _ _ _ _ _ Hr Hh) as (k & w1 & i & w2 & Hk & Hr1 & <- & Hd).
  pose proof (greach_winv cfg k w1 Hcfg ltac:(lia) Hr1) as [(j & Hj & Hreach) _ _ _ Hact _].
  rewrite visible_app, <- (greach_snap _ _ Hr1) in Hv.
  destruct Hd as [s h i now1 now2 en p' es Hrun ? ? ? Hrep Hd]; simpl in *. subst es.
  destruct (handle_visible _ _ _ _ _ _ _ _ Hd Hv) as [Hs Hup].
  destruct (reach_running cfg j s) as [HB [HC _ _ _]]; [done|lia|done|done|].
  assert (∃ msg, Deliver msg ∈ acts (opSeq (pool s)) h ∧ msg_kind msg = swapComplete ∧
    msg_target msg = service) as (msg & Hdel & Hkind & Ht).
  { destruct Hup as [Hfast|(msg & -> & Hop & Hkind & Ht)].
    - rewrite (c_snap _ _ HC) in Hfast. unfold admit_fast in Hfast. simpl in Hfast.
      apply andb_true_iff in Hfast as [Hst%bool_decide_eq_true Ha%bool_decide_eq_true].
      destruct (Hact Hrun Hst) as (msg & ? & ? & ?). exists msg. by rewrite <- Ha.
    - exists msg. split; [|done]. rewrite <- Hop. exact Hrep. }
  exists k, {| w_sys := s; w_hist := h |}, (EvMgr (e1 ++ e2) :: h2), msg. simpl.
  split; [lia|]. do 2 (split; [done|]). split; [by exists e1|]. split; [|done].
  rewrite spawns_app, Hs, app_nil_r, spawns_outputs.
  exact (current_last k _ msg Hcfg ltac:(lia) Hr1 Hrun Hdel).
Qed.

End instants.

(** C17: the snapshot the callers act on is never ahead of the containers and never
    outlives them. At every instant, in the middle of the manager's messages too, if
    the published snapshot lets the requests for a service through without asking
    the manager, then no worker has been started after the one that brought this
    service up, and before that instant this worker had done exactly this: it saw the
    containers of all the other members stopped, was not replaced, started the
    container of that service, docker accepted the start, it was still not replaced,
    and its last health probe was answered with status 200. *)
Theorem snapshot_is_sound cfg n w pre post service :
  config_ok cfg → Z.of_nat n < max_steps → greach cfg n w →
  outputs (w_hist w) = pre ++ post → admit_fast (visible snap_idle pre) service = true →
  ∃ h1 h2 op m a b, w_hist w = h1 ++ h2 ∧ outputs h1 `prefix_of` pre ∧
    last (spawns pre) = Some op ∧ new_members (pc_Members cfg) !! service = Some m ∧
    acts op h1 =
      a ++ start_acts (containerName m) ++ [Started (containerName m) None; CtxErr false] ++ b ++
      [Got (healthURL m) (Some 200); Probed true; Deliver (swap_report op m swapComplete None)] ∧
    calm b ∧
    ∀ t m', new_members (pc_Members cfg) !! t = Some m' → t ≠ service →
      Inspected (containerName m') (inr false) ∈ a.
Proof.
  intros Hcfg Hn Hr Hout Hv.
  destruct (visible_reported cfg n w pre post service)
    as (k & w1 & h2 & msg & Hk & Hr1 & Hh & Hpre & Hlast & Hdel & Hkind & <-); [done..|].
  destruct (greach_winv cfg k w1 Hcfg ltac:(lia) Hr1) as [_ Hok _ _ _ _].
  destruct (delivered_success cfg _ _ msg Hok Hdel Hkind) as (m & a & b & ?).
  by exists (w_hist w1), h2, (opSeq (pool (w_sys w1))), m, a, b.
Qed.

(** The run of [MutualExclusion], in the middle of the message that makes [comfy]
    active: it has been published, and its client has not been answered yet. *)
Lemma snapshot_is_sound_witness :
  ∃ h1 h2 op m a b, race_hist = h1 ++ h2 ∧ last (spawns (firstn 13%nat (outputs race_hist))) = Some op ∧
    new_members (pc_Members demo_cfg) !! "comfy" = Some m ∧
    acts op h1 =
      a ++ start_acts (containerName m) ++ [Started (containerName m) None; CtxErr false] ++ b ++
      [Got (healthURL m) (Some 200); Probed true; Deliver (swap_report op m swapComplete None)].
Proof.
  destruct (snapshot_is_sound demo_cfg 29 race_world (firstn 13%nat (outputs race_hist))
    (skipn 13%nat (outputs race_hist)) "comfy") as (h1 & h2 & op & m & a & b & Hh & _ & Hl & Hm & Ha & _).
  - exact demo_cfg_ok.
  - reflexivity.
  - exact race_reach.
  - symmetry. apply firstn_skipn.
  - vm_compute. reflexivity.
  - exists h1, h2, op, m, a, b. split_and!; [exact Hh|exact Hl|exact Hm|exact Ha].
Defined.
