(* ===== verification/Protection.v ===== *)
(** * What the pool protects: the active service, the order of service, the bounds

    When a running service may be taken down, whom the manager serves next, how
    long a queue may get, and what the lock-free snapshot says. *)

From S2P Require Import Prelude State Queue Pool PoolFacts QueueInv System Invariant.
From S2P Require Import Handlers Reachable Demo Static.
Open Scope Z_scope.

(** ** The active service *)

(** The messages that may end the activity of the service [p] is serving. *)
Inductive may_leave (p : Pool) (now : Z) : input → Prop :=
| leave_operator_swap service :
    service ≠ active p → may_leave p now (InCmd (adminSwapCmd service))
| leave_operator_stop : may_leave p now (InCmd adminStopCmd)
| leave_died ev m :
    is_stop_action (ev_action ev) = true → containerName m = ev_container ev →
    members p !! active p = Some m → may_leave p now (InDocker ev)
| leave_idle :
    all_quiet (members p) → active p ≠ defaultSvc p →
    cooldown p ≤ time_Sub now (lastActivity p) →
    may_leave p now (InTick (live_tick p tickCooldown))
| leave_request service c :
    service ≠ active p → is_Some (members p !! service) → startedAt p + grace p ≤ now →
    may_leave p now (InCmd (admitCmd service c))
| leave_grace :
    ¬ all_quiet (members p) → startedAt p + grace p ≤ now →
    may_leave p now (InTick (live_tick p tickGrace))
| leave_done : may_leave p now InDone.

Definition stays (p p' : Pool) : Prop := state p' = state p ∧ active p' = active p.

#[global] Instance stays_preorder : PreOrder stays.
Proof. split; [by split|]. intros ??? [] []. split; congruence. Qed.

Lemma stays_armTimer k d : keeps stays (armTimer k d).
Proof. intros p. eapply wp_eq; [apply armTimer_eq|]. by destruct k. Qed.

Lemma stays_touch s now : keeps stays (touch s now).
Proof. apply keeps_modify. intros p. by case_decide. Qed.

Lemma stays_modify f :
  (∀ p, state (f p) = state p ∧ active (f p) = active p) → keeps (E := effect) stays (modify f).
Proof. intros Hf. apply keeps_modify. intros p. apply Hf. Qed.

#[export] Hint Resolve stays_armTimer stays_touch stays_preorder : keeps.
#[export] Hint Extern 1 (keeps stays (modify _)) =>
  (apply stays_modify; intros; split; reflexivity) : keeps.

Lemma stays_or {A} (m : M A) p p1 (R : Prop) :
  stays p p1 → keeps stays m → wp m (λ _ p' _, stays p p' ∨ R) p1.
Proof.
  intros Hp Hm. eapply wp_mono; [|apply Hm]. intros ? p' ? Hp'. left. by transitivity p1.
Qed.

Lemma wp_true {A} (m : M A) p : wp m (λ _ _ _, True) p.
Proof. unfold wp. by destruct (m p) as [[??]?]. Qed.

Lemma leave_or {A} (m : M A) p p1 (R : Prop) : R → wp m (λ _ p' _, stays p p' ∨ R) p1.
Proof. intros HR. eapply wp_mono; [|apply wp_true]. by right. Qed.

Lemma leave_answer {A} (m : M A) (f : A → effect) p (R : Prop) :
  wp m (λ _ p' _, stays p p' ∨ R) p →
  wp (m ≫= λ a, emit (f a)) (λ _ p' _, stays p p' ∨ R) p.
Proof. intros Hm. apply wp_bind. eapply wp_mono; [|exact Hm]. by intros []. Qed.

Section leaving.
Context (b clk now : Z) (p : Pool) (e : env).
Context (HB : Base b clk p e) (HC : Ctl p e).
Context (Hact : state p = StateActive).
Context (Hnow : startedAt p ≤ now).

Lemma leave_handleAdmit s c :
  wp (handleAdmit s c now)
    (λ _ p' _, stays p p' ∨ may_leave p now (InCmd (admitCmd s c))) p.
Proof.
  unfold handleAdmit. apply wp_bind, wp_gets. simpl.
  destruct (members p !! s) as [m|] eqn:Hm; [|by apply stays_or; keeps].
  do 2 (apply wp_bind, wp_gets; simpl). case_decide as Hs; [by apply stays_or; keeps|].
  apply wp_bind, wp_modify. simpl. apply wp_bind, wp_gets. simpl.
  apply wp_bind, wp_modify. simpl.
  destruct (enqueue m _).2; [|by apply stays_or; keeps].
  rewrite Hact. do 2 (apply wp_bind, wp_gets; simpl).
  case_decide as Hg; [|by apply stays_or; keeps].
  apply leave_or. apply leave_request; [naive_solver|eauto|].
  unfold time_Sub in Hg. unfold int64_min, int64_max in *. lia.
Qed.

Lemma leave_handleTick t due :
  (t, due) ∈ timers e → due ≤ now →
  wp (handleTick t now) (λ _ p' _, stays p p' ∨ may_leave p now (InTick t)) p.
Proof.
  intros Ht Hdue. unfold handleTick. apply wp_bind, wp_gets. simpl.
  case_decide as Hep; [by apply stays_or; keeps|].
  apply wp_bind, wp_gets. simpl. rewrite Hact.
  assert (Hlive : t = live_tick p (tick_kind t)).
  { destruct t as [k ep]. simpl in *. unfold live_tick. by rewrite Hep. }
  pose proof (b_noname _ _ _ _ HB) as Hno.
  destruct (tick_kind t) eqn:Hk.
  - rewrite decide_False by (by intros []). apply wp_bind, wp_gets. simpl.
    case_decide as Hnext; [|by apply stays_or; keeps]. apply leave_or. rewrite Hlive.
    rewrite Hlive in Ht. destruct (c_grace _ _ HC _ Ht) as [_ ?]. apply leave_grace; [|lia].
    intros Hq. apply Hnext. by apply oldestQueued_quiet.
  - do 3 (apply wp_bind, wp_gets; simpl).
    case_decide as Hnext; [by apply stays_or; keeps|].
    apply wp_bind, wp_gets. simpl. case_decide as Hidle; [by apply stays_or; keeps|].
    apply wp_bind, wp_gets. simpl. rewrite Hlive.
    assert (Hleave : active p ≠ defaultSvc p →
                     may_leave p now (InTick (live_tick p tickCooldown))).
    { intros. apply leave_idle; [|done|lia]. by apply oldestQueued_quiet. }
    case_decide as Hdef; [|apply leave_or, Hleave].
    + case_decide; [by apply leave_or, Hleave|by apply stays_or; keeps].
    + intros Heq. destruct (c_active _ _ (c_core _ _ HC) Hact) as [m Hm]. congruence.
Qed.

Lemma leave_handleExternalEvent ev :
  wp (handleExternalEvent ev) (λ _ p' _, stays p p' ∨ may_leave p now (InDocker ev)) p.
Proof.
  unfold handleExternalEvent. apply wp_bind, wp_gets. simpl.
  destruct (memberByContainer _ _) as [svc|] eqn:Hsvc; [|by apply stays_or; keeps].
  apply memberByContainer_Some in Hsvc as [Hc [n Hn]].
  do 3 (apply wp_bind, wp_gets; simpl). rewrite Hact.
  case_if as Hstop; [|by apply stays_or; keeps].
  case_decide as Hsvc; [by apply stays_or; keeps|]. apply leave_or.
  eapply leave_died; [done..|]. rewrite Hsvc. by rewrite (b_names _ _ _ _ HB _ _ Hn).
Qed.

Lemma leave_handleSwap l1 w l2 msg now2 :
  workers e = l1 ++ w :: l2 → report_ok w msg →
  wp (handleSwap msg now now2) (λ _ p' _, stays p p' ∨ may_leave p now (InSwap msg)) p.
Proof.
  intros Hl Hrep. unfold handleSwap. apply wp_bind, wp_gets. simpl.
  case_decide as Hop; [by apply stays_or; keeps|].
  destruct (report_live _ _ _ _ _ _ _ _ HB HC Hl Hrep Hop) as (? & _). congruence.
Qed.

Lemma leave_handleAdminSwap s :
  wp (handleAdminSwap s) (λ _ p' _, stays p p' ∨ may_leave p now (InCmd (adminSwapCmd s))) p.
Proof.
  unfold handleAdminSwap. apply wp_bind, wp_gets. simpl.
  destruct (members p !! s); [|by apply stays_or; keeps].
  apply wp_bind, wp_gets. simpl. rewrite Hact. apply wp_bind, wp_gets. simpl.
  case_decide; [by apply stays_or; keeps|]. apply leave_or. by apply leave_operator_swap.
Qed.

End leaving.

(** C11: a running service is never taken down without a reason. In every
    reachable state in which the pool serves a service, a message that ends the
    activity of that service is an operator command, the death of its container,
    the tick that ends a full cooldown with nobody queued (never for the default
    service), the shutdown, or a request for another service handled once the
    grace period of the active one is over. In particular a swap caused by traffic
    never happens during the grace period. *)
Theorem active_service_protected cfg n s i now1 now2 e1 p' es :
  config_ok cfg → Z.of_nat n < max_steps → reach cfg n s → running s = true →
  clock s ≤ now1 → now1 ≤ now2 → take (closed s) now1 (environment s) i e1 →
  handle i now1 now2 (pool s) = (Ret tt, p', es) →
  state (pool s) = StateActive →
  (state p' = StateActive ∧ active p' = active (pool s)) ∨ may_leave (pool s) now1 i.
Proof.
  intros Hcfg Hn Hr Hrun H1 H2 Htake Hh Hact.
  destruct (reach_running _ _ _ Hcfg Hn Hr Hrun) as [HB HC].
  assert (Hnow : startedAt (pool s) ≤ now1) by (pose proof (b_started _ _ _ _ HB); lia).
  assert (Hw : wp (handle i now1 now2) (λ _ p' _, stays (pool s) p' ∨ may_leave (pool s) now1 i)
                 (pool s)).
  { destruct Htake as [service c Hc|service c Hc| | |service| |l1 w l2 msg Hl Hrep
      |l1 t due l2 Hl Hdue|service|ev|]; simpl; [|..|apply leave_or, leave_done].
    - by eapply leave_handleAdmit.
    - unfold handleCancel. by apply stays_or; keeps.
    - by apply stays_or; keeps.
    - by apply stays_or; keeps.
    - by apply leave_answer, leave_handleAdminSwap.
    - apply leave_or, leave_operator_stop.
    - by eapply leave_handleSwap.
    - eapply leave_handleTick with (due := due); [done..| |done]. rewrite Hl.
      apply elem_of_app. right. by left.
    - by apply stays_or; keeps.
    - by eapply leave_handleExternalEvent. }
  unfold wp in Hw. rewrite Hh in Hw. destruct Hw as [[Hs Ha]|?]; [left|by right].
  rewrite Hs. done.
Qed.

Lemma active_service_protected_witness :
  let i := InCmd (admitCmd "comfy" 2%nat) in
  state (pool demo2) = StateActive ∧
  ∃ p' es, handle i (30 * sec) (30 * sec) (pool demo2) = (Ret tt, p', es) ∧
  ((state p' = StateActive ∧ active p' = active (pool demo2)) ∨
   may_leave (pool demo2) (30 * sec) i).
Proof.
  split; [reflexivity|]. do 2 eexists. split; [vm_compute; reflexivity|].
  eapply (active_service_protected demo_cfg 2 demo2 _ _ (30 * sec)
            (add_issued 2 (environment demo2)));
    [apply demo_cfg_ok|reflexivity|apply demo_reach2|reflexivity|vm_compute; discriminate
    |vm_compute; discriminate|by apply demo_take_admit|vm_compute; reflexivity|reflexivity].
Defined.

(** ** Who is served next *)

(** The head of a queue is its earliest waiter. *)
Lemma queue_head_min ms sq iss canc reps n w w' :
  Queues ms sq iss canc reps → queue_head ms n w → waiting ms n w' → w_seq w ≤ w_seq w'.
Proof.
  intros HQ (m & q & Hm & Hq) (m' & Hm' & Hw'). simplify_eq.
  pose proof (q_sorted _ _ _ _ _ HQ _ _ Hm) as Hs. rewrite Hq in Hs, Hw'.
  apply StronglySorted_cons in Hs as [Hall _]. rewrite Forall_forall in Hall.
  apply elem_of_cons in Hw' as [->|Hw']; [lia|]. specialize (Hall _ Hw'). lia.
Qed.

Lemma queue_head_waiting ms n w : queue_head ms n w → waiting ms n w.
Proof. intros (m & q & Hm & Hq). exists m. split; [done|]. rewrite Hq. by left. Qed.

Lemma waiting_head ms n w : waiting ms n w → ∃ w0, queue_head ms n w0.
Proof.
  intros (m & Hm & Hw). destruct (queue m) as [|w0 q] eqn:Hq; [by apply not_elem_of_nil in Hw|].
  by exists w0, m, q.
Qed.

(** C12: the service the manager chooses next does not depend on Go's map
    iteration order, and it is first come, first served across services. In
    every reachable state with a queued client, scanning the members in any order
    gives the same service, and the client at the head of its queue arrived
    before every other queued client of the pool. *)
Theorem longest_waiting_first cfg n s service w l :
  config_ok cfg → Z.of_nat n < max_steps → reach cfg n s → running s = true →
  waiting (members (pool s)) service w → l ≡ₚ map_to_list (members (pool s)) →
  let next := oldestQueued (members (pool s)) in
  oldest_scan l "" 0 = next ∧ next ≠ "" ∧
  ∃ w0, queue_head (members (pool s)) next w0 ∧
    ∀ service' w', waiting (members (pool s)) service' w' → w_seq w0 ≤ w_seq w'.
Proof.
  intros Hcfg Hn Hr Hrun Hw Hperm next.
  destruct (reach_running _ _ _ Hcfg Hn Hr Hrun) as [HB _].
  pose proof (b_noname _ _ _ _ HB) as Hno. pose proof (b_queues _ _ _ _ HB) as HQ.
  assert (Hbusy : ¬ all_quiet (members (pool s))).
  { intros Hq. destruct Hw as (m & Hm & Hw). rewrite (Hq _ _ Hm) in Hw.
    by apply not_elem_of_nil in Hw. }
  assert (Hmin : ∀ service' w0 w', queue_head (members (pool s)) service' w0 →
    (∀ k v, queue_head (members (pool s)) k v → w_seq w0 ≤ w_seq v) →
    ∀ k, waiting (members (pool s)) k w' → w_seq w0 ≤ w_seq w').
  { intros k0 w0 w' _ Hall k Hk. destruct (waiting_head _ _ _ Hk) as [v Hv].
    transitivity (w_seq v); [by eapply Hall|by eapply queue_head_min]. }
  destruct (oldest_scan_members _ l Hno Hperm) as [[_ ?]|(_ & w1 & H1 & Hall1)]; [done|].
  destruct (oldestQueued_spec _ Hno) as [[_ ?]|(Hne & w0 & H0 & Hall0)]; [done|].
  split; [|split; [done|exists w0; split; [done|by eauto]]].
  eapply (q_seq_inj _ _ _ _ _ HQ _ _ w1 w0); try by apply queue_head_waiting.
  apply Z.le_antisymm; [by eapply Hall1|by eapply Hall0].
Qed.

Lemma longest_waiting_first_witness :
  oldest_scan (reverse (map_to_list (members (pool demo3)))) "" 0 = "comfy".
Proof.
  refine (proj1 (longest_waiting_first demo_cfg 3 demo3 "comfy" (Waiter 2 2) _ _ _ _ _ _ _));
    [apply demo_cfg_ok|reflexivity|apply demo_reach3|reflexivity| |apply reverse_Permutation].
  eexists. split; [vm_compute; reflexivity|by left].
Defined.

(** ** Bounds *)

(** C36: the queues are bounded by the configuration. In every reachable state a
    member is a configured service with its configured container, health URL,
    startup budget and queue limit, and never more clients are queued for it than
    that limit allows. *)
Theorem queue_within_limit cfg n s k m :
  config_ok cfg → Z.of_nat n < max_steps → reach cfg n s →
  members (pool s) !! k = Some m →
  ∃ mc, mc ∈ pc_Members cfg ∧ mc_Name mc = k ∧ set_queue [] m = new_member mc ∧
    Z.of_nat (length (queue m)) ≤ Z.max 0 (mc_MaxQueue mc).
Proof.
  intros Hcfg Hn Hr Hm. destruct (reach_member _ _ _ _ _ Hr Hm) as (mc & Hin & Hk & Heq).
  exists mc. split_and!; [done..|].
  destruct (reach_queues _ _ _ Hcfg Hn Hr) as [sq HQ].
  assert (maxQueue m = mc_MaxQueue mc) as <- by by injection Heq.
  by eapply q_cap.
Qed.

Lemma queue_within_limit_witness :
  ∃ m, members (pool demo3) !! "comfy" = Some m ∧
  ∃ mc, mc ∈ pc_Members demo_cfg ∧ mc_Name mc = "comfy" ∧ set_queue [] m = new_member mc ∧
    Z.of_nat (length (queue m)) ≤ Z.max 0 (mc_MaxQueue mc).
Proof.
  eexists. split; [vm_compute; reflexivity|].
  eapply (queue_within_limit demo_cfg 3 demo3 "comfy");
    [apply demo_cfg_ok|reflexivity|apply demo_reach3|vm_compute; reflexivity].
Defined.

(** ** The snapshot *)

(** The lock-free fast path is exact at every point between two messages: it
    lets a request through exactly when the manager is running and serving that
    very service. After the shutdown it lets nothing through. *)
Theorem fast_path_exact cfg n s service :
  config_ok cfg → Z.of_nat n < max_steps → reach cfg n s →
  admit_fast (snap (pool s)) service = true ↔
  running s = true ∧ state (pool s) = StateActive ∧ active (pool s) = service.
Proof.
  intros Hcfg Hn Hr. pose proof (reach_inv _ _ _ Hcfg Hn Hr) as HI. unfold Inv in HI.
  unfold admit_fast. rewrite andb_true_iff, !bool_decide_eq_true.
  destruct (running s).
  - destruct HI as [_ [HC _ _ _]]. rewrite (c_snap _ _ HC). simpl. naive_solver.
  - rewrite (stopped_snap _ _ HI). simpl. naive_solver.
Qed.

Lemma fast_path_exact_witness : admit_fast (snap (pool demo3)) "llama" = true.
Proof.
  apply (fast_path_exact demo_cfg 3 demo3 "llama");
    [apply demo_cfg_ok|reflexivity|apply demo_reach3|repeat split].
Defined.
