(* ===== verification/Outcome.v ===== *)
(** * What each message does

    The functional behaviour of the handlers on every branch: whom they answer
    and how, which queues they leave, the phase the pool is in afterwards, and
    the timers and goroutines they start. *)

From S2P Require Import Prelude State Queue Pool PoolFacts QueueInv System Invariant.
From S2P Require Import Handlers Reachable Demo Lifecycle Static.
Open Scope Z_scope.

(** ** Views of the actions of a handler *)

(** The replies sent to clients, in order. *)
Definition answers (es : list effect) : list (chan * admitReply) :=
  omap (λ x, match x with Reply c r => Some (c, r) | _ => None end) es.

(** The timers armed: their kind and their delay. *)
Definition arms (es : list effect) : list (timerKind * Z) :=
  omap (λ x, match x with AfterFunc d t => Some (tick_kind t, d) | _ => None end) es.

(** The workers started: their operation number and their target. *)
Definition starts (es : list effect) : list work :=
  omap (λ x, match x with
             | GoSwap op (Some t) _ => Some (WSwap op t)
             | GoStopAll op => Some (WStopAll op)
             | _ => None
             end) es.

Lemma answers_app es es' : answers (es ++ es') = answers es ++ answers es'.
Proof. apply omap_app. Qed.
Lemma arms_app es es' : arms (es ++ es') = arms es ++ arms es'.
Proof. apply omap_app. Qed.
Lemma starts_app es es' : starts (es ++ es') = starts es ++ starts es'.
Proof. apply omap_app. Qed.

Lemma answers_reply_all m r : answers (reply_all m r) = fifo_drain (replies_of (queue m)) r.
Proof.
  unfold reply_all, answers, fifo_drain, replies_of.
  induction (queue m) as [|w q IH]; [done|]. simpl. by rewrite <- IH.
Qed.
Lemma arms_reply_all m r : arms (reply_all m r) = [].
Proof. unfold reply_all, arms. by induction (queue m). Qed.
Lemma starts_reply_all m r : starts (reply_all m r) = [].
Proof. unfold reply_all, starts. by induction (queue m). Qed.

Lemma answers_cancel p : answers (cancel_effects p) = [].
Proof. unfold cancel_effects. by destruct (swapCancel p). Qed.
Lemma arms_cancel p : arms (cancel_effects p) = [].
Proof. unfold cancel_effects. by destruct (swapCancel p). Qed.
Lemma starts_cancel p : starts (cancel_effects p) = [].
Proof. unfold cancel_effects. by destruct (swapCancel p). Qed.

Lemma answers_publish s es : answers (Publish s :: es) = answers es.
Proof. done. Qed.
Lemma arms_publish s es : arms (Publish s :: es) = arms es.
Proof. done. Qed.
Lemma starts_publish s es : starts (Publish s :: es) = starts es.
Proof. done. Qed.

#[export] Hint Rewrite answers_publish arms_publish starts_publish answers_app arms_app starts_app answers_reply_all arms_reply_all
  starts_reply_all answers_cancel arms_cancel starts_cancel : stagehand_rw.

(** What a handler did: it returned, left the phase, the queues and the timers
    named, answered the clients named, and started the workers named. *)
Record Did (ph : phase) (ms : gmap string member) (ans : list (chan * admitReply))
    (ticks : list (timerKind * Z)) (ws : list work) (p' : Pool) (es : list effect) : Prop := {
  did_phase : phase_of p' = ph;
  did_members : members p' = ms;
  did_answers : answers es = ans;
  did_arms : arms es = ticks;
  did_starts : starts es = ws
}.

(** The worker a change towards [t] starts. *)
Definition change_work (t : string) (p : Pool) : list work := [WSwap (u64_succ (opSeq p)) t].

Lemma startSwap_did t p m :
  members p !! t = Some m → name m = t →
  wp (startSwap t)
    (returns (λ _ p' es, Did (Changing t) (members p) [] [] (change_work t p) p' es)) p.
Proof.
  intros Hm Hname. eapply wp_eq; [apply startSwap_eq|]. simpl. rewrite Hm. simpl. rewrite Hname.
  split; autorewrite with stagehand_rw; done.
Qed.

(** ** What follows a terminal report

    The decision of [chainAfterTerminal], as one function of the state it finds:
    the next target if there is one, otherwise the timers to arm. *)
Definition next_target (p : Pool) (activated : bool) : option string :=
  let next := oldestQueued (members p) in
  if decide (adminPending p ≠ "" ∧ adminPending p ≠ active p) then Some (adminPending p)
  else if decide (next ≠ "" ∧ ¬ (activated = true ∧ 0 < grace p)) then Some next
  else None.

(** A quiet pool counts down, unless its default service is the one running; a
    cold one only to bring its default service back. *)
Definition counts_down (p : Pool) (activated : bool) : bool :=
  if activated then bool_decide (defaultSvc p = "" ∨ active p ≠ defaultSvc p)
  else bool_decide (defaultSvc p ≠ "").

Definition next_ticks (p : Pool) (activated : bool) : list (timerKind * Z) :=
  match next_target p activated with
  | Some _ => []
  | None =>
      if decide (oldestQueued (members p) ≠ "") then [(tickGrace, grace p)]
      else if bool_decide (0 < cooldown p) && counts_down p activated then [(tickCooldown, cooldown p)] else []
  end.

Definition next_phase (p : Pool) (activated : bool) : phase :=
  match next_target p activated with Some t => Changing t | None => phase_of p end.

Definition next_work (p : Pool) (activated : bool) : list work :=
  match next_target p activated with Some t => change_work t p | None => [] end.

Lemma armTimer_did k d p :
  wp (armTimer k d)
    (returns (λ _ p' es, Did (phase_of p) (members p) [] [(k, d)] [] p' es ∧
                         adminPending p' = adminPending p)) p.
Proof. eapply wp_eq; [apply armTimer_eq|]. by destruct k. Qed.

Lemma chain_did p (activated : bool) now :
  (∀ t m, members p !! t = Some m → name m = t) → members p !! "" = None →
  (adminPending p = "" ∨ is_Some (members p !! adminPending p)) →
  state p = (if activated then StateActive else StateIdle) →
  wp (chainAfterTerminal activated now)
    (returns (λ _ p' es,
       Did (next_phase p activated) (members p) [] (next_ticks p activated)
         (next_work p activated) p' es ∧ adminPending p' = "")) p.
Proof.
  intros Hnames Hno Hpend Hst. unfold chainAfterTerminal.
  assert (Hswap : ∀ t, is_Some (members p !! t) → next_target p activated = Some t →
    wp (startSwap t) (returns (λ _ p' es,
       Did (next_phase p activated) (members p) [] (next_ticks p activated)
         (next_work p activated) p' es ∧ adminPending p' = "")) (set_adminPending "" p)).
  { intros t [m Hm] Ht. eapply wp_eq; [apply startSwap_eq|]. simpl. rewrite Hm. simpl.
    rewrite (Hnames _ _ Hm). unfold next_phase, next_ticks, next_work. rewrite Ht.
    split; [|done]. split; autorewrite with stagehand_rw; done. }
  do 2 (apply wp_bind, wp_gets; simpl). case_decide as Hp.
  { apply wp_bind, wp_modify. simpl. apply Hswap; [by destruct Hpend, Hp|].
    unfold next_target. by rewrite decide_True. }
  apply wp_bind, wp_modify. simpl. do 5 (apply wp_bind, wp_gets; simpl).
  set (next := oldestQueued (members p)).
  case_decide as Hnext.
  - case_if as Ha.
    + apply andb_true_iff in Ha as [-> Hg%bool_decide_eq_true].
      eapply wp_eq; [apply armTimer_eq|]. simpl.
      unfold next_phase, next_ticks, next_work, next_target. fold next.
      rewrite (decide_False (P := adminPending p ≠ "" ∧ adminPending p ≠ active p)) by done.
      rewrite decide_False by naive_solver. rewrite decide_True by done. done.
    + apply Hswap; [by apply oldestQueued_member|].
      unfold next_target. fold next. rewrite decide_False by done. rewrite decide_True; [done|].
      split; [done|]. intros [-> Hg]. apply andb_false_iff in Ha as [?|Hg'%bool_decide_eq_false];
        [done|lia].
  - assert (Hq : next_target p activated = None ∧ next_ticks p activated =
      if bool_decide (0 < cooldown p) && counts_down p activated
      then [(tickCooldown, cooldown p)] else []).
    { unfold next_ticks, next_target. fold next. rewrite Hnext.
      rewrite (decide_False (P := adminPending p ≠ "" ∧ adminPending p ≠ active p)) by done.
      rewrite (decide_False (P := "" ≠ "" ∧ _)) by naive_solver. by rewrite decide_False by auto. }
    destruct Hq as [Ht Hk]. unfold next_phase, next_work. rewrite Ht, Hk. simpl.
    unfold counts_down. destruct activated; simpl.
    + replace (negb _) with (bool_decide (defaultSvc p = "" ∨ active p ≠ defaultSvc p)).
      2: { repeat case_bool_decide; naive_solver. }
      destruct (_ && _); [|done]. apply wp_bind, wp_modify.
      eapply wp_eq; [apply armTimer_eq|]. done.
    + rewrite bool_decide_eq_true_2 by done. simpl. rewrite andb_comm.
      destruct (_ && _); [|done]. eapply wp_eq; [apply armTimer_eq|]. done.
Qed.

(** ** Terminal reports *)

(** The answer to the clients queued for the target of a swap. *)
Definition report_answer (msg : swapMsg) (m : member) : option admitReply :=
  match msg_kind msg with
  | swapComplete => Some (reply_ok AdmitGo)
  | swapFailed => Some (reply_err AdmitDockerError (msg_err msg))
  | swapHealthTimeout =>
      Some (reply_err AdmitStartupTimeout
              (Some (ErrHealthCheck (msg_target msg) (startupTimeout m))))
  | poolStopped => None
  end.

Definition report_replies (msg : swapMsg) (p : Pool) : list (chan * admitReply) :=
  match members p !! msg_target msg with
  | Some m =>
      match report_answer msg m with
      | Some r => fifo_drain (replies_of (queue m)) r
      | None => []
      end
  | None => []
  end.

(** The pool between a report and what follows it: the target serves or the pool
    is cold, and the queue of the target is empty. *)
Definition reported (msg : swapMsg) (p : Pool) : Pool :=
  set_members (alter (set_queue []) (msg_target msg) (members p))
    (if decide (msg_kind msg = swapComplete) then settled StateActive (msg_target msg) p
     else settled StateIdle "" p).

(** The common end of the reports on a swap: [p1] is the pool before the flush. *)
Lemma flush_chain_did (p1 : Pool) t m r (activated : bool) now es :
  (∀ t m, members p1 !! t = Some m → name m = t) → members p1 !! "" = None →
  (adminPending p1 = "" ∨ is_Some (members p1 !! adminPending p1)) →
  state p1 = (if activated then StateActive else StateIdle) →
  members p1 !! t = Some m → answers es = [] → arms es = [] → starts es = [] →
  let p2 := put_member t (set_queue [] m) p1 in
  wp (flush_member t r;; chainAfterTerminal activated now)
    (λ o p' es', returns (λ _ p' es,
       Did (next_phase p2 activated) (members p2) (fifo_drain (replies_of (queue m)) r)
         (next_ticks p2 activated) (next_work p2 activated) p' es ∧
       adminPending p' = "") o p' (es ++ es')) p1.
Proof.
  intros Hnames Hno Hpend Hst Hm Ha Hr Hs p2.
  assert (Hname : name m = t) by eauto.
  apply wp_bind. eapply wp_eq; [by apply flush_member_eq|]. simpl. fold p2.
  eapply wp_mono; [|apply (chain_did p2 activated now)].
  - intros [[]| |] p' es'; simpl; [|done..]. intros [[] Hp']. split; [|done].
    split; autorewrite with stagehand_rw; rewrite ?Ha, ?Hr, ?Hs; simpl; try done.
    by rewrite did_answers0, app_nil_r.
  - intros k m'. simpl. intros [[<- <-]|[? ?]]%lookup_insert_Some; [done|by apply Hnames].
  - simpl. rewrite lookup_insert_ne; [done|]. intros ->. congruence.
  - destruct Hpend as [?|Hp]; [by left|right]. simpl.
    destruct (decide (t = adminPending p1)) as [->|];
      [rewrite lookup_insert_eq; eauto|by rewrite lookup_insert_ne].
  - done.
Qed.

Lemma alter_queue (ms : gmap string member) t m :
  ms !! t = Some m → alter (set_queue []) t ms = <[t := set_queue [] m]> ms.
Proof.
  intros Hm. apply map_eq. intros k. destruct (decide (t = k)) as [<-|Hne].
  - by rewrite lookup_alter_eq, lookup_insert_eq, Hm.
  - by rewrite lookup_alter_ne, lookup_insert_ne.
Qed.

Lemma alter_none (ms : gmap string member) t :
  ms !! t = None → alter (set_queue []) t ms = ms.
Proof.
  intros Hm. apply map_eq. intros k. destruct (decide (t = k)) as [<-|Hne].
  - by rewrite lookup_alter_eq, Hm.
  - by rewrite lookup_alter_ne.
Qed.

(** Close the goal of a swap's report, whose actions so far are [es]. *)
Ltac by_flush_chain es m :=
  match goal with
  | |- wp (flush_member ?t ?r ≫= λ _, chainAfterTerminal ?act ?now) _ ?p1 =>
      let H := fresh in
      assert (H : answers es = [] ∧ arms es = [] ∧ starts es = [])
        by (autorewrite with stagehand_rw; done);
      destruct H as (? & ? & ?);
      eapply wp_mono; [|by apply (flush_chain_did p1 t m r act now es)];
      intros ? ? ?; cbv beta; rewrite <- ?List.app_assoc; exact id
  end.

(** C13: the terminal report of the current worker does what it says, on each of
    its kinds. Every client queued for the target is answered once, in order of
    arrival, with the result of the swap ([AdmitGo], the docker error, or the
    startup timeout), and no other queue changes. The pool then serves the target
    or is cold, unless somebody must be served next: the service an operator asked
    for during the swap, otherwise the longest-waiting one, at once or after the
    grace period of a service that has just started. A quiet pool arms the cooldown
    and nothing else. *)
Theorem terminal_report_outcome cfg n s msg now1 now2 e1 :
  config_ok cfg → Z.of_nat n < max_steps → reach cfg n s → running s = true →
  take (closed s) now1 (environment s) (InSwap msg) e1 → msg_op msg = opSeq (pool s) →
  let p := pool s in
  let ok := bool_decide (msg_kind msg = swapComplete) in
  let p1 := reported msg p in
  ∃ p' es, handle (InSwap msg) now1 now2 p = (Ret tt, p', es) ∧ adminPending p' = "" ∧
    Did (next_phase p1 ok) (members p1) (report_replies msg p) (next_ticks p1 ok)
      (next_work p1 ok) p' es.
Proof.
  intros Hcfg Hn Hr Hrun Htake Hop p ok p1.
  destruct (reach_running _ _ _ Hcfg Hn Hr Hrun) as [HB HC].
  inversion Htake as [| | | | | |l1 w l2 msg' Hl Hrep| | | |]; subst msg'.
  destruct (report_live _ _ _ _ _ _ _ _ HB HC Hl Hrep Hop) as (Hst & Hw & _).
  assert (Hmem : ∀ op t, w = WSwap op t → ∃ m, members p !! t = Some m).
  { intros op t Heq. eapply (b_wtarget _ _ _ _ HB op). rewrite Hl, <- Heq.
    apply elem_of_app. right. by left. }
  destruct Hrep as (_ & Htgt & Hkind).
  pose proof (b_names _ _ _ _ HB) as Hnames. assert (Hno : members p !! "" = None) by apply HB.
  pose proof (b_pending _ _ _ _ HB) as Hpend.
  enough (Hgoal : wp (handle (InSwap msg) now1 now2) (returns (λ _ p' es,
    Did (next_phase p1 ok) (members p1) (report_replies msg p) (next_ticks p1 ok)
      (next_work p1 ok) p' es ∧ adminPending p' = "")) p).
  { unfold wp in Hgoal. destruct (handle _ _ _ _) as [[[[]| |] p'] es]; [|done..].
    exists p', es. destruct Hgoal. by split_and!. }
  simpl. unfold handleSwap. apply wp_bind, wp_gets. simpl. rewrite decide_False by auto.
  run_eq release_ctx_eq. subst p1 ok.
  destruct w as [op t|op]; simpl in Hkind, Htgt.
  - destruct (Hmem op t eq_refl) as [m Hm].
    unfold report_replies, report_answer, reported. rewrite Htgt, Hm, (alter_queue _ _ _ Hm).
    destruct (msg_kind msg); [| | |done].
    + run_eq settle_eq. apply wp_bind, wp_modify. run_eq publish_eq.
      by_flush_chain (cancel_effects p ++
        [Publish {| snap_State := StateActive; snap_ActiveService := t |}]) m.
    + run_eq settle_eq. run_eq publish_eq.
      by_flush_chain (cancel_effects p ++ [Publish snap_idle]) m.
    + apply wp_bind, wp_gets. simpl. rewrite Hm. simpl.
      apply wp_bind, wp_mret, wp_bind, wp_emit. run_eq settle_eq. run_eq publish_eq.
      by_flush_chain (cancel_effects p ++ [GoTeardown (containerName m); Publish snap_idle]) m.
  - unfold report_replies, reported. rewrite Htgt, Hkind, Hno, (alter_none _ _ Hno).
    run_eq settle_eq. run_eq publish_eq.
    eapply wp_mono; [|by apply (chain_did _ false now2)].
    intros [[]| |] p' es; simpl; [|done..]. intros [[] ?]. split; [|done].
    split; autorewrite with stagehand_rw; done.
Qed.

Lemma terminal_report_outcome_witness :
  let msg := complete 1 "llama" in
  ∃ p' es, handle (InSwap msg) (20 * sec) (20 * sec) (pool demo1) = (Ret tt, p', es) ∧
    phase_of p' = Serving "llama" ∧ answers es = [(1%nat, reply_ok AdmitGo)] ∧
    arms es = [(tickCooldown, 300 * sec)] ∧ starts es = [].
Proof.
  destruct (terminal_report_outcome demo_cfg 1 demo1 (complete 1 "llama") (20 * sec) (20 * sec)
              (set_workers [] (environment demo1))) as (p' & es & Heq & _ & []);
    [apply demo_cfg_ok|reflexivity|apply demo_reach1|reflexivity
    |apply (demo_take_report _ _ (WSwap 1 "llama")); [by vm_compute|by repeat split]
    |reflexivity|].
  exists p', es. split_and!; [exact Heq|etransitivity; [eassumption|reflexivity]..].
Defined.
