(* ===== verification/Commands.v ===== *)
(** * Requests, operator commands and external events

    The outcome of an admission, of the two operator commands and of a docker
    event, on each of their branches, in every reachable state. *)

From S2P Require Import Prelude State Queue Pool PoolFacts QueueInv System Invariant.
From S2P Require Import Handlers Reachable Demo Lifecycle Static Outcome.
Open Scope Z_scope.

#[global] Instance phase_eq_dec : EqDecision phase.
Proof. solve_decision. Defined.

Definition unchanged (p : Pool) (ans : list (chan * admitReply)) : Pool → list effect → Prop :=
  Did (phase_of p) (members p) ans [] [].

(** From a program to the run it makes. *)
Lemma returns_run {A} (m : M A) p (Q : Pool → list effect → Prop) :
  wp m (returns (λ _ p' es, Q p' es)) p → ∃ a p' es, m p = (Ret a, p', es) ∧ Q p' es.
Proof. unfold wp. destruct (m p) as [[[a| |] p'] es]; [|done..]. simpl. eauto. Qed.

(** ** Admission *)

Definition enqueued (p : Pool) (service : string) (m : member) (c : chan) : gmap string member :=
  <[service := set_queue (queue m ++ [Waiter (seq p + 1) c]) m]> (members p).

(** What follows for a client that has just been queued. *)
Definition queued (p : Pool) (service : string) (ms : gmap string member) (now : Z) :
    Pool → list effect → Prop :=
  match phase_of p with
  | Cold | Broken => Did (Changing service) ms [] [] (change_work service p)
  | Changing t => Did (Changing t) ms [] [] []
  | Serving t =>
      if decide (startedAt p + grace p ≤ now)
      then Did (Changing service) ms [] [] (change_work service p)
      else Did (Serving t) ms [] [(tickGrace, startedAt p + grace p - now)] []
  end.

Definition admission (p : Pool) (service : string) (c : chan) (now : Z) :
    Pool → list effect → Prop :=
  match members p !! service with
  | None => unchanged p [(c, reply_err AdmitDockerError (Some (ErrNotMember service (p_name p))))]
  | Some m =>
      if decide (phase_of p = Serving service) then unchanged p [(c, reply_ok AdmitGo)]
      else if decide (maxQueue m ≤ Z.of_nat (length (queue m)))
      then unchanged p [(c, reply_ok AdmitQueueFull)]
      else queued p service (enqueued p service m c) now
  end.

(** The elapsed time is computed with Go's saturating subtraction. *)
Lemma grace_over p now :
  startedAt p ≤ now → grace p ≤ int64_max →
  (grace p ≤ time_Sub now (startedAt p) ↔ startedAt p + grace p ≤ now) ∧
  (¬ startedAt p + grace p ≤ now →
   int64_wrap (grace p - time_Sub now (startedAt p)) = startedAt p + grace p - now).
Proof.
  intros Hnow Hg. unfold time_Sub, int64_min, int64_max in *. split; [lia|].
  intros Hlt. rewrite int64_wrap_id; unfold int64_min, int64_max; lia.
Qed.

Lemma enqueue_did p service m c now b clk e :
  Base b clk p e → startedAt p ≤ now → members p !! service = Some m →
  let p1 := put_member service (set_queue (queue m ++ [Waiter (seq p + 1) c]) m)
              (set_seq (seq p + 1) p) in
  wp (match state p with
      | StateIdle | StateError => startSwap service
      | StateActive =>
          started ← gets startedAt;
          g ← gets grace;
          if decide (g ≤ time_Sub now started) then startSwap service
          else armTimer tickGrace (int64_wrap (g - time_Sub now started))
      | StateSwapping => mret tt
      end)
    (returns (λ _ p' es, queued p service (members p1) now p' es)) p1.
Proof.
  intros HB Hnow Hm p1.
  assert (Hswap : wp (startSwap service) (returns (λ _ p' es,
     Did (Changing service) (members p1) [] [] (change_work service p) p' es)) p1).
  { eapply (startSwap_did service p1); [apply lookup_insert_eq|].
    exact (b_names _ _ _ _ HB _ _ Hm). }
  destruct (grace_over p now Hnow (b_grace _ _ _ _ HB)) as [Hover Hrem].
  unfold queued, phase_of. destruct (state p) eqn:Hst; [done| | |done].
  - do 2 (apply wp_bind, wp_gets; simpl). case_decide as Hg.
    + destruct (decide (startedAt p + grace p ≤ now)); [exact Hswap|tauto].
    + destruct (decide (startedAt p + grace p ≤ now)); [tauto|]. rewrite Hrem by tauto.
      eapply wp_eq; [apply armTimer_eq|]. split; try done. unfold phase_of. simpl. by rewrite Hst.
  - apply wp_mret. split; try done. unfold phase_of. simpl. by rewrite Hst.
Qed.

(** C31: a request has exactly one of four outcomes. For an unknown service it is
    refused with an error; for the active service it goes through, and the pool
    stays as it is; when the queue of the service is full it is refused, and no
    queue changes; otherwise it is queued last, unanswered, and the manager starts
    a swap at once from a cold or broken pool, starts it when the grace period of
    another active service is over or arms a tick for exactly the time that is
    left of it, and leaves a change in progress alone. *)
Theorem admission_outcome cfg n s service c now1 now2 e1 :
  config_ok cfg → Z.of_nat n < max_steps → reach cfg n s → running s = true →
  clock s ≤ now1 → take (closed s) now1 (environment s) (InCmd (admitCmd service c)) e1 →
  ∃ p' es, handle (InCmd (admitCmd service c)) now1 now2 (pool s) = (Ret tt, p', es) ∧
    admission (pool s) service c now1 p' es.
Proof.
  intros Hcfg Hn Hr Hrun H1 Htake.
  destruct (reach_running _ _ _ Hcfg Hn Hr Hrun) as [HB HC].
  assert (Hnow : startedAt (pool s) ≤ now1) by (pose proof (b_started _ _ _ _ HB); lia).
  assert (Hseq : u64_succ (seq (pool s)) = seq (pool s) + 1).
  { pose proof (b_seq _ _ _ _ HB).
    apply u64_succ_small; unfold max_steps, u64_modulus in *; lia. }
  enough (Hw : wp (handle (InCmd (admitCmd service c)) now1 now2)
    (returns (λ _ p' es, admission (pool s) service c now1 p' es)) (pool s)).
  { destruct (returns_run _ _ _ Hw) as ([] & p' & es & ? & ?). by exists p', es. }
  simpl. unfold handleAdmit, admission. apply wp_bind, wp_gets. simpl.
  destruct (members (pool s) !! service) as [m|] eqn:Hm.
  2: { apply wp_bind, wp_gets. by apply wp_emit. }
  do 2 (apply wp_bind, wp_gets; simpl).
  assert (Hserv : state (pool s) = StateActive ∧ active (pool s) = service
                  ↔ phase_of (pool s) = Serving service).
  { unfold phase_of. destruct (state (pool s)); naive_solver. }
  case_decide as Hact.
  { rewrite decide_True by tauto. apply wp_bind, wp_emit. apply wp_modify.
    rewrite decide_True by tauto. done. }
  rewrite decide_False by tauto. apply wp_bind, wp_modify. simpl. apply wp_bind, wp_gets. simpl.
  apply wp_bind, wp_modify. simpl. rewrite Hseq. unfold enqueue.
  case_bool_decide as Hfull; simpl.
  - rewrite decide_True by done. apply wp_emit. split; try done. simpl. by rewrite insert_id.
  - rewrite decide_False by done.
    exact (enqueue_did _ service m c now1 _ _ _ HB Hnow Hm).
Qed.

Lemma admission_outcome_witness :
  ∃ p' es, handle (InCmd (admitCmd "comfy" 2%nat)) (30 * sec) (30 * sec) (pool demo2)
           = (Ret tt, p', es) ∧
    phase_of p' = Serving "llama" ∧ arms es = [(tickGrace, 50 * sec)].
Proof.
  destruct (admission_outcome demo_cfg 2 demo2 "comfy" 2 (30 * sec) (30 * sec)
    (add_issued 2 (environment demo2))) as (p' & es & Heq & Hadm);
    [apply demo_cfg_ok|reflexivity|apply demo_reach2|reflexivity
    |vm_compute; discriminate|by apply demo_take_admit|].
  exists p', es. split; [exact Heq|].
  assert (H : admission (pool demo2) "comfy" 2 (30 * sec) =
    Did (Serving "llama") (members (pool demo3)) [] [(tickGrace, 50 * sec)] [])
    by (vm_compute; reflexivity).
  rewrite H in Hadm. destruct Hadm. split; assumption.
Defined.

(** ** External events *)

(** The container of the service being served or started has died: its clients
    get the error, and the longest-waiting other service is started, if any. *)
Definition died (p : Pool) (m : member) (e : GoError) (op : Z) : Pool → list effect → Prop :=
  let ms := <[name m := set_queue [] m]> (members p) in
  let ans := fifo_drain (replies_of (queue m)) (reply_err AdmitDockerError (Some e)) in
  let next := oldestQueued ms in
  if decide (next = "") then Did Broken ms ans [] []
  else Did (Changing next) ms ans [] [WSwap op next].

Definition only (p : Pool) (acts : list effect) (p' : Pool) (es : list effect) : Prop :=
  p' = p ∧ es = acts.

Definition died_starting (p : Pool) (m : member) (e : GoError) (p' : Pool) (es : list effect) :
    Prop :=
  died p m e (u64_succ (u64_succ (opSeq p))) p' es ∧ CancelCtx (opSeq p) ∈ es.

(** No timer armed so far counts any more, and no countdown is running. *)
Definition disarmed (e : env) (p' : Pool) : Prop :=
  cooldownArmed p' = false ∧ ∀ k due, (live_tick p' k, due) ∉ timers e.

(** What an event does. A member of the pool is known by its container: the one
    being served is lost, the one being started is given up, one that comes up
    unasked is stopped, and nothing else has an effect. *)
Inductive external (e : env) (p : Pool) (ev : extEvent) : Pool → list effect → Prop :=
| external_stranger :
    (∀ n m, members p !! n = Some m → containerName m ≠ ev_container ev) →
    external e p ev p []
| external_lost n m p' es :
    members p !! n = Some m → containerName m = ev_container ev →
    stops (ev_action ev) → phase_of p = Serving n →
    died p m (ErrStoppedOutside (ev_container ev)) (u64_succ (opSeq p)) p' es →
    disarmed e p' → external e p ev p' es
| external_given_up n m p' es :
    members p !! n = Some m → containerName m = ev_container ev →
    stops (ev_action ev) → phase_of p = Changing n →
    died_starting p m (ErrDiedDuringStartup (ev_container ev)) p' es →
    disarmed e p' → external e p ev p' es
| external_intruder n m :
    members p !! n = Some m → containerName m = ev_container ev →
    ev_action ev = "start" → phase_of p ≠ Serving n → phase_of p ≠ Changing n →
    external e p ev p [GoForceStop (ev_container ev)]
| external_noise n m :
    members p !! n = Some m → containerName m = ev_container ev →
    (stops (ev_action ev) → phase_of p ≠ Serving n ∧ phase_of p ≠ Changing n) →
    (ev_action ev = "start" → phase_of p = Serving n ∨ phase_of p = Changing n) →
    external e p ev p [].

Lemma died_phase p m e op p' es :
  died p m e op p' es → state p' = StateError ∨ state p' = StateSwapping.
Proof.
  unfold died, phase_of. intros H. case_decide; destruct H as [Hph _ _ _ _]; unfold phase_of in Hph;
    destruct (state p'); auto; done.
Qed.

Lemma died_arms p m e op p' es : died p m e op p' es → arms es = [].
Proof. unfold died. intros H. case_decide; by destruct H. Qed.

Lemma timers_performs now e es : arms es = [] → timers (performs now e es) = timers e.
Proof.
  unfold performs. revert e. induction es as [|x es IH]; intros e Ha; [done|].
  simpl. destruct x as [| |? [?|] ?| | | | | | | |]; simpl in *; try (by rewrite IH); try done.
Qed.

(** A pool that has been left broken or changing obeys no timer armed before. *)
Lemma good_disarmed now b clk e p' es :
  Good now b clk e p' es → arms es = [] → state p' = StateError ∨ state p' = StateSwapping →
  disarmed e p'.
Proof.
  intros [_ [_ _ [Hc Hl] Hg] _] Ha Hst. unfold disarmed. rewrite <- (timers_performs now e es Ha).
  split.
  - destruct (cooldownArmed p'); [|done]. destruct (Hc eq_refl) as [_ [[? _]|[? _]]]; naive_solver congruence.
  - intros [|] due Hin.
    + destruct (Hg due Hin). naive_solver congruence.
    + apply Hl in Hin. destruct (Hc Hin) as [_ [[? _]|[? _]]]; naive_solver congruence.
Qed.

Lemma phase_serving p n :
  phase_of p = Serving n ↔ state p = StateActive ∧ active p = n.
Proof. unfold phase_of. destruct (state p); naive_solver. Qed.

Lemma phase_changing p n :
  phase_of p = Changing n ↔ state p = StateSwapping ∧ target p = n.
Proof. unfold phase_of. destruct (state p); naive_solver. Qed.

(** Flush the dead service in a broken pool [p1] and serve who waits longest. *)
Lemma flush_died p1 m r es :
  (∀ t m, members p1 !! t = Some m → name m = t) → members p1 !! "" = None →
  state p1 = StateError → members p1 !! name m = Some m →
  answers es = [] → arms es = [] → starts es = [] →
  let ms := <[name m := set_queue [] m]> (members p1) in
  let ans := fifo_drain (replies_of (queue m)) r in
  let next := oldestQueued ms in
  wp (flush_member (name m) r;; chainNow)
    (λ o p' es', returns (λ _ p' es,
       (if decide (next = "") then Did Broken ms ans [] []
        else Did (Changing next) ms ans [] [WSwap (u64_succ (opSeq p1)) next]) p' es)
       o p' (es ++ es')) p1.
Proof.
  intros Hnames Hno Hst Hm Ha Hr Hs ms ans next.
  apply wp_bind. eapply wp_eq; [by apply flush_member_eq|]. simpl.
  assert (Hno' : ms !! "" = None).
  { subst ms. rewrite lookup_insert_ne; [done|]. intros Heq. congruence. }
  assert (Hnames' : ∀ t m', ms !! t = Some m' → name m' = t).
  { intros t m' [[<- <-]|[? ?]]%lookup_insert_Some; [done|by apply Hnames]. }
  unfold chainNow. apply wp_bind, wp_gets. simpl. fold ms. fold next.
  destruct (decide (next = "")) as [Hn|Hn].
  - rewrite Hn. apply wp_mret. split; try done; autorewrite with stagehand_rw;
      rewrite ?Ha, ?Hr, ?Hs; simpl; rewrite ?app_nil_r; try done.
    unfold phase_of. simpl. by rewrite Hst.
  - rewrite decide_True by done. destruct (oldestQueued_member ms Hno' Hn) as [m' Hm'].
    eapply wp_mono; [|apply (startSwap_did next _ m'); [exact Hm'|by apply Hnames']].
    intros [[]| |] p' es' H; simpl in *; [|done..]. destruct H as [Hph Hms Hans Harms Hstarts].
    split; try done; autorewrite with stagehand_rw; rewrite ?Ha, ?Hr, ?Hs; simpl; try done.
    by rewrite Hans, app_nil_r.
Qed.

(** The container of the service being started stops: its worker is cancelled first. *)
Lemma flush_superseded b clk p e m err :
  Base b clk p e → Core p e → state p = StateSwapping → target p = name m →
  members p !! name m = Some m →
  wp (supersedeWorker;; settle StateError "";; publish;;
      flush_member (name m) (reply_err AdmitDockerError (Some err));; chainNow)
    (returns (λ _ p' es, died_starting p m err p' es)) p.
Proof.
  intros HB HC Hst Ht Hm.
  run_eq supersedeWorker_eq. run_eq settle_eq. run_eq publish_eq.
  assert (Hcancel : cancel_effects p = [CancelCtx (opSeq p)]).
  { unfold cancel_effects. by rewrite (c_cancel _ _ HC), decide_True. }
  rewrite Hcancel.
  eapply wp_mono; [|apply (flush_died (publish_state (settled StateError "" (superseded p)))
    m _ [CancelCtx (opSeq p); Publish snap_error]); try done; apply HB].
  intros [[]| |] p' es H; [|done..]. split; [exact H|]. by left.
Qed.

(** The run, on the branch of the member found. *)
Lemma handleExternalEvent_run b clk now p e ev :
  b + 2 < u64_modulus → Base b clk p e → Ctl p e →
  wp (handleExternalEvent ev) (returns (λ _ p' es,
    Good now (b + 2) clk e p' es → external e p ev p' es)) p.
Proof.
  intros Hb HB [HC _ _ _]. unfold handleExternalEvent. apply wp_bind, wp_gets. simpl.
  destruct (memberByContainer (members p) (ev_container ev)) as [m|] eqn:Hc.
  2: { apply wp_mret. intros _. constructor. intros n m. by apply memberByContainer_None. }
  apply memberByContainer_Some in Hc as [Hcont [k Hk]].
  pose proof (b_names _ _ _ _ HB) as Hnames. pose proof (b_noname _ _ _ _ HB) as Hno.
  assert (Hm : members p !! name m = Some m) by by rewrite (Hnames _ _ Hk).
  assert (Hlost : ∀ p' es, phase_of p = Serving (name m) → stops (ev_action ev) →
    died p m (ErrStoppedOutside (ev_container ev)) (u64_succ (opSeq p)) p' es →
    Good now (b + 2) clk e p' es → external e p ev p' es).
  { intros p' es Hph Hs Hd Hg. eapply external_lost; [done..|].
    eapply good_disarmed; [done|by eapply died_arms|by eapply died_phase]. }
  assert (Hup : ∀ p' es, phase_of p = Changing (name m) → stops (ev_action ev) →
    died_starting p m (ErrDiedDuringStartup (ev_container ev)) p' es →
    Good now (b + 2) clk e p' es → external e p ev p' es).
  { intros p' es Hph Hs [Hd ?] Hg. eapply external_given_up; [done..|].
    eapply good_disarmed; [done|by eapply died_arms|by eapply died_phase]. }
  assert (Hnoise : (stops (ev_action ev) → phase_of p ≠ Serving (name m) ∧ phase_of p ≠ Changing (name m)) →
    (ev_action ev = "start" → phase_of p = Serving (name m) ∨ phase_of p = Changing (name m)) →
    wp (mret ()) (returns (λ _ p' es, Good now (b + 2) clk e p' es → external e p ev p' es)) p).
  { intros. apply wp_mret. intros _. by eapply external_noise. }
  do 3 (apply wp_bind, wp_gets; simpl). rewrite phase_changing, phase_serving in *.
  destruct (is_stop_action (ev_action ev)) eqn:Hstop.
  - apply is_stop_action_stops in Hstop.
    assert (Hns : ev_action ev ≠ "start") by (by destruct Hstop as [->|[->| ->]]).
    destruct (state p) eqn:Hst; [by apply Hnoise; naive_solver| | |by apply Hnoise; naive_solver]; case_decide as Ha;
      [by apply Hnoise; naive_solver| |by apply Hnoise; naive_solver|].
    + do 2 (apply wp_bind, wp_modify; simpl). run_eq bumpEpochs_eq. run_eq publish_eq.
      eapply wp_mono; [|apply (flush_died (publish_state (bumped (set_active "" (set_state StateError p))))
                 m _ [Publish snap_error]); done].
      intros [[]| |] p' es H; [|done..].
      intros Hg. apply (Hlost _ _); [by apply phase_serving|exact Hstop|exact H|exact Hg].
    + assert (Ht : target p = name m) by done.
      eapply wp_mono; [|exact (flush_superseded _ _ _ _ m _ HB HC Hst Ht Hm)].
      intros [[]| |] p' es H; [|done..].
      intros Hg. apply (Hup _ _); [by apply phase_changing|exact Hstop|exact H|exact Hg].
  - apply is_stop_action_no in Hstop. case_bool_decide as Hstart; [|by apply Hnoise; naive_solver].
    case_decide as H1; [by apply Hnoise; naive_solver|].
    case_decide as H2; [by apply Hnoise; naive_solver|].
    apply wp_emit. intros _. eapply external_intruder; rewrite ?phase_changing, ?phase_serving; naive_solver.
Qed.

(** C32: an external docker event is reconciled on every branch. A member of the
    pool whose container goes down (docker says "die", "stop" or "kill") while it is
    active or being started loses its queued clients: they get a docker error (and
    nobody else an answer), a worker that was starting it is cancelled, and the pool
    goes to [ERROR] or straight to the service that has waited longest; no timer is
    armed, none armed before counts any more, and no countdown runs. A member's
    container that starts without being the active service or the target is stopped.
    Every other event changes nothing. *)
Theorem external_event_outcome cfg n s ev now1 now2 :
  config_ok cfg → Z.of_nat n < max_steps → reach cfg n s → running s = true →
  ∃ p' es, handle (InDocker ev) now1 now2 (pool s) = (Ret tt, p', es) ∧
    external (environment s) (pool s) ev p' es.
Proof.
  intros Hcfg Hn Hr Hrun. destruct (reach_running _ _ _ Hcfg Hn Hr Hrun) as [HB HC].
  assert (Hb : 2 * Z.of_nat n + 2 < u64_modulus) by (unfold max_steps, u64_modulus in *; lia).
  pose proof (handleExternalEvent_run _ _ now1 _ _ ev Hb HB HC) as Hrn.
  pose proof (handleExternalEvent_good _ _ now1 _ _ ev Hb HB HC) as Hgood.
  unfold wp in Hrn, Hgood. simpl.
  destruct (handleExternalEvent ev (pool s)) as [[[[]| |] p'] es]; [|done..].
  exists p', es. auto.
Qed.

Lemma external_event_outcome_witness :
  ∃ p' es, handle (InDocker {| ev_container := "llama-container"; ev_action := "kill" |})
             (40 * sec) (40 * sec) (pool demo3) = (Ret tt, p', es) ∧
    external (environment demo3) (pool demo3)
      {| ev_container := "llama-container"; ev_action := "kill" |} p' es ∧
    phase_of p' = Changing "comfy".
Proof.
  destruct (external_event_outcome demo_cfg 3 demo3
    {| ev_container := "llama-container"; ev_action := "kill" |} (40 * sec) (40 * sec))
    as (p' & es & Heq & Hext);
    [apply demo_cfg_ok|reflexivity|apply demo_reach3|reflexivity|].
  exists p', es. split; [exact Heq|]. split; [exact Hext|].
  assert (H : phase_of (handle (InDocker {| ev_container := "llama-container"; ev_action := "kill" |})
             (40 * sec) (40 * sec) (pool demo3)).1.2 = Changing "comfy") by (vm_compute; reflexivity).
  rewrite Heq in H. exact H.
Defined.

(** ** Operator commands *)

(** [AdminSwap]: the outcome reported to the operator and what happens. *)
Definition admin_swap (p : Pool) (service : string) :
    AdminOutcome * (Pool → list effect → Prop) :=
  match members p !! service with
  | None => (AdminUnknown, only p [])
  | Some _ =>
      match phase_of p with
      | Serving s =>
          if decide (s = service) then (AdminAlreadyActive, only p [])
          else (AdminInitiated, Did (Changing service) (members p) [] [] (change_work service p))
      | Changing t =>
          if decide (t = service) then (AdminPending, only p [])
          else (if decide (adminPending p = "" ∨ adminPending p = service)
                then AdminPending else AdminSuperseded,
                only (set_adminPending service p) [])
      | Cold | Broken =>
          (AdminInitiated, Did (Changing service) (members p) [] [] (change_work service p))
      end
  end.

(** [AdminStop]: every queue is emptied with [AdmitShutdown]. *)
Definition admin_stop (p : Pool) : AdminOutcome * phase * list work :=
  match phase_of p with
  | Cold => (AdminAlreadyIdle, Cold, [])
  | _ => (AdminInitiated, Changing "", [WStopAll (u64_succ (opSeq p))])
  end.

(** [flush_all] in closed form. *)
Lemma flush_all_loop r l p :
  NoDup l.*1 → (∀ n m, (n, m) ∈ l → members p !! n = Some m) →
  for_each (λ n, flush_member n r) l.*1 p =
  (Ret tt, set_members (foldr (λ x ms, <[x.1 := set_queue [] x.2]> ms) (members p) (reverse l)) p,
   concat (map (λ x, reply_all x.2 r) l)).
Proof.
  revert p. induction l as [|[n m] l IH]; intros p Hnd Hl; [by destruct p|].
  apply NoDup_cons in Hnd as [Hn Hnd]. cbn [fmap list_fmap for_each fst map concat snd].
  rewrite reverse_cons, foldr_app. simpl.
  assert (Hm : members p !! n = Some m) by (apply Hl; by left).
  eapply prog_bind_eq; [by apply flush_member_eq|].
  rewrite (IH (put_member n (set_queue [] m) p)); [done|done|].
  intros n' m' Hin. simpl. rewrite lookup_insert_ne; [apply Hl; by right|].
  intros ->. apply Hn. apply list_elem_of_fmap. by exists (n', m').
Qed.

Lemma foldr_emptied (ms : gmap string member) l k :
  NoDup l.*1 →
  foldr (λ x ms, <[x.1 := set_queue [] x.2]> ms) ms l !! k =
  match list_to_map (M := gmap string member) l !! k with
  | Some m => Some (set_queue [] m)
  | None => ms !! k
  end.
Proof.
  induction l as [|[n m] l IH]; [done|]. intros [Hn Hnd]%NoDup_cons. simpl.
  destruct (decide (n = k)) as [<-|Hne].
  - by rewrite !lookup_insert_eq.
  - rewrite !lookup_insert_ne by done. by apply IH.
Qed.

Lemma flush_all_eq r p :
  flush_all r p =
  (Ret tt, set_members (set_queue [] <$> members p) p,
   concat (map (λ x, reply_all x.2 r) (map_to_list (members p)))).
Proof.
  unfold flush_all, mbind, prog_bind, gets. rewrite flush_all_loop; simpl.
  - do 3 f_equal. apply map_eq. intros k.
    assert (Hperm : reverse (map_to_list (members p)) ≡ₚ map_to_list (members p))
      by apply reverse_Permutation.
    rewrite foldr_emptied by (rewrite Hperm; apply NoDup_fst_map_to_list).
    rewrite (list_to_map_proper _ (map_to_list (members p))), list_to_map_to_list;
      [|rewrite Hperm; apply NoDup_fst_map_to_list|done].
    rewrite lookup_fmap. by destruct (members p !! k).
  - apply NoDup_fst_map_to_list.
  - intros n m. apply elem_of_map_to_list.
Qed.

(** An operator's swap bypasses the grace period and the queues, and its
    outcome is reported truthfully. An unknown service and the service already
    active or already being started change nothing; during a change towards
    another service the request is remembered, replacing (and reporting) an
    earlier one for a third service; in every other state the swap starts now,
    without answering or dropping a queued client. *)
Theorem admin_swap_outcome cfg n s service now1 now2 :
  config_ok cfg → Z.of_nat n < max_steps → reach cfg n s → running s = true →
  ∃ p' es, handle (InCmd (adminSwapCmd service)) now1 now2 (pool s) =
    (Ret tt, p', es ++ [ReplyAdmin (admin_swap (pool s) service).1]) ∧
    (admin_swap (pool s) service).2 p' es.
Proof.
  intros Hcfg Hn Hr Hrun. destruct (reach_running _ _ _ Hcfg Hn Hr Hrun) as [HB _].
  set (p := pool s) in *.
  enough (Hw : wp (handleAdminSwap service) (λ o p' es,
    o = Ret (admin_swap p service).1 ∧ (admin_swap p service).2 p' es) p).
  { unfold wp in Hw. destruct (handleAdminSwap service p) as [[o p'] es] eqn:Hh.
    destruct Hw as [-> Hw]. exists p', es. split; [|done]. simpl.
    by eapply prog_bind_eq. }
  unfold handleAdminSwap, admin_swap. apply wp_bind, wp_gets. simpl.
  destruct (members p !! service) as [m|] eqn:Hm; [|by apply wp_mret].
  assert (Hswap : wp (startSwap service;; mret AdminInitiated) (λ o p' es,
    o = Ret AdminInitiated ∧ Did (Changing service) (members p) [] [] (change_work service p) p' es) p).
  { apply wp_bind. eapply wp_mono;
      [|apply (startSwap_did service p m Hm); exact (b_names _ _ _ _ HB _ _ Hm)].
    intros [[]| |] p' es H; simpl in H; [|done..]. apply wp_mret. by rewrite app_nil_r. }
  apply wp_bind, wp_gets. simpl. unfold phase_of.
  destruct (state p) eqn:Hst; [exact Hswap| | |exact Hswap]; apply wp_bind, wp_gets; simpl.
  - case_decide; [done|exact Hswap].
  - case_decide; [done|]. apply wp_bind, wp_gets. simpl.
    apply wp_bind, wp_modify, wp_mret. split; [|done]. simpl. f_equal.
    destruct (decide (adminPending p = "" ∨ adminPending p = service)) as [Hp|Hp];
      [rewrite decide_False by naive_solver|rewrite decide_True by naive_solver]; done.
Qed.

Lemma admin_swap_outcome_witness :
  ∃ p' es, handle (InCmd (adminSwapCmd "comfy")) (21 * sec) (21 * sec) (pool demo2) =
    (Ret tt, p', es ++ [ReplyAdmin AdminInitiated]) ∧ phase_of p' = Changing "comfy".
Proof.
  destruct (admin_swap_outcome demo_cfg 2 demo2 "comfy" (21 * sec) (21 * sec))
    as (p' & es & Heq & Hadm);
    [apply demo_cfg_ok|reflexivity|apply demo_reach2|reflexivity|].
  assert (H : admin_swap (pool demo2) "comfy" =
    (AdminInitiated, Did (Changing "comfy") (members (pool demo2)) [] [] [WSwap 2 "comfy"]))
    by (vm_compute; reflexivity).
  rewrite H in Heq, Hadm. destruct Hadm. exists p', es. split; assumption.
Defined.

Lemma answers_flush_all (ms : gmap string member) r c r' :
  (c, r') ∈ answers (concat (map (λ x, reply_all x.2 r) (map_to_list ms))) ↔
  r' = r ∧ ∃ service w, waiting ms service w ∧ w_reply w = c.
Proof.
  assert (H : answers (concat (map (λ x, reply_all x.2 r) (map_to_list ms))) =
    map_to_list ms ≫= λ x, fifo_drain (replies_of (queue x.2)) r).
  { induction (map_to_list ms) as [|x l IH]; [done|]. simpl.
    by rewrite answers_app, answers_reply_all, IH. }
  rewrite H, list_elem_of_bind. unfold fifo_drain, replies_of. split.
  - intros ([n m] & Hin & Hm%elem_of_map_to_list).
    apply list_elem_of_fmap in Hin as (d & Heq & (w & -> & Hw)%list_elem_of_fmap).
    simplify_eq/=. split; [done|]. exists n, w. split; [|done]. by exists m.
  - intros (-> & n & w & (m & Hm & Hw) & <-). exists (n, m).
    split; [|by apply elem_of_map_to_list]. apply list_elem_of_fmap. exists (w_reply w).
    split; [done|]. by apply list_elem_of_fmap_2.
Qed.

Lemma arms_flush_all (ms : gmap string member) r :
  arms (concat (map (λ x, reply_all x.2 r) (map_to_list ms))) = [] ∧
  starts (concat (map (λ x, reply_all x.2 r) (map_to_list ms))) = [].
Proof.
  induction (map_to_list ms) as [|x l [IH1 IH2]]; [done|]. simpl.
  by rewrite arms_app, starts_app, arms_reply_all, starts_reply_all, IH1, IH2.
Qed.

(** C33: an operator's stop empties the pool. Every queued client, and nobody
    else, is answered [AdmitShutdown]; every queue is empty and a swap an operator
    had asked for is forgotten; unless the pool is already cold, the worker that
    stops every container is started and any worker in flight is cancelled. On a cold
    pool no worker is started, even if one of its containers runs
    ([idle_pool_is_not_swept]). *)
Theorem admin_stop_outcome cfg n s now1 now2 :
  config_ok cfg → Z.of_nat n < max_steps → reach cfg n s → running s = true →
  let p := pool s in
  let '(outcome, ph, ws) := admin_stop p in
  ∃ p' es, handle (InCmd adminStopCmd) now1 now2 p =
    (Ret tt, p', es ++ [ReplyAdmin outcome]) ∧
    phase_of p' = ph ∧ starts es = ws ∧ arms es = [] ∧ adminPending p' = "" ∧
    all_quiet (members p') ∧
    (∀ c r, (c, r) ∈ answers es ↔ r = reply_ok AdmitShutdown ∧
       ∃ service w, waiting (members p) service w ∧ w_reply w = c) ∧
    (ph ≠ Cold → ∀ op, swapCancel p = Some op → CancelCtx op ∈ es).
Proof.
  intros Hcfg Hn Hr Hrun p. destruct (admin_stop p) as [[outcome ph] ws] eqn:Hstop.
  set (fl := concat (map (λ x, reply_all x.2 (reply_ok AdmitShutdown)) (map_to_list (members p)))).
  destruct (arms_flush_all (members p) (reply_ok AdmitShutdown)) as [Hfa Hfs]. fold fl in Hfa, Hfs.
  assert (Hfans : ∀ c r, (c, r) ∈ answers fl ↔ r = reply_ok AdmitShutdown ∧
    ∃ service w, waiting (members p) service w ∧ w_reply w = c) by apply answers_flush_all.
  assert (Hquiet : all_quiet (set_queue [] <$> members p)).
  { intros k m. rewrite lookup_fmap. destruct (members p !! k); intros; by simplify_eq/=. }
  enough (Hw : wp handleAdminStop (λ o p' es, o = Ret outcome ∧
    phase_of p' = ph ∧ starts es = ws ∧ arms es = [] ∧ adminPending p' = "" ∧
    all_quiet (members p') ∧ (∀ c r, (c, r) ∈ answers es ↔ (c, r) ∈ answers fl) ∧
    (ph ≠ Cold → ∀ op, swapCancel p = Some op → CancelCtx op ∈ es)) p).
  { unfold wp in Hw. destruct (handleAdminStop p) as [[o p'] es] eqn:Hh.
    destruct Hw as (-> & Hw). exists p', es. split; [simpl; by eapply prog_bind_eq|].
    destruct Hw as (?&?&?&?&?&Ha&?). split_and!; try done. intros c r. by rewrite Ha. }
  unfold handleAdminStop. apply wp_bind, wp_modify. simpl. run_eq flush_all_eq.
  apply wp_bind, wp_gets. simpl.
  assert (Hgo : state p ≠ StateIdle →
    wp (startStopAll;; mret AdminInitiated) (λ o p' es, o = Ret outcome ∧
      phase_of p' = ph ∧ starts (fl ++ es) = ws ∧ arms (fl ++ es) = [] ∧ adminPending p' = "" ∧
      all_quiet (members p') ∧ (∀ c r, (c, r) ∈ answers (fl ++ es) ↔ (c, r) ∈ answers fl) ∧
      (ph ≠ Cold → ∀ op, swapCancel p = Some op → CancelCtx op ∈ fl ++ es))
      (set_members (set_queue [] <$> members p) (set_adminPending "" p))).
  { intros Hst. run_eq startStopAll_eq. apply wp_mret. unfold admin_stop, phase_of in Hstop.
    assert (Heq : (outcome, ph, ws) = (AdminInitiated, Changing "", [WStopAll (u64_succ (opSeq p))]))
      by (rewrite <- Hstop; by destruct (state p)).
    simplify_eq. split_and!; autorewrite with stagehand_rw; rewrite ?Hfs, ?Hfa; try done.
    intros _ op Hop. apply elem_of_app. right. apply elem_of_app. left.
      unfold cancel_effects. simpl. rewrite Hop. by left. }
  destruct (state p) eqn:Hst; [|by apply Hgo..]. apply wp_mret.
  unfold admin_stop, phase_of in Hstop. rewrite Hst in Hstop. simplify_eq.
  rewrite !app_nil_r. split_and!; try done. unfold phase_of. simpl. by rewrite Hst.
Qed.

Lemma admin_stop_outcome_witness :
  ∃ p' es, handle (InCmd adminStopCmd) (40 * sec) (40 * sec) (pool demo3) =
    (Ret tt, p', es ++ [ReplyAdmin AdminInitiated]) ∧
    phase_of p' = Changing "" ∧ starts es = [WStopAll 2].
Proof.
  assert (E : admin_stop (pool demo3) = (AdminInitiated, Changing "", [WStopAll 2]))
    by (vm_compute; reflexivity).
  pose proof (admin_stop_outcome demo_cfg 3 demo3 (40 * sec) (40 * sec) demo_cfg_ok eq_refl
    demo_reach3 eq_refl) as H.
  cbv zeta in H. rewrite E in H. destruct H as (p' & es & Heq & Hph & Hs & _).
  exists p', es. split_and!; assumption.
Defined.

(** ** Messages that are ignored *)

(** A late message has no effect. A terminal report of a worker the manager
    no longer waits for, and a tick of a timer that was armed again or belongs to
    an earlier state, leave the pool exactly as it is and cause no action. *)
Theorem stale_messages_ignored p now1 now2 :
  (∀ msg, msg_op msg ≠ opSeq p → handle (InSwap msg) now1 now2 p = (Ret tt, p, [])) ∧
  (∀ t, tick_epoch t ≠ epochs p (tick_kind t) →
     handle (InTick t) now1 now2 p = (Ret tt, p, [])).
Proof.
  split; [intros msg Hop|intros t Hep]; simpl.
  - unfold handleSwap. eapply (prog_bind_eq _ _ _ _ _ []); [done|]. by rewrite decide_True.
  - unfold handleTick. eapply (prog_bind_eq _ _ _ _ _ []); [done|]. by rewrite decide_True.
Qed.

Lemma stale_messages_ignored_witness :
  handle (InSwap (complete 0 "comfy")) 0 0 (pool demo3) = (Ret tt, pool demo3, []) ∧
  handle (InTick {| tick_kind := tickGrace; tick_epoch := 1 |}) 0 0 (pool demo3)
  = (Ret tt, pool demo3, []).
Proof.
  split.
  - apply (proj1 (stale_messages_ignored (pool demo3) 0 0)). vm_compute. discriminate.
  - apply (proj2 (stale_messages_ignored (pool demo3) 0 0)). vm_compute. discriminate.
Defined.
