(* ===== verification/Ticks.v ===== *)
(** * What a tick does

    The outcome of the grace tick and of the cooldown tick on each of their branches,
    in every reachable state. *)

From S2P Require Import Prelude State Queue Pool PoolFacts QueueInv System Invariant.
From S2P Require Import Handlers Reachable Demo Lifecycle Static Outcome Commands.
Open Scope Z_scope.

(** ** The last activity is in the past *)

Definition past_activity (now : Z) (p p' : Pool) : Prop :=
  lastActivity p ≤ now → lastActivity p' ≤ now.

#[global] Instance past_activity_preorder now : PreOrder (past_activity now).
Proof. split; [by intros p ?|]. intros ??? H1 H2 ?. auto. Qed.

Lemma past_modify now f :
  (∀ p, lastActivity (f p) = lastActivity p) → keeps (E := effect) (past_activity now) (modify f).
Proof. intros Hf. apply keeps_modify. intros p Hp. by rewrite Hf. Qed.

Lemma past_set now v : v ≤ now → keeps (E := effect) (past_activity now) (modify (set_lastActivity v)).
Proof. intros ?. apply keeps_modify. by intros p _. Qed.

Lemma past_touch now s v : v ≤ now → keeps (past_activity now) (touch s v).
Proof. intros ?. apply keeps_modify. intros p Hp. by case_decide. Qed.

#[export] Hint Extern 1 (keeps (past_activity _) (modify _)) =>
  (apply past_modify; intros []; reflexivity) : keeps.

Lemma past_startSwap now t : keeps (past_activity now) (startSwap t).
Proof. intros p. eapply wp_eq; [apply startSwap_eq|]. exact id. Qed.
Lemma past_startStopAll now : keeps (past_activity now) startStopAll.
Proof. intros p. eapply wp_eq; [apply startStopAll_eq|]. exact id. Qed.
Lemma past_armTimer now k d : keeps (past_activity now) (armTimer k d).
Proof. intros p. eapply wp_eq; [apply armTimer_eq|]. destruct k; exact id. Qed.
Lemma past_bumpEpochs now : keeps (past_activity now) bumpEpochs.
Proof. intros p. eapply wp_eq; [apply bumpEpochs_eq|]. exact id. Qed.
Lemma past_supersede now : keeps (past_activity now) supersedeWorker.
Proof. intros p. eapply wp_eq; [apply supersedeWorker_eq|]. exact id. Qed.
Lemma past_settle now st act : keeps (past_activity now) (settle st act).
Proof. intros p. eapply wp_eq; [apply settle_eq|]. exact id. Qed.
Lemma past_release now : keeps (past_activity now) release_ctx.
Proof. intros p. eapply wp_eq; [apply release_ctx_eq|]. exact id. Qed.
Lemma past_publish now : keeps (past_activity now) publish.
Proof. by apply past_modify. Qed.
#[export] Hint Resolve past_startSwap past_startStopAll past_armTimer past_bumpEpochs
  past_supersede past_settle past_release past_publish past_activity_preorder : keeps.

Lemma past_flush now n r : keeps (past_activity now) (flush_member n r).
Proof.
  intros p. destruct (members p !! n) as [m|] eqn:Hm.
  - eapply wp_eq; [by apply flush_member_eq|]. exact id.
  - unfold flush_member. apply wp_bind, wp_gets. simpl. rewrite Hm. apply wp_bind. exact id.
Qed.
#[export] Hint Resolve past_flush : keeps.
Lemma past_flush_all now r : keeps (past_activity now) (flush_all r).
Proof. unfold flush_all. keeps. Qed.
Lemma past_chainNow now : keeps (past_activity now) chainNow.
Proof. unfold chainNow. keeps. Qed.
Lemma past_chain now v activated : v ≤ now → keeps (past_activity now) (chainAfterTerminal activated v).
Proof. intros Hv. pose proof (past_set now v Hv). unfold chainAfterTerminal. keeps. Qed.
#[export] Hint Resolve past_flush_all past_chainNow past_chain past_touch : keeps.

Lemma past_handle i now1 now2 : now1 ≤ now2 → keeps (past_activity now2) (handle i now1 now2).
Proof.
  intros Hle. pose proof (Z.le_refl now2).
  destruct i as [[]| | | | |]; simpl;
    unfold handleAdmit, handleCancel, handleAdminSwap, handleAdminStop, handleSwap, handleTick,
      handleExternalEvent, shutdown; keeps.
Qed.

Lemma reach_past cfg n s : reach cfg n s → lastActivity (pool s) ≤ clock s.
Proof.
  intros (t0 & Ht0 & Hs).
  assert (H0 : lastActivity (pool (init cfg t0)) ≤ clock (init cfg t0)) by exact Ht0.
  induction Hs as [|k s1 s2 s3 Hstep _ IH]; [done|]. apply IH. clear IH.
  destruct Hstep as [s i now1 now2 e1 p' es _ H1 H2 _ Hh|s]; [|done]. simpl.
  pose proof (past_handle i now1 now2 H2 (pool s)) as Hp. unfold wp in Hp. rewrite Hh in Hp.
  apply Hp. lia.
Qed.

(** ** The two ticks *)

(** The elapsed idle time is computed with Go's saturating subtraction. *)
Lemma idle_over p now :
  lastActivity p ≤ now → cooldown p ≤ int64_max →
  (time_Sub now (lastActivity p) < cooldown p ↔ now < lastActivity p + cooldown p) ∧
  (now < lastActivity p + cooldown p →
   int64_wrap (cooldown p - time_Sub now (lastActivity p)) = lastActivity p + cooldown p - now).
Proof.
  intros Hnow Hc. unfold time_Sub, int64_min, int64_max in *. split; [lia|].
  intros Hlt. rewrite int64_wrap_id; unfold int64_min, int64_max; lia.
Qed.

(** The end of the grace period of the service being served. *)
Definition grace_ended (p : Pool) : Pool → list effect → Prop :=
  let next := oldestQueued (members p) in
  match phase_of p with
  | Serving _ =>
      if decide (next = "") then only p []
      else Did (Changing next) (members p) [] [] (change_work next p)
  | _ => only p []
  end.

(** The end of a countdown: the default service is brought back, or the pool stopped. *)
Definition cooldown_ended (p : Pool) (now : Z) : Pool → list effect → Prop :=
  let next := oldestQueued (members p) in
  match phase_of p with
  | Cold =>
      if decide (next = "" ∧ defaultSvc p ≠ "")
      then Did (Changing (defaultSvc p)) (members p) [] [] (change_work (defaultSvc p) p)
      else only p []
  | Serving s =>
      if decide (next ≠ "")
      then Did (Serving s) (members p) [] [(tickCooldown, cooldown p)] []
      else if decide (now < lastActivity p + cooldown p)
      then Did (Serving s) (members p) [] [(tickCooldown, lastActivity p + cooldown p - now)] []
      else if decide (defaultSvc p = "")
      then Did (Changing "") (members p) [] [] [WStopAll (u64_succ (opSeq p))]
      else if decide (s = defaultSvc p) then only p []
      else Did (Changing (defaultSvc p)) (members p) [] [] (change_work (defaultSvc p) p)
  | Changing _ | Broken => only p []
  end.

Lemma reach_cooldown cfg n s :
  config_ok cfg → reach cfg n s → cooldown (pool s) ≤ int64_max.
Proof.
  intros (_ & _ & _ & Hc) Hr. destruct (reach_same_config _ _ _ Hr) as (_ & _ & -> & _). exact Hc.
Qed.

Lemma startSwap_member b clk e p t :
  Base b clk p e → is_Some (members p !! t) →
  wp (startSwap t) (returns (λ _ p' es, Did (Changing t) (members p) [] [] (change_work t p) p' es)) p.
Proof. intros HB [m Hm]. eapply startSwap_did; [exact Hm|]. by eapply (b_names _ _ _ _ HB). Qed.

Lemma armTimer_serving p k d :
  wp (armTimer k d) (returns (λ _ p' es, Did (phase_of p) (members p) [] [(k, d)] [] p' es)) p.
Proof. eapply wp_mono; [|apply armTimer_did]. by intros [[]| |] p' es; [intros []| |]. Qed.

Lemma grace_tick_did b clk e p now :
  Base b clk p e →
  wp (handleTick (live_tick p tickGrace) now) (returns (λ _ p' es, grace_ended p p' es)) p.
Proof.
  intros HB. pose proof (b_noname _ _ _ _ HB) as Hno.
  unfold handleTick, grace_ended, phase_of. apply wp_bind, wp_gets. simpl.
  rewrite decide_False by (by intros []). apply wp_bind, wp_gets. simpl.
  destruct (state p); simpl; try by apply wp_mret.
  apply wp_bind, wp_gets. simpl.
  destruct (decide (oldestQueued (members p) = "")) as [Hn|Hn].
  - rewrite decide_False by auto. by apply wp_mret.
  - rewrite decide_True by done. eapply startSwap_member; [done|]. by apply oldestQueued_member.
Qed.

Lemma cooldown_tick_did b clk e p now :
  Base b clk p e → lastActivity p ≤ now → cooldown p ≤ int64_max →
  wp (handleTick (live_tick p tickCooldown) now) (returns (λ _ p' es, cooldown_ended p now p' es)) p.
Proof.
  intros HB Hlast Hcd. pose proof (b_noname _ _ _ _ HB) as Hno.
  destruct (idle_over p now Hlast Hcd) as [Hidle Hrest].
  assert (Hdef : defaultSvc p ≠ "" → is_Some (members p !! defaultSvc p)).
  { intros ?. by destruct (b_default _ _ _ _ HB). }
  pose proof (armTimer_serving p tickCooldown) as Harm.
  unfold handleTick, cooldown_ended, phase_of in *. apply wp_bind, wp_gets. simpl.
  rewrite decide_False by (by intros []). do 3 (apply wp_bind, wp_gets; simpl).
  destruct (state p) eqn:Hst; simpl; try by apply wp_mret.
  - destruct (decide (oldestQueued (members p) = "" ∧ defaultSvc p ≠ "")) as [[Hn Hd]|Hn].
    + rewrite decide_True by done. eapply startSwap_member; [done|auto].
    + rewrite decide_False by naive_solver. by apply wp_mret.
  - apply wp_bind, wp_gets. simpl.
    destruct (decide (oldestQueued (members p) ≠ "")) as [Hn|Hn]; [apply Harm|].
    apply wp_bind, wp_gets. simpl.
    destruct (decide (now < lastActivity p + cooldown p)) as [Hlt|Hge].
    { rewrite decide_True by (by apply Hidle). rewrite Hrest by done. apply Harm. }
    rewrite decide_False by (by rewrite Hidle). apply wp_bind, wp_gets. simpl.
    destruct (decide (defaultSvc p = "")) as [Hd|Hd].
    + rewrite decide_False by auto. eapply wp_eq; [apply startStopAll_eq|].
      split; autorewrite with stagehand_rw; done.
    + rewrite decide_True by done. case_decide as Hs.
      * rewrite decide_False by done. eapply startSwap_member; [done|auto].
      * rewrite decide_True by (by destruct (decide (active p = defaultSvc p))).
        by apply wp_mret.
Qed.

(** C18: a timer does what it is armed for, on every branch. The tick of the grace period
    starts the service that has waited longest, and nothing if nobody waits any more.
    The tick of the cooldown of an active service is put off while somebody is queued,
    and by exactly the rest of the cooldown since the last activity while it is not
    over; then it stops the pool, or brings the default service back, and leaves a
    default service that is running alone. In a cold pool it brings the default
    service back if nobody is queued. No tick answers anybody or changes a queue. *)
Theorem tick_outcome cfg n s k now1 now2 :
  config_ok cfg → Z.of_nat n < max_steps → reach cfg n s → running s = true → clock s ≤ now1 →
  ∃ p' es, handle (InTick (live_tick (pool s) k)) now1 now2 (pool s) = (Ret tt, p', es) ∧
    match k with
    | tickGrace => grace_ended (pool s) p' es
    | tickCooldown => cooldown_ended (pool s) now1 p' es
    end.
Proof.
  intros Hcfg Hn Hr Hrun Hnow. destruct (reach_running _ _ _ Hcfg Hn Hr Hrun) as [HB _].
  pose proof (reach_past _ _ _ Hr) as Hpast.
  assert (Hw : wp (handle (InTick (live_tick (pool s) k)) now1 now2)
    (returns (λ _ p' es, match k with
       | tickGrace => grace_ended (pool s) p' es
       | tickCooldown => cooldown_ended (pool s) now1 p' es
       end)) (pool s)).
  { simpl. destruct k; [by eapply grace_tick_did|].
    eapply cooldown_tick_did; [done|lia|by eapply reach_cooldown]. }
  destruct (returns_run _ _ _ Hw) as ([] & p' & es & ? & ?). by exists p', es.
Qed.

Lemma tick_outcome_witness :
  ∃ p' es, handle (InTick (live_tick (pool demo2) tickCooldown)) (400 * sec) (400 * sec) (pool demo2)
           = (Ret tt, p', es) ∧
    phase_of p' = Changing "" ∧ starts es = [WStopAll 2].
Proof.
  destruct (tick_outcome demo_cfg 2 demo2 tickCooldown (400 * sec) (400 * sec)) as (p' & es & Heq & Ht);
    [apply demo_cfg_ok|reflexivity|apply demo_reach2|reflexivity|vm_compute; discriminate|].
  exists p', es. split; [exact Heq|].
  assert (H : cooldown_ended (pool demo2) (400 * sec) =
    Did (Changing "") (members (pool demo2)) [] [] [WStopAll 2]) by (vm_compute; reflexivity).
  rewrite H in Ht. destruct Ht. split; assumption.
Defined.
