(* ===== verification/Scenarios.v ===== *)
(** * Runs worth knowing

    Executions of the manager, reachable from a validated configuration, in
    which it does something its comments or its documentation do not say. *)

From S2P Require Import Prelude State Queue Pool PoolFacts System Invariant Reachable Demo.
From S2P Require Import Lifecycle.
Open Scope Z_scope.

(** One more message, received [now]. *)
Definition demo_input (s : System) (i : input) (now : Z) : System :=
  run_step s i now now (environment s).

Definition demo_cancel (s : System) (service : string) (c : chan) (now : Z) : System :=
  run_step s (InCmd (cancelCmd service c)) now now (add_cancelled c (environment s)).

(** The tick of a timer that is due, the only one armed. *)
Definition demo_tick (s : System) (t : timerTick) (now : Z) : System :=
  run_step s (InTick t) now now (set_timers [] (environment s)).

Lemma demo_take_tick s now t due :
  timers (environment s) = [(t, due)] → due ≤ now →
  take (closed s) now (environment s) (InTick t) (set_timers [] (environment s)).
Proof. intros Ht Hd. by apply (take_tick _ _ _ [] t due []). Qed.

Lemma demo_take_cancel s now service c :
  bool_decide (c ∈ issued (environment s)) = true →
  take (closed s) now (environment s) (InCmd (cancelCmd service c))
    (add_cancelled c (environment s)).
Proof. intros Hc. apply take_cancel. by apply bool_decide_eq_true in Hc. Qed.

(** ** An idle service is never stopped

    A client of [comfy] is queued while [llama] starts. When [llama] is up, the
    grace period is armed instead of the cooldown; the client leaves; the grace
    tick finds nobody. *)
Definition warm1 : System := demo_admit demo1 "comfy" 2 (2 * sec).
Definition warm2 : System := demo_report warm1 (complete 1 "llama") (20 * sec).
Definition warm3 : System := demo_cancel warm2 "comfy" 2 (30 * sec).
Definition warm4 : System := demo_tick warm3 {| tick_kind := tickGrace; tick_epoch := 2 |} (80 * sec).

Lemma warm4_reach : reach demo_cfg 5 warm4.
Proof.
  apply (reach_S _ _ warm3); [apply (reach_S _ _ warm2); [apply (reach_S _ _ warm1);
    [apply (reach_S _ _ demo1); [apply demo_reach1|]|]|]|].
  - demo_step. by apply demo_take_admit.
  - demo_step. apply (demo_take_report _ _ (WSwap 1 "llama")); [by vm_compute|by repeat split].
  - demo_step. by apply demo_take_cancel.
  - demo_step. by apply (demo_take_tick _ _ _ (80 * sec)); vm_compute.
Qed.

(** The cooldown can be lost. A pool without a default service and with a
    cooldown can reach a state in which it serves a service, nobody is queued, and
    no timer of any kind is armed: however long the service stays idle, the pool
    is never stopped. *)
Theorem cooldown_can_be_lost :
  ∃ cfg n s, config_ok cfg ∧ reach cfg n s ∧ 0 < pc_Cooldown cfg ∧ pc_DefaultService cfg = "" ∧
    phase_of (pool s) = Serving "llama" ∧ total_queued (members (pool s)) = 0 ∧
    cooldownArmed (pool s) = false ∧ timers (environment s) = [] ∧ workers (environment s) = [].
Proof.
  exists demo_cfg, 5%nat, warm4.
  split_and!; [apply demo_cfg_ok|apply warm4_reach|by vm_compute..].
Qed.

(** ** An operator's stop does not stick

    A pool with the default service [llama], which is running, is stopped by an
    operator. *)
Definition warm_cfg : PoolConfig :=
  {| pc_Name := "gpu"; pc_GracePeriod := 60 * sec; pc_Cooldown := 300 * sec;
     pc_DefaultService := "llama"; pc_Members := [demo_member "llama"; demo_member "comfy"] |}.

Definition stop0 : System := init warm_cfg 0.
Definition stop1 : System := demo_admit stop0 "llama" 1 (1 * sec).
Definition stop2 : System := demo_report stop1 (complete 1 "llama") (20 * sec).
Definition stop3 : System := demo_input stop2 (InCmd adminStopCmd) (30 * sec).
Definition stop4 : System :=
  demo_report stop3 {| msg_op := 2; msg_target := ""; msg_kind := poolStopped; msg_err := None |}
    (40 * sec).
Definition stop5 : System :=
  demo_tick stop4 {| tick_kind := tickCooldown; tick_epoch := 3 |} (340 * sec).

Lemma warm_cfg_ok : config_ok warm_cfg.
Proof.
  split_and!; [|right; simpl; by left|vm_compute; discriminate|vm_compute; discriminate].
  simpl. intros mc Hin. apply elem_of_cons in Hin as [->|Hin]; [done|].
  by apply list_elem_of_singleton in Hin as ->.
Qed.

Lemma stop4_reach : reach warm_cfg 4 stop4.
Proof.
  apply (reach_S _ _ stop3); [apply (reach_S _ _ stop2); [apply (reach_S _ _ stop1);
    [apply (reach_S _ _ stop0)|]|]|].
  - exists 0. split; [vm_compute; discriminate|constructor].
  - demo_step. by apply demo_take_admit.
  - demo_step. apply (demo_take_report _ _ (WSwap 1 "llama")); [by vm_compute|by repeat split].
  - demo_step. apply take_admin_stop.
  - demo_step. apply (demo_take_report _ _ (WStopAll 2)); [by vm_compute|by repeat split].
Qed.

(** An operator's stop is undone by the cooldown. In a pool with a default
    service, after [AdminStop] has been carried out and with no request at all, the
    pool is cold with the cooldown tick armed, and that tick starts the default
    service again. *)
Theorem admin_stop_is_undone :
  ∃ n s s', reach warm_cfg n s ∧ step s s' ∧
    phase_of (pool s) = Cold ∧ total_queued (members (pool s)) = 0 ∧
    phase_of (pool s') = Changing "llama" ∧ issued (environment s') = issued (environment stop2).
Proof.
  exists 4%nat, stop4, stop5. split; [apply stop4_reach|]. split.
  - demo_step. by apply (demo_take_tick _ _ _ (340 * sec)); vm_compute.
  - by vm_compute.
Qed.

(** ** An operator's swap is carried out too late

    During the start of [llama] an operator asks for [comfy]; the container of
    [llama] dies. Later a client asks for [llama]. *)
Definition late1 : System := demo_input demo1 (InCmd (adminSwapCmd "comfy")) (2 * sec).
Definition late2 : System :=
  demo_input late1 (InDocker {| ev_container := "llama-container"; ev_action := "die" |}) (3 * sec).
Definition late3 : System := demo_admit late2 "llama" 2 (5000 * sec).
Definition late4 : System :=
  run_step late3 (InSwap (complete 3 "llama")) (5010 * sec) (5010 * sec)
    (set_workers [WSwap 1 "llama"] (environment late3)).

Lemma late2_reach : reach demo_cfg 3 late2.
Proof.
  apply (reach_S _ _ late1); [apply (reach_S _ _ demo1); [apply demo_reach1|]|].
  - demo_step. apply take_admin_swap.
  - demo_step. apply take_docker.
Qed.

Lemma late4_reach : reach demo_cfg 5 late4.
Proof.
  apply (reach_S _ _ late3); [apply (reach_S _ _ late2); [apply late2_reach|]|].
  - demo_step. by apply demo_take_admit.
  - demo_step. by apply (take_swap _ _ _ [WSwap 1 "llama"] (WSwap 3 "llama") []).
Qed.

(** An operator's swap that was pending when the target died stays pending.
    The pool is then broken, no swap is in flight, and the request is still
    remembered; the next successful swap to another service, here more than an hour
    later, is left at once for the remembered one: the client it was made for gets
    [AdmitGo] while its container is being taken down. *)
Theorem stale_admin_swap_is_obeyed :
  ∃ n s n' s', reach demo_cfg n s ∧ phase_of (pool s) = Broken ∧
    adminPending (pool s) = "comfy" ∧
    reach demo_cfg n' s' ∧ (2%nat, reply_ok AdmitGo) ∈ replied (environment s') ∧
    phase_of (pool s') = Changing "comfy" ∧ total_queued (members (pool s')) = 0.
Proof.
  exists 3%nat, late2, 5%nat, late4.
  split_and!; [apply late2_reach|by vm_compute|by vm_compute|apply late4_reach| |by vm_compute..].
  vm_compute. right. by left.
Qed.

(** ** A newcomer is served before those who wait

    Three services: [llama] is up since 20 s with a grace period of 60 s, a client of
    [comfy] waits since 30 s. At 80 s the grace tick is due, and the request of a
    client of [sdxl] is received before it. *)
Definition trio_cfg : PoolConfig :=
  {| pc_Name := "gpu"; pc_GracePeriod := 60 * sec; pc_Cooldown := 300 * sec;
     pc_DefaultService := "";
     pc_Members := [demo_member "llama"; demo_member "comfy"; demo_member "sdxl"] |}.

Definition trio1 : System := demo_admit (init trio_cfg 0) "llama" 1 (1 * sec).
Definition trio2 : System := demo_report trio1 (complete 1 "llama") (20 * sec).
Definition trio3 : System := demo_admit trio2 "comfy" 2 (30 * sec).
Definition trio4 : System := demo_admit trio3 "sdxl" 3 (80 * sec).

Lemma trio_cfg_ok : config_ok trio_cfg.
Proof.
  split_and!; [|by left|vm_compute; discriminate|vm_compute; discriminate].
  intros mc Hin. apply list_elem_of_lookup in Hin as [[|[|[|?]]] Hi]; by simplify_eq/=.
Qed.

Lemma trio3_reach : reach trio_cfg 3 trio3.
Proof.
  apply (reach_S _ _ trio2); [apply (reach_S _ _ trio1); [apply (reach_S _ _ (init trio_cfg 0))|]|].
  - exists 0. split; [vm_compute; discriminate|constructor].
  - demo_step. by apply demo_take_admit.
  - demo_step. apply (demo_take_report _ _ (WSwap 1 "llama")); [by vm_compute|by repeat split].
  - demo_step. by apply demo_take_admit.
Qed.

(** A newcomer can be served before those who have waited longer. When the grace
    period of the active service is over and its tick is about to be received, a
    request for a third service starts that one: the client that has waited for the
    whole grace period goes on waiting, and its tick has become void. *)
Theorem newcomer_overtakes :
  ∃ cfg n s s', config_ok cfg ∧ reach cfg n s ∧ step s s' ∧
    waiting (members (pool s)) "comfy" (Waiter 2 2) ∧
    (live_tick (pool s) tickGrace, clock s') ∈ timers (environment s) ∧
    oldestQueued (members (pool s')) = "comfy" ∧ phase_of (pool s') = Changing "sdxl" ∧
    waiting (members (pool s')) "comfy" (Waiter 2 2).
Proof.
  exists trio_cfg, 3%nat, trio3, trio4.
  split; [apply trio_cfg_ok|]. split; [apply trio3_reach|].
  split; [demo_step; by apply demo_take_admit|].
  split; [eexists; split; [vm_compute; reflexivity|by left]|].
  split; [vm_compute; right; by left|]. split; [by vm_compute|]. split; [by vm_compute|].
  eexists. split; [vm_compute; reflexivity|by left].
Qed.
