(* ===== verification/Starvation.v ===== *)
(** * No starvation

    How long a queued client waits, counted in messages. A potential of the pool
    and the client ([rank]) bounds the reports and grace ticks still to come before
    the client is answered: every message the manager is waiting for lowers it, no
    other message raises it, except a swap an operator orders and a request that is
    handled after the grace period is over and before its tick, which overtakes. *)

From S2P Require Import Prelude State Queue Pool PoolFacts QueueInv System Invariant.
From S2P Require Import Handlers Reachable Demo Lifecycle Static Outcome Commands.
Open Scope Z_scope.

(** ** The potential *)

(** The other services with a client that has waited longer than [w]. *)
Definition ahead (ms : gmap string member) (n : string) (w : waiter) : gset string :=
  dom (filter (λ x : string * member,
    x.1 ≠ n ∧ Exists (λ w', w_seq w' < w_seq w) (queue x.2)) ms).

(** One more change for the service an operator has asked for. *)
Definition ordered (p : Pool) : Z := if decide (adminPending p = "") then 0 else 1.

(** A change of service takes a report, and a grace tick before it. *)
Definition rank (p : Pool) (n : string) (w : waiter) : Z :=
  match state p with
  | StateSwapping =>
      if decide (target p = n) then 1
      else 3 + 2 * Z.of_nat (size (ahead (members p) n w ∖ {[target p]})) + ordered p
  | _ => 2 + 2 * Z.of_nat (size (ahead (members p) n w)) + ordered p
  end.

(** The messages the manager waits for: the report of the current worker, and the
    tick that ends the grace period of an active service. *)
Definition progress (p : Pool) (i : input) : bool :=
  match i with
  | InSwap msg => bool_decide (msg_op msg = opSeq p)
  | InTick t => bool_decide (t = live_tick p tickGrace ∧ state p = StateActive)
  | _ => false
  end.

(** The messages that may put another service first. *)
Definition overtakes (p : Pool) (i : input) (now : Z) : bool :=
  match i with
  | InCmd (adminSwapCmd _) => true
  | InCmd (admitCmd s _) =>
      bool_decide (state p = StateActive ∧ active p ≠ s ∧ grace p ≤ time_Sub now (startedAt p))
  | _ => false
  end.

Lemma elem_of_ahead ms n w k :
  k ∈ ahead ms n w ↔ k ≠ n ∧ ∃ w', waiting ms k w' ∧ w_seq w' < w_seq w.
Proof.
  unfold ahead, waiting. rewrite elem_of_dom. split.
  - intros [m [Hm [Hne Hex]]%map_lookup_filter_Some]. simpl in *.
    apply Exists_exists in Hex as (w' & ? & ?). eauto 8.
  - intros (Hne & w' & (m & Hm & Hw) & Hlt). exists m.
    apply map_lookup_filter_Some. split; [done|]. split; [done|]. simpl.
    apply Exists_exists. eauto.
Qed.

(** Fewer clients, fewer services ahead. *)
Lemma ahead_mono (ms ms' : gmap string member) n w X :
  (∀ k w', waiting ms' k w' → w_seq w' < w_seq w → waiting ms k w' ∧ k ∉ X) →
  ahead ms' n w ⊆ ahead ms n w ∖ X.
Proof.
  intros H k (Hne & w' & Hw & Hlt)%elem_of_ahead. destruct (H _ _ Hw Hlt) as [? ?].
  apply elem_of_difference. split; [|done]. apply elem_of_ahead. eauto.
Qed.

Lemma ordered_range p : 0 ≤ ordered p ≤ 1.
Proof. unfold ordered. case_decide; lia. Qed.

Lemma ordered_eq p p' : adminPending p' = adminPending p → ordered p' = ordered p.
Proof. unfold ordered. by intros ->. Qed.

Lemma ordered_none p : adminPending p = "" → ordered p = 0.
Proof. unfold ordered. by intros ->. Qed.

Lemma rank_pos p n w : 1 ≤ rank p n w.
Proof. pose proof (ordered_range p). unfold rank. repeat case_match; lia. Qed.

(** ** Changes of service *)

Section changes.
Context (sq : Z) (iss canc reps : list chan).

(** The potential of a pool that changes to [t], and to the longest waiting. *)
Lemma rank_swap p n w t :
  rank (swapping t p) n w ≤ 3 + 2 * Z.of_nat (size (ahead (members p) n w)) + ordered p.
Proof.
  change (ordered p) with (ordered (swapping t p)). pose proof (ordered_range (swapping t p)).
  unfold rank. simpl. case_decide; [lia|].
  assert (size (ahead (members p) n w ∖ {[t]}) ≤ size (ahead (members p) n w))%nat
    by (apply subseteq_size; set_solver).
  lia.
Qed.

Lemma rank_oldest p n w :
  Queues (members p) sq iss canc reps → members p !! "" = None → waiting (members p) n w →
  oldestQueued (members p) ≠ "" ∧
  rank (swapping (oldestQueued (members p)) p) n w ≤
    1 + 2 * Z.of_nat (size (ahead (members p) n w)) + ordered p.
Proof.
  intros HQ Hno Hw.
  destruct (oldestQueued_spec _ Hno) as [[_ Hq]|[Hne (h & (m & q & Hm & Hmq) & Hmin)]].
  { destruct Hw as (m & Hm & Hw). rewrite (Hq _ _ Hm) in Hw. by apply not_elem_of_nil in Hw. }
  split; [done|]. set (t := oldestQueued (members p)) in *.
  change (ordered p) with (ordered (swapping t p)). pose proof (ordered_range (swapping t p)).
  unfold rank. simpl. destruct (decide (t = n)) as [|Htn]; [lia|].
  assert (Ht : t ∈ ahead (members p) n w).
  { apply elem_of_ahead. split; [done|]. exists h.
    assert (Hh : waiting (members p) t h) by (exists m; rewrite Hmq; split; [done|by left]).
    split; [done|].
    destruct Hw as (mn & Hmn & Hw). pose proof (q_sorted _ _ _ _ _ HQ _ _ Hmn) as Hs.
    destruct (queue mn) as [|hn qn] eqn:Hqn; [by apply not_elem_of_nil in Hw|].
    assert (Hle : w_seq hn ≤ w_seq w).
    { apply StronglySorted_cons in Hs as [Hs _]. rewrite Forall_forall in Hs.
      apply elem_of_cons in Hw as [->|Hw]; [lia|]. specialize (Hs _ Hw). lia. }
    assert (w_seq h ≤ w_seq hn) by (apply (Hmin n); by exists mn, qn).
    assert (w_seq h ≠ w_seq w); [|lia]. intros Heq.
    destruct (q_seq_inj _ _ _ _ _ HQ t n h w) as [? _]; [done| |done|done].
    exists mn. by rewrite Hqn. }
  assert (Hsz : size (ahead (members p) n w) = S (size (ahead (members p) n w ∖ {[t]}))).
  { rewrite (union_difference_L {[t]} (ahead (members p) n w)) at 1 by set_solver.
    rewrite size_union by set_solver. by rewrite size_singleton. }
  lia.
Qed.

End changes.

(** ** One message *)

(** From [p] to [p'] nobody new waits, and nobody's potential grows by more than [k]. *)
Definition moves (k : Z) (p p' : Pool) : Prop :=
  ∀ n w, waiting (members p') n w →
    waiting (members p) n w ∧ rank p' n w ≤ rank p n w + k.

Lemma moves_refl p : moves 0 p p.
Proof. intros n w Hw. split; [done|lia]. Qed.

(** The potential depends on the phase and on those who have waited longer. *)
Lemma rank_fewer p p' n w :
  (∀ k v, waiting (members p') k v → w_seq v < w_seq w → waiting (members p) k v) →
  state p' = state p → target p' = target p → adminPending p' = adminPending p →
  rank p' n w ≤ rank p n w.
Proof.
  intros Hsub Hs Ht Ha. unfold rank. rewrite Hs, Ht, (ordered_eq _ _ Ha).
  assert (Hle : ahead (members p') n w ⊆ ahead (members p) n w ∖ ∅).
  { apply ahead_mono. intros k v Hv Hlt. split; [by apply Hsub|set_solver]. }
  assert (H1 : (size (ahead (members p') n w) ≤ size (ahead (members p) n w))%nat)
    by (apply subseteq_size; set_solver).
  assert (H2 : (size (ahead (members p') n w ∖ {[target p]})
                ≤ size (ahead (members p) n w ∖ {[target p]}))%nat)
    by (apply subseteq_size; set_solver).
  destruct (state p); try case_decide; lia.
Qed.

Lemma moves_fewer p p' :
  (∀ n w, waiting (members p') n w → waiting (members p) n w) →
  state p' = state p → target p' = target p → adminPending p' = adminPending p → moves 0 p p'.
Proof.
  intros Hsub ??? n w Hw. split; [by apply Hsub|].
  assert (rank p' n w ≤ rank p n w) by (apply rank_fewer; auto). lia.
Qed.

Lemma moves_same p p' :
  members p' = members p → state p' = state p → target p' = target p →
  adminPending p' = adminPending p → moves 0 p p'.
Proof. intros Hm ???. apply moves_fewer; [|done..]. intros n w. by rewrite Hm. Qed.

Lemma moves_mono k k' p p' : k ≤ k' → moves k p p' → moves k' p p'.
Proof. intros ? H n w Hw. destruct (H n w Hw). split; [done|lia]. Qed.

Lemma moves_quiet k p p' : all_quiet (members p') → moves k p p'.
Proof. intros Hq n w (m & Hm & Hw). rewrite (Hq _ _ Hm) in Hw. by apply not_elem_of_nil in Hw. Qed.

Lemma waiting_flushed p t m n w :
  waiting (members (put_member t (set_queue [] m) p)) n w → n ≠ t ∧ waiting (members p) n w.
Proof. intros [[_ Hw]|?]%waiting_insert; [by apply not_elem_of_nil in Hw|done]. Qed.

(** The potential after a flush of [t]. *)
Lemma ahead_flushed p t m n w :
  (size (ahead (members (put_member t (set_queue [] m) p)) n w)
   ≤ size (ahead (members p) n w ∖ {[t]}))%nat.
Proof.
  apply subseteq_size, ahead_mono. intros k w' [? ?]%waiting_flushed _. set_solver.
Qed.

(** What follows a terminal report. *)
Lemma chain_rank sq iss canc reps p (activated : bool) now :
  Queues (members p) sq iss canc reps → members p !! "" = None → state p ≠ StateSwapping →
  wp (chainAfterTerminal activated now) (λ _ p' _, members p' = members p ∧
    ∀ n w, waiting (members p) n w →
      rank p' n w ≤ 2 + 2 * Z.of_nat (size (ahead (members p) n w)) + ordered p) p.
Proof.
  intros HQ Hno Hst. unfold chainAfterTerminal.
  do 2 (apply wp_bind, wp_gets; simpl). case_decide as Hp.
  { apply wp_bind, wp_modify. eapply wp_eq; [apply startSwap_eq|]. split; [done|].
    intros n w _. unfold ordered. rewrite decide_False by naive_solver.
    pose proof (rank_swap (set_adminPending "" p) n w (adminPending p)) as Hr.
    rewrite ordered_none in Hr by done. simpl in Hr. lia. }
  apply wp_bind, wp_modify. simpl. do 5 (apply wp_bind, wp_gets; simpl).
  assert (Hsame : ∀ p', members p' = members p → state p' = state p → adminPending p' = "" →
    ∀ n w, rank p' n w ≤ 2 + 2 * Z.of_nat (size (ahead (members p) n w)) + ordered p).
  { intros p' Hm Hs Ha n w. unfold rank. rewrite Hm, Hs, (ordered_none p') by done.
    pose proof (ordered_range p). destruct (state p); [..|done|]; lia. }
  case_decide as Hnext.
  - case_if as Ha.
    + eapply wp_eq; [apply armTimer_eq|]. split; [done|]. intros n w _. by apply Hsame.
    + eapply wp_eq; [apply startSwap_eq|]. split; [done|]. intros n w Hw.
      destruct (rank_oldest _ _ _ _ (set_adminPending "" p) n w HQ Hno Hw) as [_ Hr].
      pose proof (ordered_range p). rewrite ordered_none in Hr by done.
      simpl in Hr. lia.
  - case_if as Hc1; [|case_if as Hc2; [|apply wp_mret; split; [done|]; intros n w _; by apply Hsame]].
    + apply wp_bind, wp_modify. eapply wp_eq; [apply armTimer_eq|]. split; [done|].
      intros n w _. by apply Hsame.
    + eapply wp_eq; [apply armTimer_eq|]. split; [done|]. intros n w _. by apply Hsame.
Qed.

Lemma chain_now_rank sq iss canc reps p :
  Queues (members p) sq iss canc reps → members p !! "" = None →
  wp chainNow (λ _ p' _, members p' = members p ∧
    ∀ n w, waiting (members p) n w →
      rank p' n w ≤ 1 + 2 * Z.of_nat (size (ahead (members p) n w)) + ordered p) p.
Proof.
  intros HQ Hno. unfold chainNow. apply wp_bind, wp_gets. simpl. case_decide as Hn.
  - eapply wp_eq; [apply startSwap_eq|]. split; [done|]. intros n w Hw.
    by apply (rank_oldest _ _ _ _ _ _ _ HQ Hno Hw).
  - apply wp_mret. split; [done|]. intros n w Hw.
    by destruct (rank_oldest _ _ _ _ _ _ _ HQ Hno Hw) as [? _].
Qed.

Section messages.
Context (b clk now now2 : Z) (p : Pool) (e : env).
Context (Hb : b + 1 < u64_modulus) (HB : Base b clk p e) (HC : Ctl p e).

Local Abbreviation HQ := (b_queues _ _ _ _ HB) (only parsing).

Lemma waiting_busy n w :
  waiting (members p) n w → state p = StateSwapping ∨ state p = StateActive.
Proof.
  intros (m & Hm & Hw). destruct (c_waiting _ _ HC) as [?|[? _]]; [|by left|by right].
  intros Hq. rewrite (Hq _ _ Hm) in Hw. by apply not_elem_of_nil in Hw.
Qed.

(** Nobody waits in a cold or broken pool. *)
Lemma moves_cold k p' :
  state p ≠ StateSwapping → state p ≠ StateActive →
  (∀ n w, waiting (members p') n w → waiting (members p) n w) → moves k p p'.
Proof. intros H1 H2 Hw n w Hn. apply Hw in Hn. by destruct (waiting_busy n w Hn). Qed.

Lemma moves_handleCancel s c :
  wp (handleCancel s c) (λ _ p' _, moves 0 p p') p.
Proof.
  unfold handleCancel. apply wp_bind, wp_gets. simpl.
  destruct (members p !! s) as [m|] eqn:Hm; [|apply wp_mret, moves_refl].
  apply wp_modify, moves_fewer; try done.
  intros k v [[-> Hv]|[_ Hv]]%waiting_insert; [|done]. exists m. split; [done|].
  eapply elem_of_sublist; [exact Hv|apply remove_waiter_sublist].
Qed.

(** A new client is behind everybody. *)
Lemma enqueued_behind s m c n w k v :
  members p !! s = Some m → waiting (members p) n w →
  waiting (<[s := (enqueue m (Waiter (u64_succ (seq p)) c)).1]> (members p)) k v →
  w_seq v < w_seq w → waiting (members p) k v.
Proof.
  intros Hm Hw Hv Hlt. apply waiting_insert in Hv as [[-> Hv]|[_ Hv]]; [|done].
  unfold enqueue in Hv. case_bool_decide; simpl in Hv; [by exists m|].
  apply elem_of_app in Hv as [Hv| ->%list_elem_of_singleton]; [by exists m|].
  pose proof (q_seq _ _ _ _ _ HQ _ _ Hw). pose proof (b_seq _ _ _ _ HB).
  simpl in Hlt. rewrite u64_succ_small in Hlt; lia.
Qed.

Lemma enqueued_new s m c n w :
  members p !! s = Some m →
  waiting (<[s := (enqueue m (Waiter (u64_succ (seq p)) c)).1]> (members p)) n w →
  w_reply w = c ∨ waiting (members p) n w.
Proof.
  intros Hm [[-> Hw]|[_ Hw]]%waiting_insert; [|by right].
  unfold enqueue in Hw. case_bool_decide; simpl in Hw; [right; by exists m|].
  apply elem_of_app in Hw as [Hw| ->%list_elem_of_singleton]; [right; by exists m|by left].
Qed.

Lemma moves_handleAdmit s c :
  wp (handleAdmit s c now) (λ _ p' _, ∀ n w, waiting (members p') n w →
    w_reply w = c ∨ (waiting (members p) n w ∧
      rank p' n w ≤ rank p n w + Z.b2z (overtakes p (InCmd (admitCmd s c)) now))) p.
Proof.
  set (k := Z.b2z _). assert (Hk : 0 ≤ k) by (subst k; by destruct (overtakes _ _ _)).
  assert (Hmoves : ∀ p', moves 0 p p' → ∀ n w, waiting (members p') n w →
    w_reply w = c ∨ (waiting (members p) n w ∧ rank p' n w ≤ rank p n w + k)).
  { intros p' Hp n w Hw. right. by apply (moves_mono 0). }
  unfold handleAdmit. apply wp_bind, wp_gets. simpl.
  destruct (members p !! s) as [m|] eqn:Hm.
  2: { apply wp_bind, wp_gets, wp_emit, Hmoves, moves_refl. }
  do 2 (apply wp_bind, wp_gets; simpl). case_decide as Hact.
  { apply wp_bind, wp_emit, wp_modify. rewrite decide_True by done. by apply Hmoves, moves_same. }
  apply wp_bind, wp_modify. simpl. apply wp_bind, wp_gets. simpl. apply wp_bind, wp_modify. simpl.
  set (p1 := put_member _ _ _).
  assert (Hpost : ∀ p', members p' = members p1 →
    (∀ n w, waiting (members p) n w → rank p' n w ≤ rank p n w + k) →
    ∀ n w, waiting (members p') n w →
      w_reply w = c ∨ (waiting (members p) n w ∧ rank p' n w ≤ rank p n w + k)).
  { intros p' Hmem Hr n w Hw. rewrite Hmem in Hw.
    destruct (enqueued_new _ _ _ _ _ Hm Hw) as [?|?]; [by left|right]. auto. }
  assert (Hstay : ∀ p', members p' = members p1 → state p' = state p → target p' = target p →
    adminPending p' = adminPending p → ∀ n w, waiting (members p') n w →
      w_reply w = c ∨ (waiting (members p) n w ∧ rank p' n w ≤ rank p n w + k)).
  { intros p' Hmem ???. apply Hpost; [done|]. intros n w Hw.
    assert (rank p' n w ≤ rank p n w); [|lia]. apply rank_fewer; [|done..].
    rewrite Hmem. intros ??. by apply (enqueued_behind s m c n). }
  destruct (enqueue m _).2; [|by apply wp_emit, Hstay].
  assert (Hcold : state p ≠ StateSwapping → state p ≠ StateActive →
    wp (startSwap s) (λ _ p' _, ∀ n w, waiting (members p') n w →
      w_reply w = c ∨ (waiting (members p) n w ∧ rank p' n w ≤ rank p n w + k)) p1).
  { intros ??. eapply wp_eq; [apply startSwap_eq|]. apply Hpost; [done|].
    intros n w Hw. by destruct (waiting_busy n w Hw). }
  destruct (state p) eqn:Hst; [by apply Hcold| |by apply wp_mret, Hstay|by apply Hcold].
  do 2 (apply wp_bind, wp_gets; simpl).
  destruct (decide (grace p ≤ time_Sub now (startedAt p))) as [Hg|Hg].
  - eapply wp_eq; [apply startSwap_eq|]. apply Hpost; [done|]. intros n w Hw.
    assert (k = 1) as ->.
    { subst k. simpl. rewrite bool_decide_eq_true_2; [done|]. naive_solver. }
    pose proof (rank_swap p1 n w s) as Hr.
    assert (Hle : (size (ahead (members p1) n w) ≤ size (ahead (members p) n w))%nat).
    { apply subseteq_size. transitivity (ahead (members p) n w ∖ ∅); [|set_solver].
      apply ahead_mono. intros k' v Hv Hlt. split; [|set_solver].
      by apply (enqueued_behind s m c n w). }
    unfold rank at 2. rewrite Hst. change (ordered p1) with (ordered p) in Hr. lia.
  - eapply wp_eq; [apply armTimer_eq|]. by apply Hstay.
Qed.

Lemma moves_handleAdminSwap s : wp (handleAdminSwap s) (λ _ p' _, moves 1 p p') p.
Proof.
  assert (H01 : ∀ p', moves 0 p p' → moves 1 p p') by (intros ?; by apply moves_mono).
  unfold handleAdminSwap. apply wp_bind, wp_gets. simpl.
  destruct (members p !! s); [|by apply wp_mret, H01, moves_refl].
  apply wp_bind, wp_gets. simpl.
  assert (Hcold : state p ≠ StateSwapping → state p ≠ StateActive →
    wp (startSwap s;; mret AdminInitiated) (λ _ p' _, moves 1 p p') p).
  { intros ??. run_eq startSwap_eq. by apply wp_mret, moves_cold. }
  destruct (state p) eqn:Hst; [by apply Hcold| | |by apply Hcold].
  - apply wp_bind, wp_gets. simpl. case_decide; [by apply wp_mret, H01, moves_refl|].
    run_eq startSwap_eq. apply wp_mret. intros n w Hw. split; [done|].
    pose proof (rank_swap p n w s). unfold rank at 2. rewrite Hst. lia.
  - apply wp_bind, wp_gets. simpl. case_decide; [by apply wp_mret, H01, moves_refl|].
    apply wp_bind, wp_gets. simpl. apply wp_bind, wp_modify, wp_mret.
    intros n w Hw. split; [done|]. pose proof (ordered_range p).
    pose proof (ordered_range (set_adminPending s p)).
    unfold rank. simpl. rewrite Hst. case_decide; lia.
Qed.

Lemma moves_handleAdminStop k : wp handleAdminStop (λ _ p' _, moves k p p') p.
Proof.
  unfold handleAdminStop. apply wp_bind, wp_modify. simpl. run_eq flush_all_eq.
  assert (Hq : all_quiet (set_queue [] <$> members p)).
  { intros n m. rewrite lookup_fmap. by intros (m' & _ & ->)%fmap_Some. }
  apply wp_bind, wp_gets. simpl.
  destruct (state p); try (run_eq startStopAll_eq); by apply wp_mret, moves_quiet.
Qed.

Lemma moves_shutdown k : wp shutdown (λ _ p' _, moves k p p') p.
Proof.
  eapply wp_mono; [|apply (shutdown_spec _ _ now _ _ HB)].
  intros [[]| |] p' es; simpl; [|done..]. intros [[Hq _ _] _]. by apply moves_quiet.
Qed.

Lemma noname_put t m q : members p !! t = Some m → <[t := set_queue q m]> (members p) !! "" = None.
Proof.
  intros Hm. pose proof (b_noname _ _ _ _ HB). rewrite lookup_insert_ne; [done|]. congruence.
Qed.

(** The target of a change is flushed: a client that still waits has one service less
    ahead of it. *)
Lemma rank_flushed t m n w p1 :
  state p = StateSwapping → target p = t → members p1 = members p →
  adminPending p1 = adminPending p →
  let p2 := put_member t (set_queue [] m) p1 in
  waiting (members p2) n w →
  waiting (members p) n w ∧
  3 + 2 * Z.of_nat (size (ahead (members p2) n w)) + ordered p2 ≤ rank p n w.
Proof.
  intros Hst Ht Hm Ha p2 Hw. unfold p2 in Hw. apply waiting_flushed in Hw as [Hne Hw].
  rewrite Hm in Hw. split; [done|]. pose proof (ahead_flushed p1 t m n w) as Hle.
  change (put_member t (set_queue [] m) p1) with p2 in Hle. rewrite Hm in Hle.
  rewrite (ordered_eq p p2) by done.
  unfold rank. rewrite Hst, Ht, decide_False by done. lia.
Qed.

Lemma moves_flush_chain t m r p1 (activated : bool) :
  state p = StateSwapping → target p = t → members p !! t = Some m →
  members p1 = members p → adminPending p1 = adminPending p → state p1 ≠ StateSwapping →
  wp (flush_member t r;; chainAfterTerminal activated now2) (λ _ p' _, moves (-1) p p') p1.
Proof.
  intros Hst Ht Hm Hm1 Ha Hst1. apply wp_bind.
  eapply wp_eq; [apply flush_member_eq; by rewrite Hm1|]. cbn beta iota.
  eapply wp_mono; [|eapply chain_rank; [| |done]].
  - intros o p' es [Hmem Hr]. cbn beta. intros n w Hw. rewrite Hmem in Hw. specialize (Hr n w Hw).
    destruct (rank_flushed t m n w p1 Hst Ht Hm1 Ha Hw) as [? Hle]. split; [done|].
    cbv zeta in Hle. lia.
  - simpl. rewrite Hm1. by apply (queues_flush _ _ _ _ _ _ _ HQ).
  - simpl. rewrite Hm1. by apply noname_put.
Qed.

Lemma moves_handleSwap l1 w l2 msg :
  workers e = l1 ++ w :: l2 → report_ok w msg →
  wp (handleSwap msg now now2) (λ _ p' _, moves (- Z.b2z (progress p (InSwap msg))) p p') p.
Proof.
  intros Hl Hrep. unfold handleSwap. apply wp_bind, wp_gets. simpl.
  case_decide as Hop; [rewrite bool_decide_eq_false_2 by done; apply wp_mret, moves_refl|].
  assert (Hop' : msg_op msg = opSeq p) by (by destruct (decide (msg_op msg = opSeq p))).
  rewrite bool_decide_eq_true_2 by done. simpl.
  destruct (report_live _ _ _ _ _ _ _ _ HB HC Hl Hrep Hop') as (Hst & Hw & _).
  assert (Hwt : work_target w = target p).
  { rewrite Hw. unfold live_work. by case_decide. }
  run_eq release_ctx_eq. destruct Hrep as (_ & Htgt & Hkind). rewrite Hwt in Htgt.
  assert (Hm : msg_kind msg ≠ poolStopped → is_Some (members p !! target p)).
  { intros Hk. subst w. unfold live_work in *. case_decide as Ht.
    - destruct (msg_kind msg); done.
    - eapply (b_wtarget _ _ _ _ HB). rewrite Hl. apply elem_of_app. right. left. }
  rewrite Htgt. destruct (msg_kind msg) eqn:Hk.
  - destruct Hm as [m Hm]; [done|]. run_eq settle_eq. apply wp_bind, wp_modify. simpl.
    run_eq publish_eq. by eapply moves_flush_chain.
  - destruct Hm as [m Hm]; [done|]. run_eq settle_eq. run_eq publish_eq. by eapply moves_flush_chain.
  - destruct Hm as [m Hm]; [done|]. apply wp_bind, wp_gets. simpl. rewrite Hm. apply wp_bind, wp_mret.
    apply wp_bind, wp_emit. run_eq settle_eq. run_eq publish_eq. by eapply moves_flush_chain.
  - assert (Ht : target p = "").
    { subst w. unfold live_work in *. by case_decide. }
    run_eq settle_eq. run_eq publish_eq.
    eapply wp_mono; [|by eapply chain_rank; [exact HQ|exact (b_noname _ _ _ _ HB)|]].
    intros o p' es [Hmem Hr] n v Hv. rewrite Hmem in Hv. split; [exact Hv|].
    specialize (Hr n v Hv). simpl in Hr. unfold rank at 2. rewrite Hst, Ht.
    assert (Hno : ∀ v, ¬ waiting (members p) "" v).
    { intros v' (m & Hn & _). pose proof (b_noname _ _ _ _ HB). congruence. }
    rewrite decide_False by (intros <-; by apply (Hno v)).
    assert (size (ahead (members p) n v) ≤ size (ahead (members p) n v ∖ {[""]}))%nat.
    { apply subseteq_size. intros k' Hk'. apply elem_of_difference. split; [done|].
      intros ->%elem_of_singleton. apply elem_of_ahead in Hk' as (_ & v' & Hv' & _).
      by apply (Hno v'). }
    change (ordered (publish_state (settled StateIdle "" (set_swapCancel None p))))
      with (ordered p) in Hr. lia.
Qed.

Lemma moves_handleTick t :
  wp (handleTick t now) (λ _ p' _, moves (- Z.b2z (progress p (InTick t))) p p') p.
Proof.
  unfold handleTick. apply wp_bind, wp_gets. simpl.
  assert (Hstale : tick_epoch t ≠ epochs p (tick_kind t) → t ≠ live_tick p tickGrace).
  { intros Hne ->. by destruct Hne. }
  case_decide as Hep.
  { rewrite bool_decide_eq_false_2 by naive_solver. apply wp_mret, moves_refl. }
  apply wp_bind, wp_gets. simpl.
  assert (Hlive : t = live_tick p (tick_kind t)).
  { destruct t as [k ep]. simpl in *. unfold live_tick. f_equal.
    by destruct (decide (ep = epochs p k)). }
  pose proof (b_noname _ _ _ _ HB) as Hno.
  destruct (tick_kind t) eqn:Hk.
  - case_decide as Hst.
    { rewrite bool_decide_eq_false_2 by naive_solver. apply wp_mret, moves_refl. }
    assert (Hact : state p = StateActive) by (by destruct (decide (state p = StateActive))).
    rewrite bool_decide_eq_true_2 by done. apply wp_bind, wp_gets. simpl.
    set (c := Z.opp _). destruct (decide (oldestQueued (members p) ≠ "")) as [Hn|Hn].
    + eapply wp_eq; [apply startSwap_eq|]. intros n w Hw. split; [done|].
      destruct (rank_oldest _ _ _ _ _ n w HQ Hno Hw) as [_ Hr].
      unfold rank at 2. rewrite Hact. subst c. simpl. lia.
    + apply wp_mret, moves_quiet. apply oldestQueued_quiet; [done|].
      by destruct (decide (oldestQueued (members p) = "")).
  - rewrite bool_decide_eq_false_2 by (rewrite Hlive; naive_solver). simpl.
    do 2 (apply wp_bind, wp_gets; simpl).
    case_decide as Hidle.
    { case_decide; [|apply wp_mret, moves_refl].
      eapply wp_eq; [apply startSwap_eq|]. apply moves_cold; [congruence..|done]. }
    case_decide; [apply wp_mret, moves_refl|]. apply wp_bind, wp_gets. simpl.
    case_decide as Hn.
    { eapply wp_eq; [apply armTimer_eq|]. by apply moves_same. }
    assert (Hq : ∀ p', members p' = members p → moves 0 p p').
    { intros p' Hm. apply moves_quiet. rewrite Hm. apply oldestQueued_quiet; [done|].
      by destruct (decide (oldestQueued (members p) = "")). }
    apply wp_bind, wp_gets. simpl.
    case_decide; [eapply wp_eq; [apply armTimer_eq|]; by apply Hq|].
    apply wp_bind, wp_gets. simpl. case_decide; [case_decide|].
    + eapply wp_eq; [apply startSwap_eq|]. by apply Hq.
    + by apply wp_mret, Hq.
    + eapply wp_eq; [apply startStopAll_eq|]. by apply Hq.
Qed.

Lemma moves_flush_next t m r p1 (R : Pool → Prop) :
  members p !! t = Some m → members p1 = members p →
  (∀ p', (∀ n w, waiting (members p') n w → waiting (members (put_member t (set_queue [] m) p1)) n w ∧
     rank p' n w ≤ 1 + 2 * Z.of_nat (size (ahead (members (put_member t (set_queue [] m) p1)) n w))
                   + ordered p1) → R p') →
  wp (flush_member t r;; chainNow) (λ _ p' _, R p') p1.
Proof.
  intros Hm Hm1 HR. apply wp_bind.
  eapply wp_eq; [apply flush_member_eq; by rewrite Hm1|]. cbn beta iota.
  eapply wp_mono; [|eapply chain_now_rank].
  - intros o p' es [Hmem Hr]. apply HR. intros n w Hw. rewrite Hmem in Hw.
    split; [exact Hw|]. by apply Hr.
  - simpl. rewrite Hm1. by apply (queues_flush _ _ _ _ _ _ _ HQ).
  - simpl. rewrite Hm1. by apply noname_put.
Qed.

Lemma moves_handleExternalEvent ev : wp (handleExternalEvent ev) (λ _ p' _, moves 0 p p') p.
Proof.
  unfold handleExternalEvent. apply wp_bind, wp_gets. simpl.
  destruct (memberByContainer _ _) as [m|] eqn:Hsvc; [|apply wp_mret, moves_refl].
  apply memberByContainer_Some in Hsvc as [_ [k Hn]].
  assert (Hm : members p !! name m = Some m) by by rewrite (b_names _ _ _ _ HB _ _ Hn).
  do 3 (apply wp_bind, wp_gets; simpl). case_if as Hstop.
  2: { case_if as Hs; [|apply wp_mret, moves_refl]. clear Hs.
       do 2 (case_decide; [apply wp_mret, moves_refl|]). apply wp_emit, moves_refl. }
  destruct (state p) eqn:Hst; [apply wp_mret, moves_refl| | |apply wp_mret, moves_refl].
  - case_decide as Ha; [apply wp_mret, moves_refl|].
    do 2 (apply wp_bind, wp_modify; simpl). run_eq bumpEpochs_eq. run_eq publish_eq.
    apply (moves_flush_next _ m); [done..|]. intros p' Hr n w Hw.
    destruct (Hr n w Hw) as [[_ Hw']%waiting_flushed Hle]. split; [done|].
    pose proof (ahead_flushed p (name m) m n w) as Hs.
    assert (size (ahead (members p) n w ∖ {[name m]}) ≤ size (ahead (members p) n w))%nat
      by (apply subseteq_size; set_solver).
    unfold rank at 2. rewrite Hst. simpl in Hle, Hs.
    change (ordered _) with (ordered p) in Hle. lia.
  - case_decide as Ha; [apply wp_mret, moves_refl|].
    assert (Ht : target p = name m) by (by destruct (decide (name m = target p))).
    run_eq supersedeWorker_eq. run_eq settle_eq. run_eq publish_eq.
    set (p1 := publish_state _). apply (moves_flush_next _ m); [done..|].
    intros p' Hr n w Hw. destruct (Hr n w Hw) as [Hw' Hle].
    destruct (rank_flushed (name m) m n w p1 Hst Ht eq_refl eq_refl Hw') as [? Hle'].
    split; [done|]. cbv zeta in Hle'. rewrite (ordered_eq p1) in Hle' by done. lia.
Qed.

(** Any message: who waits was waiting or is the client of this very admission, and
    the potential drops by one for a message the manager waits for. *)
Lemma moves_handle closed i e1 :
  take closed now e i e1 →
  wp (handle i now now2) (λ _ p' _, ∀ n w, waiting (members p') n w →
    (∃ s, i = InCmd (admitCmd s (w_reply w))) ∨
    (waiting (members p) n w ∧
     rank p' n w + Z.b2z (progress p i) ≤ rank p n w + Z.b2z (overtakes p i now))) p.
Proof.
  intros Htake.
  assert (Hmoves : ∀ A (m : M A) k, wp m (λ _ p' _, moves k p p') p →
    k = Z.b2z (overtakes p i now) - Z.b2z (progress p i) →
    wp m (λ _ p' _, ∀ n w, waiting (members p') n w →
      (∃ s, i = InCmd (admitCmd s (w_reply w))) ∨
      (waiting (members p) n w ∧
       rank p' n w + Z.b2z (progress p i) ≤ rank p n w + Z.b2z (overtakes p i now))) p).
  { intros A m k Hm Hk. eapply wp_mono; [|exact Hm]. intros o p' es Hp n w Hw. right.
    destruct (Hp n w Hw). split; [done|lia]. }
  assert (Hanswer : ∀ A (m : M A) (f : A → effect) k, wp m (λ _ p' _, moves k p p') p →
    wp (m ≫= λ a, emit (f a)) (λ _ p' _, moves k p p') p).
  { intros A m f k Hm. apply wp_bind. eapply wp_mono; [|exact Hm]. by intros [] ??. }
  destruct Htake as [s c Hc|s c Hc| | |s| |l1 w l2 msg Hl Hrep|l1 t due l2 Hl Hdue|s|ev|]; simpl.
  - eapply wp_mono; [|apply (moves_handleAdmit s c)]. intros o p' es Hp n w Hw.
    destruct (Hp n w Hw) as [<-|[? Hr]]; [left; eauto|right]. split; [done|]. simpl in Hr. lia.
  - eapply Hmoves; [apply moves_handleCancel|done].
  - eapply Hmoves; [|done]. apply wp_bind, wp_gets, wp_emit, moves_refl.
  - eapply Hmoves; [|done]. apply wp_bind, wp_gets, wp_emit, moves_refl.
  - eapply Hmoves; [apply Hanswer, moves_handleAdminSwap|done].
  - eapply Hmoves; [apply Hanswer, moves_handleAdminStop|done].
  - eapply Hmoves; [by eapply moves_handleSwap|done].
  - eapply Hmoves; [apply moves_handleTick|done].
  - eapply Hmoves; [|done]. apply wp_modify. case_decide; by apply moves_same.
  - eapply Hmoves; [apply moves_handleExternalEvent|done].
  - eapply Hmoves; [apply moves_shutdown|done].
Qed.

End messages.

(** ** Runs

    [run k P O s s']: [k] steps lead from [s] to [s'], among them [P] messages the
    manager was waiting for and [O] that may put another service first. *)
Inductive run : nat → Z → Z → System → System → Prop :=
| run_nil s : run 0 0 0 s s
| run_close k P O s s' :
    run k P O (pool_close s) s' → run (S k) P O s s'
| run_handle k P O s i now1 now2 e1 p' es s' :
    running s = true → clock s ≤ now1 → now1 ≤ now2 →
    take (closed s) now1 (environment s) i e1 →
    handle i now1 now2 (pool s) = (Ret tt, p', es) →
    run k P O (Sys p' (performs now1 e1 es) now2 (closed s) (negb (is_done i))) s' →
    run (S k) (Z.b2z (progress (pool s) i) + P) (Z.b2z (overtakes (pool s) i now1) + O) s s'.

(** Runs are what [step] allows. *)
Lemma run_steps k P O s s' : run k P O s s' → nsteps step k s s'.
Proof. induction 1; [constructor|..]; (econstructor; [|done]); by econstructor. Qed.

Lemma steps_run k s s' : nsteps step k s s' → ∃ P O, run k P O s s'.
Proof.
  induction 1 as [s|k s s1 s' Hstep _ (P & O & IH)]; [do 2 eexists; constructor|].
  destruct Hstep; do 2 eexists; by econstructor.
Qed.

Lemma issued_performs now e es : issued (performs now e es) = issued e.
Proof.
  revert e. induction es as [|x es IH]; intros e; [done|]. unfold performs in *. simpl.
  rewrite IH. by destruct x as [| |? [?|] ?| | | | | | | |].
Qed.

Lemma issued_take closed now e i e1 c :
  take closed now e i e1 → c ∈ issued e → c ∈ issued e1.
Proof. destruct 1; simpl; try done. by right. Qed.

(** Along a run, a client that had arrived before it and still waits has seen its
    potential drop by each message the manager was waiting for. *)
Lemma run_rank m k P O s s' n w :
  2 * Z.of_nat (m + k) < u64_modulus → Inv m s → run k P O s s' →
  waiting (members (pool s')) n w → w_reply w ∈ issued (environment s) →
  waiting (members (pool s)) n w ∧ rank (pool s') n w + P ≤ rank (pool s) n w + O.
Proof.
  intros Hb HI Hrun Hw. revert m Hb HI.
  induction Hrun as [s|k P O s s' Hrun IH|k P O s i now1 now2 e1 p' es s' Hr H1 H2 Htake Hh Hrun IH];
    intros m Hb HI Hc; [split; [done|lia]|..].
  - apply (IH Hw (S m)); [lia| |done]. eapply step_inv; [lia|exact HI|apply step_close].
  - assert (HI' := HI). unfold Inv in HI'. rewrite Hr in HI'. destruct HI' as [HB HC].
    destruct (IH Hw (S m)) as [Hw1 Hle]; [lia| | |].
    + eapply step_inv; [lia|exact HI|by eapply step_handle].
    + simpl. rewrite issued_performs. by eapply issued_take.
    + simpl in *. pose proof (moves_handle (2 * Z.of_nat m) _ now1 now2 _ _ ltac:(lia) HB HC _ _ _ Htake) as Hm.
      unfold wp in Hm. rewrite Hh in Hm. destruct (Hm n w Hw1) as [[sv ->]|[? ?]].
      * inversion Htake; subst. done.
      * split; [done|lia].
Qed.

Lemma run_issued k P O s s' c :
  run k P O s s' → c ∈ issued (environment s) → c ∈ issued (environment s').
Proof.
  induction 1 as [| |k P O s i now1 now2 e1 p' es s' _ _ _ Htake _ _ IH]; intros Hc; auto.
  apply IH. simpl. rewrite issued_performs. by eapply issued_take.
Qed.

Lemma size_new_members l : (size (new_members l) ≤ length l)%nat.
Proof.
  unfold new_members. induction l as [|mc l IH] using rev_ind; [done|].
  rewrite foldl_snoc, length_app. simpl. rewrite map_size_insert. case_match; simpl; lia.
Qed.

Lemma reach_size cfg n s :
  reach cfg n s → (size (members (pool s)) ≤ length (pc_Members cfg))%nat.
Proof.
  intros Hr. destruct (reach_same_config _ _ _ Hr) as (_&_&_&_&Hs).
  unfold static_members in Hs. rewrite <- (map_size_fmap (set_queue [])), Hs, map_size_fmap.
  apply size_new_members.
Qed.

(** The potential is bounded by the number of services. *)
Lemma rank_bound p n w :
  members p !! "" = None → is_Some (members p !! n) →
  rank p n w ≤ 2 * Z.of_nat (size (members p)) + 2.
Proof.
  intros Hno [m Hm].
  assert (Hsz : (S (size (ahead (members p) n w)) ≤ size (members p))%nat).
  { assert (Hsub : {[n]} ∪ ahead (members p) n w ⊆ dom (members p)).
    { intros k [->%elem_of_singleton|Hk]%elem_of_union; apply elem_of_dom; [eauto|].
      apply elem_of_ahead in Hk as (_ & w' & (m' & Hm' & _) & _). eauto. }
    apply subseteq_size in Hsub. rewrite size_union, size_singleton, size_dom in Hsub; [lia|].
    intros k ->%elem_of_singleton [? _]%elem_of_ahead. done. }
  assert (size (ahead (members p) n w ∖ {[target p]}) ≤ size (ahead (members p) n w))%nat
    by (apply subseteq_size; set_solver).
  pose proof (ordered_range p). unfold rank. destruct (state p); try case_decide; lia.
Qed.

(** C3: no client starves. While a client is queued, a message the manager waits for
    is on its way: the report of the current worker, or the tick of the grace period,
    due exactly when the grace period of the active service is over, however many
    requests arrive meanwhile. And finitely many of these messages are enough. Along
    any run from a state in which the client is queued, it has been answered or has
    withdrawn once more than [2 d + 1] of them have been handled, for [d] services,
    plus one for each swap ordered by an operator and each request for another
    service handled after the grace period and before its tick. *)
Theorem no_starvation cfg m k P O s s' service w :
  config_ok cfg → Z.of_nat (m + k) < max_steps → reach cfg m s → run k P O s s' →
  waiting (members (pool s)) service w →
  (waiting (members (pool s')) service w →
     (∃ v, v ∈ workers (environment s') ∧
        ∀ msg, report_ok v msg → progress (pool s') (InSwap msg) = true) ∨
     (∃ t, (t, startedAt (pool s') + grace (pool s')) ∈ timers (environment s') ∧
        progress (pool s') (InTick t) = true)) ∧
  (2 * Z.of_nat (length (pc_Members cfg)) + 1 + O < P →
     (∃ r, (w_reply w, r) ∈ replied (environment s')) ∨ w_reply w ∈ cancelled (environment s')).
Proof.
  intros Hcfg Hn Hreach Hrun Hw.
  assert (HI : Inv m s) by (apply (reach_inv cfg); [done|lia|done]).
  assert (Hreach' : reach cfg (m + k) s').
  { destruct Hreach as (t0 & Ht0 & Hs). exists t0. split; [done|].
    by eapply nsteps_trans; [|eapply run_steps]. }
  assert (Hrunning : ∀ sy j n v, reach cfg j sy → Z.of_nat j < max_steps →
    waiting (members (pool sy)) n v →
    Base (2 * Z.of_nat j) (clock sy) (pool sy) (environment sy) ∧ Ctl (pool sy) (environment sy)).
  { intros sy j n v Hr Hj (mm & Hm & Hv). pose proof (reach_inv _ _ _ Hcfg Hj Hr) as HIs.
    unfold Inv in HIs. destruct (running sy); [done|].
    rewrite (stopped_quiet _ _ HIs _ _ Hm) in Hv. by apply not_elem_of_nil in Hv. }
  split.
  - intros Hw'. destruct (Hrunning _ _ _ _ Hreach' Hn Hw') as [HB HC].
    destruct (decide (state (pool s') = StateSwapping)) as [Hst|Hst]; [left|right].
    + exists (live_work (pool s')). split; [by apply (c_core _ _ HC)|].
      intros msg (Hop & _). simpl. by rewrite bool_decide_eq_true_2 by (by rewrite Hop, live_work_op).
    + destruct (waiting_busy _ _ HC _ _ Hw') as [?|Hact]; [done|].
      destruct (c_waiting _ _ HC) as [?|[_ [due Hin]]]; [|done|].
      { intros Hq. destruct Hw' as (mm & Hm & Hv). rewrite (Hq _ _ Hm) in Hv.
        by apply not_elem_of_nil in Hv. }
      destruct (c_grace _ _ HC _ Hin) as [_ ->]. exists (live_tick (pool s') tickGrace).
      split; [done|]. simpl. by rewrite bool_decide_eq_true_2.
  - intros HP. destruct (Hrunning _ _ _ _ Hreach ltac:(lia) Hw) as [HB HC].
    pose proof (q_issued _ _ _ _ _ (b_queues _ _ _ _ HB) _ _ Hw) as Hiss.
    destruct (reach_queues _ _ _ Hcfg Hn Hreach') as [sq HQ].
    destruct (q_conserve _ _ _ _ _ HQ (w_reply w)) as [(n' & w' & Hw' & Heq)|[Hr|?]]; [| | |by right].
    + by eapply run_issued.
    + exfalso. rewrite <- Heq in Hiss.
      destruct (run_rank m k P O s s' n' w' ltac:(unfold max_steps, u64_modulus in *; lia)
        HI Hrun Hw' Hiss) as [Hw1 Hle].
      pose proof (rank_pos (pool s') n' w').
      destruct Hw1 as (m1 & Hm1 & _).
      pose proof (rank_bound (pool s) n' w' (b_noname _ _ _ _ HB) ltac:(eauto)).
      pose proof (reach_size _ _ _ Hreach). lia.
    + left. apply list_elem_of_fmap in Hr as ([c r] & -> & ?). by exists r.
Qed.

(** ** A run

    [comfy] is asked for while [llama] is active; the grace tick starts the swap. *)
Definition starve_tick : input := InTick {| tick_kind := tickGrace; tick_epoch := 2 |}.

Definition starve_env : env :=
  set_timers [({| tick_kind := tickCooldown; tick_epoch := 2 |}, 320 * sec)] (environment demo3).

Definition starve4 : System := run_step demo3 starve_tick (80 * sec) (80 * sec) starve_env.

Lemma starve_run : run 1 1 0 demo3 starve4.
Proof.
  apply (run_handle 0 0 0 demo3 starve_tick (80 * sec) (80 * sec) starve_env (pool starve4)
    (handle starve_tick (80 * sec) (80 * sec) (pool demo3)).2 starve4).
  - reflexivity.
  - vm_compute. discriminate.
  - vm_compute. discriminate.
  - apply (take_tick _ _ _ [({| tick_kind := tickCooldown; tick_epoch := 2 |}, 320 * sec)]
      _ (80 * sec) []); vm_compute; [reflexivity|discriminate].
  - vm_compute. reflexivity.
  - vm_compute. constructor.
Qed.

Lemma no_starvation_witness :
  (∃ v, v ∈ workers (environment starve4) ∧
     ∀ msg, report_ok v msg → progress (pool starve4) (InSwap msg) = true) ∨
  (∃ t, (t, startedAt (pool starve4) + grace (pool starve4)) ∈ timers (environment starve4) ∧
     progress (pool starve4) (InTick t) = true).
Proof.
  apply (no_starvation demo_cfg 3 1 1 0 demo3 starve4 "comfy" (Waiter 2 2));
    [apply demo_cfg_ok|reflexivity|apply demo_reach3|apply starve_run|..];
    (eexists; split; [vm_compute; reflexivity|by left]).
Defined.
