(* ===== verification/Silence.v ===== *)
(** * Which docker events a pool takes for its own

    [Registry.v] follows one operation. Here a timeline merges what the workers of a
    pool do with the docker events that reach the watcher, in any interleaving, and
    the answers of the registry are compared with a definition that looks back at the
    timeline. A run in which a teardown of the pool is taken for an external death
    ends the file. *)

From S2P Require Import Prelude GoStrings State Docker Registry Queue Worker Pool PoolFacts.
From S2P Require Import System Reachable Demo Lifecycle.
Open Scope Z_scope.

(** ** Timelines *)

Inductive item :=
| Did (now op : Z) (a : wact)
| Happens (now : Z) (container action : string) (done : bool).

Definition instant (x : item) : Z := match x with Did now _ _ | Happens now _ _ _ => now end.

(** The events that reach the manager: the workers fill the registry, the watcher
    asks it, and the event is dropped if the [select] of the pool takes [p.done]. *)
Fixpoint forwarded (tl : list item) (r : gmap string opEntry) : list extEvent :=
  match tl with
  | [] => []
  | Did now _ (Expect c kind) :: tl' => forwarded tl' (expect c kind now r)
  | Did _ _ _ :: tl' => forwarded tl' r
  | Happens now c action done :: tl' =>
      let '(fwd, r') := NotifyContainerEvent c action now done r in
      option_list fwd ++ forwarded tl' r'
  end.

(** ** Looking back

    The latest operation announced on a container, with its instant and the number of
    events it has explained since. An event is explained by that operation if it is of
    its kind, not later than the TTL, and among the first of the burst. *)
Definition explains (latest : option (Z * string * Z)) (now : Z) (action : string) : bool :=
  match latest with
  | Some (t0, kind, n) =>
      bool_decide (now - t0 ≤ opTTL) && op_matches kind action && bool_decide (n < budget kind)
  | None => false
  end.

Definition look_back (c : string) (latest : option (Z * string * Z)) (x : item) :
    option (Z * string * Z) :=
  match x with
  | Did now _ (Expect c' kind) => if decide (c' = c) then Some (now, kind, 0) else latest
  | Happens now c' action _ =>
      if decide (c' = c) then
        match latest with
        | Some (t0, kind, n) =>
            Some (t0, kind, if explains latest now action then n + 1 else n)
        | None => None
        end
      else latest
  | _ => latest
  end.

Definition latest_op (past : list item) (c : string) : option (Z * string * Z) :=
  foldl (look_back c) None past.

(** The events of [tl] that nothing in the past explains, and that find the pool open. *)
Fixpoint foreign (past tl : list item) : list extEvent :=
  match tl with
  | [] => []
  | x :: tl' =>
      match x with
      | Happens now c action done =>
          if explains (latest_op past c) now action || done then []
          else [{| ev_container := c; ev_action := action |}]
      | Did _ _ _ => []
      end ++ foreign (past ++ [x]) tl'
  end.

(** ** The registry agrees *)

Lemma budget_pos kind : 0 < budget kind.
Proof. unfold budget. by case_bool_decide. Qed.

(** What the registry holds of a container at [clk], for its latest operation. *)
Definition holds (clk : Z) (entry : option opEntry) (latest : option (Z * string * Z)) : Prop :=
  match latest with
  | None => entry = None
  | Some (t0, kind, n) =>
      (n < budget kind ∧
        entry = Some {| op_kind := kind; op_at := t0; op_remaining := budget kind - n |}) ∨
      (entry = None ∧ (budget kind ≤ n ∨ opTTL < clk - t0))
  end.

Lemma holds_later clk clk' entry latest : clk ≤ clk' → holds clk entry latest → holds clk' entry latest.
Proof. destruct latest as [[[t0 kind] n]|]; [|done]. intros ? [?|[? [?|?]]]; simpl; auto with lia. Qed.

Lemma isExpected_agrees c action now done clk r latest :
  clk ≤ now → holds clk (r !! c) latest →
  (isExpected c action now r).1 = explains latest now action ∧
  holds now ((isExpected c action now r).2 !! c) (look_back c latest (Happens now c action done)).
Proof.
  intros Hle Hh. unfold look_back. rewrite decide_True by done. unfold isExpected.
  destruct latest as [[[t0 kind] n]|]; simpl in Hh; [|by rewrite Hh].
  destruct Hh as [[Hn Hr]|[Hr Hno]].
  - rewrite Hr. simpl. case_bool_decide as Httl; rewrite time_Sub_ttl in Httl.
    { rewrite (bool_decide_eq_false_2 (now - t0 ≤ opTTL)) by lia. simpl.
      split; [done|]. rewrite lookup_delete_eq. right. auto with lia. }
    rewrite (bool_decide_eq_true_2 (now - t0 ≤ opTTL)), (bool_decide_eq_true_2 (n < budget kind)) by lia.
    destruct (op_matches kind action); simpl; [|by split; [|left]].
    split; [done|]. case_bool_decide.
    + rewrite lookup_delete_eq. right. split; [done|]. left. lia.
    + rewrite lookup_insert_eq. left. split; [lia|]. do 2 f_equal. lia.
  - rewrite Hr. simpl. rewrite Hr.
    assert (He : bool_decide (now - t0 ≤ opTTL) && op_matches kind action
                 && bool_decide (n < budget kind) = false).
    { destruct Hno; [rewrite (bool_decide_eq_false_2 (n < budget kind)) by lia; apply andb_false_r|].
      by rewrite (bool_decide_eq_false_2 (now - t0 ≤ opTTL)) by lia. }
    rewrite He. split; [done|]. right. split; [done|]. destruct Hno; [by left|right; lia].
Qed.

Lemma isExpected_other c c' action now r :
  c ≠ c' → (isExpected c action now r).2 !! c' = r !! c'.
Proof.
  intros Hne. unfold isExpected. destruct (r !! c); [|done].
  case_bool_decide; [by apply lookup_delete_ne|]. case_match; [|done]. simpl.
  case_bool_decide; [by apply lookup_delete_ne|by apply lookup_insert_ne].
Qed.

Lemma forwarded_foreign past tl clk r :
  Sorted Z.le (clk :: map instant tl) → (∀ c, holds clk (r !! c) (latest_op past c)) →
  forwarded tl r = foreign past tl.
Proof.
  revert past clk r. induction tl as [|x tl IH]; intros past clk r Hs Hr; [done|].
  simpl in Hs. inversion Hs as [|? ? Hs' Hle]; subst. inversion Hle as [|? ? Hclk]; subst.
  assert (Hsnoc : ∀ c, latest_op (past ++ [x]) c = look_back c (latest_op past c) x).
  { intros c. unfold latest_op. by rewrite foldl_snoc. }
  destruct x as [now op a|now c action d]; simpl in Hclk.
  - assert (Hsame : (∀ c kind, a ≠ Expect c kind) → forwarded tl r = foreign (past ++ [Did now op a]) tl).
    { intros Ha. apply (IH _ now); [done|]. intros c. rewrite Hsnoc.
      replace (look_back c (latest_op past c) (Did now op a)) with (latest_op past c)
        by (destruct a; naive_solver). by eapply holds_later. }
    destruct a as [c kind| | | | | | | | | |]; simpl; try by apply Hsame.
    apply (IH _ now); [done|]. intros c'. rewrite Hsnoc. simpl. unfold expect.
    case_decide as Hc; [subst c'|rewrite lookup_insert_ne by done; by eapply holds_later].
    rewrite lookup_insert_eq. left. split; [apply budget_pos|].
    unfold budget. do 2 f_equal. by case_bool_decide.
  - simpl. unfold NotifyContainerEvent.
    destruct (isExpected_agrees c action now d clk r _ Hclk (Hr c)) as [Hb Hh].
    assert (Hnext : ∀ c', holds now ((isExpected c action now r).2 !! c')
                                (latest_op (past ++ [Happens now c action d]) c')).
    { intros c'. rewrite Hsnoc. destruct (decide (c = c')) as [<-|Hne]; [exact Hh|].
      rewrite isExpected_other by done. simpl. rewrite decide_False by done. by eapply holds_later. }
    destruct (isExpected c action now r) as [b r']. simpl in *. subst b.
    specialize (IH _ now r' Hs' Hnext). by destruct (explains _ _ _), d; simpl; rewrite IH.
Qed.

(** C34: the registry keeps out exactly the events of the pool's own operations. Over
    any interleaving of what the workers announce and of docker events, on any number
    of containers, an event reaches the manager exactly when the latest operation
    announced on its container does not explain it (it is not of that kind, comes
    after the TTL, or the burst of that operation is used up) and the pool has not
    been closed before the event is handed over. So a pool all of whose
    events are explained is never disturbed by what it does itself. *)
Theorem registry_is_exact tl :
  Sorted Z.le (map instant tl) →
  forwarded tl newOpRegistry = foreign [] tl ∧
  ((∀ past now c action d rest, tl = past ++ Happens now c action d :: rest →
      explains (latest_op past c) now action = true) →
   forwarded tl newOpRegistry = []).
Proof.
  intros Hs.
  assert (Heq : forwarded tl newOpRegistry = foreign [] tl).
  { destruct tl as [|x tl]; [done|].
    apply (forwarded_foreign [] (x :: tl) (instant x)); [|done].
    constructor; [done|]. by constructor. }
  split; [done|]. rewrite Heq. clear Hs Heq.
  cut (∀ past, (∀ p now c action d rest, tl = p ++ Happens now c action d :: rest →
      explains (latest_op (past ++ p) c) now action = true) → foreign past tl = []).
  { intros Hcut H. by apply Hcut. }
  induction tl as [|x tl IH]; intros past H; [done|]. simpl.
  rewrite (IH (past ++ [x])).
  - destruct x as [|now c action d]; [done|].
    specialize (H [] now c action d tl eq_refl). rewrite app_nil_r in H. by rewrite H.
  - intros p now c action d rest ->. rewrite <- (assoc_L (++)). by eapply H.
Qed.

(** A swap stops [llama] and starts [comfy], among the events of docker. *)
Definition swap_timeline : list item :=
  [Did 0 2 (CallInspect "llama-container"); Did 1 2 (Expect "llama-container" "stop");
   Did 2 2 (CallStop "llama-container"); Happens 3 "llama-container" "kill" false;
   Happens 4 "comfy-container" "start" false; Happens 5 "llama-container" "die" false;
   Happens 6 "llama-container" "stop" false; Did 7 2 (Expect "comfy-container" "start");
   Did 8 2 (CallStart "comfy-container"); Happens 9 "comfy-container" "start" false;
   Happens 10 "llama-container" "die" false].

Lemma registry_is_exact_witness :
  forwarded swap_timeline newOpRegistry =
  [{| ev_container := "comfy-container"; ev_action := "start" |};
   {| ev_container := "llama-container"; ev_action := "die" |}].
Proof.
  refine (eq_trans (proj1 (registry_is_exact swap_timeline _)) _); [|vm_compute; reflexivity].
  apply Sorted_LocallySorted_iff. simpl. repeat constructor; lia.
Defined.

(** ** A teardown taken for an external death

    The health checks of [llama] time out; its container is torn down in the
    background. A client asks for [llama] again, so its start is announced. When the
    teardown takes effect, its events no longer have an entry. *)
Definition retry1 : System :=
  demo_report demo1 {| msg_op := 1; msg_target := "llama"; msg_kind := swapHealthTimeout;
                       msg_err := None |} (200 * sec).
Definition retry2 : System := demo_admit retry1 "llama" 2 (201 * sec).
Definition retry_ev : extEvent := {| ev_container := "llama-container"; ev_action := "die" |}.
Definition retry3 : System :=
  run_step retry2 (InDocker retry_ev) (205 * sec) (205 * sec) (environment retry2).

(** What the worker of the teardown and the worker of the new swap do meanwhile. *)
Definition retry_timeline : list item :=
  [Did (200 * sec) 1 (Expect "llama-container" "stop"); Did (200 * sec) 1 (CallStop "llama-container");
   Did (202 * sec) 2 (Expect "llama-container" "start"); Did (202 * sec) 2 (CallStart "llama-container");
   Did (203 * sec) 2 (Started "llama-container" None); Happens (205 * sec) "llama-container" "die" false].

(** The events of a teardown abort the swap that follows it. A worker registers each
    operation before it calls docker, but the entry of a container is replaced by the
    next operation on it: the death caused by the teardown of an earlier start reaches
    the manager as an external one, the new swap is abandoned, its worker is
    cancelled, and its client gets a docker error. *)
Theorem own_teardown_aborts_retry :
  reach demo_cfg 4 retry3 ∧
  (∃ e, (GoTeardown "llama-container") ∈ (handle (InSwap {| msg_op := 1; msg_target := "llama";
     msg_kind := swapHealthTimeout; msg_err := None |}) (200 * sec) (200 * sec) (pool demo1)).2 ∧
     phase_of (pool retry2) = Changing "llama" ∧
     forwarded retry_timeline newOpRegistry = [retry_ev] ∧
     phase_of (pool retry3) = Broken ∧ 2 ∈ ctx_done (environment retry3) ∧
     (2%nat, reply_err AdmitDockerError (Some e)) ∈ replied (environment retry3)).
Proof.
  split.
  - apply (reach_S _ _ retry2); [apply (reach_S _ _ retry1); [apply (reach_S _ _ demo1);
      [apply demo_reach1|]|]|].
    + demo_step. apply (demo_take_report _ _ (WSwap 1 "llama")); [by vm_compute|by repeat split].
    + demo_step. by apply demo_take_admit.
    + demo_step. apply take_docker.
  - exists (ErrDiedDuringStartup "llama-container").
    split; [vm_compute; repeat (left || right)|]. split; [by vm_compute|]. split; [by vm_compute|].
    split; [by vm_compute|]. split; vm_compute; repeat (left || right).
Qed.
