(* ===== verification/ConfigTheorems.v ===== *)
(** * Theorems on the configuration

    [validate] decides a declarative notion of validity; a valid configuration
    gives pools the manager is verified for; and two configurations that pass
    validation although they should not. *)

From S2P Require Import Prelude GoStrings State Queue Pool PoolFacts System Reachable.
From S2P Require Import Demo Config Lifecycle Scenarios.
Open Scope Z_scope.

(** ** Validity *)

Section valid.
Context (url_Parse : string → option URL).

Definition ValidTarget (url : string) : Prop :=
  url ≠ "" ∧ ∃ u, url_Parse url = Some u ∧ (url_Scheme u = "http" ∨ url_Scheme u = "https") ∧
                  url_Host u ≠ "".

Record ValidServer (s : Server) : Prop := {
  vs_port : 1 ≤ Port s ≤ 65535;
  vs_queue : 1 ≤ srv_MaxQueueSize s;
  vs_bytes : 0 ≤ MaxRequestBytes s;
  vs_admin : AdminToken (srv_Auth s) = "" ∨ blank (AdminToken (srv_Auth s)) = false;
  vs_proxy : ProxyToken (srv_Auth s) = "" ∨ blank (ProxyToken (srv_Auth s)) = false
}.

Record ValidService (c : Config) (s : Service) : Prop := {
  vsv_container : svc_ContainerName s ≠ "";
  vsv_target : ValidTarget (TargetURL s);
  vsv_health : HasPrefix (HealthPath s) "/" = true;
  vsv_startup : 1 ≤ StartupTimeoutSeconds s;
  vsv_queue : 0 ≤ svc_MaxQueueSize s;
  vsv_pool : ∀ p, svc_VRAMPool s = Some p → is_Some (VRAMPools c !! p)
}.

Record ValidPool (c : Config) (name : string) (p : VRAMPool) : Prop := {
  vp_grace : 0 ≤ GracePeriodSeconds p;
  vp_cooldown : 0 ≤ CooldownSeconds p;
  vp_default : ∀ def, DefaultService p = Some def →
    ∃ s, Services c !! def = Some s ∧ svc_VRAMPool s = Some name
}.

Record ValidRoute (c : Config) (r : Route) : Prop := {
  vr_prefix : HasPrefix (PathPrefix r) "/" = true;
  vr_nonempty : rt_Service r ≠ "";
  vr_service : is_Some (Services c !! rt_Service r);
  vr_models : ∀ m s, Models r !! m = Some s → m ≠ "" ∧ is_Some (Services c !! s)
}.

Record ValidConfig (c : Config) : Prop := {
  v_server : ValidServer (cfg_Server c);
  v_services : Services c ≠ ∅;
  v_service : ∀ n s, Services c !! n = Some s → ValidService c s;
  v_containers : ∀ n n' s s', Services c !! n = Some s → Services c !! n' = Some s' →
    svc_ContainerName s = svc_ContainerName s' → n = n';
  v_pool : ∀ n p, VRAMPools c !! n = Some p → ValidPool c n p;
  v_routes : Routes c ≠ [];
  v_route : ∀ r, r ∈ Routes c → ValidRoute c r
}.

(** ** [validate] decides it *)

Lemma when_nil {A} b (x : A) : when b x = [] ↔ b = false.
Proof. by destruct b. Qed.

Lemma app_nil_iff {A} (l l' : list A) : l ++ l' = [] ↔ l = [] ∧ l' = [].
Proof. destruct l, l'; naive_solver. Qed.

Lemma concat_nil {A} (ls : list (list A)) : concat ls = [] ↔ ∀ l, l ∈ ls → l = [].
Proof.
  induction ls as [|l ls IH]; simpl; [set_solver|]. rewrite app_nil_iff, IH. set_solver.
Qed.

Lemma validate_server_ok s : (validate_server s).2 = [] ↔ ValidServer s.
Proof.
  unfold validate_server. simpl. rewrite !app_nil_iff, !when_nil.
  rewrite !orb_false_iff, !andb_false_iff, !negb_false_iff, !bool_decide_eq_false,
    !bool_decide_eq_true.
  split; [intros ([??]&?&?&?&?); split; [lia|lia|lia|done|done]|].
  intros [[??] ? ? ? ?]. split_and!; [lia|lia|lia|lia|done|done].
Qed.

Lemma validate_target_ok name url : (validate_target url_Parse name url).2 = [] ↔ ValidTarget url.
Proof.
  unfold validate_target, ValidTarget. case_bool_decide; [naive_solver|].
  destruct (url_Parse url) as [u|]; [|naive_solver].
  destruct (negb _ && negb _) eqn:Hs.
  - apply andb_true_iff in Hs as [H1%negb_true_iff H2%negb_true_iff].
    apply bool_decide_eq_false in H1, H2. naive_solver.
  - apply andb_false_iff in Hs. rewrite !negb_false_iff, !bool_decide_eq_true in Hs.
    case_bool_decide; [naive_solver|]. case_match; naive_solver.
Qed.

Lemma validate_rest_ok c name s :
  validate_rest c name s = [] ↔
  HasPrefix (HealthPath s) "/" = true ∧ 1 ≤ StartupTimeoutSeconds s ∧ 0 ≤ svc_MaxQueueSize s ∧
  (∀ p, svc_VRAMPool s = Some p → is_Some (VRAMPools c !! p)).
Proof.
  unfold validate_rest. rewrite !app_nil_iff, !when_nil, negb_false_iff, !bool_decide_eq_false.
  assert (Hp : match svc_VRAMPool s with
    | Some p => when (bool_decide (VRAMPools c !! p = None)) (EUndefinedPool name p)
    | None => [] end = [] ↔ (∀ p, svc_VRAMPool s = Some p → is_Some (VRAMPools c !! p))).
  { destruct (svc_VRAMPool s) as [p|]; [|naive_solver].
    rewrite when_nil, bool_decide_eq_false, not_eq_None_Some. naive_solver. }
  rewrite Hp. split; intros (?&?&?&?); split_and!; try done; lia.
Qed.

Lemma validate_pool_ok c name p : validate_pool c name p = [] ↔ ValidPool c name p.
Proof.
  unfold validate_pool. rewrite !app_nil_iff, !when_nil, !bool_decide_eq_false.
  assert (Hd : match DefaultService p with
    | None => []
    | Some def => match Services c !! def with
        | None => [EDefaultUndeclared name def]
        | Some svc => when (negb (bool_decide (svc_VRAMPool svc = Some name)))
                        (EDefaultNotMember name def)
        end end = [] ↔
    ∀ def, DefaultService p = Some def →
      ∃ s, Services c !! def = Some s ∧ svc_VRAMPool s = Some name).
  { destruct (DefaultService p) as [def|]; [|naive_solver].
    destruct (Services c !! def) as [s|] eqn:Hs; [|naive_solver].
    rewrite when_nil, negb_false_iff, bool_decide_eq_true. naive_solver. }
  rewrite Hd. split; [intros (?&?&?); split; [lia|lia|done]|].
  intros [? ? ?]. split_and!; [lia|lia|done].
Qed.

Lemma validate_route_ok c i r : validate_route c i r = [] ↔ ValidRoute c r.
Proof.
  unfold validate_route. rewrite !app_nil_iff, when_nil, negb_false_iff, concat_nil.
  assert (Hs : (if bool_decide (rt_Service r = "") then [ERouteServiceRequired i (PathPrefix r)]
     else when (bool_decide (Services c !! rt_Service r = None))
            (ERouteServiceUndeclared i (PathPrefix r) (rt_Service r))) = [] ↔
     rt_Service r ≠ "" ∧ is_Some (Services c !! rt_Service r)).
  { case_bool_decide; [naive_solver|].
    rewrite when_nil, bool_decide_eq_false, not_eq_None_Some. naive_solver. }
  assert (Hm : (∀ l, l ∈ map (validate_model c i (PathPrefix r)) (map_to_list (Models r)) → l = [])
    ↔ ∀ m s, Models r !! m = Some s → m ≠ "" ∧ is_Some (Services c !! s)).
  { assert (Hone : ∀ x, validate_model c i (PathPrefix r) x = [] ↔
                        x.1 ≠ "" ∧ is_Some (Services c !! x.2)).
    { intros x. unfold validate_model.
      by rewrite app_nil_iff, !when_nil, !bool_decide_eq_false, not_eq_None_Some. }
    split.
    - intros H m s Hms. apply (Hone (m, s)), H. apply list_elem_of_fmap.
      exists (m, s). by rewrite elem_of_map_to_list.
    - intros H l (x & -> & Hx)%list_elem_of_fmap. apply Hone.
      destruct x as [m s]. apply elem_of_map_to_list in Hx. by apply H. }
  rewrite Hs, Hm. split; [intros (?&[??]&?); by split|]. intros []. by split_and!.
Qed.

Lemma validate_services_ok c owners l :
  (validate_services url_Parse c owners l).2 = [] ↔
  (∀ n s, (n, s) ∈ l → ValidService c s ∧ owners !! svc_ContainerName s = None) ∧
  NoDup (map (λ x, svc_ContainerName x.2) l).
Proof.
  revert owners. induction l as [|[n s] l IH]; intros owners; simpl.
  { split; [intros _; split; [set_solver|constructor]|done]. }
  pose proof (validate_target_ok n (TargetURL s)) as Ht.
  destruct (validate_target url_Parse n (TargetURL s)) as [w2 e2]. simpl in Ht.
  destruct (validate_container owners n s) as [owners' e1] eqn:Hc.
  specialize (IH owners'). destruct (validate_services url_Parse c owners' l) as [w3 e3].
  simpl in *. rewrite !app_nil_iff, Ht, validate_rest_ok, IH. clear IH Ht.
  unfold validate_container in Hc. rewrite NoDup_cons. case_bool_decide as Hempty.
  { simplify_eq. split; [naive_solver|]. intros [H _].
    destruct (H n s) as [[] _]; [by left|done]. }
  destruct (owners !! svc_ContainerName s) as [prev|] eqn:Ho; simplify_eq.
  { split; [naive_solver|]. intros [H _]. destruct (H n s) as [_ ?]; [by left|congruence]. }
  assert (Hin : svc_ContainerName s ∈ map (λ x, svc_ContainerName x.2) l ↔
                ∃ n' s', (n', s') ∈ l ∧ svc_ContainerName s' = svc_ContainerName s).
  { rewrite list_elem_of_fmap. split; [intros ([n' s'] & ? & ?); eauto|].
    intros (n' & s' & ? & ?). by exists (n', s'). }
  rewrite Hin. split.
  - intros (_ & Htarget & (?&?&?&?) & Hl & Hnd). split_and!; [|intros (n'&s'&Hn'&Heq)|done].
    + intros n' s' [[= -> ->]|Hn']%elem_of_cons; [by split; [split|]|].
      destruct (Hl n' s' Hn') as [? [??]%lookup_insert_None]. done.
    + destruct (Hl n' s' Hn') as [_ [_ Hne]%lookup_insert_None]. congruence.
  - intros (Hl & Hnew & Hnd). destruct (Hl n s) as [[] _]; [by left|].
    split_and!; try done. intros n' s' Hn'. destruct (Hl n' s') as [? ?]; [by right|].
    split; [done|]. apply lookup_insert_None. split; [done|]. intros Heq. apply Hnew. eauto.
Qed.

Lemma validate_ok c : (validate url_Parse c).2 = [] ↔ ValidConfig c.
Proof.
  unfold validate. pose proof (validate_server_ok (cfg_Server c)) as Hs.
  pose proof (validate_services_ok c ∅ (map_to_list (Services c))) as Hv.
  destruct (validate_server (cfg_Server c)) as [w1 e1].
  destruct (validate_services url_Parse c ∅ (map_to_list (Services c))) as [w2 e2].
  simpl in *. rewrite !app_nil_iff, Hs, Hv, !when_nil, !bool_decide_eq_false, !concat_nil.
  clear Hs Hv.
  assert (Hp : (∀ l, l ∈ map (λ x, validate_pool c x.1 x.2) (map_to_list (VRAMPools c)) → l = [])
    ↔ ∀ n p, VRAMPools c !! n = Some p → ValidPool c n p).
  { split.
    - intros H n p Hn. apply validate_pool_ok, H, list_elem_of_fmap.
      exists (n, p). by rewrite elem_of_map_to_list.
    - intros H l ([n p] & -> & Hn%elem_of_map_to_list)%list_elem_of_fmap.
      by apply validate_pool_ok, H. }
  assert (Hr : (∀ l, l ∈ imap (validate_route c) (Routes c) → l = [])
    ↔ ∀ r, r ∈ Routes c → ValidRoute c r).
  { split.
    - intros H r (i & Hi)%list_elem_of_lookup. apply (validate_route_ok c i), H.
      apply list_elem_of_lookup. exists i. by rewrite list_lookup_imap, Hi.
    - intros H l (i & Hi)%list_elem_of_lookup. rewrite list_lookup_imap in Hi.
      apply fmap_Some in Hi as (r & Hr & ->). apply validate_route_ok, H.
      by eapply list_elem_of_lookup_2. }
  assert (Hc : NoDup (map (λ x, svc_ContainerName x.2) (map_to_list (Services c))) ↔
    ∀ n n' s s', Services c !! n = Some s → Services c !! n' = Some s' →
      svc_ContainerName s = svc_ContainerName s' → n = n').
  { split.
    - intros Hnd n n' s s' Hn Hn' Heq.
      assert (H : (n, s) = (n', s')) by (eapply (NoDup_map_inj (λ x, svc_ContainerName x.2));
        [exact Hnd|by apply elem_of_map_to_list..|exact Heq]).
      congruence.
    - intros H. apply NoDup_fmap_2_strong; [|apply NoDup_map_to_list].
      intros [n s] [n' s'] Hn%elem_of_map_to_list Hn'%elem_of_map_to_list Heq. simpl in Heq.
      assert (n = n') as <- by by eapply H. congruence. }
  rewrite Hp, Hr, Hc. split.
  - intros (?&?&[Hl ?]&?&?&?). split; try done.
    intros n s Hn. apply (Hl n s). by apply elem_of_map_to_list.
  - intros []. split_and!; try done. intros n s Hn%elem_of_map_to_list. split; [eauto|done].
Qed.

(** C37: [validate] accepts a configuration exactly when it is valid: the server
    settings in range and the tokens not blank, at least one service and one
    route, every service with a container of its own, an http(s) target with a
    host, a health path, a positive budget and an existing pool, every pool with
    non-negative periods and a default service that belongs to it, every route to a
    declared service. Every rule is checked on every entry, whatever the order in
    which the maps are visited. *)
Theorem validate_correct c : (validate url_Parse c).2 = [] ↔ ValidConfig c.
Proof. exact (validate_ok c). Qed.

End valid.

(** ** Loading *)

Lemma or_default_str_idem s d : or_default_str (or_default_str s d) d = or_default_str s d.
Proof. unfold or_default_str. by repeat case_bool_decide. Qed.
Lemma or_default_int_idem s d : or_default_int (or_default_int s d) d = or_default_int s d.
Proof. unfold or_default_int. by repeat case_bool_decide. Qed.

(** What the documentation promises of a field with a default: a field that was not
    set ([unset] is its zero value) gets the default, a field that was set keeps its
    value. *)
Definition filled {A} (unset def v v' : A) : Prop := (v = unset → v' = def) ∧ (v ≠ unset → v' = v).

Record ServerFilled (s s' : Server) : Prop := {
  sf_host : filled "" "0.0.0.0" (Host s) (Host s');
  sf_port : filled 0 8080 (Port s) (Port s');
  sf_socket : filled "" "/var/run/docker.sock" (DockerSocketPath s) (DockerSocketPath s');
  sf_queue : filled 0 100 (srv_MaxQueueSize s) (srv_MaxQueueSize s');
  sf_cors : CORSAllowedOrigins s' = CORSAllowedOrigins s;
  sf_cap : MaxRequestBytes s' = MaxRequestBytes s;
  sf_auth : srv_Auth s' = srv_Auth s
}.

Record ServiceFilled (s s' : Service) : Prop := {
  vf_health : filled "" "/" (HealthPath s) (HealthPath s');
  vf_startup : filled 0 180 (StartupTimeoutSeconds s) (StartupTimeoutSeconds s');
  vf_container : svc_ContainerName s' = svc_ContainerName s;
  vf_target : TargetURL s' = TargetURL s;
  vf_queue : svc_MaxQueueSize s' = svc_MaxQueueSize s;
  vf_pool : svc_VRAMPool s' = svc_VRAMPool s
}.

Record Filled (c c' : Config) : Prop := {
  f_server : ServerFilled (cfg_Server c) (cfg_Server c');
  f_pools : VRAMPools c' = VRAMPools c;
  f_routes : Routes c' = Routes c;
  f_services : ∀ n, option_Forall2 ServiceFilled (Services c !! n) (Services c' !! n)
}.

Lemma filled_str s d s' : filled "" d s s' ↔ s' = or_default_str s d.
Proof. unfold filled, or_default_str. case_bool_decide; naive_solver. Qed.
Lemma filled_int n d n' : filled 0 d n n' ↔ n' = or_default_int n d.
Proof. unfold filled, or_default_int. case_bool_decide; naive_solver. Qed.

Lemma server_filled s s' : ServerFilled s s' ↔ s' = default_server s.
Proof.
  split.
  - intros [H1%filled_str H2%filled_int H3%filled_str H4%filled_int ???].
    destruct s'. unfold default_server. simpl in *. by subst.
  - intros ->. by split; [apply filled_str|apply filled_int|apply filled_str|apply filled_int|..].
Qed.

Lemma service_filled s s' : ServiceFilled s s' ↔ s' = default_service s.
Proof.
  split.
  - intros [H1%filled_str H2%filled_int ????]. destruct s'. unfold default_service. simpl in *. by subst.
  - intros ->. by split; [apply filled_str|apply filled_int|..].
Qed.

Lemma config_filled c c' : Filled c c' ↔ c' = applyDefaults c.
Proof.
  split.
  - intros [Hs%server_filled Hp Hr Hv]. destruct c' as [srv pools svcs routes].
    unfold applyDefaults. simpl in *. subst. f_equal. apply map_eq. intros n. rewrite lookup_fmap.
    specialize (Hv n). destruct Hv as [s s' ->%service_filled|]; done.
  - intros ->. split; [by apply server_filled|done..|]. intros n. simpl. rewrite lookup_fmap.
    destruct (Services c !! n); constructor. by apply service_filled.
Qed.

Lemma applyDefaults_idem c : applyDefaults (applyDefaults c) = applyDefaults c.
Proof.
  unfold applyDefaults. simpl. f_equal.
  - unfold default_server. simpl. by rewrite !or_default_str_idem, !or_default_int_idem.
  - rewrite <- map_fmap_compose. apply map_fmap_ext. intros n s _. simpl.
    unfold default_service. simpl. by rewrite or_default_str_idem, or_default_int_idem.
Qed.

(** C40: loading returns exactly the configurations that are the decoded one with
    its defaults filled in, and are valid. The defaults are stated field by field,
    with the documented values: host, port, socket, queue size, health path and
    startup timeout are kept if they were set and get the default if not, each of
    them whatever the others are, and nothing else changes. When nothing is
    returned, there are errors, and they are those of validating that filled
    configuration. A configuration that loading has returned is its own result. *)
Theorem Parse_correct url_Parse decoded :
  (∀ c, (Parse url_Parse decoded).1.1 = Some c ↔ Filled decoded c ∧ ValidConfig url_Parse c) ∧
  (∀ c, Filled decoded c → (Parse url_Parse decoded).2 = (validate url_Parse c).2) ∧
  ((Parse url_Parse decoded).1.1 = None ↔ (Parse url_Parse decoded).2 ≠ []) ∧
  (∀ c, (Parse url_Parse decoded).1.1 = Some c → (Parse url_Parse c).1.1 = Some c).
Proof.
  assert (Hparse : ∀ d c, (Parse url_Parse d).1.1 = Some c ↔ c = applyDefaults d ∧ ValidConfig url_Parse c).
  { intros d c. unfold Parse. pose proof (validate_ok url_Parse (applyDefaults d)) as H.
    destruct (validate url_Parse (applyDefaults d)) as [warns [|e errs]]; simpl in *; split.
    - intros [= <-]. split; [done|]. by apply H.
    - by intros [-> _].
    - done.
    - intros [-> Hv]. by apply H in Hv. }
  assert (Herr : (Parse url_Parse decoded).2 = (validate url_Parse (applyDefaults decoded)).2).
  { unfold Parse. by destruct (validate _ _). }
  split_and!.
  - intros c. by rewrite config_filled.
  - by intros c ->%config_filled.
  - rewrite Herr. unfold Parse. by destruct (validate _ _) as [warns [|e errs]].
  - intros c [-> Hv]%Hparse. apply Hparse. by rewrite applyDefaults_idem.
Qed.

(** ** The pools of a valid configuration *)

(** The longest period a [time.Duration] can hold, in seconds (292 years). *)
Definition max_seconds : Z := 9223372036.

Lemma seconds_exact n : 0 ≤ n ≤ max_seconds → seconds n = n * time_Second.
Proof.
  unfold seconds, max_seconds, time_Second. intros. apply int64_wrap_id.
  unfold int64_min, int64_max. lia.
Qed.

Lemma poolMembers_elem c name mc :
  mc ∈ poolMembers c name ↔
  ∃ n s, Services c !! n = Some s ∧ svc_VRAMPool s = Some name ∧ mc = member_config c n s.
Proof.
  unfold poolMembers. rewrite merge_sort_Permutation, list_elem_of_omap. split.
  - intros ([n s] & Hn%elem_of_map_to_list & Hmc). simpl in Hmc. case_bool_decide; simplify_eq.
    eauto.
  - intros (n & s & Hn & Hp & ->). exists (n, s). split; [by apply elem_of_map_to_list|].
    simpl. by rewrite bool_decide_eq_true_2.
Qed.

#[global] Instance member_le_total : Total member_le.
Proof. intros a b. apply String.le_total. Qed.

Lemma valid_pool_config_ok url_Parse c name p :
  ValidConfig url_Parse c → VRAMPools c !! name = Some p → Services c !! "" = None →
  config_ok (pool_config c name p).
Proof.
  intros Hv Hp Hno. pose proof (v_pool _ _ Hv _ _ Hp) as Hvp. split_and!.
  - intros mc (n & s & Hn & _ & ->)%poolMembers_elem. simpl. congruence.
  - simpl. destruct (DefaultService p) as [def|] eqn:Hd; [right|by left]. simpl.
    destruct (vp_default _ _ _ Hvp def Hd) as (s & Hs & Hpool).
    apply list_elem_of_fmap. exists (member_config c def s). split; [done|].
    apply poolMembers_elem. eauto.
  - apply int64_wrap_range.
  - apply int64_wrap_range.
Qed.

(** A container belongs to one member of one pool. *)
Lemma valid_containers_inj url_Parse c name name' mc mc' :
  ValidConfig url_Parse c → mc ∈ poolMembers c name → mc' ∈ poolMembers c name' →
  mc_ContainerName mc = mc_ContainerName mc' → mc = mc' ∧ name = name'.
Proof.
  intros Hv (n & s & Hn & Hp & ->)%poolMembers_elem (n' & s' & Hn' & Hp' & ->)%poolMembers_elem.
  simpl. intros Hc. pose proof (v_containers _ _ Hv n n' s s' Hn Hn' Hc) as <-.
  rewrite Hn in Hn'. injection Hn' as <-. rewrite Hp in Hp'. injection Hp' as <-. done.
Qed.

Lemma poolMembers_nodup c name : NoDup (poolMembers c name).
Proof.
  unfold poolMembers. rewrite merge_sort_Permutation.
  pose proof (NoDup_fst_map_to_list (Services c)) as Hnd.
  induction (map_to_list (Services c)) as [|[n s] l IH]; simpl; [constructor|].
  apply NoDup_cons in Hnd as [Hn Hnd]. case_bool_decide; [|by apply IH].
  apply NoDup_cons. split; [|by apply IH].
  rewrite list_elem_of_omap. intros ([n' s'] & Hin & Heq). simpl in Heq. case_bool_decide; [|done].
  injection Heq as Heq _ _ _ _. destruct Hn. apply list_elem_of_fmap. by exists (n', s').
Qed.

Lemma valid_containers_nodup url_Parse c name :
  ValidConfig url_Parse c → NoDup (map mc_ContainerName (poolMembers c name)).
Proof.
  intros Hv. apply NoDup_fmap_2_strong; [|apply poolMembers_nodup].
  intros mc mc' H1 H2 Heq. by destruct (valid_containers_inj _ _ _ _ _ _ Hv H1 H2 Heq).
Qed.

(** C39: a valid configuration gives pools the manager is verified for, if it names
    its services. If no
    service has the empty name, the configuration built for a pool satisfies the
    hypothesis of the theorems on the manager; its members are exactly the services
    assigned to the pool, in the order of their names, each with a queue of at least
    one place; no container is in two places, of one pool or of two; and periods of
    up to 292 years are the ones asked for. *)
Theorem valid_pools_are_safe url_Parse c name p :
  ValidConfig url_Parse c → VRAMPools c !! name = Some p → Services c !! "" = None →
  config_ok (pool_config c name p) ∧
  Sorted member_le (poolMembers c name) ∧
  (∀ mc, mc ∈ poolMembers c name ↔
     ∃ n s, Services c !! n = Some s ∧ svc_VRAMPool s = Some name ∧ mc = member_config c n s) ∧
  (∀ mc, mc ∈ poolMembers c name → 1 ≤ mc_MaxQueue mc) ∧
  NoDup (map mc_ContainerName (poolMembers c name)) ∧
  (∀ name' mc mc', mc ∈ poolMembers c name → mc' ∈ poolMembers c name' →
     mc_ContainerName mc = mc_ContainerName mc' → mc = mc' ∧ name = name') ∧
  (GracePeriodSeconds p ≤ max_seconds →
     pc_GracePeriod (pool_config c name p) = GracePeriodSeconds p * time_Second) ∧
  (CooldownSeconds p ≤ max_seconds →
     pc_Cooldown (pool_config c name p) = CooldownSeconds p * time_Second).
Proof.
  intros Hv Hp Hno. pose proof (v_pool _ _ Hv _ _ Hp) as Hvp. split_and!.
  - by eapply valid_pool_config_ok.
  - apply Sorted_merge_sort. apply _.
  - intros mc. apply poolMembers_elem.
  - intros mc (n & s & Hn & _ & ->)%poolMembers_elem. simpl. unfold QueueSize.
    case_bool_decide; [lia|]. apply Hv.
  - by eapply valid_containers_nodup.
  - intros name' mc mc'. by eapply valid_containers_inj.
  - intros Hg. apply seconds_exact. split; [apply Hvp|done].
  - intros Hg. apply seconds_exact. split; [apply Hvp|done].
Qed.

(** ** Two configurations that should not pass *)

Definition demo_url (url : string) : option URL :=
  Some {| url_Scheme := "http"; url_Host := "host:8080"; url_Hostname := "host" |}.

Definition demo_service (container : string) : Service :=
  {| svc_ContainerName := container; TargetURL := "http://host:8080"; HealthPath := "/health";
     StartupTimeoutSeconds := 180; svc_MaxQueueSize := 0; svc_VRAMPool := Some "gpu" |}.

Definition demo_server : Server :=
  {| Host := DefaultHost; Port := DefaultPort; DockerSocketPath := DefaultDockerSocketPath;
     CORSAllowedOrigins := []; srv_MaxQueueSize := 100; MaxRequestBytes := 0;
     srv_Auth := {| AdminToken := ""; ProxyToken := "" |} |}.

(** [unnamed] is the name of the second service, [grace] a period in seconds. *)
Definition demo_config (unnamed : string) (grace : Z) : Config :=
  {| cfg_Server := demo_server;
     VRAMPools := {[ "gpu" := {| GracePeriodSeconds := grace; CooldownSeconds := 0;
                                 DefaultService := None |} ]};
     Services := {[ "llama" := demo_service "llama-container"; unnamed := demo_service "other" ]};
     Routes := [{| PathPrefix := "/"; rt_Service := "llama"; Headers := ∅;
                   Models := {[ "sdxl" := unnamed ]} |}] |}.

Definition demo_pool (grace : Z) : VRAMPool :=
  {| GracePeriodSeconds := grace; CooldownSeconds := 0; DefaultService := None |}.

Lemma Parse_correct_witness :
  (Parse demo_url (demo_config "comfy" 60)).1.1 = Some (applyDefaults (demo_config "comfy" 60)).
Proof.
  apply (proj1 (Parse_correct demo_url (demo_config "comfy" 60))).
  split; [by apply config_filled|]. apply validate_ok. vm_compute. reflexivity.
Defined.

Lemma valid_pools_are_safe_witness :
  config_ok (pool_config (demo_config "comfy" 60) "gpu" (demo_pool 60)) ∧
  pc_GracePeriod (pool_config (demo_config "comfy" 60) "gpu" (demo_pool 60)) = 60 * time_Second.
Proof.
  assert (Hv : ValidConfig demo_url (demo_config "comfy" 60))
    by (apply validate_ok; vm_compute; reflexivity).
  destruct (valid_pools_are_safe demo_url (demo_config "comfy" 60) "gpu" (demo_pool 60) Hv)
    as (H1 & _ & _ & _ & _ & _ & H2 & _); [reflexivity|vm_compute; reflexivity|].
  split; [exact H1|]. apply H2. vm_compute. discriminate.
Defined.

(** A pool with a service of the empty name, serving [llama], is asked for the
    other one. *)
Definition strand_cfg : PoolConfig := pool_config (demo_config "" 60) "gpu" (demo_pool 60).
Definition strand0 : System := init strand_cfg 0.
Definition strand1 : System := demo_admit strand0 "llama" 1 (1 * sec).
Definition strand2 : System := demo_report strand1 (complete 1 "llama") (20 * sec).
Definition strand3 : System := demo_admit strand2 "" 2 (30 * sec).
Definition strand4 : System :=
  demo_tick strand3 {| tick_kind := tickGrace; tick_epoch := 2 |} (80 * sec).

Lemma strand4_reach : reach strand_cfg 4 strand4.
Proof.
  apply (reach_S _ _ strand3); [apply (reach_S _ _ strand2); [apply (reach_S _ _ strand1);
    [apply (reach_S _ _ strand0)|]|]|].
  - exists 0. split; [vm_compute; discriminate|constructor].
  - demo_step. by apply demo_take_admit.
  - demo_step. apply (demo_take_report _ _ (WSwap 1 "llama")); [by vm_compute|by repeat split].
  - demo_step. by apply demo_take_admit.
  - demo_step. by apply (demo_take_tick _ _ _ (80 * sec)); vm_compute.
Qed.

(** The empty service name is accepted by validation and strands its clients.
    A valid configuration may declare a service whose name is empty and route a
    model to it; as [oldestQueued] uses the empty name for "nobody", a client queued
    for it while another service is active is never served: a state is reached in
    which it is queued, and no worker and no timer is left that would wake the
    manager. *)
Theorem unnamed_service_strands_clients :
  (validate demo_url (demo_config "" 60)).2 = [] ∧
  ∃ n s, reach strand_cfg n s ∧ phase_of (pool s) = Serving "llama" ∧
    waiting (members (pool s)) "" (Waiter 2 2) ∧
    timers (environment s) = [] ∧ workers (environment s) = [].
Proof.
  split; [by vm_compute|]. exists 4%nat, strand4.
  split_and!; [apply strand4_reach|by vm_compute| |by vm_compute..].
  eexists. split; [vm_compute; reflexivity|by left].
Qed.

(** A period in seconds is multiplied without a bound. A configuration with a
    grace period of 9223372037 seconds is valid, and gives the pool a negative
    grace period, so that the active service is not protected at all. *)
Theorem long_grace_period_overflows :
  (validate demo_url (demo_config "comfy" 9223372037)).2 = [] ∧
  pc_GracePeriod (pool_config (demo_config "comfy" 9223372037) "gpu" (demo_pool 9223372037)) < 0.
Proof. split; [by vm_compute|]. vm_compute. reflexivity. Qed.
