(* ===== verification/Router.v ===== *)
(** * Routing ([src/internal/router/router.go])

    The first route whose path prefix and headers match decides; the model named
    in the body may refine the service it gives. *)

From S2P Require Import Prelude GoStrings State Pool Config ConfigTheorems.
Open Scope Z_scope.

(** [Match], the result of routing. *)
Record Match := { m_Service : string; m_NeedsModel : bool }.

(** [Router] *)
Record Router := { routes : list Route; known : list string }.

(** [strings.Join] *)
Fixpoint Join (sep : string) (l : list string) : string :=
  match l with
  | [] => ""
  | [s] => s
  | s :: l' => s +:+ sep +:+ Join sep l'
  end.

Definition describe (rt : Route) : string :=
  PathPrefix rt +:+ " -> " +:+ rt_Service rt +:+
  (if bool_decide (Models rt = ∅) then ""
   else " (models: " +:+ Join ", " (merge_sort String.le (map_to_list (Models rt)).*1) +:+ ")").

Definition New (rs : list Route) : Router := {| routes := rs; known := map describe rs |}.

Definition headersMatch (want : gmap string string) (got : Header) : bool :=
  forallb (λ x, bool_decide (Header_Get got x.1 = x.2)) (map_to_list want).

(** [Router.Match]; [None] is the zero match with [false]. *)
Fixpoint match_routes (rs : list Route) (path : string) (header : Header) (model : string) :
    option Match :=
  match rs with
  | [] => None
  | rt :: rs' =>
      if negb (HasPrefix path (PathPrefix rt)) then match_routes rs' path header model
      else if negb (headersMatch (Headers rt) header) then match_routes rs' path header model
      else
        Some {| m_Service :=
                  if bool_decide (model ≠ "") then
                    match Models rt !! model with Some svc => svc | None => rt_Service rt end
                  else rt_Service rt;
                m_NeedsModel := negb (bool_decide (Models rt = ∅)) |}
  end.

Definition Router_Match (r : Router) (path : string) (header : Header) (model : string) :
    option Match := match_routes (routes r) path header model.

Definition KnownRoutes (r : Router) : list string := known r.

(** ** Specification *)

Definition applies (rt : Route) (path : string) (header : Header) : Prop :=
  (∃ rest, path = PathPrefix rt +:+ rest) ∧
  ∀ k v, Headers rt !! k = Some v → Header_Get header k = v.

Lemma headersMatch_spec want got :
  headersMatch want got = true ↔ ∀ k v, want !! k = Some v → Header_Get got k = v.
Proof.
  unfold headersMatch. rewrite forallb_forall. split.
  - intros H k v Hk. apply (bool_decide_unpack _). apply Is_true_true, (H (k, v)).
    by apply list_elem_of_In, elem_of_map_to_list.
  - intros H [k v] Hin%list_elem_of_In%elem_of_map_to_list. simpl.
    apply bool_decide_eq_true. by apply H.
Qed.

Lemma applies_spec rt path header :
  HasPrefix path (PathPrefix rt) && headersMatch (Headers rt) header = true ↔
  applies rt path header.
Proof. by rewrite andb_true_iff, HasPrefix_spec, headersMatch_spec. Qed.

(** The service of a route for a model. *)
Definition service_for (rt : Route) (model : string) : string :=
  if bool_decide (model = "") then rt_Service rt else default (rt_Service rt) (Models rt !! model).

Lemma service_for_eq rt model :
  (if bool_decide (model ≠ "") then
     match Models rt !! model with Some svc => svc | None => rt_Service rt end
   else rt_Service rt) = service_for rt model.
Proof.
  unfold service_for. destruct (decide (model = "")) as [->|Hm]; [done|].
  rewrite bool_decide_eq_true_2, bool_decide_eq_false_2 by done. by destruct (Models rt !! model).
Qed.

Definition match_of (rt : Route) (model : string) : Match :=
  {| m_Service := service_for rt model; m_NeedsModel := negb (bool_decide (Models rt = ∅)) |}.

Definition first_route (rs : list Route) (path : string) (header : Header) (rt : Route) : Prop :=
  ∃ before after, rs = before ++ rt :: after ∧ applies rt path header ∧
    ∀ rt', rt' ∈ before → ¬ applies rt' path header.

Lemma match_routes_first rs path header model m :
  match_routes rs path header model = Some m ↔
  ∃ rt, first_route rs path header rt ∧ m = match_of rt model.
Proof.
  induction rs as [|rt rs IH]; simpl.
  { split; [done|]. intros (rt & ([|??] & ? & ? & _) & _); done. }
  pose proof (applies_spec rt path header) as Ha.
  assert (Hskip : ¬ applies rt path header →
    (match_routes rs path header model = Some m ↔
     ∃ rt0, first_route (rt :: rs) path header rt0 ∧ m = match_of rt0 model)).
  { intros Hno. rewrite IH. split.
    - intros (rt0 & (b & a & -> & Hap & Hb) & ->). exists rt0. split; [|done].
      exists (rt :: b), a. split_and!; [done..|]. intros rt' [->|?]%elem_of_cons; [done|auto].
    - intros (rt0 & ([|x b] & a & Heq & Hap & Hb) & ->); simplify_eq/=; [done|].
      exists rt0. split; [|done]. exists b, a. split_and!; [done..|].
      intros rt' ?. apply Hb. by right. }
  destruct (HasPrefix path (PathPrefix rt)) eqn:Hp; simpl in *;
    [|apply Hskip; by rewrite <- Ha].
  destruct (headersMatch (Headers rt) header) eqn:Hh; simpl; [|apply Hskip; by rewrite <- Ha].
  assert (Hap : applies rt path header) by by apply Ha.
  assert (Hm : ∀ m', Some m' = Some m ↔ m' = m) by naive_solver.
  rewrite Hm, service_for_eq. split.
  - intros <-. exists rt. split.
    + exists [], rs. split_and!; [done..|]. set_solver.
    + done.
  - intros (rt0 & ([|x b] & a & Heq & Hap0 & Hb) & ->); simplify_eq/=.
    + done.
    + exfalso. apply (Hb x); [by left|done].
Qed.

(** C38: routing is ordered first match. A request matches exactly when some route
    has a prefix of its path and all its headers (keys compared as canonical header
    keys), and then the first such route of the table decides: its entry for the
    model if the model is known and has one, its own service otherwise. *)
Theorem Match_is_first_match rs path header model m :
  Router_Match (New rs) path header model = Some m ↔
  ∃ rt, first_route rs path header rt ∧ m = match_of rt model.
Proof. apply match_routes_first. Qed.

Lemma first_route_unique rs path header rt rt' :
  first_route rs path header rt → first_route rs path header rt' → rt = rt'.
Proof.
  intros (b & a & -> & Hap & Hb) (b' & a' & Heq & Hap' & Hb').
  revert b' Heq Hb'. induction b as [|x b IH]; intros [|x' b'] Heq Hb'; simplify_eq/=; try done.
  - exfalso. apply (Hb' x'); [by left|done].
  - exfalso. apply (Hb rt'); [by left|done].
  - apply (IH ltac:(intros; apply Hb; by right) b'); [done|]. intros; apply Hb'. by right.
Qed.

(** Routing a second time, with the model, refines the first result. It finds
    a route exactly when the first pass did, and the same one: the answer to
    [NeedsModel] is the same, and the service is either the one the models map
    gives for the model or the fallback the first pass returned. Without a models
    map nothing changes. *)
Theorem rematch_refines rs path header model m m' :
  Router_Match (New rs) path header "" = Some m →
  Router_Match (New rs) path header model = Some m' →
  m_NeedsModel m' = m_NeedsModel m ∧
  (m_NeedsModel m = false → m' = m) ∧
  ∃ rt, first_route rs path header rt ∧ m_Service m = rt_Service rt ∧
    (m_Service m' = m_Service m ∨ Models rt !! model = Some (m_Service m')).
Proof.
  intros (rt & Hf & ->)%match_routes_first (rt' & Hf' & ->)%match_routes_first.
  assert (rt' = rt) as -> by by eapply first_route_unique.
  unfold match_of, service_for. simpl. split; [done|]. split.
  - intros Hn. apply negb_false_iff, bool_decide_eq_true in Hn. rewrite Hn, lookup_empty.
    simpl. by case_bool_decide.
  - exists rt. split; [done|]. split; [done|]. case_bool_decide; [by left|].
    destruct (Models rt !! model); [by right|by left].
Qed.

(** A request is never routed to a service that does not exist. With the
    routes of a valid configuration, whatever the path, the headers and the model,
    the service of the match is a declared one, so the handler's answer for a
    missing target is never given. *)
Theorem match_targets_exist url_Parse c path header model m :
  (validate url_Parse c).2 = [] →
  Router_Match (New (Routes c)) path header model = Some m →
  is_Some (Services c !! m_Service m).
Proof.
  intros Hv (rt & (b & a & Hrs & _) & ->)%match_routes_first.
  apply validate_ok in Hv. destruct (v_route _ _ Hv rt) as [_ _ Hs Hm].
  { change (Routes c) with (routes (New (Routes c))). rewrite Hrs. apply elem_of_app. right. by left. }
  simpl. unfold service_for. case_bool_decide; [done|].
  destruct (Models rt !! model) as [s|] eqn:Hmod; simpl; [|done]. by eapply Hm.
Qed.

Lemma rematch_refines_witness :
  let rs := Routes (demo_config "comfy" 60) in
  Router_Match (New rs) "/v1" ∅ "sdxl" = Some {| m_Service := "comfy"; m_NeedsModel := true |} ∧
  m_NeedsModel {| m_Service := "comfy"; m_NeedsModel := true |} = true.
Proof.
  split; [vm_compute; reflexivity|].
  apply (proj1 (rematch_refines (Routes (demo_config "comfy" 60)) "/v1" ∅ "sdxl"
    {| m_Service := "llama"; m_NeedsModel := true |}
    {| m_Service := "comfy"; m_NeedsModel := true |}
    ltac:(vm_compute; reflexivity) ltac:(vm_compute; reflexivity))).
Defined.

Lemma match_targets_exist_witness :
  is_Some (Services (demo_config "comfy" 60) !! "comfy").
Proof.
  apply (match_targets_exist demo_url (demo_config "comfy" 60) "/v1" ∅ "sdxl"
    {| m_Service := "comfy"; m_NeedsModel := true |}); vm_compute; reflexivity.
Defined.
