(* ===== verification/PoolTheorems.v ===== *)
(** * Theorems on every reachable state of a pool

    What the actor promises its clients and the rest of the system, for any
    validated configuration and any interleaving of requests, cancellations,
    reports, ticks, docker events and admin commands. *)

From S2P Require Import Prelude State Queue Pool PoolFacts QueueInv System Invariant.
From S2P Require Import Handlers Reachable Demo.
Open Scope Z_scope.

(** C15: the manager goroutine never panics and never starts a worker on a nil
    member. In every reachable state, each message the environment can deliver is
    handled to the end, and every swap worker it starts is given a member. *)
Theorem manager_never_panics cfg n s i now1 now2 e1 :
  config_ok cfg → Z.of_nat n < max_steps → reach cfg n s → running s = true →
  clock s ≤ now1 → now1 ≤ now2 → take (closed s) now1 (environment s) i e1 →
  ∃ p' es, handle i now1 now2 (pool s) = (Ret tt, p', es) ∧
    ∀ op m others, GoSwap op m others ∈ es → is_Some m.
Proof.
  intros Hcfg Hn Hr Hrun H1 H2 Htake.
  destruct (reach_running _ _ _ Hcfg Hn Hr Hrun) as [HB HC].
  assert (Hw : wp (handle i now1 now2) (returns (λ _ _ es, Forall is_clean es)) (pool s)).
  { destruct (is_done i) eqn:Hi.
    - destruct i; try done. eapply wp_mono; [|apply (shutdown_spec _ _ now1 _ (environment s) HB)].
      intros [[]| |] p' es; simpl; [by intros [_ ?]|done..].
    - eapply wp_mono; [|eapply (handle_good (2 * Z.of_nat n) now2); try done].
      + intros [[]| |] p' es; simpl; [by intros []|done..].
      + unfold max_steps, u64_modulus in *. lia.
      + eapply base_mono; [| |done]; lia.
      + pose proof (b_started _ _ _ _ HB). lia.
      + by intros ->. }
  unfold wp in Hw. destruct (handle i now1 now2 (pool s)) as [[[[]| |] p'] es]; [|done..].
  exists p', es. split; [done|]. intros op m others Hin.
  simpl in Hw. rewrite Forall_forall in Hw. specialize (Hw _ Hin). destruct m; [eauto|done].
Qed.

Lemma manager_never_panics_witness :
  ∃ p' es, handle (InCmd (admitCmd "comfy" 2%nat)) (30 * sec) (30 * sec) (pool demo2)
           = (Ret tt, p', es) ∧
    ∀ op m others, GoSwap op m others ∈ es → is_Some m.
Proof.
  eapply (manager_never_panics demo_cfg 2 demo2 _ _ _ (add_issued 2 (environment demo2)));
    [apply demo_cfg_ok|reflexivity|apply demo_reach2|reflexivity|vm_compute; discriminate
    |vm_compute; discriminate|by apply demo_take_admit].
Defined.

(** C2: [SWAPPING] can never get stuck. While the pool is swapping, the worker
    whose report will end it, with the current operation number and the current
    target, is in flight; in any other state no worker in flight carries the
    current operation number, so every late report is ignored. *)
Theorem swapping_has_live_worker cfg n s :
  config_ok cfg → Z.of_nat n < max_steps → reach cfg n s → running s = true →
  (state (pool s) = StateSwapping ↔
    ∃ w, w ∈ workers (environment s) ∧ work_op w = opSeq (pool s)) ∧
  (∀ w, w ∈ workers (environment s) → work_op w = opSeq (pool s) →
    work_target w = target (pool s)).
Proof.
  intros Hcfg Hn Hr Hrun. destruct (reach_running _ _ _ Hcfg Hn Hr Hrun) as [HB [HC _ _ _]].
  assert (Hdec : ∀ w, w ∈ workers (environment s) → work_op w = opSeq (pool s) →
                 state (pool s) = StateSwapping).
  { intros w Hw Hop. destruct (decide (state (pool s) = StateSwapping)) as [|Hst]; [done|].
    by destruct (c_dead _ _ HC Hst w Hw). }
  split; [split; [|by intros (w & ? & ?); eauto]|].
  - intros Hst. exists (live_work (pool s)). split; [by apply HC|apply live_work_op].
  - intros w Hw Hop.
    assert (w = live_work (pool s)) as ->.
    { eapply NoDup_map_inj; [apply HB|done|apply HC; eauto|]. by rewrite live_work_op. }
    unfold live_work. destruct (decide (target (pool s) = "")); simpl; congruence.
Qed.

Lemma swapping_has_live_worker_witness :
  ∃ w, w ∈ workers (environment demo1) ∧ work_op w = opSeq (pool demo1).
Proof.
  apply (swapping_has_live_worker demo_cfg 1 demo1);
    [apply demo_cfg_ok|reflexivity|apply demo_reach1|reflexivity|reflexivity].
Defined.

(** At most one worker can act. Every worker in flight other than the one
    the manager is waiting for has had its context cancelled, so it is bound to
    stop before it starts a container, or to stop what it started. *)
Theorem one_uncancelled_worker cfg n s w :
  config_ok cfg → Z.of_nat n < max_steps → reach cfg n s → running s = true →
  w ∈ workers (environment s) → work_op w ∉ ctx_done (environment s) →
  state (pool s) = StateSwapping ∧ work_op w = opSeq (pool s) ∧
  (∀ w', w' ∈ workers (environment s) → w' ≠ w → work_op w' ∈ ctx_done (environment s)).
Proof.
  intros Hcfg Hn Hr Hrun Hw Hctx.
  destruct (reach_running _ _ _ Hcfg Hn Hr Hrun) as [HB [HC _ _ _]].
  assert (Hlive : ∀ w, w ∈ workers (environment s) → work_op w ∉ ctx_done (environment s) →
    state (pool s) = StateSwapping ∧ work_op w = opSeq (pool s)).
  { intros v Hv Hvc. destruct (b_wctx _ _ _ _ HB v Hv) as [?|Hc]; [done|].
    rewrite (c_cancel _ _ HC) in Hc. destruct (decide _); simplify_eq; auto. }
  destruct (Hlive w Hw Hctx) as [Hst Hop]. split_and!; [done..|].
  intros w' Hw' Hne. destruct (decide (work_op w' ∈ ctx_done (environment s))) as [|Hctx'];
    [done|]. destruct (Hlive w' Hw' Hctx') as [_ Hop'].
  destruct Hne. eapply NoDup_map_inj; [apply HB|done..|congruence].
Qed.

Lemma one_uncancelled_worker_witness :
  state (pool demo1) = StateSwapping ∧ work_op (WSwap 1 "llama") = opSeq (pool demo1).
Proof.
  destruct (one_uncancelled_worker demo_cfg 1 demo1 (WSwap 1 "llama")) as (H1 & H2 & _);
    [apply demo_cfg_ok|reflexivity|apply demo_reach1|reflexivity|vm_compute; left
    |vm_compute; inversion 1|].
  exact (conj H1 H2).
Defined.

(** No request is stranded. Whenever a client is queued, the pool is
    swapping, or it is serving another service and the tick that ends the grace
    period is armed; that tick, when it is received, is not ignored. *)
Theorem queued_request_is_awaited cfg n s service w :
  config_ok cfg → Z.of_nat n < max_steps → reach cfg n s → running s = true →
  waiting (members (pool s)) service w →
  state (pool s) = StateSwapping ∨
  (state (pool s) = StateActive ∧
   ∃ t due, (t, due) ∈ timers (environment s) ∧ tick_kind t = tickGrace ∧
     ∀ now, state (handle (InTick t) now now (pool s)).1.2 = StateSwapping).
Proof.
  intros Hcfg Hn Hr Hrun (m & Hm & Hw).
  destruct (reach_running _ _ _ Hcfg Hn Hr Hrun) as [HB [_ HW _ _]].
  assert (Hq : ¬ all_quiet (members (pool s))).
  { intros Hq. rewrite (Hq _ _ Hm) in Hw. by apply not_elem_of_nil in Hw. }
  destruct (HW Hq) as [?|[Hst [due Hin]]]; [by left|right]. split; [done|].
  exists (live_tick (pool s) tickGrace), due. split_and!; [done..|].
  intros now.
  assert (Hne : oldestQueued (members (pool s)) ≠ "").
  { intros Ho. apply Hq. apply oldestQueued_quiet; [apply HB|done]. }
  assert (Ht : wp (handle (InTick (live_tick (pool s) tickGrace)) now now)
                 (λ _ p' _, state p' = StateSwapping) (pool s)).
  { simpl. unfold handleTick. wp_steps. rewrite decide_False by (by intros []). wp_steps.
    rewrite Hst. simpl. wp_steps. rewrite decide_True by done.
    by eapply wp_eq; [apply startSwap_eq|]. }
  unfold wp in Ht. by destruct (handle _ _ _ _) as [[? ?] ?].
Qed.

Lemma queued_request_is_awaited_witness :
  state (pool demo3) = StateSwapping ∨
  (state (pool demo3) = StateActive ∧
   ∃ t due, (t, due) ∈ timers (environment demo3) ∧ tick_kind t = tickGrace ∧
     ∀ now, state (handle (InTick t) now now (pool demo3)).1.2 = StateSwapping).
Proof.
  apply (queued_request_is_awaited demo_cfg 3 demo3 "comfy" (Waiter 2 2));
    [apply demo_cfg_ok|reflexivity|apply demo_reach3|reflexivity|].
  eexists. split; [vm_compute; reflexivity|by left].
Defined.

(** C5: a reply channel receives at most one reply, so the sends on the
    buffered(1) channels never block the manager: in the log of all replies ever
    sent no channel occurs twice, not even with the same reply. And a client still
    queued has not been answered. *)
Theorem at_most_one_reply cfg n s :
  config_ok cfg → Z.of_nat n < max_steps → reach cfg n s →
  NoDup (map fst (replied (environment s))) ∧
  ∀ service w, waiting (members (pool s)) service w →
    w_reply w ∉ map fst (replied (environment s)).
Proof.
  intros Hcfg Hn Hr. destruct (reach_queues _ _ _ Hcfg Hn Hr) as [sq HQ]. split.
  - exact (q_reps_nodup _ _ _ _ _ HQ).
  - intros service w Hw. exact (q_fresh _ _ _ _ _ HQ _ _ Hw).
Qed.

Lemma at_most_one_reply_witness :
  map fst (replied (environment demo3)) = [1%nat] ∧ NoDup (map fst (replied (environment demo3))) ∧
  ∀ service w, waiting (members (pool demo3)) service w →
    w_reply w ∉ map fst (replied (environment demo3)).
Proof.
  split; [vm_compute; reflexivity|].
  apply (at_most_one_reply demo_cfg 3 demo3); [apply demo_cfg_ok|reflexivity|apply demo_reach3].
Defined.

(** C4: no request is lost. Every client whose admission reached the manager is
    still queued, has been answered, or has withdrawn; once the manager has
    returned, nobody is queued any more. *)
Theorem every_request_accounted cfg n s c :
  config_ok cfg → Z.of_nat n < max_steps → reach cfg n s →
  c ∈ issued (environment s) →
  (running s = true ∧ ∃ service w, waiting (members (pool s)) service w ∧ w_reply w = c) ∨
  (∃ r, (c, r) ∈ replied (environment s)) ∨ c ∈ cancelled (environment s).
Proof.
  intros Hcfg Hn Hr Hc. destruct (reach_queues _ _ _ Hcfg Hn Hr) as [sq HQ].
  destruct (q_conserve _ _ _ _ _ HQ _ Hc) as [(k & w & Hw & Hwc)|[Hrep|?]]; [left|right; left|by auto].
  - split; [|eauto]. pose proof (reach_inv _ _ _ Hcfg Hn Hr) as HI. unfold Inv in HI.
    destruct (running s); [done|]. destruct Hw as (m & Hm & Hw).
    rewrite (stopped_quiet _ _ HI _ _ Hm) in Hw. by apply not_elem_of_nil in Hw.
  - apply list_elem_of_fmap in Hrep as ([c' r] & -> & ?). by exists r.
Qed.

Lemma every_request_accounted_witness :
  (running demo3 = true ∧
     ∃ service w, waiting (members (pool demo3)) service w ∧ w_reply w = 2%nat) ∨
  (∃ r, (2%nat, r) ∈ replied (environment demo3)) ∨ 2%nat ∈ cancelled (environment demo3).
Proof.
  apply (every_request_accounted demo_cfg 3 demo3);
    [apply demo_cfg_ok|reflexivity|apply demo_reach3|vm_compute; left].
Defined.
