(* ===== verification/Http.v ===== *)
(** * Requests and responses

    What the server uses of [net/http] and [io]: header maps, request bodies as
    readers, the response writer, and the error envelopes of
    [src/internal/httperr] and [src/internal/server/errors.go]. *)

From S2P Require Import Prelude GoStrings State Registry.
Open Scope Z_scope.

(** ** Headers *)

Definition Header_Set (key value : string) (h : Header) : Header :=
  <[CanonicalHeaderKey key := [value]]> h.
Definition Header_Del (key : string) (h : Header) : Header := delete (CanonicalHeaderKey key) h.

(** ** Readers

    A reader gives its bytes and then ends: with [io.EOF] ([None]), or with an
    error, which is returned by a [Read] of its own. [b_conn]: closing the reader
    closes the body of the connection. *)
Inductive IOError :=
| MaxBytesError (limit : Z)
| ReadFailed (code : nat).

#[global] Instance IOError_eq_dec : EqDecision IOError.
Proof. solve_decision. Defined.

Record Reader := MkReader { b_data : string; b_err : option IOError; b_conn : bool }.

(** [Request.Body]: nil, the empty [http.NoBody], or a reader. *)
Inductive Body := NilBody | NoBody | HasBody (r : Reader).

Definition str_len (s : string) : Z := Z.of_nat (String.length s).

(** What remains to be read of a body, and how it ends. *)
Definition body_text (b : Body) : string * option IOError :=
  match b with
  | NilBody | NoBody => ("", None)
  | HasBody r => (b_data r, b_err r)
  end.

(** [http.MaxBytesReader]: the first [n] bytes, then an error if there are more. *)
Definition MaxBytesReader (n : Z) (b : Body) : Body :=
  match b with
  | NilBody => NilBody
  | NoBody => HasBody (MkReader "" None false)
  | HasBody r =>
      if bool_decide (n < str_len (b_data r))
      then HasBody (MkReader (str_take (Z.to_nat n) (b_data r)) (Some (MaxBytesError n)) (b_conn r))
      else HasBody r
  end.

(** [io.ReadAll(io.LimitReader(r, k))]: the bytes read, the error, and what is left
    in the reader. The reader is not asked again once [k] bytes are read. *)
Definition read_limited (k : Z) (r : Reader) : string * option IOError * Reader :=
  if bool_decide (k ≤ str_len (b_data r)) then
    (str_take (Z.to_nat k) (b_data r), None,
     MkReader (str_drop (Z.to_nat k) (b_data r)) (b_err r) (b_conn r))
  else (b_data r, b_err r, MkReader "" (b_err r) (b_conn r)).

(** ** Requests *)

Record Request := MkRequest {
  Method : string;
  URL_Path : string;
  EscapedPath : string;
  req_Header : Header;
  ContentLength : Z;
  req_Body : Body;
  GetBody : option string (* the bytes every call of [GetBody] replays *)
}.

Definition set_header (h : Header) (r : Request) : Request :=
  MkRequest (Method r) (URL_Path r) (EscapedPath r) h (ContentLength r) (req_Body r) (GetBody r).
Definition set_body (b : Body) (r : Request) : Request :=
  MkRequest (Method r) (URL_Path r) (EscapedPath r) (req_Header r) (ContentLength r) b (GetBody r).
Definition set_GetBody (g : option string) (r : Request) : Request :=
  MkRequest (Method r) (URL_Path r) (EscapedPath r) (req_Header r) (ContentLength r) (req_Body r) g.

(** ** Responses *)

Definition StatusOK : Z := 200.
Definition StatusAccepted : Z := 202.
Definition StatusBadRequest : Z := 400.
Definition StatusUnauthorized : Z := 401.
Definition StatusNotFound : Z := 404.
Definition StatusRequestEntityTooLarge : Z := 413.
Definition StatusTooManyRequests : Z := 429.
Definition StatusInternalServerError : Z := 500.
Definition StatusBadGateway : Z := 502.
Definition StatusServiceUnavailable : Z := 503.
Definition StatusGatewayTimeout : Z := 504.

(** The detail of an error envelope; [DNone] is the empty string. *)
Inductive Detail :=
| DNone
| DText (s : string)
| DErr (e : GoError)
| DPeek (e : IOError)
| DContentLength (n limit : Z)
| DLimit (limit : Z).

(** [poolStatusJSON]; a nil [SecondsUntilCooldown] is [None]. *)
Record poolStatusJSON := {
  js_State : string;
  js_ActiveService : string;
  js_SecondsUntilCooldown : option Z;
  js_QueuedRequestsCount : Z
}.

(** The JSON bodies the program writes itself. *)
Inductive Payload :=
| PError (msg : string) (detail : Detail)
| PUnmatched (routes : list string)
| PHealthz
| PStatus (pools : gmap string poolStatusJSON) (always_on : gmap string string)
| PReloaded
| PResult (key name result : string).

(** What a handler does that others can see. A status line goes out with the header
    map as it is at that moment. *)
Inductive hact :=
| WriteHeader (code : Z) (h : Header)
| WriteBody (payload : Payload)
| CloseConnBody
| CallAdmit (pool : pool_id) (service : string)
| CallAdminSwap (pool : pool_id) (service : string)
| CallAdminStop (pool : pool_id)
| CallStatus (pool : pool_id)
| CallReload
| MuxRedirect
| ServeAdmin (r : Request)
| Forward (service : string) (r : Request) (h : Header)
| Tunnel (service : string) (r : Request) (h : Header).

(** The state of a handler: its request, and the header map of its response. *)
Record hstate := HState { hs_req : Request; hs_header : Header }.

Abbreviation H := (prog hstate hact).

Definition get_req : H Request := gets hs_req.
Definition put_req (r : Request) : H () := modify (λ s, HState r (hs_header s)).
Definition Set_ (key value : string) : H () :=
  modify (λ s, HState (hs_req s) (Header_Set key value (hs_header s))).
Definition write_header (code : Z) : H () :=
  h ← gets hs_header; emit (WriteHeader code h).

(** [Body.Close] *)
Definition close_body (b : Body) : H () :=
  match b with
  | HasBody r => if b_conn r then emit CloseConnBody else mret tt
  | _ => mret tt
  end.

(** [writeJSON] *)
Definition writeJSON (status : Z) (payload : Payload) : H () :=
  Set_ "Content-Type" "application/json";;
  write_header status;;
  emit (WriteBody payload).

(** [httperr.Write], and [writeError] *)
Definition httperr_Write (status : Z) (msg : string) (detail : Detail) : H () :=
  Set_ "Content-Type" "application/json";;
  write_header status;;
  emit (WriteBody (PError msg detail)).

Definition writeError (status : Z) (msg : string) (detail : Detail) : H () :=
  httperr_Write status msg detail.

Definition writeUnmatched (routes : list string) : H () :=
  writeJSON StatusNotFound (PUnmatched routes).
