(* ===== verification/Proxy.v ===== *)
(** * Body peek and upgrades ([src/internal/proxy])

    [PeekModel] looks into a request body and puts it back; [IsWebSocketUpgrade]
    recognises a handshake; the error handler of the reverse proxy answers for a
    failed round trip. The round trip itself is [net/http/httputil]'s. *)

From S2P Require Import Prelude GoStrings State Http.
Open Scope Z_scope.

(** ** [PeekModel] ([bodypeek.go]) *)

Definition MaxPeekSize : Z := 2 ^ 20.

Section peek.
(** [json.Unmarshal] into the field [model]; [None] is an error. *)
Context (unmarshal : string → option string).

Definition bufLimit (maxBuffer : Z) : Z :=
  if bool_decide (MaxPeekSize < maxBuffer) then maxBuffer else MaxPeekSize.

(** [readLimit++] unless it is the largest [int64]. *)
Definition readLimit (limit : Z) : Z :=
  if bool_decide (limit < int64_max) then int64_wrap (limit + 1) else limit.

Definition PeekModel (maxBuffer : Z) : H (IOError + string) :=
  req ← get_req;
  match req_Body req with
  | NilBody | NoBody => mret (inr "")
  | HasBody r =>
      let limit := bufLimit maxBuffer in
      let '(buf, err, rest) := read_limited (readLimit limit) r in
      put_req (set_body (HasBody rest) req);;
      match err with
      | Some e => close_body (HasBody rest);; mret (inl e)
      | None =>
          if bool_decide (limit < str_len buf) then
            put_req (set_body
              (HasBody (MkReader (buf +:+ b_data rest) (b_err rest) (b_conn rest))) req);;
            mret (inr "")
          else
            close_body (HasBody rest);;
            put_req (set_GetBody (Some buf)
              (set_body (HasBody (MkReader buf None false)) req));;
            if bool_decide (MaxPeekSize < str_len buf) then mret (inr "")
            else mret (inr (default "" (unmarshal buf)))
      end
  end.

(** ** What peeking does to the body *)

Lemma str_len_take n s : 0 ≤ n ≤ str_len s → str_len (str_take (Z.to_nat n) s) = n.
Proof.
  unfold str_len. intros Hn. rewrite <- (Z2Nat.id n) at 2 by lia. f_equal.
  assert (Hle : (Z.to_nat n ≤ String.length s)%nat) by lia. clear Hn. revert Hle.
  generalize (Z.to_nat n) as k. induction s as [|a s IH]; intros [|k]; simpl; intros; try lia.
  by rewrite IH by lia.
Qed.

(** A read below the limit gives the whole body and its end. *)
Lemma read_limited_all k r :
  str_len (b_data r) < k →
  read_limited k r = (b_data r, b_err r, MkReader "" (b_err r) (b_conn r)).
Proof. intros. unfold read_limited. by rewrite bool_decide_eq_false_2 by lia. Qed.

Lemma read_limited_part k r :
  0 ≤ k ≤ str_len (b_data r) →
  ∃ buf rest, read_limited k r = (buf, None, rest) ∧ str_len buf = k ∧
    buf +:+ b_data rest = b_data r ∧ b_err rest = b_err r ∧ b_conn rest = b_conn r.
Proof.
  intros Hk. unfold read_limited. rewrite bool_decide_eq_true_2 by lia.
  eexists _, _. split; [done|]. simpl. split; [by apply str_len_take|].
  split; [apply str_take_drop|done].
Qed.

Lemma readLimit_above limit :
  MaxPeekSize ≤ limit ≤ int64_max →
  (limit < int64_max ∧ readLimit limit = limit + 1) ∨
  (limit = int64_max ∧ readLimit limit = limit).
Proof.
  unfold readLimit. intros Hl. case_bool_decide; [left|right; lia].
  split; [done|]. apply int64_wrap_id. unfold int64_min, MaxPeekSize in *. lia.
Qed.

Lemma bufLimit_range maxBuffer :
  maxBuffer ≤ int64_max → MaxPeekSize ≤ bufLimit maxBuffer ≤ int64_max.
Proof. intros. unfold bufLimit. case_bool_decide; [lia|]. by vm_compute. Qed.

(** The bytes and the end of the body are what they were; the body is either in
    memory, and can be sent again, or above the limit. *)
Definition replays (maxBuffer : Z) (req req' : Request) : Prop :=
  body_text (req_Body req') = body_text (req_Body req) ∧
  Method req' = Method req ∧ URL_Path req' = URL_Path req ∧ EscapedPath req' = EscapedPath req ∧
  req_Header req' = req_Header req ∧ ContentLength req' = ContentLength req ∧
  ((∃ text, body_text (req_Body req) = (text, None) ∧ str_len text ≤ bufLimit maxBuffer ∧
      (GetBody req' = Some text ∨ req' = req)) ∨
   (bufLimit maxBuffer < str_len (body_text (req_Body req)).1 ∧ GetBody req' = GetBody req)).

(** What peeking answers: the error of a body that fails within the limit, or the
    model of a body that is small enough and that [json] accepts. *)
Definition peek_result (maxBuffer : Z) (b : Body) : IOError + string :=
  match b with
  | NilBody | NoBody => inr ""
  | HasBody r =>
      match b_err r with
      | Some e => if bool_decide (str_len (b_data r) ≤ bufLimit maxBuffer) then inl e else inr ""
      | None =>
          inr (if bool_decide (str_len (b_data r) ≤ MaxPeekSize)
               then default "" (unmarshal (b_data r)) else "")
      end
  end.

Definition closes_only (es : list hact) : Prop := ∀ a, a ∈ es → a = CloseConnBody.

Lemma PeekModel_wp maxBuffer req h :
  maxBuffer ≤ int64_max → str_len (body_text (req_Body req)).1 < int64_max →
  wp (PeekModel maxBuffer)
    (returns (λ res s es, hs_header s = h ∧ closes_only es ∧
       res = peek_result maxBuffer (req_Body req) ∧
       match res with
       | inr _ => replays maxBuffer req (hs_req s)
       | inl _ => ∀ r, req_Body req = HasBody r → b_conn r = true → es = [CloseConnBody]
       end))
    (HState req h).
Proof.
  intros Hmax Hlen. pose proof (bufLimit_range maxBuffer Hmax) as Hb.
  unfold PeekModel, get_req. do 2 wp_step. cbv beta iota. simpl.
  destruct (req_Body req) as [| |r] eqn:Hbody; simpl in Hlen |- *.
  1,2: apply wp_mret; simpl; unfold replays; rewrite Hbody; split; [done|];
       split; [intros ??; set_solver|]; split_and!; try done; left; exists "";
       split_and!; [done|unfold str_len; simpl|by right]; unfold MaxPeekSize in *; lia.
  assert (str_len (b_data r) ≤ bufLimit maxBuffer ∨ bufLimit maxBuffer < str_len (b_data r))
    as [Hfit|Hbig] by lia.
  - rewrite read_limited_all by (destruct (readLimit_above _ Hb) as [[? ->]|[? ->]]; lia).
    destruct (b_err r) as [e|] eqn:He.
    + rewrite (bool_decide_eq_true_2 (_ ≤ bufLimit _)) by done.
      unfold close_body, put_req. wp_steps. destruct (b_conn r) eqn:Hc; wp_steps;
        (split_and!; try done; [intros ??; set_solver|..]); intros; congruence.
    + rewrite (bool_decide_eq_false_2 (bufLimit _ < _)) by lia.
      assert (Hrep : replays maxBuffer req (set_GetBody (Some (b_data r))
                 (set_body (HasBody (MkReader (b_data r) None false)) req))).
      { unfold replays. rewrite Hbody. simpl. rewrite He. split_and!; try done. left. eauto. }
      unfold close_body, put_req. wp_steps.
      destruct (b_conn r); wp_steps; repeat case_bool_decide; try lia; wp_steps;
        (split_and!; try done; intros ??; set_solver).
  - destruct (readLimit_above _ Hb) as [[? Hk]|[? _]]; [|lia]. rewrite Hk.
    destruct (read_limited_part (bufLimit maxBuffer + 1) r) as
      (buf & rest & -> & Hl & Happ & He & Hc); [unfold MaxPeekSize in *; lia|].
    rewrite bool_decide_eq_true_2 by lia. unfold put_req. wp_steps.
    split; [done|]. split; [intros ??; set_solver|].
    rewrite (bool_decide_eq_false_2 (_ ≤ bufLimit _)) by lia.
    rewrite (bool_decide_eq_false_2 (_ ≤ MaxPeekSize)) by lia.
    split; [by destruct (b_err r)|]. unfold replays. rewrite Hbody. simpl.
    rewrite Happ, He. split_and!; try done. by right.
Qed.

(** C26: peeking is invisible. Whatever the body, its end and the limit, the backend
    still receives exactly the bytes the client sent, and then the same end; a body
    that fits the limit is buffered and can be replayed, a larger one is streamed.
    The answer is the model exactly when the whole body is not larger than
    [MaxPeekSize] and is a text [json] accepts, the error exactly when reading fails
    within the limit (and then the body of the connection is closed), and empty
    otherwise. The limit is an [int64], and the largest one does not overflow. *)
Theorem PeekModel_exact maxBuffer req h :
  maxBuffer ≤ int64_max → str_len (body_text (req_Body req)).1 < int64_max →
  ∃ s es, PeekModel maxBuffer (HState req h) =
    (Ret (peek_result maxBuffer (req_Body req)), s, es) ∧ hs_header s = h ∧
    match peek_result maxBuffer (req_Body req) with
    | inr _ => replays maxBuffer req (hs_req s)
    | inl _ => ∀ r, req_Body req = HasBody r → b_conn r = true → es = [CloseConnBody]
    end.
Proof.
  intros Hmax Hlen. pose proof (PeekModel_wp maxBuffer req h Hmax Hlen) as Hwp.
  unfold wp in Hwp. destruct (PeekModel maxBuffer (HState req h)) as [[[res| |] s] es];
    [|done..]. destruct Hwp as (Hh & _ & -> & Hres). eauto.
Qed.

End peek.

(** ** Upgrades ([websocket.go]) *)

Definition IsWebSocketUpgrade (r : Request) : bool :=
  EqualFold (Header_Get (req_Header r) "Upgrade") "websocket" &&
  existsb (λ v, EqualFold (TrimSpace v) "upgrade")
    (Split (Header_Get (req_Header r) "Connection") (of_byte 44)).

Example upgrade_1 :
  IsWebSocketUpgrade (MkRequest "GET" "/ws" "/ws"
    {[ "Connection" := ["keep-alive, Upgrade "]; "Upgrade" := ["WebSocket"] ]} 0 NoBody None)
  = true.
Proof. vm_compute. reflexivity. Qed.

(** ** The error handler of the reverse proxy ([proxy.go]) *)

Definition ErrorHandler (err : IOError) : H () :=
  match err with
  | MaxBytesError _ =>
      httperr_Write StatusRequestEntityTooLarge "request body too large" (DPeek err)
  | _ => httperr_Write StatusBadGateway "upstream request failed" (DPeek err)
  end.

(** A body of three bytes that fails after them, under the largest limit. *)
Lemma PeekModel_exact_witness :
  ∃ s es, PeekModel (λ _, None) int64_max
      (HState (MkRequest "POST" "/" "/" ∅ 3 (HasBody (MkReader "abc" (Some (ReadFailed 1)) true)) None) ∅)
    = (Ret (inl (ReadFailed 1)), s, es) ∧ es = [CloseConnBody].
Proof.
  destruct (PeekModel_exact (λ _, None) int64_max
    (MkRequest "POST" "/" "/" ∅ 3 (HasBody (MkReader "abc" (Some (ReadFailed 1)) true)) None) ∅)
    as (s & es & Heq & _ & Hres); [vm_compute; discriminate|vm_compute; reflexivity|].
  exists s, es. split; [exact Heq|].
  apply (Hres (MkReader "abc" (Some (ReadFailed 1)) true)); reflexivity.
Defined.
