(* ===== verification/Runtime.v ===== *)
(** * Configuration revisions and hot reload ([src/internal/server/server.go])

    A [runtime] is everything derived from one configuration revision. [New]
    builds the first one, [Reload] replaces it, keeping the pools whose signature
    is unchanged, and [Close] closes the pools. A pool is named by the order of
    its creation; what is recorded of it is the configuration it was created with
    and whether it has been closed. *)

From S2P Require Import Prelude GoStrings Format State Docker Registry Pool Config Router.
Open Scope Z_scope.

(** ** Data *)

(** [service], without its reverse proxy. *)
Record service := MkService {
  s_name : string;
  s_containerName : string;
  s_target : URL;
  s_healthURL : string;
  s_pool : option pool_id
}.

(** [runtime]. A nil pool in [pools] reads as no entry. *)
Record runtime := MkRuntime {
  rt_cfg : Config;
  corsOrigins : list string;
  rt_router : Router;
  rt_services : gmap string service;
  rt_pools : gmap string pool_id;
  poolSigs : gmap string string;
  rt_adminToken : string;
  rt_proxyToken : string;
  rt_maxRequestBytes : Z
}.

(** [AuthOptions] *)
Record AuthOptions := { AdminDisabled : bool; GenAdminToken : string }.

Record pool_state := PoolState { pl_cfg : PoolConfig; pl_closed : bool }.

(** [Server], with the pools created so far. *)
Record Srv := MkSrv {
  sv_auth : AuthOptions;
  sv_rt : runtime;
  sv_watcher : Watcher;
  sv_pools : list pool_state;
  sv_cfgPath : string
}.

Inductive RuntimeError :=
| ENoAdminToken
| ETargetURL (svc url : string)
| EContainers (e : GoError)
| ENoConfigSource
| EBadConfig (errs : list ConfigError)
| EUnreadable.

Definition set_rt (v : runtime) (s : Srv) : Srv :=
  MkSrv (sv_auth s) v (sv_watcher s) (sv_pools s) (sv_cfgPath s).
Definition set_watcher (v : Watcher) (s : Srv) : Srv :=
  MkSrv (sv_auth s) (sv_rt s) v (sv_pools s) (sv_cfgPath s).
Definition set_pools (v : list pool_state) (s : Srv) : Srv :=
  MkSrv (sv_auth s) (sv_rt s) (sv_watcher s) v (sv_cfgPath s).
Definition SetConfigSource (v : string) (s : Srv) : Srv :=
  MkSrv (sv_auth s) (sv_rt s) (sv_watcher s) (sv_pools s) v.

(** ** Pool signatures ([poolSignature]) *)

Definition member_signature (m : MemberConfig) : string :=
  "|" +:+ mc_Name m +:+ ":" +:+ mc_ContainerName m +:+ ":" +:+ mc_HealthURL m +:+ ":" +:+
  Duration_String (mc_StartupTimeout m) +:+ ":" +:+ FormatInt (mc_MaxQueue m).

Definition poolSignature (p : VRAMPool) (ms : list MemberConfig) : string :=
  "g=" +:+ FormatInt (GracePeriodSeconds p) +:+ ";c=" +:+ FormatInt (CooldownSeconds p) +:+
  ";d=" +:+ default "" (DefaultService p) +:+
  foldr (λ m acc, member_signature m +:+ acc) "" ms.

(** ** Building a runtime *)

Section runtime.
Context (url_Parse : string → option URL).

Definition resolveAdminToken (auth : AuthOptions) (cfg : Config) : string :=
  if AdminDisabled auth then ""
  else if negb (bool_decide (AdminToken (srv_Auth (cfg_Server cfg)) = ""))
  then AdminToken (srv_Auth (cfg_Server cfg))
  else GenAdminToken auth.

(** The loop over the pools: the pools created so far, the pools of the runtime,
    and their signatures. *)
Definition build_pool (cfg : Config) (prev : option runtime)
    (acc : list pool_state * gmap string pool_id * gmap string string)
    (x : string * VRAMPool) :
    list pool_state * gmap string pool_id * gmap string string :=
  let '(created, pools, sigs) := acc in
  let sig := poolSignature x.2 (poolMembers cfg x.1) in
  let sigs' := <[x.1 := sig]> sigs in
  match prev with
  | Some prev =>
      if bool_decide (default "" (poolSigs prev !! x.1) = sig)
      then (created, partial_alter (λ _, rt_pools prev !! x.1) x.1 pools, sigs')
      else (created ++ [PoolState (pool_config cfg x.1 x.2) false],
            <[x.1 := length created]> pools, sigs')
  | None =>
      (created ++ [PoolState (pool_config cfg x.1 x.2) false],
       <[x.1 := length created]> pools, sigs')
  end.

Definition build_service (pools : gmap string pool_id) (name : string) (svc : Service)
    (u : URL) : service :=
  MkService name (svc_ContainerName svc) u (HealthURL svc) (svc_VRAMPool svc ≫= (pools !!.)).

(** The loop over the services, up to the first target that does not parse. *)
Fixpoint build_services (pools : gmap string pool_id) (l : list (string * Service))
    (acc : gmap string service) : RuntimeError + gmap string service :=
  match l with
  | [] => inr acc
  | (name, svc) :: l' =>
      match url_Parse (TargetURL svc) with
      | None => inl (ETargetURL name (TargetURL svc))
      | Some u => build_services pools l' (<[name := build_service pools name svc u]> acc)
      end
  end.

(** [buildRuntime]; pools are created even when a target then fails to parse. *)
Definition buildRuntime (auth : AuthOptions) (cfg : Config) (prev : option runtime)
    (created : list pool_state) : (RuntimeError + runtime) * list pool_state :=
  let token := resolveAdminToken auth cfg in
  if negb (AdminDisabled auth) && bool_decide (token = "") then (inl ENoAdminToken, created) else
  let '(created', pools, sigs) :=
    foldl (build_pool cfg prev) (created, ∅, ∅) (map_to_list (VRAMPools cfg)) in
  match build_services pools (map_to_list (Services cfg)) ∅ with
  | inl e => (inl e, created')
  | inr services =>
      (inr (MkRuntime cfg (CORSAllowedOrigins (cfg_Server cfg)) (New (Routes cfg)) services
              pools sigs token (ProxyToken (srv_Auth (cfg_Server cfg)))
              (MaxRequestBytes (cfg_Server cfg))), created')
  end.

(** [syncWatcher]: the table it installs. *)
Definition watch_add (x : string * service) (acc : gmap string pool_id) : gmap string pool_id :=
  match s_pool x.2 with
  | Some p => <[s_containerName x.2 := p]> acc
  | None => acc
  end.

Definition watch_routes (rt : runtime) : gmap string pool_id :=
  foldr watch_add ∅ (map_to_list (rt_services rt)).

Definition syncWatcher (rt : runtime) (s : Srv) : Srv :=
  set_watcher (ReplaceAll (watch_routes rt) (sv_watcher s)) s.

(** [server.New] *)
Definition NewServer (auth : AuthOptions) (cfg : Config) : RuntimeError + Srv :=
  match buildRuntime auth cfg None [] with
  | (inl e, _) => inl e
  | (inr rt, created) => inr (syncWatcher rt (MkSrv auth rt NewWatcher created ""))
  end.

(** ** Reload

    After the new runtime is built, [Reload] performs single updates that the
    request handlers, which take no lock, can see one by one. *)
Inductive update :=
| StoreRuntime (rt : runtime)
| SyncWatcher (rt : runtime)
| ClosePool (p : pool_id).

Definition close_pool (p : pool_id) (l : list pool_state) : list pool_state :=
  alter (λ ps, PoolState (pl_cfg ps) true) p l.

Definition apply_update (s : Srv) (u : update) : Srv :=
  match u with
  | StoreRuntime rt => set_rt rt s
  | SyncWatcher rt => syncWatcher rt s
  | ClosePool p => set_pools (close_pool p (sv_pools s)) s
  end.

(** The pools of [prev] that [next] does not use under the same name. *)
Definition closing (prev next : runtime) : list pool_id :=
  omap (λ x, if bool_decide (rt_pools next !! x.1 = Some x.2) then None else Some x.2)
    (map_to_list (rt_pools prev)).

Definition reload_updates (prev next : runtime) : list update :=
  [StoreRuntime next; SyncWatcher next] ++ map ClosePool (closing prev next).

Definition Close (s : Srv) : Srv :=
  foldl apply_update s (map (λ x, ClosePool x.2) (map_to_list (rt_pools (sv_rt s)))).

(** The settings a reload cannot apply: the warnings of [warnRestartOnly]. *)
Inductive restart_warning :=
| WarnAddress (active requested : string * Z)
| WarnSocket (active requested : string).

Definition warnRestartOnly (prev next : Server) : list restart_warning :=
  (if bool_decide (Config.Host prev = Config.Host next) && bool_decide (Config.Port prev = Config.Port next)
   then [] else [WarnAddress (Config.Host prev, Config.Port prev) (Config.Host next, Config.Port next)]) ++
  (if bool_decide (DockerSocketPath prev = DockerSocketPath next)
   then [] else [WarnSocket (DockerSocketPath prev) (DockerSocketPath next)]).

Section reload.
Context {W : Type} `{!Client W}.

(** [Reload]; [None] is a panic of a docker call. *)
Definition Reload (cfg : Config) (s : Srv) : W → option (option RuntimeError * Srv) * W :=
  λ w,
    match ValidateContainers (Some (10 * time_Second)) (ContainerNames cfg) w with
    | (None, w') => (None, w')
    | (Some (Some e), w') => (Some (Some (EContainers e), s), w')
    | (Some None, w') =>
        match buildRuntime (sv_auth s) cfg (Some (sv_rt s)) (sv_pools s) with
        | (inl e, created) => (Some (Some e, set_pools created s), w')
        | (inr next, created) =>
            (Some (None, foldl apply_update (set_pools created s)
                           (reload_updates (sv_rt s) next)), w')
        end
    end.

(** What [Reload] warns of: nothing when docker rejects the configuration. *)
Definition reload_warnings (cfg : Config) (s : Srv) : W → list restart_warning :=
  λ w,
    match ValidateContainers (Some (10 * time_Second)) (ContainerNames cfg) w with
    | (Some None, _) => warnRestartOnly (cfg_Server (rt_cfg (sv_rt s))) (cfg_Server cfg)
    | _ => []
    end.

(** [ReloadFromSource], given what reading and decoding the file gives. *)
Definition ReloadFromSource (decoded : option Config) (s : Srv) :
    W → option (option RuntimeError * Srv) * W :=
  λ w,
    if bool_decide (sv_cfgPath s = "") then (Some (Some ENoConfigSource, s), w) else
    match decoded with
    | None => (Some (Some EUnreadable, s), w)
    | Some d =>
        match Parse url_Parse d with
        | (Some cfg, _, _) => Reload cfg s w
        | (None, _, errs) => (Some (Some (EBadConfig errs), s), w)
        end
    end.

End reload.
End runtime.
