(* ===== verification/RuntimeTheorems.v ===== *)
(** * Theorems on reload

    When a signature tells two pools apart, what a server looks like after any
    sequence of reloads, what the request handlers can see during one, and what a
    rejected reload leaves behind. *)

From S2P Require Import Prelude GoStrings Format State Docker Registry Pool System Config.
From S2P Require Import ConfigTheorems Router Runtime.
Open Scope Z_scope.

(** ** Signatures *)

(** Texts without the separator, each followed by the separator or by nothing. *)
Lemma split_end c s s' t t' :
  free c s → free c s' →
  (t = "" ∨ ∃ u, t = String c u) → (t' = "" ∨ ∃ u, t' = String c u) →
  s +:+ t = s' +:+ t' → s = s' ∧ t = t'.
Proof.
  intros Hs Hs' [-> | [u ->]] [-> | [u' ->]] Heq.
  - assert (Hnil : ∀ x, x +:+ "" = x)
      by (intros x; induction x as [|a x IH]; [done|by rewrite append_cons, IH]).
    by rewrite !Hnil in Heq.
  - destruct (free_split c s' u'). rewrite <- Heq, free_app.
    by rewrite (Is_true_true_1 _ Hs).
  - destruct (free_split c s u). rewrite Heq, free_app.
    by rewrite (Is_true_true_1 _ Hs').
  - destruct (split_first c s s' u u' Hs Hs' Heq) as [-> ->]. done.
Qed.

(** The fields of a member do not contain the separators, and its startup budget
    is a whole number of seconds. *)
Record plain_member (m : MemberConfig) : Prop := {
  pm_name : free (char ":") (mc_Name m) ∧ free (char "|") (mc_Name m);
  pm_container : free (char ":") (mc_ContainerName m) ∧ free (char "|") (mc_ContainerName m);
  pm_health : free (char "|") (mc_HealthURL m);
  pm_timeout : ∃ n, 0 < n ∧ mc_StartupTimeout m = n * time_Second
}.

Definition signature_tail (ms : list MemberConfig) : string :=
  foldr (λ m acc, member_signature m +:+ acc) "" ms.

Definition member_text (m : MemberConfig) : string :=
  mc_Name m +:+ ":" +:+ mc_ContainerName m +:+ ":" +:+ mc_HealthURL m +:+ ":" +:+
  Duration_String (mc_StartupTimeout m) +:+ ":" +:+ FormatInt (mc_MaxQueue m).

Lemma signature_tail_cons m ms :
  signature_tail (m :: ms) = String (char "|") (member_text m +:+ signature_tail ms).
Proof. unfold signature_tail. simpl. unfold member_signature. by rewrite append_cons. Qed.

Lemma signature_tail_head ms :
  signature_tail ms = "" ∨ ∃ u, signature_tail ms = String (char "|") u.
Proof. destruct ms; [by left|right]. rewrite signature_tail_cons. eauto. Qed.

Lemma free_app_intro c s t : free c s → free c t → free c (s +:+ t).
Proof. intros Hs Ht. rewrite free_app. by apply andb_prop_intro. Qed.

Lemma member_text_free m : plain_member m → free (char "|") (member_text m).
Proof.
  intros [[_ Hn] [_ Hc] Hh (n & Hn0 & Ht)]. unfold member_text. rewrite Ht.
  repeat first
    [ assumption | apply Duration_String_free; (done || set_solver) | by apply FormatInt_free
    | apply free_app_intro | done ].
Qed.

Lemma member_text_inj m m' :
  plain_member m → plain_member m' → member_text m = member_text m' → m = m'.
Proof.
  intros [[Hn _] [Hc _] _ (n & Hn0 & Ht)] [[Hn' _] [Hc' _] _ (n' & Hn0' & Ht')].
  destruct m as [nm cn url tmo q], m' as [nm' cn' url' tmo' q']. unfold member_text.
  simpl in *. subst tmo tmo'.
  intros [-> [-> Heq]%(split_first (char ":"))]%(split_first (char ":")); try done.
  change (url +:+ String (char ":") (Duration_String (n * time_Second) +:+
            String (char ":") (FormatInt q))
          = url' +:+ String (char ":") (Duration_String (n' * time_Second) +:+
            String (char ":") (FormatInt q'))) in Heq.
  rewrite <- !append_cons, <- !app_assoc_str in Heq.
  apply (split_last (char ":")) in Heq as [Heq ->%FormatInt_inj]; [|by apply FormatInt_free..].
  apply (split_last (char ":")) in Heq as [-> ->%Duration_String_inj]; try done;
    apply Duration_String_free; (done || set_solver).
Qed.

Lemma signature_tail_inj ms ms' :
  Forall plain_member ms → Forall plain_member ms' →
  signature_tail ms = signature_tail ms' → ms = ms'.
Proof.
  intros Hms. revert ms'. induction Hms as [|m ms Hm Hms IH]; intros ms' Hms'.
  - destruct Hms'; [done|]. by rewrite signature_tail_cons.
  - destruct Hms' as [|m' ms' Hm' Hms']; [by rewrite signature_tail_cons|].
    rewrite !signature_tail_cons. intros [= Heq].
    apply (split_end (char "|")) in Heq as [Ht Htail];
      [|by (apply member_text_free || apply signature_tail_head)..].
    f_equal; [by apply member_text_inj|by apply IH].
Qed.

Lemma poolSignature_inj p p' ms ms' :
  Forall plain_member ms → Forall plain_member ms' →
  free (char "|") (default "" (DefaultService p)) →
  free (char "|") (default "" (DefaultService p')) →
  poolSignature p ms = poolSignature p' ms' →
  GracePeriodSeconds p = GracePeriodSeconds p' ∧ CooldownSeconds p = CooldownSeconds p' ∧
  default "" (DefaultService p) = default "" (DefaultService p') ∧ ms = ms'.
Proof.
  intros Hms Hms' Hd Hd'. unfold poolSignature. fold (signature_tail ms) (signature_tail ms').
  intros [= Heq]. apply (unit_inj (char ";")) in Heq as [-> [= Heq]]; [|done].
  apply (unit_inj (char ";")) in Heq as [-> [= Heq]]; [|done].
  apply (split_end (char "|")) in Heq as [-> ->%signature_tail_inj]; try done;
    by apply signature_tail_head.
Qed.

(** ** Configurations the signatures are meant for *)

Section reload.
Context (url_Parse : string → option URL).

(** Service names are not empty and, like container names, contain neither [:]
    nor [|]; health URLs contain no [|]; startup budgets are below 292 years. *)
Record plain_service (n : string) (s : Service) : Prop := {
  ps_nonempty : n ≠ "";
  ps_name : free (char ":") n ∧ free (char "|") n;
  ps_container : free (char ":") (svc_ContainerName s) ∧ free (char "|") (svc_ContainerName s);
  ps_health : free (char "|") (HealthURL s);
  ps_startup : StartupTimeoutSeconds s ≤ max_seconds
}.

Definition accepted (c : Config) : Prop :=
  ValidConfig url_Parse c ∧ ∀ n s, Services c !! n = Some s → plain_service n s.

Lemma accepted_members c n : accepted c → Forall plain_member (poolMembers c n).
Proof.
  intros [Hv Hp]. apply Forall_forall. intros mc (k & s & Hs & _ & ->)%poolMembers_elem.
  destruct (Hp k s Hs). split; simpl; try done.
  exists (StartupTimeoutSeconds s). pose proof (vsv_startup _ _ _ (v_service _ _ Hv k s Hs)).
  split; [lia|]. unfold StartupTimeout. apply seconds_exact. lia.
Qed.

Lemma accepted_default c n p :
  accepted c → VRAMPools c !! n = Some p → free (char "|") (default "" (DefaultService p)).
Proof.
  intros [Hv Hp] Hn. destruct (DefaultService p) as [def|] eqn:Hd; [|done].
  destruct (vp_default _ _ _ (v_pool _ _ Hv n p Hn) def Hd) as (s & Hs & _).
  by destruct (Hp _ _ Hs) as [_ [_ ?] _ _ _].
Qed.

(** A pool whose signature is unchanged has an unchanged configuration. *)
Lemma same_signature_same_pool c c' n p p' :
  accepted c → accepted c' → VRAMPools c !! n = Some p → VRAMPools c' !! n = Some p' →
  poolSignature p (poolMembers c n) = poolSignature p' (poolMembers c' n) →
  pool_config c n p = pool_config c' n p'.
Proof.
  intros Hc Hc' Hp Hp' Heq.
  apply poolSignature_inj in Heq as (Hg & Hcd & Hd & Hms);
    eauto using accepted_members, accepted_default.
  unfold pool_config, GracePeriod, Cooldown. by rewrite Hg, Hcd, Hd, Hms.
Qed.

(** ** What [buildRuntime] builds *)

Definition reused (cfg : Config) (prev : option runtime) (n : string) (p : VRAMPool) : bool :=
  match prev with
  | Some prev => bool_decide (default "" (poolSigs prev !! n) = poolSignature p (poolMembers cfg n))
  | None => false
  end.

Definition prev_pool (prev : option runtime) (n : string) : option pool_id :=
  prev ≫= λ rt, rt_pools rt !! n.

Lemma build_pool_eq cfg prev created pools sigs n p :
  build_pool cfg prev (created, pools, sigs) (n, p) =
  ((if reused cfg prev n p then created
    else created ++ [PoolState (pool_config cfg n p) false]),
   partial_alter (λ _, if reused cfg prev n p then prev_pool prev n
                       else Some (length created)) n pools,
   <[n := poolSignature p (poolMembers cfg n)]> sigs).
Proof. unfold build_pool, reused. destruct prev; simpl; [|done]. by case_bool_decide. Qed.

(** The loop over the pools: [created] grows, each pool is reused or new, and
    every pool it creates is used. *)
Record pools_built (cfg : Config) (prev : option runtime) (l : list (string * VRAMPool))
    (created created' : list pool_state) (pools pools' : gmap string pool_id)
    (sigs sigs' : gmap string string) : Prop := {
  pb_grow : ∃ extra, created' = created ++ extra;
  pb_sig : ∀ n p, (n, p) ∈ l → sigs' !! n = Some (poolSignature p (poolMembers cfg n));
  pb_reused : ∀ n p, (n, p) ∈ l → reused cfg prev n p = true → pools' !! n = prev_pool prev n;
  pb_new : ∀ n p, (n, p) ∈ l → reused cfg prev n p = false →
    ∃ id, (length created ≤ id)%nat ∧ pools' !! n = Some id ∧
          created' !! id = Some (PoolState (pool_config cfg n p) false);
  pb_rest : ∀ n, n ∉ l.*1 → pools' !! n = pools !! n ∧ sigs' !! n = sigs !! n;
  pb_used : ∀ id, (length created ≤ id < length created')%nat →
    ∃ n p, (n, p) ∈ l ∧ reused cfg prev n p = false ∧ pools' !! n = Some id
}.

Lemma build_pools_spec cfg prev l created pools sigs :
  NoDup l.*1 →
  let '(created', pools', sigs') := foldl (build_pool cfg prev) (created, pools, sigs) l in
  pools_built cfg prev l created created' pools pools' sigs sigs'.
Proof.
  revert created pools sigs. induction l as [|[n p] l IH]; intros created pools sigs Hnd.
  { simpl. split; try set_solver; [by exists []; rewrite app_nil_r|intros id; lia]. }
  apply NoDup_cons in Hnd as [Hn Hnd]. cbn [foldl]. rewrite build_pool_eq.
  match goal with |- context [foldl _ (?a, ?b, ?c) l] => specialize (IH a b c Hnd) end.
  destruct (foldl _ _ l) as [[created' pools'] sigs'].
  destruct IH as [[extra Hg] Hsig Hre Hnew Hrest Hused].
  destruct (Hrest n Hn) as [Hpn Hsn].
  rewrite lookup_partial_alter_eq in Hpn. rewrite lookup_insert_eq in Hsn.
  assert (Hlen : (length created ≤ length (if reused cfg prev n p then created
     else created ++ [PoolState (pool_config cfg n p) false]))%nat).
  { destruct (reused _ _ _ _); [done|]. rewrite length_app. lia. }
  split.
  - destruct (reused _ _ _ _); [by exists extra|].
    eexists. by rewrite Hg, <- (assoc_L (++)).
  - intros n' p' [[= -> ->]|Hin]%elem_of_cons; [done|eauto].
  - intros n' p' [[= -> ->]|Hin]%elem_of_cons Hr; [|eauto]. by rewrite Hr in Hpn.
  - intros n' p' [[= -> ->]|Hin]%elem_of_cons Hr.
    + rewrite Hr in Hpn, Hg. exists (length created). split; [done|]. split; [done|].
      rewrite Hg, <- (assoc_L (++)). by apply list_lookup_middle.
    + destruct (Hnew n' p' Hin Hr) as (id & ? & ? & ?). exists id. split; [lia|done].
  - intros n' [Hne Hn']%not_elem_of_cons. destruct (Hrest n' Hn') as [-> ->].
    by rewrite lookup_partial_alter_ne, lookup_insert_ne by done.
  - intros id Hid. destruct (decide (id < length (if reused cfg prev n p then created
       else created ++ [PoolState (pool_config cfg n p) false]))%nat) as [Hlt|Hge].
    + exists n, p. destruct (reused cfg prev n p); [lia|]. split; [by left|]. split; [done|].
      rewrite Hpn. rewrite length_app in Hlt. simpl in Hlt. f_equal. lia.
    + destruct (Hused id) as (n' & p' & ? & ? & ?); [lia|]. exists n', p'. by split; [right|].
Qed.

(** ** The services of a runtime *)

Lemma build_services_spec pools l acc services :
  NoDup l.*1 → build_services url_Parse pools l acc = inr services →
  (∀ n svc, (n, svc) ∈ l → ∃ u, url_Parse (TargetURL svc) = Some u ∧
     services !! n = Some (build_service pools n svc u)) ∧
  (∀ n, n ∉ l.*1 → services !! n = acc !! n).
Proof.
  revert acc. induction l as [|[n svc] l IH]; intros acc Hnd; simpl.
  { intros [= ->]. split; [set_solver|done]. }
  apply NoDup_cons in Hnd as [Hn Hnd].
  destruct (url_Parse (TargetURL svc)) as [u|] eqn:Hu; [|done].
  intros Hb. destruct (IH _ Hnd Hb) as [Hl Hrest]. split.
  - intros n' svc' [[= -> ->]|Hin]%elem_of_cons; [|eauto].
    exists u. split; [done|]. by rewrite Hrest, lookup_insert_eq.
  - intros n' [Hne Hn']%not_elem_of_cons. by rewrite Hrest, lookup_insert_ne.
Qed.

Lemma build_services_total pools l acc :
  (∀ n svc, (n, svc) ∈ l → is_Some (url_Parse (TargetURL svc))) →
  ∃ services, build_services url_Parse pools l acc = inr services.
Proof.
  revert acc. induction l as [|[n svc] l IH]; intros acc Hl; simpl; [eauto|].
  destruct (Hl n svc) as [u ->]; [by left|]. apply IH. intros; eapply Hl. by right.
Qed.

(** The table of the watcher, when no two services share a container. *)
Lemma watch_routes_spec rt c p :
  (∀ n n' s s', rt_services rt !! n = Some s → rt_services rt !! n' = Some s' →
     s_containerName s = s_containerName s' → n = n') →
  watch_routes rt !! c = Some p ↔
  ∃ n s, rt_services rt !! n = Some s ∧ s_containerName s = c ∧ s_pool s = Some p.
Proof.
  intros Hinj. unfold watch_routes.
  assert (Hl : ∀ l, NoDup l.*1 → (∀ n s, (n, s) ∈ l → rt_services rt !! n = Some s) →
    foldr watch_add ∅ l !! c = Some p ↔
    ∃ n s, (n, s) ∈ l ∧ s_containerName s = c ∧ s_pool s = Some p).
  { induction l as [|[n s] l IH]; intros Hnd Hl; simpl; [set_solver|].
    unfold watch_add at 1. simpl.
    apply NoDup_cons in Hnd as [Hn Hnd].
    assert (IH' := IH Hnd ltac:(intros; apply Hl; by right)). clear IH.
    destruct (s_pool s) as [q|] eqn:Hq; [|rewrite IH'; split].
    - destruct (decide (s_containerName s = c)) as [<-|Hc].
      + rewrite lookup_insert_eq. split; [intros [= ->]; exists n, s; by rewrite elem_of_cons; auto|].
        intros (n' & s' & [[= -> ->]|Hin]%elem_of_cons & Hcc & Hp'); [congruence|].
        destruct Hn. rewrite (Hinj n n' s s'); [|apply Hl; by left|apply Hl; by right|done].
        apply (list_elem_of_fmap_2 fst l (n', s') Hin).
      + rewrite lookup_insert_ne by done. rewrite IH'. split.
        * intros (n' & s' & ? & ?). exists n', s'. by split; [right|].
        * intros (n' & s' & [[= -> ->]|Hin]%elem_of_cons & ? & ?); [done|]. eauto.
    - intros (n' & s' & ? & ?). exists n', s'. by split; [right|].
    - intros (n' & s' & [[= -> ->]|Hin]%elem_of_cons & ? & ?); [congruence|]. eauto. }
  rewrite Hl; [|apply NoDup_fst_map_to_list|by intros n s ?%elem_of_map_to_list].
  by setoid_rewrite elem_of_map_to_list.
Qed.

(** What a runtime is for a configuration, apart from its pools. *)
Record runtime_of (auth : AuthOptions) (cfg : Config) (rt : runtime) : Prop := {
  ro_cfg : rt_cfg rt = cfg;
  ro_router : rt_router rt = New (Routes cfg);
  ro_cors : corsOrigins rt = CORSAllowedOrigins (cfg_Server cfg);
  ro_admin : rt_adminToken rt = resolveAdminToken auth cfg;
  ro_guarded : AdminDisabled auth = false → rt_adminToken rt ≠ "";
  ro_proxy : rt_proxyToken rt = ProxyToken (srv_Auth (cfg_Server cfg));
  ro_bytes : rt_maxRequestBytes rt = MaxRequestBytes (cfg_Server cfg);
  ro_service : ∀ n svc, Services cfg !! n = Some svc → ∃ u, url_Parse (TargetURL svc) = Some u ∧
    rt_services rt !! n = Some (build_service (rt_pools rt) n svc u);
  ro_no_service : ∀ n, Services cfg !! n = None → rt_services rt !! n = None
}.

(** The watcher routes to pools of the runtime only. *)
Lemma watch_routes_pool auth cfg rt c id :
  runtime_of auth cfg rt → watch_routes rt !! c = Some id → ∃ n, rt_pools rt !! n = Some id.
Proof.
  intros Hrt. unfold watch_routes. assert (Hl : ∀ n sv, (n, sv) ∈ map_to_list (rt_services rt) →
    s_pool sv = Some id → ∃ n, rt_pools rt !! n = Some id).
  { intros n sv Hn%elem_of_map_to_list Hid. destruct (Services cfg !! n) as [svc|] eqn:Hsvc;
      [|by rewrite (ro_no_service _ _ _ Hrt n Hsvc) in Hn].
    destruct (ro_service _ _ _ Hrt n svc Hsvc) as (u & _ & Hb). rewrite Hn in Hb.
    injection Hb as ->. simpl in Hid. apply bind_Some in Hid as (p & _ & Hp). eauto. }
  induction (map_to_list (rt_services rt)) as [|[n sv] l IH]; simpl; [set_solver|].
  unfold watch_add at 1. simpl. destruct (s_pool sv) as [q|] eqn:Hq.
  - destruct (decide (s_containerName sv = c)) as [<-|Hne].
    + rewrite lookup_insert_eq. intros [= ->]. eapply Hl; [by left|done].
    + rewrite lookup_insert_ne by done. apply IH. intros; eapply Hl; [by right|done].
  - apply IH. intros; eapply Hl; [by right|done].
Qed.

(** On a valid configuration only the admin token can be missing, and then no
    pool has been created. *)
Lemma buildRuntime_valid auth cfg prev created :
  ValidConfig url_Parse cfg →
  (buildRuntime url_Parse auth cfg prev created = (inl ENoAdminToken, created) ∧
   AdminDisabled auth = false ∧ resolveAdminToken auth cfg = "") ∨
  ∃ rt created', buildRuntime url_Parse auth cfg prev created = (inr rt, created') ∧
    runtime_of auth cfg rt ∧
    pools_built cfg prev (map_to_list (VRAMPools cfg)) created created'
      ∅ (rt_pools rt) ∅ (poolSigs rt).
Proof.
  intros Hv. unfold buildRuntime.
  destruct (negb (AdminDisabled auth) && bool_decide (resolveAdminToken auth cfg = "")) eqn:Ht.
  { apply andb_true_iff in Ht as [?%negb_true_iff ?%bool_decide_eq_true]. by left. }
  right. pose proof (build_pools_spec cfg prev (map_to_list (VRAMPools cfg)) created ∅ ∅
    (NoDup_fst_map_to_list _)) as Hb.
  destruct (foldl _ _ _) as [[created' pools] sigs].
  destruct (build_services_total pools (map_to_list (Services cfg)) ∅) as [services Hs].
  { intros n svc Hin%elem_of_map_to_list. destruct (v_service _ _ Hv n svc Hin) as [_ [_ Hu] _ _ _].
    naive_solver. }
  rewrite Hs. eexists _, _. split; [done|]. split; [|done].
  destruct (build_services_spec _ _ _ _ (NoDup_fst_map_to_list _) Hs) as [Hin Hout].
  split; simpl; try done.
  - intros Ha Htok. by rewrite Ha, Htok in Ht.
  - intros n svc Hn. by apply Hin, elem_of_map_to_list.
  - intros n Hn. rewrite Hout; [done|]. intros ([k v] & -> & Hk%elem_of_map_to_list)%list_elem_of_fmap.
    simpl in Hn. congruence.
Qed.

(** ** The invariant of a server *)

Definition open_pool (s : Srv) (id : pool_id) (pc : PoolConfig) : Prop :=
  sv_pools s !! id = Some (PoolState pc false).

(** Every pool of [rt] is open, runs the configuration [cfg] gives it, and is found
    under its signature; no other pool is open. *)
Record pools_of (cfg : Config) (rt : runtime) (s : Srv) : Prop := {
  po_run : ∀ n p, VRAMPools cfg !! n = Some p → ∃ id, rt_pools rt !! n = Some id ∧
    open_pool s id (pool_config cfg n p);
  po_none : ∀ n, VRAMPools cfg !! n = None → rt_pools rt !! n = None ∧ poolSigs rt !! n = None;
  po_sig : ∀ n p, VRAMPools cfg !! n = Some p →
    poolSigs rt !! n = Some (poolSignature p (poolMembers cfg n));
  po_open : ∀ id pc, open_pool s id pc → ∃ n, rt_pools rt !! n = Some id
}.

Record SrvInv (s : Srv) : Prop := {
  si_accepted : accepted (rt_cfg (sv_rt s));
  si_rt : runtime_of (sv_auth s) (rt_cfg (sv_rt s)) (sv_rt s);
  si_pools : pools_of (rt_cfg (sv_rt s)) (sv_rt s) s;
  si_watch : Registry.routes (sv_watcher s) = watch_routes (sv_rt s)
}.

Lemma pools_of_name cfg rt s n id :
  pools_of cfg rt s → rt_pools rt !! n = Some id →
  ∃ p, VRAMPools cfg !! n = Some p ∧ open_pool s id (pool_config cfg n p).
Proof.
  intros [Hrun Hnone _ _] Hn. destruct (VRAMPools cfg !! n) as [p|] eqn:Hp.
  - destruct (Hrun n p Hp) as (id' & ? & ?). exists p. by simplify_eq.
  - destruct (Hnone n Hp). congruence.
Qed.

(** A pool has one name. *)
Lemma pools_of_inj cfg rt s n n' id :
  pools_of cfg rt s → rt_pools rt !! n = Some id → rt_pools rt !! n' = Some id → n = n'.
Proof.
  intros Hp Hn Hn'. destruct (pools_of_name _ _ _ _ _ Hp Hn) as (p & _ & Ho).
  destruct (pools_of_name _ _ _ _ _ Hp Hn') as (p' & _ & Ho').
  unfold open_pool in *. rewrite Ho in Ho'. by injection Ho'.
Qed.

(** ** Updates *)

Lemma apply_closes s ids :
  let s' := foldl apply_update s (map ClosePool ids) in
  sv_rt s' = sv_rt s ∧ sv_watcher s' = sv_watcher s ∧ sv_auth s' = sv_auth s ∧
  ∀ id pc, open_pool s' id pc ↔ open_pool s id pc ∧ id ∉ ids.
Proof.
  revert s. induction ids as [|i ids IH]; intros s; simpl.
  { split_and!; try done. intros. set_solver. }
  destruct (IH (set_pools (close_pool i (sv_pools s)) s)) as (-> & -> & -> & Ho).
  split_and!; try done. intros id pc. rewrite Ho, not_elem_of_cons.
  unfold open_pool, close_pool, set_pools. simpl.
  destruct (decide (id = i)) as [->|Hne].
  - rewrite list_lookup_alter_eq. destruct (sv_pools s !! i) as [[]|]; naive_solver.
  - rewrite list_lookup_alter_ne by done. naive_solver.
Qed.

Lemma elem_of_closing prev next id :
  id ∈ closing prev next ↔ ∃ n, rt_pools prev !! n = Some id ∧ rt_pools next !! n ≠ Some id.
Proof.
  unfold closing. rewrite list_elem_of_omap. split.
  - intros ([n i] & Hn%elem_of_map_to_list & Hi). simpl in Hi. case_bool_decide; naive_solver.
  - intros (n & Hn & Hne). exists (n, id). split; [by apply elem_of_map_to_list|]. simpl.
    by rewrite bool_decide_eq_false_2.
Qed.

(** ** The pools after a reload *)

Lemma built_prefix cfg prev l created created' pools pools' sigs sigs' id ps :
  pools_built cfg prev l created created' pools pools' sigs sigs' →
  created !! id = Some ps → created' !! id = Some ps.
Proof. intros [[extra ->] _ _ _ _ _] Hid. by apply lookup_app_l_Some. Qed.

Section next_revision.
Context (s : Srv) (cfg : Config) (next : runtime) (created : list pool_state).
Context (Hinv : SrvInv s) (Hacc : accepted cfg).
Context (Hb : pools_built cfg (Some (sv_rt s)) (map_to_list (VRAMPools cfg))
                (sv_pools s) created ∅ (rt_pools next) ∅ (poolSigs next)).

Lemma reused_pool n p :
  VRAMPools cfg !! n = Some p → reused cfg (Some (sv_rt s)) n p = true →
  ∃ id, rt_pools (sv_rt s) !! n = Some id ∧ rt_pools next !! n = Some id ∧
    open_pool s id (pool_config cfg n p).
Proof.
  intros Hp Hr. pose proof (pb_reused _ _ _ _ _ _ _ _ _ Hb n p
    (proj2 (elem_of_map_to_list _ _ _) Hp) Hr) as Hn. simpl in Hn.
  destruct (si_pools _ Hinv) as [Hrun Hnone Hsig _].
  unfold reused in Hr. apply bool_decide_eq_true in Hr.
  destruct (VRAMPools (rt_cfg (sv_rt s)) !! n) as [p0|] eqn:Hp0.
  - destruct (Hrun n p0 Hp0) as (id & Hid & Ho). exists id. split; [done|]. split; [congruence|].
    rewrite (Hsig n p0 Hp0) in Hr. simpl in Hr.
    by rewrite <- (same_signature_same_pool _ _ n p0 p (si_accepted _ Hinv) Hacc Hp0 Hp Hr).
  - destruct (Hnone n Hp0) as [_ Hs0]. by rewrite Hs0 in Hr.
Qed.

Lemma next_pool n p :
  VRAMPools cfg !! n = Some p → ∃ id, rt_pools next !! n = Some id ∧
    created !! id = Some (PoolState (pool_config cfg n p) false) ∧
    id ∉ closing (sv_rt s) next.
Proof.
  intros Hp. pose proof (proj2 (elem_of_map_to_list _ _ _) Hp) as Hin.
  destruct (reused cfg (Some (sv_rt s)) n p) eqn:Hr.
  - destruct (reused_pool n p Hp Hr) as (id & Hid & Hn & Ho). exists id. split; [done|].
    split; [by eapply built_prefix|]. rewrite elem_of_closing. intros (n' & Hn' & Hne).
    assert (n = n') as <- by (eapply pools_of_inj; [apply Hinv|done..]). done.
  - destruct (pb_new _ _ _ _ _ _ _ _ _ Hb n p Hin Hr) as (id & Hle & Hn & Hid).
    exists id. split; [done|]. split; [done|].
    rewrite elem_of_closing. intros (n' & Hn' & _).
    destruct (pools_of_name _ _ _ _ _ (si_pools _ Hinv) Hn') as (p' & _ & Ho).
    apply lookup_lt_Some in Ho. lia.
Qed.

Lemma next_open id pc :
  created !! id = Some (PoolState pc false) → id ∉ closing (sv_rt s) next →
  ∃ n, rt_pools next !! n = Some id.
Proof.
  intros Hid Hcl. destruct (decide (id < length (sv_pools s))%nat) as [Hlt|Hge].
  - destruct (pb_grow _ _ _ _ _ _ _ _ _ Hb) as [extra He].
    rewrite He, lookup_app_l in Hid by done.
    destruct (po_open _ _ _ (si_pools _ Hinv) id pc Hid) as [n Hn]. exists n.
    destruct (decide (rt_pools next !! n = Some id)); [done|].
    destruct Hcl. apply elem_of_closing. eauto.
  - pose proof (lookup_lt_Some _ _ _ Hid).
    destruct (pb_used _ _ _ _ _ _ _ _ _ Hb id) as (n & _ & _ & _ & Hn); [lia|]. eauto.
Qed.

Lemma next_sigs n :
  (∀ p, VRAMPools cfg !! n = Some p →
     poolSigs next !! n = Some (poolSignature p (poolMembers cfg n))) ∧
  (VRAMPools cfg !! n = None → rt_pools next !! n = None ∧ poolSigs next !! n = None).
Proof.
  split.
  - intros p Hp. by apply (pb_sig _ _ _ _ _ _ _ _ _ Hb), elem_of_map_to_list.
  - intros Hp. apply (pb_rest _ _ _ _ _ _ _ _ _ Hb).
    intros ([k v] & -> & Hk%elem_of_map_to_list)%list_elem_of_fmap. simpl in Hp. congruence.
Qed.

End next_revision.

(** The first revision. *)
Lemma NewServer_inv auth cfg s :
  accepted cfg → NewServer url_Parse auth cfg = inr s → SrvInv s ∧ sv_auth s = auth.
Proof.
  intros Hacc. unfold NewServer.
  destruct (buildRuntime_valid auth cfg None [] (proj1 Hacc)) as
    [(-> & _)|(rt & created & -> & Hrt & Hb)]; [done|].
  intros [= <-]. pose proof (ro_cfg _ _ _ Hrt) as Hcfg. split; [|done].
  split; simpl; rewrite ?Hcfg; try done; [|apply (ReplaceAll_routes _ NewWatcher)].
  split; unfold open_pool; simpl.
  - intros n p Hp%elem_of_map_to_list.
    destruct (pb_new _ _ _ _ _ _ _ _ _ Hb n p Hp eq_refl) as (id & _ & ? & ?). eauto.
  - intros n Hn. apply (pb_rest _ _ _ _ _ _ _ _ _ Hb).
    intros ([k v] & -> & Hk%elem_of_map_to_list)%list_elem_of_fmap. simpl in Hn. congruence.
  - intros n p Hp. by apply (pb_sig _ _ _ _ _ _ _ _ _ Hb), elem_of_map_to_list.
  - intros id pc Hid. pose proof (lookup_lt_Some _ _ _ Hid).
    destruct (pb_used _ _ _ _ _ _ _ _ _ Hb id) as (n & _ & _ & _ & Hn); [simpl; lia|]. eauto.
Qed.

(** A revision that replaces another one. *)
Lemma updates_inv s cfg next created :
  SrvInv s → accepted cfg →
  buildRuntime url_Parse (sv_auth s) cfg (Some (sv_rt s)) (sv_pools s) = (inr next, created) →
  let s' := foldl apply_update (set_pools created s) (reload_updates (sv_rt s) next) in
  SrvInv s' ∧ sv_rt s' = next ∧ sv_auth s' = sv_auth s.
Proof.
  intros Hinv Hacc Hbuild.
  destruct (buildRuntime_valid (sv_auth s) cfg (Some (sv_rt s)) (sv_pools s) (proj1 Hacc)) as
    [(Hb & _)|(rt & cr & Hb & Hrt & Hpb)]; rewrite Hbuild in Hb; simplify_eq.
  unfold reload_updates. rewrite foldl_app. cbn [foldl].
  match goal with |- context [foldl apply_update ?s1 (map ClosePool ?ids)] =>
    destruct (apply_closes s1 ids) as (Er & Ew & Ea & Eo);
    generalize dependent (foldl apply_update s1 (map ClosePool ids)) end.
  simpl. intros s' Er Ew Ea Eo. pose proof (ro_cfg _ _ _ Hrt) as Hcfg.
  split; [|by rewrite Er, Ea]. split; rewrite ?Er, ?Ew, ?Ea, ?Hcfg; simpl; try done;
    [|apply (ReplaceAll_routes _ NewWatcher)].
  split.
  - intros n p Hp. destruct (next_pool _ _ _ _ Hinv Hacc Hpb n p Hp) as (id & ? & ? & ?).
    exists id. by rewrite Eo.
  - intros n. by eapply next_sigs.
  - intros n p. by eapply next_sigs.
  - intros id pc [Hid Hcl]%Eo. by eapply next_open.
Qed.

(** A service of a runtime is one of its configuration. *)
Lemma runtime_service auth cfg rt n sv :
  runtime_of auth cfg rt → rt_services rt !! n = Some sv →
  ∃ svc u, Services cfg !! n = Some svc ∧ sv = build_service (rt_pools rt) n svc u.
Proof.
  intros Hrt Hn. destruct (Services cfg !! n) as [svc|] eqn:Hsvc;
    [|by rewrite (ro_no_service _ _ _ Hrt n Hsvc) in Hn].
  destruct (ro_service _ _ _ Hrt n svc Hsvc) as (u & _ & Hb). rewrite Hn in Hb.
  injection Hb as ->. eauto.
Qed.

Lemma containers_inj auth cfg rt :
  ValidConfig url_Parse cfg → runtime_of auth cfg rt →
  ∀ n n' s s', rt_services rt !! n = Some s → rt_services rt !! n' = Some s' →
    s_containerName s = s_containerName s' → n = n'.
Proof.
  intros Hv Hrt n n' sv sv' Hn Hn'.
  destruct (runtime_service _ _ _ _ _ Hrt Hn) as (svc & u & Hs & ->).
  destruct (runtime_service _ _ _ _ _ Hrt Hn') as (svc' & u' & Hs' & ->).
  simpl. by eapply v_containers.
Qed.

(** ** Reachable servers *)

Context {W : Type} `{!Client W}.

(** A server started on an accepted configuration and reloaded, with or without
    success, on accepted ones. *)
Inductive server_reach (auth : AuthOptions) : Srv → Prop :=
| sr_new cfg path s :
    accepted cfg → NewServer url_Parse auth cfg = inr s →
    server_reach auth (SetConfigSource path s)
| sr_reload s cfg w r s' w' :
    server_reach auth s → accepted cfg →
    Reload url_Parse cfg s w = (Some (r, s'), w') → server_reach auth s'.

(** A reload is rejected and changes nothing, or replaces the revision. *)
Lemma Reload_cases cfg (s : Srv) (w : W) r s' w' :
  SrvInv s → accepted cfg → Reload url_Parse cfg s w = (Some (r, s'), w') →
  (∃ e, r = Some e ∧ s' = s) ∨
  (r = None ∧ ∃ next created,
     buildRuntime url_Parse (sv_auth s) cfg (Some (sv_rt s)) (sv_pools s) = (inr next, created) ∧
     s' = foldl apply_update (set_pools created s) (reload_updates (sv_rt s) next)).
Proof.
  intros Hinv Hacc. unfold Reload.
  destruct (ValidateContainers _ _ w) as [[[e|]|] w1]; [intros; simplify_eq; eauto| |done].
  destruct (buildRuntime_valid (sv_auth s) cfg (Some (sv_rt s)) (sv_pools s) (proj1 Hacc)) as
    [(-> & _)|(next & created & -> & _)]; intros; simplify_eq; [left|right; eauto].
  eexists. split; [done|]. by destruct s.
Qed.

Lemma server_reach_inv auth s : server_reach auth s → SrvInv s ∧ sv_auth s = auth.
Proof.
  induction 1 as [cfg path s Hacc Hs|s cfg w r s' w' _ [Hinv Ha] Hacc Hr].
  - destruct (NewServer_inv auth cfg s Hacc Hs) as [[Ha Hr [] Hw] Hau].
    split; [by split|done].
  - destruct (Reload_cases cfg s w r s' w' Hinv Hacc Hr) as [(e & _ & ->)|(_ & next & cr & Hb & ->)];
      [done|]. destruct (updates_inv s cfg next cr Hinv Hacc Hb) as (? & _ & ->). done.
Qed.

(** C21: a server never drifts from its configuration. After any sequence of
    reloads, successful and rejected, between configurations that are [accepted]
    (valid, and plain in the sense of [plain_service]; [signature_collides] shows that
    validity alone is not enough), every pool of the current revision is open and
    runs exactly the configuration that this revision gives it, one the manager is
    verified for, even if the pool was created revisions ago; no other pool is left
    open; the watcher routes the events of a container to the pool of its service
    and nothing else; and the control plane is without a token only if that was
    asked for at boot. *)
Theorem server_follows_config auth s :
  server_reach auth s →
  let cfg := rt_cfg (sv_rt s) in
  (∀ n p, VRAMPools cfg !! n = Some p → ∃ id, rt_pools (sv_rt s) !! n = Some id ∧
     open_pool s id (pool_config cfg n p) ∧ config_ok (pool_config cfg n p)) ∧
  (∀ id pc, open_pool s id pc → ∃ n, rt_pools (sv_rt s) !! n = Some id) ∧
  (∀ c id, Registry.routes (sv_watcher s) !! c = Some id ↔
     ∃ n svc p, Services cfg !! n = Some svc ∧ svc_ContainerName svc = c ∧
       svc_VRAMPool svc = Some p ∧ rt_pools (sv_rt s) !! p = Some id) ∧
  (rt_adminToken (sv_rt s) = "" ↔ AdminDisabled auth = true).
Proof.
  intros [[[Hv Hplain] Hrt Hpools Hw] <-]%server_reach_inv. cbv zeta. split_and!.
  - intros n p Hp. destruct (po_run _ _ _ Hpools n p Hp) as (id & ? & ?). exists id.
    split_and!; try done. eapply valid_pool_config_ok; [done..|].
    destruct (Services _ !! "") as [svc|] eqn:He; [|done]. by destruct (Hplain _ _ He).
  - apply Hpools.
  - intros c id. rewrite Hw, watch_routes_spec.
    + split.
      * intros (n & sv & Hn & Hc & Hid).
        destruct (Services (rt_cfg (sv_rt s)) !! n) as [svc|] eqn:Hsvc;
          [|by rewrite (ro_no_service _ _ _ Hrt n Hsvc) in Hn].
        destruct (ro_service _ _ _ Hrt n svc Hsvc) as (u & _ & Hb). simplify_eq. simpl in *.
        apply bind_Some in Hid as (p & Hp & Hid). eauto 10.
      * intros (n & svc & p & Hsvc & Hc & Hp & Hid).
        destruct (ro_service _ _ _ Hrt n svc Hsvc) as (u & _ & Hb).
        eexists n, _. split; [done|]. split; [done|]. simpl. by rewrite Hp.
    + by eapply containers_inj.
  - rewrite (ro_admin _ _ _ Hrt). unfold resolveAdminToken.
    pose proof (ro_guarded _ _ _ Hrt) as Hg. rewrite (ro_admin _ _ _ Hrt) in Hg.
    unfold resolveAdminToken in Hg.
    destruct (AdminDisabled (sv_auth s)); [done|]. split; [by intros ?%Hg|done].
Qed.

(** An old pool that is still open after the updates is used under its name. *)
Lemma open_after s next created n id pc :
  rt_pools (sv_rt s) !! n = Some id →
  open_pool (foldl apply_update (set_pools created s) (reload_updates (sv_rt s) next)) id pc →
  rt_pools next !! n = Some id.
Proof.
  intros Hn Ho. unfold reload_updates in Ho. rewrite foldl_app in Ho.
  apply apply_closes in Ho as [_ Hcl].
  destruct (decide (rt_pools next !! n = Some id)); [done|].
  destruct Hcl. apply elem_of_closing. eauto.
Qed.

(** The name of an old pool in the next revision: kept, or not the same pool. *)
Lemma kept_or_not s cfg next created n p id :
  SrvInv s → accepted cfg →
  pools_built cfg (Some (sv_rt s)) (map_to_list (VRAMPools cfg))
    (sv_pools s) created ∅ (rt_pools next) ∅ (poolSigs next) →
  VRAMPools (rt_cfg (sv_rt s)) !! n = Some p → rt_pools (sv_rt s) !! n = Some id →
  let same p' := VRAMPools cfg !! n = Some p' ∧ poolSignature p' (poolMembers cfg n) =
                   poolSignature p (poolMembers (rt_cfg (sv_rt s)) n) in
  (∃ p', same p' ∧ rt_pools next !! n = Some id) ∨
  (¬ (∃ p', same p') ∧ rt_pools next !! n ≠ Some id).
Proof.
  intros Hinv Hacc Hb Hp Hid. cbv zeta.
  pose proof (po_sig _ _ _ (si_pools _ Hinv) n p Hp) as Hsig.
  destruct (VRAMPools cfg !! n) as [p'|] eqn:Hp'.
  - destruct (reused cfg (Some (sv_rt s)) n p') eqn:Hre; pose proof Hre as Hre'; unfold reused in Hre';
      rewrite Hsig in Hre'; simpl in Hre'.
    + apply bool_decide_eq_true in Hre'. left. exists p'. split; [done|].
      destruct (reused_pool _ _ _ _ Hinv Hacc Hb n p' Hp' Hre) as (id' & Hid' & Hn' & _).
      congruence.
    + apply bool_decide_eq_false in Hre'. right. split; [intros (q & [= ->] & He); congruence|].
      destruct (pb_new _ _ _ _ _ _ _ _ _ Hb n p') as (i & Hi & -> & _);
        [by apply elem_of_map_to_list|done|]. intros [= ->].
      destruct (pools_of_name _ _ _ _ _ (si_pools _ Hinv) Hid) as (q & _ & Ho).
      apply lookup_lt_Some in Ho. lia.
  - right. split; [naive_solver|].
    by destruct (proj2 (next_sigs _ _ _ _ Hb n) Hp') as [-> _].
Qed.

(** C22: a request finds its service where it is sent. In every server that reloads
    between [accepted] configurations can lead to (for merely valid ones
    [signature_collides] is a counterexample), the pool that the handler asks for a service is open, has that service as a member,
    with the container and the health URL of the current revision, and gets the
    docker events of that container: neither a request nor an operator's swap is
    ever refused because the service is unknown to its pool. *)
Theorem services_reach_their_pool auth s n sv id :
  server_reach auth s → rt_services (sv_rt s) !! n = Some sv → s_pool sv = Some id →
  s_name sv = n ∧
  Registry.routes (sv_watcher s) !! s_containerName sv = Some id ∧
  ∃ pc mc, open_pool s id pc ∧ mc ∈ pc_Members pc ∧ mc_Name mc = n ∧
    mc_ContainerName mc = s_containerName sv ∧ mc_HealthURL mc = s_healthURL sv.
Proof.
  intros [[[Hv _] Hrt Hpools Hw] _]%server_reach_inv Hn Hid.
  assert (Hroute : watch_routes (sv_rt s) !! s_containerName sv = Some id)
    by (apply watch_routes_spec; [by eapply containers_inj|eauto]).
  destruct (runtime_service _ _ _ _ _ Hrt Hn) as (svc & u & Hsvc & ->). simpl in *.
  apply bind_Some in Hid as (p & Hp & Hid).
  destruct (pools_of_name _ _ _ _ _ Hpools Hid) as (pool & _ & Ho).
  split; [done|]. split; [by rewrite Hw|].
  eexists _, (member_config (rt_cfg (sv_rt s)) n svc). split; [exact Ho|].
  split; [|done]. apply poolMembers_elem. eauto.
Qed.

(** C29: what a reload between [accepted] configurations does. One that fails changes
    nothing at all. One that succeeds installs the new revision, in which a pool whose
    signature is unchanged is the very same pool (its queue and its active container
    survive), with an unchanged configuration; every other pool of the old revision is
    closed, at once, whatever it is serving ([removed_service_is_abandoned]). *)
Theorem reload_outcome auth cfg s w r s' w' :
  server_reach auth s → accepted cfg → Reload url_Parse cfg s w = (Some (r, s'), w') →
  match r with
  | Some _ => s' = s
  | None =>
      rt_cfg (sv_rt s') = cfg ∧
      ∀ n p id, VRAMPools (rt_cfg (sv_rt s)) !! n = Some p → rt_pools (sv_rt s) !! n = Some id →
        (∃ p', VRAMPools cfg !! n = Some p' ∧
           poolSignature p' (poolMembers cfg n) =
             poolSignature p (poolMembers (rt_cfg (sv_rt s)) n) ∧
           pool_config cfg n p' = pool_config (rt_cfg (sv_rt s)) n p ∧
           rt_pools (sv_rt s') !! n = Some id ∧ open_pool s' id (pool_config cfg n p')) ∨
        (¬ (∃ p', VRAMPools cfg !! n = Some p' ∧ poolSignature p' (poolMembers cfg n) =
               poolSignature p (poolMembers (rt_cfg (sv_rt s)) n)) ∧
         ∀ pc, ¬ open_pool s' id pc)
  end.
Proof.
  intros [Hinv _]%server_reach_inv Hacc Hr.
  destruct (Reload_cases cfg s w r s' w' Hinv Hacc Hr) as
    [(e & -> & ->)|(-> & next & created & Hb & ->)]; [done|].
  destruct (updates_inv s cfg next created Hinv Hacc Hb) as (Hinv' & Hnext & _).
  destruct (buildRuntime_valid (sv_auth s) cfg (Some (sv_rt s)) (sv_pools s) (proj1 Hacc)) as
    [(Hb' & _)|(rt & cr & Hb' & Hrt & Hpb)]; rewrite Hb in Hb'; simplify_eq.
  pose proof (ro_cfg _ _ _ Hrt) as Hcfg. pose proof (si_pools _ Hinv') as Hp2.
  rewrite Hnext, Hcfg in *. split; [done|]. intros n p id Hp Hid.
  destruct (kept_or_not s cfg rt cr n p id Hinv Hacc Hpb Hp Hid) as
    [(p' & [Hp' Hs] & Hn)|[Hno Hne]]; [left|right].
  - exists p'. destruct (po_run _ _ _ Hp2 n p' Hp') as (id2 & Hid2 & Ho).
    assert (id2 = id) as -> by congruence.
    split_and!; try done. eapply same_signature_same_pool; eauto. apply Hinv.
  - split; [done|]. intros pc Ho. by eapply Hne, open_after.
Qed.

(** C30: a reload is seamless. At every point of it, whichever of its updates the
    request handlers, which take no lock, have seen, the pools of the current
    revision and the pools the watcher routes events to are open: a request that
    loads the current revision never finds a pool that the reload has closed. *)
Theorem reload_is_seamless auth cfg s next created done_ todo id :
  server_reach auth s → accepted cfg →
  buildRuntime url_Parse (sv_auth s) cfg (Some (sv_rt s)) (sv_pools s) = (inr next, created) →
  done_ ++ todo = reload_updates (sv_rt s) next →
  let s' := foldl apply_update (set_pools created s) done_ in
  ((∃ n, rt_pools (sv_rt s') !! n = Some id) ∨
   (∃ c, Registry.routes (sv_watcher s') !! c = Some id)) →
  ∃ pc, open_pool s' id pc.
Proof.
  intros [Hinv _]%server_reach_inv Hacc Hbuild Hus. cbv zeta.
  destruct (buildRuntime_valid (sv_auth s) cfg (Some (sv_rt s)) (sv_pools s) (proj1 Hacc)) as
    [(Hb' & _)|(rt & cr & Hb' & Hrt & Hpb)]; rewrite Hbuild in Hb'; simplify_eq.
  assert (Hold : ∀ n, rt_pools (sv_rt s) !! n = Some id →
            ∃ pc, cr !! id = Some (PoolState pc false)).
  { intros n Hn. destruct (pools_of_name _ _ _ _ _ (si_pools _ Hinv) Hn) as (p & _ & Ho).
    eexists. by eapply built_prefix. }
  assert (Hnew : ∀ n, rt_pools rt !! n = Some id → (id ∉ closing (sv_rt s) rt) ∧
            (∃ pc, cr !! id = Some (PoolState pc false))).
  { intros n Hn. destruct (VRAMPools cfg !! n) as [p|] eqn:Hp.
    - destruct (next_pool _ _ _ _ Hinv Hacc Hpb n p Hp) as (i & Hi & Ho & Hcl).
      simplify_eq. eauto.
    - destruct (proj2 (next_sigs _ _ _ _ Hpb n) Hp). congruence. }
  assert (Hw : ∀ c, Registry.routes (sv_watcher s) !! c = Some id →
            ∃ n, rt_pools (sv_rt s) !! n = Some id).
  { rewrite (si_watch _ Hinv). intros c. eapply watch_routes_pool, Hinv. }
  destruct done_ as [|u1 [|u2 us]]; simpl in Hus |- *.
  - intros [[n Hn]|[c [n Hn]%Hw]]; unfold open_pool; simpl; eauto.
  - injection Hus as -> _. intros [[n [_ Hn]%Hnew]|[c [n Hn]%Hw]]; unfold open_pool; simpl; eauto.
  - injection Hus as -> -> Hus. simpl. symmetry in Hus.
    apply map_eq_app in Hus as (ids1 & ids2 & Hids & <- & _).
    match goal with |- context [foldl apply_update ?s1 (map ClosePool ids1)] =>
      destruct (apply_closes s1 ids1) as (Er & Ew & _ & Eo);
      generalize dependent (foldl apply_update s1 (map ClosePool ids1)) end.
    simpl. intros s' Er Ew Eo. rewrite Er, Ew. intros Hid.
    assert (∃ n, rt_pools rt !! n = Some id) as [n [Hcl [pc Hpc]]%Hnew].
    { destruct Hid as [|[c Hc]]; [done|]. eapply watch_routes_pool; [exact Hrt|].
      by rewrite <- (ReplaceAll_routes (watch_routes rt) NewWatcher). }
    exists pc. apply Eo. split; [done|]. rewrite Hids in Hcl. set_solver.
Qed.

End reload.

(** ** A server on the in-memory docker, and its reload *)

Definition demo_auth : AuthOptions := {| AdminDisabled := false; GenAdminToken := "generated" |}.
Definition demo_cfg1 : Config := demo_config "comfy" 60.
Definition demo_cfg2 : Config := demo_config "comfy" 30.
Definition demo_docker : FakeClient := NewFake (λ _ n, n) ["llama-container"; "other"].
#[local] Existing Instance fakeClient | 100.
#[local] Instance demo_client : Client FakeClient := fakeClient no_hooks.

Definition demo_new : Srv :=
  match NewServer demo_url demo_auth demo_cfg1 with
  | inr s => s
  | inl _ => MkSrv demo_auth (MkRuntime demo_cfg1 [] (New []) ∅ ∅ ∅ "" "" 0) NewWatcher [] ""
  end.
Definition demo_srv : Srv := SetConfigSource "config.yaml" demo_new.

Definition demo_reload (cfg : Config) (s : Srv) : Srv :=
  match Reload demo_url cfg s demo_docker with
  | (Some (_, s'), _) => s'
  | _ => s
  end.

Definition demo_reloaded : Srv := demo_reload demo_cfg2 demo_srv.

Lemma demo_plain (n container : string) :
  n ≠ "" → free (char ":") n ∧ free (char "|") n →
  free (char ":") container ∧ free (char "|") container →
  plain_service n (demo_service container).
Proof.
  intros Hn Hf Hc. apply Build_plain_service; [exact Hn|exact Hf|exact Hc|vm_compute; exact I|].
  simpl. unfold max_seconds. lia.
Qed.

Lemma demo_accepted grace :
  (validate demo_url (demo_config "comfy" grace)).2 = [] →
  accepted demo_url (demo_config "comfy" grace).
Proof.
  intros Hv. split; [by apply validate_ok|]. intros n s Hn.
  unfold demo_config in Hn. cbn [Services] in Hn.
  apply lookup_insert_Some in Hn as [[<- <-]|[_ Hn]];
    [|apply lookup_singleton_Some in Hn as [<- <-]];
    (apply demo_plain; [discriminate|vm_compute; split; exact I|vm_compute; split; exact I]).
Qed.

Lemma demo_new_eq : NewServer demo_url demo_auth demo_cfg1 = inr demo_new.
Proof. vm_compute. reflexivity. Qed.

Lemma demo_srv_reach : server_reach demo_url demo_auth demo_srv.
Proof.
  eapply sr_new; [|exact demo_new_eq]. apply demo_accepted. vm_compute. reflexivity.
Qed.

Lemma demo_reload_eq :
  Reload demo_url demo_cfg2 demo_srv demo_docker = (Some (None, demo_reloaded), demo_docker).
Proof. vm_compute. reflexivity. Qed.

Lemma server_follows_config_witness :
  ∃ id, rt_pools (sv_rt demo_srv) !! "gpu" = Some id ∧
    open_pool demo_srv id (pool_config demo_cfg1 "gpu" (demo_pool 60)).
Proof.
  destruct (server_follows_config demo_url demo_auth demo_srv demo_srv_reach) as (Hrun & _).
  destruct (Hrun "gpu" (demo_pool 60)) as (id & Hid & Ho & _); [vm_compute; reflexivity|].
  exists id. split; [exact Hid|]. exact Ho.
Defined.

Lemma services_reach_their_pool_witness :
  Registry.routes (sv_watcher demo_srv) !! "other" = Some 0%nat ∧
  ∃ pc mc, open_pool demo_srv 0%nat pc ∧ mc ∈ pc_Members pc ∧ mc_Name mc = "comfy".
Proof.
  destruct (services_reach_their_pool demo_url demo_auth demo_srv "comfy"
    (MkService "comfy" "other" {| url_Scheme := "http"; url_Host := "host:8080"; url_Hostname := "host" |} "http://host:8080/health" (Some 0%nat)) 0%nat
    demo_srv_reach) as (_ & Hr & pc & mc & Ho & Hm & Hn & _);
    [vm_compute; reflexivity|reflexivity|].
  split; [exact Hr|]. exists pc, mc. split; [exact Ho|]. split; [exact Hm|exact Hn].
Defined.

(** The new grace period makes a new pool; the old one, number 0, is closed. *)
Lemma reload_outcome_witness :
  rt_cfg (sv_rt demo_reloaded) = demo_cfg2 ∧ ∀ pc, ¬ open_pool demo_reloaded 0%nat pc.
Proof.
  destruct (reload_outcome demo_url demo_auth demo_cfg2 demo_srv demo_docker None demo_reloaded
    demo_docker demo_srv_reach (demo_accepted 30 ltac:(vm_compute; reflexivity)) demo_reload_eq)
    as [Hcfg Hpools]. split; [exact Hcfg|].
  destruct (Hpools "gpu" (demo_pool 60) 0%nat) as [(p' & Hp' & Hs & _)|[_ Hc]];
    [vm_compute; reflexivity|vm_compute; reflexivity| |exact Hc].
  assert (Hp2 : VRAMPools demo_cfg2 !! "gpu" = Some (demo_pool 30)) by (vm_compute; reflexivity).
  assert (p' = demo_pool 30) as -> by congruence.
  exfalso. revert Hs. vm_compute. discriminate.
Defined.

Lemma reload_is_seamless_witness :
  let s' := foldl apply_update
    (set_pools (buildRuntime demo_url demo_auth demo_cfg2 (Some (sv_rt demo_srv))
                  (sv_pools demo_srv)).2 demo_srv)
    [StoreRuntime (sv_rt demo_reloaded)] in
  ∃ pc, open_pool s' 1%nat pc.
Proof.
  refine (reload_is_seamless demo_url demo_auth demo_cfg2 demo_srv (sv_rt demo_reloaded) _
    [StoreRuntime (sv_rt demo_reloaded)]
    (SyncWatcher (sv_rt demo_reloaded) ::
       map ClosePool (closing (sv_rt demo_srv) (sv_rt demo_reloaded))) 1%nat
    demo_srv_reach (demo_accepted 30 ltac:(vm_compute; reflexivity)) _ _ _).
  - vm_compute. reflexivity.
  - reflexivity.
  - left. exists "gpu". vm_compute. reflexivity.
Defined.

(** ** Things the comments and the documentation promise and the code does not do *)

(** A reload after [Close] opens a pool that nobody will close: the comment of
    [Close] says that a reload that races with it cannot leave freshly-built pools
    unclosed. *)
Theorem reload_after_close_leaks :
  (∀ id pc, ¬ open_pool (Close demo_srv) id pc) ∧
  open_pool (demo_reload demo_cfg2 (Close demo_srv)) 1%nat
    (pool_config demo_cfg2 "gpu" (demo_pool 30)).
Proof.
  split; [|vm_compute; reflexivity]. intros [|[|id]] pc; vm_compute; discriminate.
Qed.

(** The signature is not a fingerprint: a health path that contains the separators
    makes one service look like two. After a reload the pool of the first
    configuration is kept, and it does not know the second service. *)
Definition twin_service (container path : string) : Service :=
  {| svc_ContainerName := container; TargetURL := "http://h"; HealthPath := path;
     StartupTimeoutSeconds := 180; svc_MaxQueueSize := 0; svc_VRAMPool := Some "gpu" |}.

Definition twin_config (services : gmap string Service) : Config :=
  {| cfg_Server := demo_server; VRAMPools := {[ "gpu" := demo_pool 60 ]};
     Services := services;
     Routes := [{| PathPrefix := "/"; rt_Service := "a"; Headers := ∅; Models := ∅ |}] |}.

Definition twin1 : Config :=
  twin_config {[ "a" := twin_service "ca" "/x:3m0s:100|b:cb:http://h/y" ]}.
Definition twin2 : Config :=
  twin_config {[ "a" := twin_service "ca" "/x"; "b" := twin_service "cb" "/y" ]}.

Theorem signature_collides :
  (validate demo_url twin1).2 = [] ∧ (validate demo_url twin2).2 = [] ∧
  poolSignature (demo_pool 60) (poolMembers twin1 "gpu") =
    poolSignature (demo_pool 60) (poolMembers twin2 "gpu") ∧
  map mc_Name (poolMembers twin1 "gpu") = ["a"] ∧
  map mc_Name (poolMembers twin2 "gpu") = ["a"; "b"].
Proof. repeat split; vm_compute; reflexivity. Qed.

(** A reload that removes a service from a pool closes the pool, even while that
    service is active in it: the pool that takes its place does not know the
    service, no pool gets the events of its container any more, and so nothing will
    ever cool it down or swap it out. *)
Definition twin3 : Config := twin_config {[ "a" := twin_service "ca" "/x" ]}.
Definition twin_srv : Srv :=
  match NewServer demo_url demo_auth twin2 with inr s => s | inl _ => demo_srv end.
Definition twin_reload (s : Srv) : Srv :=
  match Reload demo_url twin3 s (NewFake (λ _ n, n) ["ca"; "cb"]) with
  | (Some (None, s'), _) => s'
  | _ => s
  end.

Theorem removed_service_is_abandoned :
  open_pool twin_srv 0%nat (pool_config twin2 "gpu" (demo_pool 60)) ∧
  Registry.routes (sv_watcher twin_srv) !! "cb" = Some 0%nat ∧
  let s' := twin_reload twin_srv in
  rt_cfg (sv_rt s') = twin3 ∧ (∀ pc, ¬ open_pool s' 0%nat pc) ∧
  (∀ id pc, open_pool s' id pc → map mc_Name (pc_Members pc) = ["a"]) ∧
  Registry.routes (sv_watcher s') !! "cb" = None.
Proof.
  split; [vm_compute; reflexivity|]. split; [vm_compute; reflexivity|]. cbv zeta.
  split; [vm_compute; reflexivity|]. split; [intros pc; vm_compute; discriminate|].
  split; [|vm_compute; reflexivity].
  intros [|[|[|id]]] pc; vm_compute; [discriminate|intros [= <-]; reflexivity|discriminate..].
Qed.
