(* ===== verification/Handler.v ===== *)
(** * The request flow ([src/internal/server/handler.go], [auth.go], [cors.go])

    What becomes of one request under one configuration revision: CORS, the
    reserved namespace and its token, the proxy token, the body cap, routing with
    the model in the body, admission to the pool of the service, and forwarding.
    Forwarding itself is [net/http/httputil]'s, the admin endpoints are those of
    [Admin]. *)

From S2P Require Import Prelude GoStrings State Http Registry Config Router Proxy Runtime.
Open Scope Z_scope.

(** ** Tokens ([auth.go]) *)

Definition adminTokenHeader : string := "X-Stagehand-Admin-Token".
Definition proxyTokenHeader : string := "X-Stagehand-Token".

(** A missing header always fails; the comparison is of the whole texts. *)
Definition checkToken (r : Request) (header want : string) : bool :=
  let got := Header_Get (req_Header r) header in
  if bool_decide (got = "") then false else bool_decide (got = want).

(** ** CORS ([cors.go]) *)

Definition allowedOrigin (r : Request) (allowed : list string) : string :=
  let origin := Header_Get (req_Header r) "Origin" in
  if bool_decide (origin = "") then ""
  else if bool_decide ("*" ∈ allowed) || bool_decide (origin ∈ allowed) then origin
  else "".

Definition preflight (allowed : list string) : H () :=
  Set_ "Vary" "Origin";;
  req ← get_req;
  let origin := allowedOrigin req allowed in
  (if bool_decide (origin ≠ "") then
     Set_ "Access-Control-Allow-Origin" origin;;
     Set_ "Access-Control-Allow-Methods" "GET, POST, OPTIONS, PUT, DELETE";;
     (let asked := Header_Get (req_Header req) "Access-Control-Request-Headers" in
      Set_ "Access-Control-Allow-Headers" (if bool_decide (asked ≠ "") then asked else "*"));;
     Set_ "Access-Control-Max-Age" "600"
   else mret tt);;
  write_header StatusOK.

Definition setCORSOrigin (allowed : list string) : H () :=
  Set_ "Vary" "Origin";;
  req ← get_req;
  let origin := allowedOrigin req allowed in
  if bool_decide (origin ≠ "") then Set_ "Access-Control-Allow-Origin" origin else mret tt.

(** ** The request flow ([Server.handle]) *)

Section handle.
(** What the other goroutines and [encoding/json] answer: the admission to a pool,
    whether the context of the request has passed its deadline, and the model of a
    JSON body. *)
Context (Admit : pool_id → string → AdmitResult * option GoError).
Context (deadline_exceeded : bool).
Context (unmarshal : string → option string).

Definition hasJSONBody (r : Request) : bool :=
  Contains (Header_Get (req_Header r) "Content-Type") "json".

Definition detail_of (err : option GoError) : Detail :=
  match err with Some e => DErr e | None => DNone end.

(** The body cap: [true] when the request has been answered. *)
Definition cap_body (max : Z) : H bool :=
  if bool_decide (0 < max) then
    req ← get_req;
    if bool_decide (max < ContentLength req) then
      Set_ "Connection" "close";;
      close_body (req_Body req);;
      writeError StatusRequestEntityTooLarge "request body too large"
        (DContentLength (ContentLength req) max);;
      mret true
    else
      put_req (set_body (MaxBytesReader max (req_Body req)) req);;
      mret false
  else mret false.

(** Routing, a second time when the model of the body is needed and found. *)
Definition match_route (rt : runtime) : H (IOError + option Match) :=
  req ← get_req;
  match Router_Match (rt_router rt) (URL_Path req) (req_Header req) "" with
  | None => mret (inr None)
  | Some m =>
      if m_NeedsModel m && bool_decide (Method req = "POST") && hasJSONBody req then
        res ← PeekModel unmarshal (rt_maxRequestBytes rt);
        match res with
        | inl e => mret (inl e)
        | inr model =>
            if bool_decide (model ≠ "") then
              req ← get_req;
              mret (inr (Router_Match (rt_router rt) (URL_Path req) (req_Header req) model))
            else mret (inr (Some m))
        end
      else mret (inr (Some m))
  end.

(** The answer to a failed admission; [true] for a request that may go on. *)
Definition pool_admission (svc : service) : H bool :=
  match s_pool svc with
  | None => mret true
  | Some p =>
      emit (CallAdmit p (s_name svc));;
      let '(res, err) := Admit p (s_name svc) in
      match res with
      | AdmitGo => mret true
      | AdmitQueueFull =>
          Set_ "Retry-After" "5";;
          writeError StatusTooManyRequests "service queue is full" (detail_of err);;
          mret false
      | AdmitDockerError =>
          writeError StatusBadGateway "docker operation failed" (detail_of err);; mret false
      | AdmitStartupTimeout =>
          writeError StatusGatewayTimeout "service failed to become healthy in time"
            (detail_of err);;
          mret false
      | AdmitShutdown =>
          writeError StatusServiceUnavailable "stagehand is shutting down" (detail_of err);;
          mret false
      | AdmitCanceled =>
          (if deadline_exceeded then
             writeError StatusGatewayTimeout "request deadline exceeded while waiting for service"
               (detail_of err)
           else mret tt);;
          mret false
      end
  end.

Definition forward (svc : service) : H () :=
  req ← get_req;
  h ← gets hs_header;
  if IsWebSocketUpgrade req then emit (Tunnel (s_name svc) req h)
  else emit (Forward (s_name svc) req h).

(** From routing on. *)
Definition serve (rt : runtime) : H () :=
  res ← match_route rt;
  match res with
  | inl (MaxBytesError limit) =>
      writeError StatusRequestEntityTooLarge "request body too large" (DLimit limit)
  | inl e => writeError StatusBadRequest "unreadable request body" (DPeek e)
  | inr None => writeUnmatched (KnownRoutes (rt_router rt))
  | inr (Some m) =>
      match rt_services rt !! m_Service m with
      | None =>
          writeError StatusInternalServerError "route target missing"
            (DText ("service " +:+ m_Service m +:+ " is not configured"))
      | Some svc =>
          go ← pool_admission svc;
          if (go : bool) then forward svc else mret tt
      end
  end.

Definition Server_handle (rt : runtime) : H () :=
  req ← get_req;
  if bool_decide (Method req = "OPTIONS") then preflight (corsOrigins rt) else
  setCORSOrigin (corsOrigins rt);;
  if bool_decide (Method req = "GET") && bool_decide (URL_Path req = "/stagehand/healthz") then
    writeJSON StatusOK PHealthz
  else if HasPrefix (URL_Path req) "/stagehand/" then
    if bool_decide (rt_adminToken rt ≠ "") &&
       negb (checkToken req adminTokenHeader (rt_adminToken rt)) then
      writeError StatusUnauthorized "admin authentication required"
        (DText ("missing or invalid " +:+ adminTokenHeader))
    else emit (ServeAdmin req)
  else if bool_decide (rt_proxyToken rt ≠ "") &&
          negb (checkToken req proxyTokenHeader (rt_proxyToken rt)) then
    writeError StatusUnauthorized "authentication required"
      (DText ("missing or invalid " +:+ proxyTokenHeader))
  else
    put_req (set_header (Header_Del adminTokenHeader
      (Header_Del proxyTokenHeader (req_Header req))) req);;
    answered ← cap_body (rt_maxRequestBytes rt);
    if (answered : bool) then mret tt else serve rt.

End handle.
