(* ===== verification/HandlerTheorems.v ===== *)
(** * Theorems on the request flow

    [final] lists the ways a request can end, each with its cause. [handle_ends]
    shows that the code ends every request in exactly one of them; the theorems
    draw the consequences: who gets in, what the backend sees, what a status code
    means. *)

From S2P Require Import Prelude GoStrings State Http Registry Config Router Proxy Runtime.
From S2P Require Import ConfigTheorems RuntimeTheorems Handler.
Open Scope Z_scope.

Section flow.
Context (Admit : pool_id → string → AdmitResult * option GoError).
Context (deadline_exceeded : bool).
Context (unmarshal : string → option string).
Context (rt : runtime).

(** ** Specification *)

(** The request without the token headers, and with its body capped. *)
Definition stripped (req : Request) : Request :=
  set_header (Header_Del adminTokenHeader (Header_Del proxyTokenHeader (req_Header req))) req.

Definition capped (req : Request) : Request :=
  if bool_decide (0 < rt_maxRequestBytes rt)
  then set_body (MaxBytesReader (rt_maxRequestBytes rt) (req_Body req)) (stripped req)
  else stripped req.

Definition is_reserved (req : Request) : bool := HasPrefix (URL_Path req) "/stagehand/".
Definition is_probe (req : Request) : bool :=
  bool_decide (Method req = "GET") && bool_decide (URL_Path req = "/stagehand/healthz").

(** The token, if there is one, is in the header. *)
Definition token_ok (req : Request) (header token : string) : Prop :=
  token = "" ∨ Header_Get (req_Header req) header = token.

Definition declared_too_large (req : Request) : Prop :=
  0 < rt_maxRequestBytes rt ∧ rt_maxRequestBytes rt < ContentLength req.

(** Routing, with the model of the body if the route asks for it. *)
Definition route_result (req : Request) : IOError + option Match :=
  let go := Router_Match (rt_router rt) (URL_Path req) (req_Header req) in
  match go "" with
  | None => inr None
  | Some m =>
      if m_NeedsModel m && bool_decide (Method req = "POST") && hasJSONBody req then
        match peek_result unmarshal (rt_maxRequestBytes rt) (req_Body req) with
        | inl e => inl e
        | inr model => inr (go model)
        end
      else inr (Some m)
  end.

(** Every response carries the CORS headers of its revision. *)
Definition cors_ok (req : Request) (h : Header) : Prop :=
  h !! "Vary" = Some ["Origin"] ∧
  h !! "Access-Control-Allow-Origin" =
    (if bool_decide (allowedOrigin req (corsOrigins rt) = "") then None
     else Some [allowedOrigin req (corsOrigins rt)]).

(** A request that gets past the gates, and one that goes to a service. *)
Definition admissible (req : Request) : Prop :=
  Method req ≠ "OPTIONS" ∧ is_reserved req = false ∧
  token_ok req proxyTokenHeader (rt_proxyToken rt) ∧ ¬ declared_too_large req.

Definition routed (req : Request) (svc : service) : Prop :=
  admissible req ∧
  ∃ m, route_result (capped req) = inr (Some m) ∧ rt_services rt !! m_Service m = Some svc.

(** The request a backend gets: the client's, without the tokens, cut off at the cap. *)
Definition sent (req r : Request) : Prop :=
  Method r = Method req ∧ URL_Path r = URL_Path req ∧ EscapedPath r = EscapedPath req ∧
  ContentLength r = ContentLength req ∧
  req_Header r = req_Header (stripped req) ∧
  body_text (req_Body r) = body_text (req_Body (capped req)).

(** Why a request is refused, by status code. *)
Inductive refused (req : Request) : Z → Prop :=
| R_admin_token :
    is_reserved req = true → ¬ token_ok req adminTokenHeader (rt_adminToken rt) →
    refused req StatusUnauthorized
| R_proxy_token :
    is_reserved req = false → ¬ token_ok req proxyTokenHeader (rt_proxyToken rt) →
    refused req StatusUnauthorized
| R_declared :
    is_reserved req = false → token_ok req proxyTokenHeader (rt_proxyToken rt) →
    declared_too_large req → refused req StatusRequestEntityTooLarge
| R_body_too_large limit :
    admissible req → route_result (capped req) = inl (MaxBytesError limit) →
    refused req StatusRequestEntityTooLarge
| R_body code :
    admissible req → route_result (capped req) = inl (ReadFailed code) → refused req StatusBadRequest
| R_no_service m :
    admissible req → route_result (capped req) = inr (Some m) → rt_services rt !! m_Service m = None →
    refused req StatusInternalServerError
| R_pool svc p code :
    routed req svc → s_pool svc = Some p →
    match (Admit p (s_name svc)).1 with
    | AdmitGo => False
    | AdmitQueueFull => code = StatusTooManyRequests
    | AdmitDockerError => code = StatusBadGateway
    | AdmitStartupTimeout => code = StatusGatewayTimeout
    | AdmitShutdown => code = StatusServiceUnavailable
    | AdmitCanceled => code = StatusGatewayTimeout ∧ deadline_exceeded = true
    end → refused req code.

(** The last actions of the handler. *)
Inductive final (req : Request) : list hact → Prop :=
| F_preflight h :
    Method req = "OPTIONS" → cors_ok req h → final req [WriteHeader StatusOK h]
| F_probe h :
    is_probe req = true → cors_ok req h →
    final req [WriteHeader StatusOK h; WriteBody PHealthz]
| F_admin :
    Method req ≠ "OPTIONS" → is_probe req = false → is_reserved req = true →
    token_ok req adminTokenHeader (rt_adminToken rt) → final req [ServeAdmin req]
| F_unmatched h :
    admissible req → route_result (capped req) = inr None → cors_ok req h →
    final req [WriteHeader StatusNotFound h; WriteBody (PUnmatched (KnownRoutes (rt_router rt)))]
| F_refused code h msg d :
    Method req ≠ "OPTIONS" → is_probe req = false → refused req code → cors_ok req h →
    (code = StatusTooManyRequests → h !! "Retry-After" = Some ["5"]) →
    final req [WriteHeader code h; WriteBody (PError msg d)]
| F_gone svc p :
    routed req svc → s_pool svc = Some p → (Admit p (s_name svc)).1 = AdmitCanceled →
    deadline_exceeded = false → final req []
| F_forward svc r h :
    routed req svc → (∀ p, s_pool svc = Some p → (Admit p (s_name svc)).1 = AdmitGo) →
    sent req r → cors_ok req h →
    final req [if IsWebSocketUpgrade r then Tunnel (s_name svc) r h else Forward (s_name svc) r h].

(** What may come before: the body of the connection is closed, the pool of the
    service the request is routed to is asked. *)
Definition quiet (req : Request) (a : hact) : Prop :=
  match a with
  | CloseConnBody => True
  | CallAdmit p name => ∃ svc, routed req svc ∧ s_pool svc = Some p ∧ s_name svc = name
  | _ => False
  end.

Definition ends (req : Request) (o : outcome ()) (es : list hact) : Prop :=
  o = Ret tt ∧ ∃ pre fin, es = pre ++ fin ∧ Forall (quiet req) pre ∧ final req fin.

(** ** Lemmas *)

Lemma cors_set req h key value :
  CanonicalHeaderKey key ≠ "Vary" → CanonicalHeaderKey key ≠ "Access-Control-Allow-Origin" →
  cors_ok req h → cors_ok req (Header_Set key value h).
Proof. intros ?? [? ?]. unfold cors_ok, Header_Set. by rewrite !lookup_insert_ne. Qed.

Lemma checkToken_ok req header token :
  bool_decide (token ≠ "") && negb (checkToken req header token) = false ↔
  token_ok req header token.
Proof.
  unfold token_ok, checkToken.
  destruct (decide (token = "")) as [->|Ht]; [rewrite bool_decide_eq_false_2 by auto; naive_solver|].
  rewrite bool_decide_eq_true_2 by done. simpl. rewrite negb_false_iff.
  case_bool_decide as He; [rewrite He; naive_solver|]. rewrite bool_decide_eq_true. naive_solver.
Qed.

Lemma writeError_wp code msg d req h :
  wp (writeError code msg d) (λ o s es, o = Ret tt ∧
    es = [WriteHeader code (Header_Set "Content-Type" "application/json" h);
          WriteBody (PError msg d)]) (HState req h).
Proof. unfold writeError, httperr_Write, Set_, write_header. by wp_steps. Qed.

Lemma final_refused req code msg d h :
  Method req ≠ "OPTIONS" → is_probe req = false → refused req code → cors_ok req h →
  (code = StatusTooManyRequests → h !! "Retry-After" = Some ["5"]) →
  final req [WriteHeader code (Header_Set "Content-Type" "application/json" h);
             WriteBody (PError msg d)].
Proof.
  intros Hm Hp Hr Hc Hretry. apply F_refused; try done; [by apply cors_set|].
  intros Hcode. unfold Header_Set. rewrite lookup_insert_ne by done. auto.
Qed.

(** An error answer, after quiet actions. *)
Lemma refused_ends req creq code msg d h pre :
  Method req ≠ "OPTIONS" → is_probe req = false → refused req code → cors_ok req h →
  code ≠ StatusTooManyRequests → Forall (quiet req) pre →
  wp (writeError code msg d) (λ o _ es, ends req o (pre ++ es)) (HState creq h).
Proof.
  intros. eapply wp_mono; [|apply writeError_wp].
  intros o s es [-> ->]. split; [done|]. eexists pre, _. split; [done|]. split; [done|].
  by apply final_refused.
Qed.

Definition same_request (a b : Request) : Prop :=
  Method b = Method a ∧ URL_Path b = URL_Path a ∧ EscapedPath b = EscapedPath a ∧
  req_Header b = req_Header a ∧
  ContentLength b = ContentLength a ∧ body_text (req_Body b) = body_text (req_Body a).

Lemma match_route_wp req h :
  rt_maxRequestBytes rt ≤ int64_max → str_len (body_text (req_Body req)).1 < int64_max →
  wp (match_route unmarshal rt)
    (returns (λ res s es, hs_header s = h ∧ closes_only es ∧ res = route_result req ∧
       ∀ m, res = inr m → same_request req (hs_req s)))
    (HState req h).
Proof.
  intros Hmax Hlen. unfold match_route, route_result, get_req. wp_steps.
  assert (Hnone : closes_only []) by (intros ??; set_solver).
  destruct (Router_Match _ _ _ "") as [m|] eqn:Hroute; [|by wp_steps].
  destruct (m_NeedsModel m && bool_decide (Method req = "POST") && hasJSONBody req); [|by wp_steps].
  wp_step. eapply wp_mono; [|by apply PeekModel_wp].
  intros [res| |] s es; [|done..]. intros (Hh & Hcl & -> & Hs). cbv beta iota.
  destruct (peek_result _ _ _) as [e|model]; [wp_steps; rewrite app_nil_r; by split_and!|].
  destruct Hs as (Hb & Hm & Hp & He & Hhd & Hcl' & _).
  case_bool_decide as Hmodel; wp_steps; rewrite ?app_nil_r; split_and!; try done.
  - by rewrite Hp, Hhd.
  - assert (model = "") as -> by (by destruct (decide (model = ""))). by rewrite Hroute.
Qed.

Lemma sent_same req r : same_request (capped req) r → sent req r.
Proof.
  unfold same_request, sent, capped. case_bool_decide; simpl; intros (-> & -> & -> & -> & -> & ->);
    done.
Qed.

(** A pool lets the request go on, or the request is answered (or left). *)
Lemma admission_wp req svc r h :
  Method req ≠ "OPTIONS" → is_probe req = false → routed req svc → cors_ok req h →
  wp (pool_admission Admit deadline_exceeded svc)
    (returns (λ go s es,
       if (go : bool) then s = HState r h ∧ Forall (quiet req) es ∧
         ∀ p, s_pool svc = Some p → (Admit p (s_name svc)).1 = AdmitGo
       else ∃ pre fin, es = pre ++ fin ∧ Forall (quiet req) pre ∧ final req fin))
    (HState r h).
Proof.
  intros Hm Hp Hrt Hc. unfold pool_admission. destruct (s_pool svc) as [p|] eqn:Hpool; [|by wp_steps].
  pose proof (R_pool req svc p) as Href.
  destruct (Admit p (s_name svc)) as [res err] eqn:Hres. simpl in Href.
  assert (Hask : Forall (quiet req) [CallAdmit p (s_name svc)]) 
    by (apply Forall_singleton; simpl; eauto).
  assert (Hend : ∀ code msg d h', (code = StatusTooManyRequests → h' !! "Retry-After" = Some ["5"]) →
    cors_ok req h' → refused req code → ∃ pre fin,
      [CallAdmit p (s_name svc); WriteHeader code (Header_Set "Content-Type" "application/json" h');
       WriteBody (PError msg d)] = pre ++ fin ∧ Forall (quiet req) pre ∧ final req fin).
  { intros code msg d h' ???. eexists [CallAdmit p (s_name svc)], _. split; [done|].
    split; [done|]. by apply final_refused. }
  destruct res; unfold writeError, httperr_Write, Set_, write_header;
    [..|destruct deadline_exceeded eqn:Hd]; wp_steps.
  - split_and!; [done|done|]. intros q [= <-]. by rewrite Hres.
  - apply Hend; [intros _; apply lookup_insert_eq|by apply cors_set|by apply Href].
  - apply Hend; [done|done|by apply Href].
  - apply Hend; [done|done|by apply Href].
  - apply Hend; [done|done|by apply Href].
  - apply Hend; [done|done|by apply Href].
  - exists [CallAdmit p (s_name svc)], []. split; [done|]. split; [done|].
    eapply F_gone; [done|done|by rewrite Hres|done].
Qed.

Lemma forward_ends req svc r h pre :
  routed req svc → (∀ p, s_pool svc = Some p → (Admit p (s_name svc)).1 = AdmitGo) →
  sent req r → cors_ok req h → Forall (quiet req) pre →
  wp (forward svc) (λ o _ es, ends req o (pre ++ es)) (HState r h).
Proof.
  intros Hrt Hgo Hs Hc Hq. pose proof (F_forward req svc r h Hrt Hgo Hs Hc) as Hf.
  unfold forward, get_req. wp_steps.
  destruct (IsWebSocketUpgrade r); wp_steps; (split; [done|]); by eexists _, _.
Qed.

Lemma ends_assoc (m : H ()) req pre es1 s :
  wp m (λ o _ es, ends req o ((pre ++ es1) ++ es)) s →
  wp m (λ o _ es, ends req o (pre ++ es1 ++ es)) s.
Proof. apply wp_mono. intros o s' es. by rewrite <- (assoc_L (++)). Qed.

Lemma capped_length req :
  str_len (body_text (req_Body (capped req))).1 ≤ str_len (body_text (req_Body req)).1.
Proof.
  unfold capped, MaxBytesReader. case_bool_decide; [|done]. simpl.
  destruct (req_Body req) as [| |r]; simpl; [done..|]. case_bool_decide; [|done]. simpl.
  rewrite str_len_take; lia.
Qed.

Lemma serve_ends req h pre :
  rt_maxRequestBytes rt ≤ int64_max → str_len (body_text (req_Body req)).1 < int64_max →
  admissible req → is_probe req = false → cors_ok req h → Forall (quiet req) pre →
  wp (serve Admit deadline_exceeded unmarshal rt) (λ o _ es, ends req o (pre ++ es))
    (HState (capped req) h).
Proof.
  intros Hmax Hlen Ha Hp Hc Hq. pose proof (proj1 Ha) as Hm. unfold serve. wp_step.
  eapply wp_mono; [|apply match_route_wp; [done|pose proof (capped_length req); lia]].
  intros [res| |] s1 es1; [|done..]. intros (Hh & Hcl & Hres & Hsame). cbv beta iota.
  assert (Hq1 : Forall (quiet req) es1) by (apply Forall_forall; intros a ->%Hcl; done).
  assert (Hq2 : Forall (quiet req) (pre ++ es1)) by by apply Forall_app.
  destruct s1 as [r1 h1]. simpl in Hh. subst h1.
  destruct res as [[limit|code]|[m|]].
  - apply ends_assoc, refused_ends; try done. by eapply R_body_too_large.
  - apply ends_assoc, refused_ends; try done. by eapply R_body.
  - destruct (rt_services rt !! m_Service m) as [svc|] eqn:Hsvc.
    + assert (Hrt : routed req svc) by (split; [done|]; eauto).
      wp_step. eapply wp_mono; [|by apply (admission_wp req svc r1 h)].
      intros [[|]| |] s2 es2; [|..|done|done]; simpl.
      * intros (-> & Hq3 & Hgo).
        eapply wp_mono; [|eapply (forward_ends req svc r1 h ((pre ++ es1) ++ es2));
          [done|done| |done|by apply Forall_app]].
        { intros o s' es'. by rewrite <- !(assoc_L (++)). }
        apply sent_same. by eapply Hsame.
      * intros (pre2 & fin & -> & Hq3 & Hf). wp_steps. split; [done|].
        exists ((pre ++ es1) ++ pre2), fin. rewrite app_nil_r, !(assoc_L (++)).
        split; [done|]. split; [by apply Forall_app|done].
    + apply ends_assoc, refused_ends; try done. by eapply R_no_service.
  - unfold writeUnmatched, writeJSON, Set_, write_header. wp_steps. split; [done|].
    eexists (pre ++ es1), _. rewrite <- (assoc_L (++)). split; [done|]. split; [done|].
    apply F_unmatched; [done..|]. by apply cors_set.
Qed.

Lemma cors_empty req h origin :
  origin = allowedOrigin req (corsOrigins rt) → origin ≠ "" →
  cors_ok req (Header_Set "Access-Control-Allow-Origin" origin (Header_Set "Vary" "Origin" h)).
Proof.
  intros -> Ho. split; unfold Header_Set; [by rewrite lookup_insert_ne, lookup_insert_eq|].
  rewrite bool_decide_eq_false_2 by done. apply lookup_insert_eq.
Qed.

Lemma cors_none req :
  allowedOrigin req (corsOrigins rt) = "" → cors_ok req (Header_Set "Vary" "Origin" ∅).
Proof.
  intros Ho. split; unfold Header_Set; [apply lookup_insert_eq|].
  by rewrite bool_decide_eq_true_2, lookup_insert_ne by done.
Qed.

Lemma setCORSOrigin_wp req :
  wp (setCORSOrigin (corsOrigins rt)) (returns (λ _ s es,
    ∃ h, s = HState req h ∧ es = [] ∧ cors_ok req h)) (HState req ∅).
Proof.
  unfold setCORSOrigin, Set_, get_req. wp_steps. case_bool_decide as Ho; wp_steps.
  - eexists. split; [done|]. split; [done|]. by apply cors_empty.
  - eexists. split; [done|]. split; [done|]. apply cors_none.
    by destruct (decide (allowedOrigin req (corsOrigins rt) = "")).
Qed.

Lemma preflight_ends req :
  Method req = "OPTIONS" →
  wp (preflight (corsOrigins rt)) (λ o _ es, ends req o es) (HState req ∅).
Proof.
  intros Hm. unfold preflight, Set_, get_req, write_header. wp_steps.
  case_bool_decide as Ho; wp_steps; (split; [done|]); exists []; eexists;
    (split; [done|]); (split; [done|]); apply F_preflight; try done.
  - repeat (apply cors_set; [done|done|]). by apply cors_empty.
  - apply cors_none. by destruct (decide (allowedOrigin req (corsOrigins rt) = "")).
Qed.

Lemma cap_body_wp req h :
  wp (cap_body (rt_maxRequestBytes rt))
    (returns (λ answered s es,
       if (answered : bool) then declared_too_large req ∧ ∃ pre d, Forall (quiet req) pre ∧
         es = pre ++ [WriteHeader StatusRequestEntityTooLarge
           (Header_Set "Content-Type" "application/json" (Header_Set "Connection" "close" h));
           WriteBody (PError "request body too large" d)]
       else s = HState (capped req) h ∧ es = [] ∧ ¬ declared_too_large req))
    (HState (stripped req) h).
Proof.
  unfold cap_body, declared_too_large, capped, get_req, put_req.
  case_bool_decide as Hmax; [|wp_steps; split_and!; [done..|lia]].
  wp_steps. case_bool_decide as Hcl; wp_steps; [|split_and!; [done..|lia]].
  unfold close_body, Set_, writeError, httperr_Write, write_header.
  assert (Hpre : ∀ l : list hact, Forall (quiet req) l → ∀ d h',
    let es := [WriteHeader StatusRequestEntityTooLarge h';
               WriteBody (PError "request body too large" d)] in
    ∃ pre d', Forall (quiet req) pre ∧ l ++ es = pre ++
      [WriteHeader StatusRequestEntityTooLarge h';
       WriteBody (PError "request body too large" d')]) by eauto.
  destruct (req_Body req) as [| |r]; [| |destruct (b_conn r)]; wp_steps; (split; [done|]).
  - by apply (Hpre []).
  - by apply (Hpre []).
  - apply (Hpre [CloseConnBody]). by repeat constructor.
  - by apply (Hpre []).
Qed.

(** Every request ends in exactly one of the ways of [final]. *)
Lemma handle_ends req :
  rt_maxRequestBytes rt ≤ int64_max → str_len (body_text (req_Body req)).1 < int64_max →
  wp (Server_handle Admit deadline_exceeded unmarshal rt) (λ o _ es, ends req o es) (HState req ∅).
Proof.
  intros Hmax Hlen. unfold Server_handle. wp_step. unfold get_req. wp_step. cbv beta iota. simpl.
  case_bool_decide as Hm; [by apply preflight_ends|].
  wp_step. eapply wp_mono; [|apply setCORSOrigin_wp].
  intros [[]| |] s es; [|done..]. intros (h & -> & -> & Hc). cbv beta iota. simpl.
  fold (is_probe req). destruct (is_probe req) eqn:Hp.
  { unfold writeJSON, Set_, write_header. wp_steps. split; [done|]. exists []. eexists.
    split; [done|]. split; [done|]. apply F_probe; [done|by apply cors_set]. }
  fold (is_reserved req). destruct (is_reserved req) eqn:Hr.
  { destruct (_ && _) eqn:Ht; [|apply checkToken_ok in Ht].
    - apply (refused_ends req req _ _ _ h []); try done. apply R_admin_token; [done|].
      rewrite <- checkToken_ok. congruence.
    - wp_steps. split; [done|]. exists []. eexists. split; [done|]. split; [done|].
      by apply F_admin. }
  destruct (_ && _) eqn:Ht; [|apply checkToken_ok in Ht].
  { apply (refused_ends req req _ _ _ h []); try done. apply R_proxy_token; [done|].
    rewrite <- checkToken_ok. congruence. }
  unfold put_req. wp_steps. eapply wp_mono; [|apply (cap_body_wp req h)].
  intros [[|]| |] s es; [| |done..]; simpl.
  - intros (Hbig & pre & d & Hq & ->). wp_steps. split; [done|]. rewrite app_nil_r.
    eexists pre, _. split; [done|]. split; [done|].
    apply final_refused; try done; [by apply R_declared|by apply cors_set].
  - intros (-> & -> & Hok). by apply (serve_ends req h []).
Qed.

(** Membership in a list of known actions, case by case. *)
Ltac in_list X :=
  lazymatch type of X with
  | _ ∈ [] => by apply not_elem_of_nil in X
  | _ ∈ _ :: _ => apply elem_of_cons in X as [X|X]; [|in_list X]
  end.

(** ** What follows *)

Context (Hmax : rt_maxRequestBytes rt ≤ int64_max).

(** What the handler does with a request; the response has no headers yet. *)
Definition trace (req : Request) : outcome () * list hact :=
  let '(o, _, es) := Server_handle Admit deadline_exceeded unmarshal rt (HState req ∅) in (o, es).

Definition bounded (req : Request) : Prop := str_len (body_text (req_Body req)).1 < int64_max.

Lemma trace_ends req : bounded req → ends req (trace req).1 (trace req).2.
Proof.
  intros Hlen. pose proof (handle_ends req Hmax Hlen) as He. unfold wp in He. unfold trace.
  by destruct (Server_handle _ _ _ _ _) as [[o s] es].
Qed.

(** An action is quiet or one of the last ones. *)
Lemma trace_elem req a :
  bounded req → a ∈ (trace req).2 → quiet req a ∨ ∃ fin, final req fin ∧ a ∈ fin.
Proof.
  intros Hlen Ha. destruct (trace_ends req Hlen) as (_ & pre & fin & He & Hq & Hf). rewrite He in Ha.
  apply elem_of_app in Ha as [Ha|Ha]; [left|right; eauto]. by eapply Forall_forall in Hq.
Qed.

(** What is forwarded comes from an admission. *)
Lemma trace_forward req name r h a :
  bounded req → a ∈ (trace req).2 → a = Forward name r h ∨ a = Tunnel name r h →
  ∃ svc, routed req svc ∧ s_name svc = name ∧ sent req r ∧
    ∀ p, s_pool svc = Some p → (Admit p name).1 = AdmitGo.
Proof.
  intros Hlen Ha Hor. apply trace_elem in Ha as [Hq|(fin & Hf & Ha)];
    [by destruct Hor; subst| |done].
  destruct Hf as [h' ? ?|h' ? ?|? ? ? ?|h' ? ? ?|code' h' msg d ? ? ? ? ?|svc p ? ? ? ?|svc r' h' Hr ? ? ?];
    try (destruct (IsWebSocketUpgrade r')); in_list Ha; destruct Hor; simplify_eq; eauto.
Qed.

(** C20: nobody gets past the gates. The admin endpoints see a request only if it is
    under [/stagehand/] and carries the admin token, when there is one; a pool is
    asked, and a backend is sent anything, only for a request that is not under
    [/stagehand/], carries the proxy token, when there is one, and does not announce
    a body above the cap, and only for the service it is routed to. *)
Theorem requests_are_gated req a :
  bounded req → a ∈ (trace req).2 →
  match a with
  | ServeAdmin r =>
      r = req ∧ is_reserved req = true ∧ token_ok req adminTokenHeader (rt_adminToken rt)
  | CallAdmit _ name | Forward name _ _ | Tunnel name _ _ =>
      admissible req ∧ ∃ svc, routed req svc ∧ s_name svc = name
  | CallAdminSwap _ _ | CallAdminStop _ => False
  | _ => True
  end.
Proof.
  intros Hlen [Hq|(fin & Hf & Ha)]%trace_elem; [| |done].
  - destruct a; simpl in Hq; try done. destruct Hq as (svc & Hr & _ & Hn).
    split; [apply Hr|eauto].
  - destruct Hf as [h ? ?|h ? ?|? ? ? ?|h ? ? ?|code h msg d ? ? ? ? ?|svc p ? ? ? ?|svc r h Hr ? ? ?];
      try (destruct (IsWebSocketUpgrade r)); in_list Ha; subst a; try done;
      (split; [apply Hr|eauto]).
Qed.

Definition is_answer (a : hact) : bool :=
  match a with
  | WriteHeader _ _ | ServeAdmin _ | Forward _ _ _ | Tunnel _ _ _ => true
  | _ => false
  end.

(** C27: every request gets exactly one answer. The handler returns, and it has
    written one status line, or handed the request to the admin endpoints, or to the
    backend, once and never two of these; only a client that has gone away while it
    was waiting for a pool gets none. *)
Theorem one_answer req :
  bounded req →
  (trace req).1 = Ret tt ∧
  (length (filter (λ a, is_answer a = true) (trace req).2) = 1%nat ∨
   filter (λ a, is_answer a = true) (trace req).2 = [] ∧ deadline_exceeded = false ∧
   ∃ svc p, routed req svc ∧ s_pool svc = Some p ∧ (Admit p (s_name svc)).1 = AdmitCanceled).
Proof.
  intros Hlen. destruct (trace_ends req Hlen) as (-> & pre & fin & -> & Hq & Hf).
  split; [done|]. assert (Hpre : filter (λ a, is_answer a = true) pre = []).
  { induction Hq as [|a pre Ha _ IH]; [done|]. rewrite filter_cons_False; [done|]. by destruct a. }
  rewrite filter_app, Hpre.
  destruct Hf as [| | | | |svc p| svc r]; try (by left); [right; eauto 10|].
  left. by destruct (IsWebSocketUpgrade r).
Qed.

(** C28: a status code means what it says. Every response the handler writes carries
    the CORS headers of its revision; 200 answers a preflight or the probe, 404 a
    request no route matches; 401, 413, 400, 429, 502, 503 and 504 are given exactly
    for a missing token, a body above the cap, an unreadable body, and the result of
    the pool, and a client turned away by a full queue is told when to come back. *)
Theorem status_means req code h :
  bounded req → WriteHeader code h ∈ (trace req).2 →
  cors_ok req h ∧
  ((code = StatusOK ∧ (Method req = "OPTIONS" ∨ is_probe req = true)) ∨
   (code = StatusNotFound ∧ admissible req ∧ route_result (capped req) = inr None) ∨
   (refused req code ∧ (code = StatusTooManyRequests → h !! "Retry-After" = Some ["5"]))).
Proof.
  intros Hlen [Hq|(fin & Hf & Ha)]%trace_elem; [done| |done].
  destruct Hf as [h' ? ?|h' ? ?|? ? ? ?|h' ? ? ?|code' h' msg d ? ? ? ? ?|svc p ? ? ? ?|svc r h' Hr ? ? ?];
    try (destruct (IsWebSocketUpgrade r)); in_list Ha; try done; simplify_eq; split; try done; auto 10.
Qed.

(** C25: a backend sees the client's request and nothing else. What is forwarded (or
    tunnelled) has the method, the path and the headers of the client, but for the
    two tokens; its body is the client's, byte by byte, up to the cap, which is
    never exceeded; the service is the one the router gives, and its pool, if it has
    one, has let the request in. *)
Theorem forwarded_faithfully req name r h a :
  bounded req → a ∈ (trace req).2 → a = Forward name r h ∨ a = Tunnel name r h →
  sent req r ∧
  Header_Get (req_Header r) adminTokenHeader = "" ∧
  Header_Get (req_Header r) proxyTokenHeader = "" ∧
  (if decide (0 < rt_maxRequestBytes rt)
   then str_len (body_text (req_Body r)).1 ≤ rt_maxRequestBytes rt
   else body_text (req_Body r) = body_text (req_Body req)) ∧
  ∃ svc, routed req svc ∧ s_name svc = name ∧
    ∀ p, s_pool svc = Some p → (Admit p name).1 = AdmitGo.
Proof.
  intros Hlen Ha Hor. destruct (trace_forward req name r h a Hlen Ha Hor) as (svc & Hr & Hn & Hs & Hgo).
  split; [done|]. destruct Hs as (_ & _ & _ & _ & Hhd & Hb).
  split_and!; [| | |by eauto].
  - rewrite Hhd. unfold stripped, Header_Get, Header_Del. simpl. by rewrite lookup_delete_eq.
  - rewrite Hhd. unfold stripped, Header_Get, Header_Del. simpl.
    by rewrite lookup_delete_ne, lookup_delete_eq.
  - rewrite Hb. unfold capped. case_decide; case_bool_decide; try done. simpl.
    unfold MaxBytesReader. destruct (req_Body req) as [| |rd];
      [unfold str_len; simpl; lia..|].
    case_bool_decide; simpl; [|lia]. rewrite str_len_take; lia.
Qed.

End flow.

(** ** Concrete requests, on the runtime of the demo server *)

Definition demo_rt : runtime := sv_rt demo_srv.
Definition demo_unmarshal (body : string) : option string :=
  if bool_decide (body = "{sdxl}") then Some "sdxl" else None.

(** A JSON request that names a model; it carries a token it should not show. *)
Definition demo_req : Request :=
  MkRequest "POST" "/v1/images" "/v1/images"
    {[ "Content-Type" := ["application/json"]; "X-Stagehand-Token" := ["secret"] ]}
    6 (HasBody (MkReader "{sdxl}" None true)) None.

Definition demo_sent : Request :=
  MkRequest "POST" "/v1/images" "/v1/images" {[ "Content-Type" := ["application/json"] ]}
    6 (HasBody (MkReader "{sdxl}" None false)) (Some "{sdxl}").

Definition go (_ : pool_id) (_ : string) : AdmitResult * option GoError := (AdmitGo, None).
Definition full (_ : pool_id) (_ : string) : AdmitResult * option GoError := (AdmitQueueFull, None).
Definition gone (_ : pool_id) (_ : string) : AdmitResult * option GoError := (AdmitCanceled, None).

Definition vary : Header := {[ "Vary" := ["Origin"] ]}.

Lemma demo_bytes : rt_maxRequestBytes demo_rt ≤ int64_max.
Proof. vm_compute. discriminate. Qed.

Lemma demo_bounded : bounded demo_req.
Proof. vm_compute. reflexivity. Qed.

Lemma demo_trace :
  trace go false demo_unmarshal demo_rt demo_req =
  (Ret tt, [CloseConnBody; CallAdmit 0%nat "comfy"; Forward "comfy" demo_sent vary]).
Proof. vm_compute. reflexivity. Qed.

Lemma demo_trace_full :
  trace full false demo_unmarshal demo_rt demo_req =
  (Ret tt, [CloseConnBody; CallAdmit 0%nat "comfy";
            WriteHeader 429 {[ "Vary" := ["Origin"]; "Retry-After" := ["5"];
                               "Content-Type" := ["application/json"] ]};
            WriteBody (PError "service queue is full" DNone)]).
Proof. vm_compute. reflexivity. Qed.

Lemma requests_are_gated_witness :
  admissible demo_rt demo_req ∧ ∃ svc, routed demo_unmarshal demo_rt demo_req svc ∧ s_name svc = "comfy".
Proof.
  refine (requests_are_gated go false demo_unmarshal demo_rt demo_bytes demo_req
    (CallAdmit 0%nat "comfy") demo_bounded _).
  rewrite demo_trace. apply elem_of_cons. right. by left.
Defined.

Lemma one_answer_witness :
  (trace gone false demo_unmarshal demo_rt demo_req).1 = Ret tt ∧
  filter (λ a, is_answer a = true) (trace gone false demo_unmarshal demo_rt demo_req).2 = [].
Proof.
  destruct (one_answer gone false demo_unmarshal demo_rt demo_bytes demo_req demo_bounded)
    as [Hret Hans]. split; [exact Hret|].
  destruct Hans as [Hlen|[Hnil _]]; [|exact Hnil].
  exfalso. revert Hlen. vm_compute. discriminate.
Defined.

Lemma status_means_witness :
  refused full false demo_unmarshal demo_rt demo_req 429.
Proof.
  destruct (status_means full false demo_unmarshal demo_rt demo_bytes demo_req 429
    {[ "Vary" := ["Origin"]; "Retry-After" := ["5"]; "Content-Type" := ["application/json"] ]}
    demo_bounded) as (_ & [[Hc _]|[[Hc _]|[Hr _]]]); [|discriminate|discriminate|exact Hr].
  rewrite demo_trace_full. apply elem_of_cons. right. apply elem_of_cons. right. by left.
Defined.

Lemma forwarded_faithfully_witness :
  sent demo_rt demo_req demo_sent ∧
  Header_Get (req_Header demo_sent) proxyTokenHeader = "" ∧
  body_text (req_Body demo_sent) = body_text (req_Body demo_req).
Proof.
  destruct (forwarded_faithfully go false demo_unmarshal demo_rt demo_bytes demo_req "comfy"
    demo_sent vary (Forward "comfy" demo_sent vary) demo_bounded) as (Hs & _ & Ht & Hb & _);
    [|by left|split; [exact Hs|split; [exact Ht|exact Hb]]].
  rewrite demo_trace. apply elem_of_cons. right. apply elem_of_cons. right. by left.
Defined.
