(* ===== verification/Admin.v ===== *)
(** * The admin API ([src/internal/server/admin.go])

    The reserved namespace [/stagehand/]: status, swap, stop and reload. The
    dispatch is that of [http.ServeMux] on the patterns of [buildAdminMux]; what
    the pools, the health probes and the reload answer are arguments. *)

From S2P Require Import Prelude GoStrings State Http Registry Config Runtime.
Open Scope Z_scope.

(** ** Dispatch ([buildAdminMux]) *)

Inductive endpoint :=
| EpStatus | EpReload | EpSwap (service : string) | EpStop (pool : string)
| EpUnknown | EpRedirect.

(** The mux cleans the path and redirects if that changes it: an empty segment
    before the end, or a segment [.] or [..]. *)
Definition clean_path (segs : list string) : bool :=
  forallb (λ s, negb (bool_decide (s = ".")) && negb (bool_decide (s = ".."))) segs &&
  forallb (λ s, negb (bool_decide (s = ""))) (removelast segs).

(** A [GET] pattern also takes [HEAD]; a wildcard takes one non-empty segment; what
    no other pattern takes goes to the pattern [/stagehand/]. Segments are compared
    after unescaping. *)
Definition admin_endpoint (method escaped : string) : endpoint :=
  let segs := Split (TrimPrefix escaped "/") (of_byte 47) in
  if negb (clean_path segs) then EpRedirect else
  match map pathUnescape segs with
  | ["stagehand"; "status"] =>
      if bool_decide (method = "GET") || bool_decide (method = "HEAD") then EpStatus else EpUnknown
  | ["stagehand"; "reload"] => if bool_decide (method = "POST") then EpReload else EpUnknown
  | ["stagehand"; "swap"; service] =>
      if bool_decide (method = "POST") && negb (bool_decide (service = ""))
      then EpSwap service else EpUnknown
  | ["stagehand"; "pool"; pool; "stop"] =>
      if bool_decide (method = "POST") then EpStop pool else EpUnknown
  | _ => EpUnknown
  end.

Example endpoint_1 : admin_endpoint "POST" "/stagehand/swap/comfy%20ui" = EpSwap "comfy ui".
Proof. vm_compute. reflexivity. Qed.
Example endpoint_2 : admin_endpoint "GET" "/stagehand/swap/comfy" = EpUnknown.
Proof. vm_compute. reflexivity. Qed.
Example endpoint_3 : admin_endpoint "POST" "/stagehand//pool/gpu/stop" = EpRedirect.
Proof. vm_compute. reflexivity. Qed.

(** ** Endpoints *)

Section admin.
Context (AdminSwap : pool_id → string → AdminOutcome).
Context (AdminStop : pool_id → AdminOutcome).
Context (Status : pool_id → PoolStatus).
Context (probe : string → bool).
(** The message of the error of [ReloadFromSource]. *)
Context (reload_error : option string).

Definition pool_json (st : PoolStatus) : poolStatusJSON :=
  {| js_State := PoolState_String (st_State st);
     js_ActiveService := st_ActiveService st;
     js_SecondsUntilCooldown :=
       if bool_decide (0 ≤ st_SecondsUntilCooldown st) then Some (st_SecondsUntilCooldown st)
       else None;
     js_QueuedRequestsCount := st_QueuedRequests st |}.

(** The always-on services, each probed by a goroutine of its own. *)
Definition always_on (rt : runtime) : gmap string string :=
  omap (λ svc, match s_pool svc with
               | Some _ => None
               | None => Some (if probe (s_healthURL svc) then "healthy" else "unhealthy")
               end) (rt_services rt).

Definition handleStatus (rt : runtime) : H () :=
  for_each (λ x, emit (CallStatus x.2)) (map_to_list (rt_pools rt));;
  writeJSON StatusOK (PStatus (pool_json <$> (Status <$> rt_pools rt)) (always_on rt)).

Definition handleReload : H () :=
  emit CallReload;;
  match reload_error with
  | Some msg => writeError StatusBadRequest "reload failed" (DText msg)
  | None => writeJSON StatusOK PReloaded
  end.

(** [handleAdminSwap] of the server. *)
Definition serveAdminSwap (rt : runtime) (name : string) : H () :=
  match rt_services rt !! name ≫= s_pool with
  | None => writeError StatusNotFound "unknown pooled service" (DText name)
  | Some p =>
      emit (CallAdminSwap p name);;
      let outcome := AdminSwap p name in
      writeJSON (if bool_decide (outcome = AdminUnknown) then StatusNotFound else StatusAccepted)
        (PResult "service" name (AdminOutcome_String outcome))
  end.

Definition handleAdminPoolStop (rt : runtime) (name : string) : H () :=
  match rt_pools rt !! name with
  | None => writeError StatusNotFound "unknown pool" (DText name)
  | Some p =>
      emit (CallAdminStop p);;
      writeJSON StatusAccepted (PResult "pool" name (AdminOutcome_String (AdminStop p)))
  end.

Definition adminMux (rt : runtime) : H () :=
  req ← get_req;
  match admin_endpoint (Method req) (EscapedPath req) with
  | EpStatus => handleStatus rt
  | EpReload => handleReload
  | EpSwap service => serveAdminSwap rt service
  | EpStop pool => handleAdminPoolStop rt pool
  | EpUnknown => writeError StatusNotFound "unknown stagehand endpoint" (DText (URL_Path req))
  | EpRedirect => emit MuxRedirect
  end.

End admin.

(** ** What the admin API can do *)

Section admin_spec.
Context (AdminSwap : pool_id → string → AdminOutcome).
Context (AdminStop : pool_id → AdminOutcome).
Context (Status : pool_id → PoolStatus).
Context (probe : string → bool).
Context (reload_error : option string).

(** The command a request is allowed to give, by its method and path. *)
Definition commanded (rt : runtime) (req : Request) (a : hact) : Prop :=
  match a with
  | CallAdminSwap p name =>
      Method req = "POST" ∧ admin_endpoint "POST" (EscapedPath req) = EpSwap name ∧
      ∃ svc, rt_services rt !! name = Some svc ∧ s_pool svc = Some p
  | CallAdminStop p =>
      Method req = "POST" ∧ ∃ name, admin_endpoint "POST" (EscapedPath req) = EpStop name ∧
      rt_pools rt !! name = Some p
  | CallReload => Method req = "POST" ∧ admin_endpoint "POST" (EscapedPath req) = EpReload
  | CallAdmit _ _ | Forward _ _ _ | Tunnel _ _ _ | ServeAdmin _ | CloseConnBody => False
  | _ => True
  end.

(** A swap, a stop and a reload are reached by [POST] only. *)
Lemma endpoint_post method escaped ep :
  admin_endpoint method escaped = ep →
  match ep with EpReload | EpSwap _ | EpStop _ => method = "POST" | _ => True end.
Proof.
  unfold admin_endpoint. destruct (negb _); [by intros <-|]. intros <-.
  repeat (case_match; try done); simplify_eq;
    repeat match goal with
    | Hb : bool_decide _ && _ = true |- _ => apply andb_true_iff in Hb as [Hb _]
    | Hb : bool_decide _ = true |- _ => by apply bool_decide_eq_true in Hb
    end.
Qed.

(** The admin API does what it is asked and answers once: it calls a pool, or
    reloads, only for a [POST] of the command to that pool or of the reload, of which
    there is at most one; and it writes exactly one status line or redirect. *)
Theorem admin_obeys rt req h :
  let '(o, _, es) := adminMux AdminSwap AdminStop Status probe reload_error rt (HState req h) in
  o = Ret tt ∧ Forall (commanded rt req) es ∧
  length (filter (λ a, match a with WriteHeader _ _ | MuxRedirect => true | _ => false end = true)
            es) = 1%nat.
Proof.
  cut (wp (adminMux AdminSwap AdminStop Status probe reload_error rt)
    (λ o _ es, o = Ret tt ∧ Forall (commanded rt req) es ∧
       length (filter (λ a, match a with WriteHeader _ _ | MuxRedirect => true | _ => false end
                              = true) es) = 1%nat) (HState req h)).
  { unfold wp. by destruct (adminMux _ _ _ _ _ _ _) as [[o s] es]. }
  unfold adminMux, get_req. wp_step. wp_step. cbv beta iota. simpl.
  pose proof (endpoint_post (Method req) (EscapedPath req) _ eq_refl) as Hpost.
  destruct (admin_endpoint (Method req) (EscapedPath req)) as [| |name|name| |] eqn:Hep;
    unfold handleStatus, handleReload, serveAdminSwap, handleAdminPoolStop, writeJSON,
      writeError, httperr_Write, Set_, write_header.
  - wp_step. eapply wp_mono; [|apply (wp_for_each _
      (λ _ s es, s = HState req h ∧ Forall (λ a, ∃ p, a = CallStatus p) es)); [done|]].
    + intros [[]| |] s es; [|done..]. intros [-> Hes]. wp_steps.
      split; [done|]. rewrite filter_app, length_app. split.
      * apply Forall_app. split; [|by repeat constructor].
        eapply Forall_impl; [exact Hes|]. by intros ? [p ->].
      * enough (filter (λ a, match a with WriteHeader _ _ | MuxRedirect => true | _ => false end
          = true) es = []) as -> by done.
        induction Hes as [|a l [p ->] _ IH]; [done|]. by rewrite filter_cons_False.
    + intros [n p] l s es [-> Hes]. wp_steps. split; [done|]. apply Forall_app.
      split; [done|]. repeat constructor. eauto.
  - destruct reload_error; wp_steps; (split; [done|]); (split; [|done]); repeat constructor; simpl;
      rewrite Hpost in Hep; done.
  - destruct (rt_services rt !! name ≫= s_pool) as [p|] eqn:Hp; wp_steps; (split; [done|]);
      (split; [|done]); repeat constructor; simpl; [done|by rewrite Hpost in Hep|].
    by apply bind_Some in Hp.
  - destruct (rt_pools rt !! name) as [p|] eqn:Hp; wp_steps; (split; [done|]);
      (split; [|done]); repeat constructor; simpl; [done|].
    exists name. by rewrite Hpost in Hep.
  - wp_steps. split; [done|]. split; [|done]. by repeat constructor.
  - wp_steps. split; [done|]. split; [|done]. by repeat constructor.
Qed.

End admin_spec.
