(* ===== verification/AccessLog.v ===== *)
(** * The access log ([src/internal/server/access_log.go], [recoverPanics])

    Every request is logged with one line, with the status its [statusRecorder]
    has seen. The response writer under it is that of [net/http]: the first final
    status line is sent, informational ones ([1xx] but [101]) may come before, a
    first byte or a flush sends [200], and a hijacked connection takes no more. *)

From S2P Require Import Prelude Http.
Open Scope Z_scope.

(** ** Writers *)

(** What has gone to the client: the final status, or the connection itself. *)
Inductive sent_status := SentNothing | SentStatus (code : Z) | SentHijacked.

Definition informational (code : Z) : bool :=
  bool_decide (100 ≤ code) && bool_decide (code ≤ 199) && negb (bool_decide (code = 101)).

(** [http.ResponseWriter.WriteHeader] and the implicit [200]. *)
Definition commit (code : Z) (u : sent_status) : sent_status :=
  match u with
  | SentNothing => if informational code then SentNothing else SentStatus code
  | _ => u
  end.

(** [statusRecorder] *)
Record statusRecorder := Rec { status : Z; written : bool; under : sent_status }.

Definition new_recorder : statusRecorder := Rec StatusOK false SentNothing.

Definition rec_WriteHeader (code : Z) (r : statusRecorder) : statusRecorder :=
  Rec (if written r then status r else code) true (commit code (under r)).

Definition rec_Write (r : statusRecorder) : statusRecorder :=
  Rec (if written r then status r else StatusOK) true (commit StatusOK (under r)).

(** The writer below supports flushing. *)
Definition rec_Flush (r : statusRecorder) : statusRecorder :=
  Rec (status r) (written r) (commit StatusOK (under r)).

(** [ok]: the writer below is a [Hijacker] and its [Hijack] succeeds. *)
Definition rec_Hijack (ok : bool) (r : statusRecorder) : statusRecorder :=
  if ok then Rec 101 true SentHijacked else r.

Inductive writer_op := OWriteHeader (code : Z) | OWrite | OFlush | OHijack (ok : bool).

Definition apply_op (r : statusRecorder) (o : writer_op) : statusRecorder :=
  match o with
  | OWriteHeader code => rec_WriteHeader code r
  | OWrite => rec_Write r
  | OFlush => rec_Flush r
  | OHijack ok => rec_Hijack ok r
  end.

(** ** The middleware *)

(** How the handler inside ends: it returns, panics, or aborts the response with
    [http.ErrAbortHandler]. *)
Inductive ending := Returned | Panicked | Aborted.

#[global] Instance ending_eq_dec : EqDecision ending.
Proof. solve_decision. Defined.

(** [recoverPanics] answers a panic with [writeError]. *)
Definition recoverPanics (ops : list writer_op) (e : ending) : list writer_op * ending :=
  match e with
  | Panicked => (ops ++ [OWriteHeader StatusInternalServerError; OWrite], Returned)
  | _ => (ops, e)
  end.

(** [logRequests]: the status in the one line logged, and the ending passed on. *)
Definition logRequests (ops : list writer_op) (e : ending) : Z * ending :=
  (status (foldl apply_op new_recorder ops), e).

Definition serve_logged (ops : list writer_op) (e : ending) : Z * ending :=
  let '(ops', e') := recoverPanics ops e in logRequests ops' e'.

(** What the client sees at the end: a handler that has sent nothing gives [200]. *)
Definition client_status (u : sent_status) : Z :=
  match u with SentNothing => StatusOK | SentStatus code => code | SentHijacked => 101 end.

(** ** The log is right *)

(** The uses the program makes of a writer: no informational status, no flush
    before the header, no hijack after it. *)
Definition orderly (u : sent_status) (o : writer_op) : Prop :=
  match o with
  | OWriteHeader code => informational code = false
  | OWrite => True
  | OFlush => u ≠ SentNothing
  | OHijack ok => ok = true → u = SentNothing
  end.

Fixpoint all_orderly (r : statusRecorder) (ops : list writer_op) : Prop :=
  match ops with
  | [] => True
  | o :: ops' => orderly (under r) o ∧ all_orderly (apply_op r o) ops'
  end.

Definition truthful (r : statusRecorder) : Prop :=
  status r = client_status (under r) ∧ (written r = false ↔ under r = SentNothing).

Lemma apply_truthful r o : orderly (under r) o → truthful r → truthful (apply_op r o).
Proof.
  destruct r as [st w u]. unfold truthful. simpl. intros Ho [-> Hw].
  destruct o as [code| | |[|]]; simpl in *; unfold commit; [| | | |done].
  - destruct w; destruct u; rewrite ?Ho; simpl; naive_solver.
  - destruct w; destruct u; simpl; naive_solver.
  - destruct u; naive_solver.
  - naive_solver.
Qed.

Lemma log_truthful r ops :
  all_orderly r ops → truthful r → truthful (foldl apply_op r ops).
Proof.
  revert r. induction ops as [|o ops IH]; intros r; simpl; [done|].
  intros [Ho Hall] Hr. apply IH; [done|]. by apply apply_truthful.
Qed.

(** The access log tells the truth: for a handler that uses its writer in an orderly
    way, and whatever its ending, the one line logged has the status the client has
    received; a panic before anything was sent is logged and answered as [500], and
    an intentional abort is passed on. *)
Theorem access_log_truthful ops e :
  all_orderly new_recorder ops →
  let '(code, e') := serve_logged ops e in
  code = client_status (under (foldl apply_op new_recorder (recoverPanics ops e).1)) ∧
  e' = (if decide (e = Aborted) then Aborted else Returned) ∧
  (e = Panicked → under (foldl apply_op new_recorder ops) = SentNothing → code = 500).
Proof.
  intros Hops. assert (Hr : truthful (foldl apply_op new_recorder ops))
    by (by apply log_truthful).
  unfold serve_logged, logRequests. destruct e; simpl; [|rewrite foldl_app; simpl|].
  - split; [apply Hr|done].
  - set (r := foldl apply_op new_recorder ops) in *.
    assert (H1 : truthful (rec_WriteHeader 500 r))
      by (by apply (apply_truthful r (OWriteHeader 500))).
    assert (H2 : truthful (rec_Write (rec_WriteHeader 500 r)))
      by (by apply (apply_truthful (rec_WriteHeader 500 r) OWrite)).
    split; [apply H2|]. split; [done|]. intros _ Hn. destruct Hr as [_ [_ Hw]].
    by rewrite (Hw Hn).
  - split; [apply Hr|done].
Qed.

Lemma access_log_truthful_witness :
  serve_logged [] Panicked = (500, Returned) ∧
  500 = client_status (under (foldl apply_op new_recorder (recoverPanics [] Panicked).1)).
Proof.
  split; [reflexivity|].
  exact (proj1 (access_log_truthful [] Panicked I)).
Defined.

(** An informational status is logged as if it were the answer: the reverse proxy
    passes [103 Early Hints] of a backend on to the writer, and the [200] that
    follows is not recorded. *)
Theorem informational_status_is_logged :
  let ops := [OWriteHeader 103; OWriteHeader 200; OWrite] in
  (serve_logged ops Returned).1 = 103 ∧
  client_status (under (foldl apply_op new_recorder ops)) = 200.
Proof. split; reflexivity. Qed.
