(* ===== verification/Rewrite.v ===== *)
(** * The request a backend receives ([src/internal/proxy/proxy.go], [New])

    [New] configures the reverse proxy of [net/http/httputil]. What it writes itself
    is the [Rewrite] hook: the URL of the target, the [X-Forwarded-*] headers, and
    the host. The two helpers it calls are modelled as the library documents them;
    the escaped form of a path ([URL.EscapedPath]) and what the library removes from
    the headers before the hook are parameters. *)

From S2P Require Import Prelude GoStrings Http.
Open Scope Z_scope.

(** What the hook reads and writes of a [url.URL]. *)
Record ProxyURL := {
  pu_Scheme : string;
  pu_Host : string;
  pu_Path : string;
  pu_RawPath : string;
  pu_RawQuery : string
}.

(** The inbound request: the address of the peer without its port ([None] if it does
    not split), the host asked for, and whether it came over TLS. *)
Record InRequest := {
  in_ClientIP : option string;
  in_Host : string;
  in_TLS : bool;
  in_URL : ProxyURL;
  in_Header : Header
}.

Record OutRequest := { out_URL : ProxyURL; out_Host : string; out_Header : Header }.

(** ** [ProxyRequest.SetURL] *)

Definition singleJoiningSlash (a b : string) : string :=
  if HasSuffix a "/" && HasPrefix b "/" then a +:+ str_drop 1 b
  else if negb (HasSuffix a "/") && negb (HasPrefix b "/") then a +:+ "/" +:+ b
  else a +:+ b.

Section rewrite.
Context (EscapedPath : ProxyURL → string).

Definition joinURLPath (a b : ProxyURL) : string * string :=
  if bool_decide (pu_RawPath a = "") && bool_decide (pu_RawPath b = "")
  then (singleJoiningSlash (pu_Path a) (pu_Path b), "")
  else
    let apath := EscapedPath a in
    let bpath := EscapedPath b in
    if HasSuffix apath "/" && HasPrefix bpath "/"
    then (pu_Path a +:+ str_drop 1 (pu_Path b), apath +:+ str_drop 1 bpath)
    else if negb (HasSuffix apath "/") && negb (HasPrefix bpath "/")
    then (pu_Path a +:+ "/" +:+ pu_Path b, apath +:+ "/" +:+ bpath)
    else (pu_Path a +:+ pu_Path b, apath +:+ bpath).

Definition joinQuery (target req : string) : string :=
  if bool_decide (target = "") || bool_decide (req = "") then target +:+ req
  else target +:+ "&" +:+ req.

Definition SetURL (target : ProxyURL) (out : OutRequest) : OutRequest :=
  let path := joinURLPath target (out_URL out) in
  {| out_URL := {| pu_Scheme := pu_Scheme target; pu_Host := pu_Host target;
                   pu_Path := path.1; pu_RawPath := path.2;
                   pu_RawQuery := joinQuery (pu_RawQuery target) (pu_RawQuery (out_URL out)) |};
     out_Host := ""; out_Header := out_Header out |}.

(** ** [ProxyRequest.SetXForwarded] *)

Definition joined (prior : list string) (ip : string) : string :=
  foldr (λ v acc, v +:+ ", " +:+ acc) ip prior.

Definition forwarded_for (inr : InRequest) (h : Header) : Header :=
  match in_ClientIP inr with
  | Some ip => Header_Set "X-Forwarded-For"
                 (joined (default [] (h !! "X-Forwarded-For")) ip) h
  | None => Header_Del "X-Forwarded-For" h
  end.

Definition SetXForwarded (inr : InRequest) (out : OutRequest) : OutRequest :=
  {| out_URL := out_URL out; out_Host := out_Host out;
     out_Header :=
       Header_Set "X-Forwarded-Proto" (if in_TLS inr then "https" else "http")
         (Header_Set "X-Forwarded-Host" (in_Host inr)
           (forwarded_for inr (out_Header out))) |}.

(** ** The hook *)

Definition Rewrite (target : ProxyURL) (inr : InRequest) (out : OutRequest) : OutRequest :=
  let out := SetXForwarded inr (SetURL target out) in
  {| out_URL := out_URL out; out_Host := pu_Host target; out_Header := out_Header out |}.

(** ** What a backend receives *)

Definition forwarded_headers : list string :=
  ["Forwarded"; "X-Forwarded-For"; "X-Forwarded-Host"; "X-Forwarded-Proto"].

(** The library drops the forwarding headers of the client before the hook. *)
Context (strip : Header → Header).
Context (Hstrip : ∀ h k, k ∈ forwarded_headers → strip h !! k = None).

(** The request the library makes of the inbound one, for the hook. *)
Definition outgoing (target : ProxyURL) (inr : InRequest) : OutRequest :=
  Rewrite target inr
    {| out_URL := in_URL inr; out_Host := in_Host inr; out_Header := strip (in_Header inr) |}.

(** A client cannot forge where a request comes from, nor choose the backend. The
    request goes to the host and scheme of the target and names that host; the
    [X-Forwarded-*] headers tell the peer's address, the host asked for and the
    protocol of this very request, whatever the client sent under these names; the
    other headers are those the library passes. Behind a target without a path, the
    path and the query are the client's. *)
Theorem backend_request target inr :
  let out := outgoing target inr in
  pu_Scheme (out_URL out) = pu_Scheme target ∧ pu_Host (out_URL out) = pu_Host target ∧
  out_Host out = pu_Host target ∧
  out_Header out !! "X-Forwarded-For" = (λ ip, [ip]) <$> in_ClientIP inr ∧
  out_Header out !! "X-Forwarded-Host" = Some [in_Host inr] ∧
  out_Header out !! "X-Forwarded-Proto" = Some [if in_TLS inr then "https" else "http"] ∧
  (∀ k, k ∉ forwarded_headers → out_Header out !! k = strip (in_Header inr) !! k) ∧
  (pu_Path target = "" → pu_RawPath target = "" → pu_RawPath (in_URL inr) = "" →
   pu_RawQuery target = "" → HasPrefix (pu_Path (in_URL inr)) "/" = true →
   pu_Path (out_URL out) = pu_Path (in_URL inr) ∧
   pu_RawQuery (out_URL out) = pu_RawQuery (in_URL inr)).
Proof.
  assert (Hnone : strip (in_Header inr) !! "X-Forwarded-For" = None) by (apply Hstrip; set_solver).
  split_and!; try reflexivity.
  - simpl. unfold Header_Set. rewrite !lookup_insert_ne by (vm_compute; discriminate).
    unfold forwarded_for. destruct (in_ClientIP inr) as [ip|].
    + rewrite Hnone. apply lookup_insert_eq.
    + apply lookup_delete_eq.
  - simpl. unfold Header_Set. rewrite lookup_insert_ne by (vm_compute; discriminate).
    apply lookup_insert_eq.
  - apply lookup_insert_eq.
  - intros k Hk. unfold forwarded_headers in Hk. rewrite !not_elem_of_cons in Hk.
    destruct Hk as (_ & Hf & Hh & Hp & _). simpl. unfold Header_Set.
    rewrite !lookup_insert_ne by (vm_compute; congruence). unfold forwarded_for, Header_Set, Header_Del.
    destruct (in_ClientIP inr); [rewrite lookup_insert_ne|rewrite lookup_delete_ne];
      [done|vm_compute; congruence|done|vm_compute; congruence].
  - intros Ht Hr Hr' Hq Hs. simpl. unfold joinURLPath, joinQuery. rewrite Ht, Hr, Hr', Hq. simpl.
    split; [|done]. unfold singleJoiningSlash. by rewrite Hs.
Qed.

End rewrite.

Lemma backend_request_witness :
  let strip := λ h : gmap string (list string), foldr delete h forwarded_headers in
  let inr := {| in_ClientIP := Some "10.0.0.9"; in_Host := "gpu.example"; in_TLS := false;
                in_URL := {| pu_Scheme := ""; pu_Host := ""; pu_Path := "/v1/chat";
                             pu_RawPath := ""; pu_RawQuery := "a=1" |};
                in_Header := {["X-Forwarded-For" := ["1.2.3.4"]; "Accept" := ["*"]]} |} in
  let target := {| pu_Scheme := "http"; pu_Host := "llama:8080"; pu_Path := "";
                   pu_RawPath := ""; pu_RawQuery := "" |} in
  out_Header (outgoing pu_Path strip target inr) !! "X-Forwarded-For" = Some ["10.0.0.9"].
Proof.
  intros strip inr target.
  destruct (backend_request pu_Path strip) with (target := target) (inr := inr)
    as (_ & _ & _ & Hf & _); [|exact Hf].
  intros h k Hk. unfold strip, forwarded_headers in *. simpl.
  rewrite !elem_of_cons in Hk.
  destruct Hk as [->|[->|[->|[->|Hk%not_elem_of_nil]]]]; [..|done];
    rewrite ?lookup_delete_ne by done; apply lookup_delete_eq.
Defined.
