(* ===== verification/Tunnel.v ===== *)
(** * WebSocket tunnels ([src/internal/proxy/websocket.go])

    [Tunnel] dials the backend, replays the handshake, takes over the connection
    of the client and relays bytes until one side ends. Modelled are the address
    dialled, the request replayed, which connections are opened, tracked and closed
    on each path, what the client is told and what is logged. The relay itself is
    two copies; their ends are arguments. *)

From S2P Require Import Prelude GoStrings Http Rewrite.
Open Scope Z_scope.

(** A connection is named by a number. *)
Abbreviation conn := nat (only parsing).

(** ** [ConnTracker] *)

Record ConnTracker := Tracker { conns : gset conn }.

Definition NewConnTracker : ConnTracker := Tracker ∅.
Definition tracker_add (c : conn) (t : ConnTracker) : ConnTracker := Tracker ({[c]} ∪ conns t).
Definition tracker_remove (c : conn) (t : ConnTracker) : ConnTracker := Tracker (conns t ∖ {[c]}).
Definition Len (t : ConnTracker) : nat := size (conns t).
(** [CloseAll]: the connections closed, and the emptied tracker. *)
Definition CloseAll (t : ConnTracker) : list conn * ConnTracker := (elements (conns t), Tracker ∅).

(** ** [dialTarget]

    A host with an optional port, as [url.URL.Hostname] and [url.URL.Port] split it
    and [net.JoinHostPort] puts it together. *)

Abbreviation colon := (Ascii.ascii_of_nat 58) (only parsing).

(** [s] around its last colon. *)
Fixpoint cut_last_colon (s : string) : option (string * string) :=
  match s with
  | "" => None
  | String a s' =>
      match cut_last_colon s' with
      | Some (x, y) => Some (String a x, y)
      | None => if Ascii.eqb a colon then Some ("", s') else None
      end
  end.

Definition bracketed (host : string) : bool := HasPrefix host "[" && HasSuffix host "]".

Definition unbracket (host : string) : string :=
  if bracketed host then TrimSuffix (TrimPrefix host "[") "]" else host.

Definition splitHostPort (hostPort : string) : string * string :=
  match cut_last_colon hostPort with
  | Some (host, port) =>
      if all_bytes is_digit port then (unbracket host, port) else (unbracket hostPort, "")
  | None => (unbracket hostPort, "")
  end.

Definition Hostname (u : ProxyURL) : string := (splitHostPort (pu_Host u)).1.
Definition Port (u : ProxyURL) : string := (splitHostPort (pu_Host u)).2.

Definition JoinHostPort (host port : string) : string :=
  if Contains host ":" then "[" +:+ host +:+ "]:" +:+ port else host +:+ ":" +:+ port.

Definition over_tls (u : ProxyURL) : bool :=
  bool_decide (pu_Scheme u = "https") || bool_decide (pu_Scheme u = "wss").

(** The address dialled, and whether TLS is spoken on it. *)
Definition dialTarget (target : ProxyURL) : string * bool :=
  let host :=
    if bool_decide (Port target = "")
    then JoinHostPort (Hostname target) (if over_tls target then "443" else "80")
    else pu_Host target in
  (host, over_tls target).

(** ** [Tunnel] *)

Inductive tact :=
| Dialed (c : conn)
| Handshake (c : conn) (req : OutRequest)
| Hijacked (c : conn)
| HttpError (code : Z)
| CopyDone (error : option string) (* the first message on [errc] *)
| Debug (error : string)
| ConnClose (c : conn).

Inductive TunnelError := ErrDial | ErrHandshake | ErrNotHijacker | ErrHijack.

(** How a copy ends: with or without an error, or by a panic of a connection. *)
Inductive copy_end := CopyOK | CopyError (err : string) | CopyPanic (val : string).

(** [copyConn]: one message on [errc], whatever happens. *)
Definition copyConn (e : copy_end) : option string :=
  match e with
  | CopyOK => None
  | CopyError err => Some err
  | CopyPanic val => Some ("panic in websocket copy: " +:+ val)
  end.

Definition isClosedConn (err : option string) : bool :=
  match err with None => true | Some e => Contains e "use of closed network connection" end.

(** The client's request, as it is written to the backend. *)
Definition replayed (target : ProxyURL) (r : InRequest) : OutRequest :=
  {| out_URL := {| pu_Scheme := ""; pu_Host := ""; pu_Path := pu_Path (in_URL r);
                   pu_RawPath := pu_RawPath (in_URL r); pu_RawQuery := pu_RawQuery (in_URL r) |};
     out_Host := pu_Host target; out_Header := in_Header r |}.

Section tunnel.
Abbreviation T := (prog ConnTracker tact).

(** [defer f()] around [body]: [f] runs when [body] ends, by a panic too. *)
Definition deferring {A} (body : T A) (f : T ()) : T A := λ s,
  match body s with
  | (o, s', es) => match f s' with (_, s'', es') => (o, s'', es ++ es') end
  end.

(** What the outside does: the connection to an address, the handshake written, the
    writer a hijacker, the connection taken over, the first copy to end; and what
    the tracker is subjected to while the relay runs ([CloseAll]). *)
Context (dial : string → bool → option conn) (handshake_ok is_hijacker : bool)
  (hijack : option conn) (first : copy_end) (meanwhile : ConnTracker → ConnTracker).

Definition relay : T () :=
  modify meanwhile;;
  let err := copyConn first in
  emit (CopyDone err);;
  match err with
  | Some e => if negb (isClosedConn err) then emit (Debug e) else mret ()
  | None => mret ()
  end.

(** [tracked]: the tracker is not nil. *)
Definition Tunnel (target : ProxyURL) (r : InRequest) (tracked : bool) : T (option TunnelError) :=
  let '(address, tls) := dialTarget target in
  match dial address tls with
  | None => emit (HttpError StatusBadGateway);; mret (Some ErrDial)
  | Some backend =>
      emit (Dialed backend);;
      deferring
        (emit (Handshake backend (replayed target r));;
         if negb handshake_ok then
           emit (HttpError StatusBadGateway);; mret (Some ErrHandshake)
         else if negb is_hijacker then
           emit (HttpError StatusInternalServerError);; mret (Some ErrNotHijacker)
         else
           match hijack with
           | None => emit (HttpError StatusInternalServerError);; mret (Some ErrHijack)
           | Some client =>
               emit (Hijacked client);;
               deferring
                 (if tracked then
                    modify (tracker_add client);;
                    deferring (relay;; mret None) (modify (tracker_remove client))
                  else relay;; mret None)
                 (emit (ConnClose client))
           end)
        (emit (ConnClose backend))
  end.

(** ** Properties *)

(** [CloseAll] during the relay, or nothing. *)
Definition harmless : Prop := ∀ t, conns (meanwhile t) ⊆ conns t.

(** The answer to a failure before the connection is taken over. *)
Definition failed (e : TunnelError) (code : Z) : Prop :=
  match e with
  | ErrDial | ErrHandshake => code = StatusBadGateway
  | ErrNotHijacker | ErrHijack => code = StatusInternalServerError
  end.

(** What is logged of the end of a relay: an error other than a closed connection. *)
Definition logged : list tact :=
  match copyConn first with
  | Some e => if Contains e "use of closed network connection" then [] else [Debug e]
  | None => []
  end.

Lemma relay_eq t : relay t = (Ret (), meanwhile t, CopyDone (copyConn first) :: logged).
Proof.
  unfold relay, logged. destruct (copyConn first) as [e|]; simpl; [|done]. by destruct (Contains _ _).
Qed.

(** No connection is leaked, on any path. Every connection the tunnel opens or takes
    over is closed exactly once by the tunnel itself, the backend last; the client
    is told of a failure exactly when its connection has not been taken over; the
    backend is sent the client's own request, naming the backend's host; and the
    tracker holds no connection of the tunnel afterwards, nor any it did not hold
    before, whether or not the tunnel was torn down meanwhile. *)
Theorem tunnel_leaves_nothing target r tracked t :
  harmless →
  ∃ res t' es, Tunnel target r tracked t = (Ret res, t', es) ∧
    conns t' ⊆ conns t ∧
    match dial (dialTarget target).1 (dialTarget target).2, res with
    | None, _ => ∃ e code, res = Some e ∧ failed e code ∧ es = [HttpError code]
    | Some b, Some e => ∃ code, failed e code ∧
        es = [Dialed b; Handshake b (replayed target r); HttpError code; ConnClose b]
    | Some b, None => ∃ c, hijack = Some c ∧ (tracked = true → c ∉ conns t') ∧
        es = Dialed b :: Handshake b (replayed target r) :: Hijacked c ::
             CopyDone (copyConn first) :: logged ++ [ConnClose c; ConnClose b]
    end.
Proof.
  intros Hm. unfold Tunnel. destruct (dialTarget target) as [addr tls]. simpl.
  destruct (dial addr tls) as [b|]; [|eexists _, _, _; naive_solver].
  unfold deferring, mbind, prog_bind. simpl.
  destruct handshake_ok; simpl; [|eexists _, _, _; naive_solver].
  destruct is_hijacker; simpl; [|eexists _, _, _; naive_solver].
  destruct hijack as [c|]; simpl; [|eexists _, _, _; naive_solver].
  destruct tracked; simpl; rewrite relay_eq; (eexists _, _, _; split; [reflexivity|]); simpl.
  - specialize (Hm (tracker_add c t)). unfold tracker_add in *. simpl in *.
    split; [set_solver|]. exists c. split_and!; [done|set_solver|].
    by rewrite !app_nil_r, <- app_assoc.
  - split; [apply Hm|]. exists c. split_and!; [done..|]. by rewrite app_nil_r, <- app_assoc.
Qed.

End tunnel.

Lemma tunnel_leaves_nothing_witness :
  let target := {| pu_Scheme := "http"; pu_Host := "comfy:8188"; pu_Path := "";
                   pu_RawPath := ""; pu_RawQuery := "" |} in
  let r := {| in_ClientIP := Some "10.0.0.9"; in_Host := "gpu.example"; in_TLS := false;
              in_URL := {| pu_Scheme := ""; pu_Host := ""; pu_Path := "/ws";
                           pu_RawPath := ""; pu_RawQuery := "clientId=1" |};
              in_Header := {["Upgrade" := ["websocket"]]} |} in
  let dial := λ address tls,
    if bool_decide (address = "comfy:8188") && negb tls then Some 1%nat else None in
  ∃ res t' es, Tunnel dial true true (Some 2%nat) (CopyError "broken pipe")
      (λ t, (CloseAll t).2) target r true NewConnTracker = (Ret res, t', es) ∧
    conns t' ⊆ conns NewConnTracker.
Proof.
  intros target r dial.
  destruct (tunnel_leaves_nothing dial true true (Some 2%nat) (CopyError "broken pipe")
    (λ t, (CloseAll t).2) target r true NewConnTracker) as (res & t' & es & He & Hc & _).
  - intros t. simpl. set_solver.
  - exists res, t', es. split; [exact He|exact Hc].
Defined.

(** ** The address dialled *)

Lemma cut_last_colon_free s : Contains s ":" = false → cut_last_colon s = None.
Proof.
  induction s as [|a s IH]; [done|]. simpl. intros [Hp Hc]%orb_false_iff.
  rewrite (IH Hc). destruct (Ascii.eqb_spec a colon) as [->|]; [|done].
  by destruct s.
Qed.

Lemma cut_last_colon_app x y :
  Contains y ":" = false → cut_last_colon (x +:+ ":" +:+ y) = Some (x, y).
Proof.
  intros Hy. induction x as [|a x IH]; simpl.
  - by rewrite cut_last_colon_free.
  - by rewrite IH.
Qed.

Lemma unbracket_app h : unbracket ("[" +:+ h +:+ "]") = h.
Proof.
  unfold unbracket, bracketed. rewrite (proj2 (HasPrefix_spec _ _)) by eauto.
  rewrite (proj2 (HasSuffix_spec _ _)) by (exists ("[" +:+ h); by rewrite app_assoc_str).
  simpl. by rewrite TrimPrefix_app, TrimSuffix_app.
Qed.

(** The address always names a port: the one of the target, and otherwise that of its
    scheme; the host is the target's in either case, bracketed if it is an IPv6
    address. TLS is spoken exactly for [https] and [wss]. *)
Theorem dial_address target :
  bracketed (Hostname target) = false →
  let address := (dialTarget target).1 in
  splitHostPort address = (Hostname target,
    if decide (Port target = "") then if over_tls target then "443" else "80" else Port target) ∧
  (Port target ≠ "" → address = pu_Host target) ∧
  (dialTarget target).2 = over_tls target.
Proof.
  intros Hb. unfold dialTarget. simpl. case_bool_decide as Hp.
  2: { rewrite decide_False by done. by rewrite surjective_pairing at 1. }
  rewrite decide_True by done. split; [|done].
  set (port := if over_tls target then "443" else "80").
  assert (Hport : Contains port ":" = false ∧ all_bytes is_digit port = true)
    by (subst port; by destruct (over_tls target)).
  destruct Hport as [Hfree Hdig]. unfold splitHostPort, JoinHostPort. set (h := Hostname target) in *.
  destruct (Contains h ":").
  - replace ("[" +:+ h +:+ "]:" +:+ port) with (("[" +:+ h +:+ "]") +:+ ":" +:+ port)
      by by rewrite !app_assoc_str.
    by rewrite cut_last_colon_app, Hdig, unbracket_app by done.
  - rewrite cut_last_colon_app, Hdig by done. f_equal. unfold unbracket. by rewrite Hb.
Qed.

(** [CloseAll] closes every tracked connection, each once, and tracks none after. *)
Lemma CloseAll_spec t :
  NoDup (CloseAll t).1 ∧ (∀ c, c ∈ (CloseAll t).1 ↔ c ∈ conns t) ∧ Len (CloseAll t).2 = 0%nat.
Proof.
  unfold CloseAll. cbn [fst snd]. split; [apply (NoDup_elements (conns t))|].
  split; [intros c; apply (elem_of_elements (conns t))|]. unfold Len. apply size_empty.
Qed.
