(* ===== verification/Client.v ===== *)
(** * The callers of a pool ([src/internal/orchestrator/pool.go], the public methods)

    A caller runs in a goroutine of its own: it sends a command to the manager and
    waits for the reply, for its own context, or for the closing of the pool. Which
    ready case a [select] takes is not determined, so the choices are arguments. *)

From S2P Require Import Prelude State Queue Pool.
Open Scope Z_scope.

(** ** [Admit] *)

(** The case taken by each [select] of [Admit]: sending the command, waiting for the
    reply, withdrawing. *)
Inductive send_case := Sent | SendCtxDone | SendPoolDone.
Inductive wait_case := Replied (r : admitReply) | WaitCtxDone | WaitPoolDone.
Inductive cancel_case := CancelSent | CancelPoolDone.

(** What a caller does: the ping on the activity channel (dropped when it is full),
    and the commands it sends. *)
Inductive cact := Ping (service : string) | SendCmd (c : cmd).

(** [ctx_err] is [ctx.Err()] of a context that is done; [ping]: the activity channel
    has room. *)
Definition Admit (snap : PoolSnapshot) (service : string) (reply : chan) (ctx_err : GoError)
    (ping : bool) (s : send_case) (w : wait_case) (c : cancel_case) :
    AdmitResult * option GoError * list cact :=
  if admit_fast snap service then (AdmitGo, None, if ping then [Ping service] else []) else
  match s with
  | SendCtxDone => (AdmitCanceled, Some ctx_err, [])
  | SendPoolDone => (AdmitShutdown, None, [])
  | Sent =>
      let ask := SendCmd (admitCmd service reply) in
      match w with
      | Replied r => (result r, err r, [ask])
      | WaitCtxDone =>
          (AdmitCanceled, Some ctx_err,
           match c with
           | CancelSent => [ask; SendCmd (cancelCmd service reply)]
           | CancelPoolDone => [ask]
           end)
      | WaitPoolDone => (AdmitShutdown, None, [ask])
      end
  end.

(** ** The other methods: a command and its reply, or the answer of a closed pool *)

Inductive ask_case (A : Type) := Answered (a : A) | AskPoolDone.
Arguments Answered {A} a.
Arguments AskPoolDone {A}.

Definition ask {A} (c : ask_case A) (closed : A) : A :=
  match c with Answered a => a | AskPoolDone => closed end.

Definition Snapshot (p : Pool) : PoolSnapshot := snap p.

Definition QueuedCounts (c : ask_case (gmap string Z)) : gmap string Z := ask c ∅.

Definition Status (snap : PoolSnapshot) (c : ask_case PoolStatus) : PoolStatus :=
  ask c {| st_State := snap_State snap; st_ActiveService := "";
           st_SecondsUntilCooldown := -1; st_QueuedRequests := 0 |}.

Definition AdminSwap (c : ask_case AdminOutcome) : AdminOutcome := ask c AdminUnknown.
Definition AdminStop (c : ask_case AdminOutcome) : AdminOutcome := ask c AdminAlreadyIdle.

(** ** The protocol of a caller *)

(** A caller keeps its side of the protocol. It sends at most one admission, and a
    withdrawal only of that admission; once the manager has its admission it leaves
    with the reply of the manager, or withdraws, or the pool is closed, so a live pool
    never keeps a waiter whose client has left without being told. It goes on to the
    backend only when the snapshot or the manager says so. *)
Theorem caller_protocol snap service reply ctx_err ping s w c :
  let '(res, e, acts) := Admit snap service reply ctx_err ping s w c in
  (res = AdmitGo → e = None ∧ admit_fast snap service = true ∨
     ∃ r, w = Replied r ∧ result r = AdmitGo ∧ SendCmd (admitCmd service reply) ∈ acts) ∧
  (SendCmd (admitCmd service reply) ∈ acts →
     (∃ r, w = Replied r ∧ res = result r ∧ e = err r) ∨
     (res = AdmitCanceled ∧ (SendCmd (cancelCmd service reply) ∈ acts ∨ c = CancelPoolDone)) ∨
     (res = AdmitShutdown ∧ w = WaitPoolDone)) ∧
  (∀ x, SendCmd x ∈ acts → x = admitCmd service reply ∨
     x = cancelCmd service reply ∧ acts = [SendCmd (admitCmd service reply); SendCmd x]).
Proof.
  unfold Admit. destruct (admit_fast snap service).
  { split; [auto|]. destruct ping; set_solver. }
  destruct s; [|set_solver|set_solver].
  destruct w as [r| |]; [|destruct c|]; (split; [|split]); try (intros; set_solver).
Qed.
