(* ===== verification/EndToEnd.v ===== *)
(** * From a request to a service that works

    The parts of the program put together: the HTTP handler of a configuration
    revision, the callers of the pools, their managers, the workers and docker. A
    client is answered about the service it asked for, [Admit] lets it through only
    by such an answer or by the published snapshot, and the handler forwards only
    what [Admit] lets through, to the address whose health the worker has probed. *)

From S2P Require Import Prelude GoStrings State Docker Registry Queue Worker WorkerFacts WorkerTheorems.
From S2P Require Import Pool PoolFacts QueueInv System Invariant Handlers Reachable Demo Static Spawning.
From S2P Require Import Exclusion MutualExclusion Grants Snapshot Protection Starvation Client.
From S2P Require Import Http Config ConfigTheorems Router Proxy Runtime RuntimeTheorems.
From S2P Require Import Handler HandlerTheorems.
Open Scope Z_scope.

(** ** A queue grows by admissions only *)

Definition leaves (p p' : Pool) : Prop :=
  ∀ n w, waiting (members p') n w → waiting (members p) n w.

#[global] Instance leaves_preorder : PreOrder leaves.
Proof. split; [by intros p n w|]. intros p1 p2 p3 H1 H2 n w Hw. by apply H1, H2. Qed.

Lemma leaves_same p p' : members p' = members p → leaves p p'.
Proof. intros Hm n w. by rewrite Hm. Qed.

Lemma leaves_modify f : (∀ p, members (f p) = members p) → keeps (E := effect) leaves (modify f).
Proof. intros Hf. apply keeps_modify. intros p. by apply leaves_same. Qed.

Lemma leaves_startSwap t : keeps leaves (startSwap t).
Proof. intros p. eapply wp_eq; [apply startSwap_eq|]. by apply leaves_same. Qed.
Lemma leaves_startStopAll : keeps leaves startStopAll.
Proof. intros p. eapply wp_eq; [apply startStopAll_eq|]. by apply leaves_same. Qed.
Lemma leaves_armTimer k d : keeps leaves (armTimer k d).
Proof. intros p. eapply wp_eq; [apply armTimer_eq|]. apply leaves_same. by destruct k. Qed.
Lemma leaves_bumpEpochs : keeps leaves bumpEpochs.
Proof. intros p. eapply wp_eq; [apply bumpEpochs_eq|]. by apply leaves_same. Qed.
Lemma leaves_supersedeWorker : keeps leaves supersedeWorker.
Proof. intros p. eapply wp_eq; [apply supersedeWorker_eq|]. by apply leaves_same. Qed.
Lemma leaves_settle st act : keeps leaves (settle st act).
Proof. intros p. eapply wp_eq; [apply settle_eq|]. by apply leaves_same. Qed.
Lemma leaves_release_ctx : keeps leaves release_ctx.
Proof. intros p. eapply wp_eq; [apply release_ctx_eq|]. by apply leaves_same. Qed.
Lemma leaves_publish : keeps leaves publish.
Proof. intros p. eapply wp_eq; [apply publish_eq|]. by apply leaves_same. Qed.
Lemma leaves_touch s now : keeps leaves (touch s now).
Proof. apply leaves_modify. intros p. by case_decide. Qed.

Lemma leaves_put p n m m' :
  members p !! n = Some m → (∀ w, w ∈ queue m' → w ∈ queue m) → leaves p (put_member n m' p).
Proof.
  intros Hm Hq k w [[-> Hw]|[_ Hw]]%waiting_insert; [|done]. exists m. auto.
Qed.

Lemma leaves_flush_member n r : keeps leaves (flush_member n r).
Proof.
  intros p. destruct (members p !! n) as [m|] eqn:Hm.
  - eapply wp_eq; [by apply flush_member_eq|]. apply (leaves_put p n m); [done|].
    by intros w ?%not_elem_of_nil.
  - unfold flush_member. apply wp_bind, wp_gets. simpl. rewrite Hm. apply wp_bind. by intros k w Hw.
Qed.

#[export] Hint Resolve leaves_startSwap leaves_startStopAll leaves_armTimer leaves_bumpEpochs
  leaves_supersedeWorker leaves_settle leaves_release_ctx leaves_publish leaves_touch
  leaves_flush_member leaves_preorder : keeps.
#[export] Hint Extern 1 (keeps leaves (modify _)) =>
  (apply leaves_modify; intros; reflexivity) : keeps.

Lemma leaves_flush_all r : keeps leaves (flush_all r).
Proof. unfold flush_all. keeps. Qed.
Lemma leaves_chainNow : keeps leaves chainNow.
Proof. unfold chainNow. keeps. Qed.
Lemma leaves_chain b now : keeps leaves (chainAfterTerminal b now).
Proof. unfold chainAfterTerminal. keeps. Qed.
#[export] Hint Resolve leaves_flush_all leaves_chainNow leaves_chain : keeps.

Lemma leaves_handleCancel s c : keeps leaves (handleCancel s c).
Proof.
  intros p. unfold handleCancel. apply wp_bind, wp_gets. simpl.
  destruct (members p !! s) as [m|] eqn:Hm; [|by apply wp_mret].
  apply wp_modify. apply (leaves_put p s m); [done|]. simpl. intros w Hw.
  induction (queue m) as [|v q IH]; simpl in Hw; [done|].
  case_bool_decide; [by right|]. apply elem_of_cons in Hw as [->|Hw]; [by left|]. right. auto.
Qed.
#[export] Hint Resolve leaves_handleCancel : keeps.

(** A client that waits after a message has waited before, or has just asked for
    that very service. *)
Definition joins (i : input) (p p' : Pool) : Prop :=
  ∀ n w, waiting (members p') n w →
    waiting (members p) n w ∨ i = InCmd (admitCmd n (w_reply w)).

Lemma joins_leaves {A} i (m : M A) p : keeps leaves m → wp m (λ _ p' _, joins i p p') p.
Proof. intros Hm. eapply wp_mono; [|apply Hm]. intros ? p' ? Hl n w Hw. left. by apply Hl. Qed.

Lemma handleAdmit_joins s c now :
  ∀ p, wp (handleAdmit s c now) (λ _ p' _, joins (InCmd (admitCmd s c)) p p') p.
Proof.
  intros p. unfold handleAdmit. apply wp_bind, wp_gets. simpl.
  destruct (members p !! s) as [m|] eqn:Hm; [|by apply joins_leaves; keeps].
  do 2 (apply wp_bind, wp_gets; simpl).
  case_decide; [by apply joins_leaves; keeps|].
  apply wp_bind, wp_modify. simpl. apply wp_bind, wp_gets. simpl.
  apply wp_bind, wp_modify. simpl.
  match goal with |- wp ?m _ ?p1 => assert (Hk : keeps leaves m) by keeps end.
  eapply wp_mono; [|apply Hk]. intros ? p' ? Hl n w Hw. apply Hl in Hw. simpl in Hw.
  apply waiting_insert in Hw as [[-> Hw]|[_ Hw]]; [|by left].
  unfold enqueue in Hw. case_bool_decide; simpl in Hw; [left; by exists m|].
  apply elem_of_app in Hw as [Hw|Hw%list_elem_of_singleton]; [left; by exists m|].
  right. by subst w.
Qed.

Lemma handle_joins i now1 now2 p : wp (handle i now1 now2) (λ _ p' _, joins i p p') p.
Proof.
  destruct i as [[s c|s c| | |s|]|msg|t|s|ev|]; [apply handleAdmit_joins|..];
    apply joins_leaves; simpl;
    unfold handleAdminSwap, handleAdminStop, handleSwap, handleTick, handleExternalEvent, shutdown;
    keeps.
Qed.

(** ** A client is answered about the service it asked for *)

(** The client of [c] is known to the manager, and waits for [service] if it waits. *)
Definition asked (c : chan) (service : string) (w : World) : Prop :=
  c ∈ issued (environment (w_sys w)) ∧
  ∀ n v, waiting (members (pool (w_sys w))) n v → w_reply v = c → n = service.

Lemma asked_handled c service w i es w' : asked c service w → handled w i es w' → asked c service w'.
Proof.
  intros [Hc Hw] Hh. destruct Hh as [s h i now1 now2 e1 p' es _ _ _ Htake _ Hh]. split; simpl in *.
  - rewrite issued_performs. by eapply issued_take.
  - intros n v Hv Heq. pose proof (handle_joins i now1 now2 (pool s)) as Hj. unfold wp in Hj.
    rewrite Hh in Hj. destruct (Hj n v Hv) as [Hold|Hi]; [by eapply Hw|].
    exfalso. subst i. inversion Htake; subst; done.
Qed.

Lemma asked_gsteps cfg c service k w w' :
  asked c service w → nsteps (gstep cfg) k w w' → asked c service w'.
Proof.
  intros Ha Hs. induction Hs as [w|k w1 w2 w3 Hstep _ IH]; [done|]. apply IH.
  destruct Hstep as [s h i now1 now2 e1 p' es ? ? ? ? ? ?|s h|s h op a ?|s h op cc ?|s h cc];
    [|exact Ha..]. by eapply asked_handled; [exact Ha|eapply Handled].
Qed.

(** The moment of an admission: nobody waits on a channel the manager has not seen. *)
Lemma asked_admission cfg n w c service es w' :
  config_ok cfg → Z.of_nat n < max_steps → greach cfg n w →
  handled w (InCmd (admitCmd service c)) es w' → asked c service w'.
Proof.
  intros Hcfg Hn Hr Hh. destruct (greach_winv _ _ _ Hcfg Hn Hr) as [(k & Hk & Hreach) _ _ _ _ _].
  destruct (reach_queues cfg k (w_sys w)) as [sq HQ]; [done|lia|done|].
  inversion Hh as [s h i now1 now2 e1 p' es' _ _ _ Htake _ Hrun]; subst. inversion Htake; subst.
  split; simpl in *; [rewrite issued_performs; by left|].
  intros m v Hv Heq. pose proof (handleAdmit_joins service c now1 (pool s)) as Hj.
  unfold wp in Hj. rewrite Hrun in Hj. destruct (Hj m v Hv) as [Hold|Hi]; [|by simplify_eq].
  apply (q_issued _ _ _ _ _ HQ) in Hold. congruence.
Qed.

(** The manager of a pool answers [r] to a client that asks for [service] over [c]: at
    once, or at some later message of the same run. The instant of the answer is given
    by the world the run has then come to and by the actions of the manager up to the
    reply, which may be in the middle of a message. *)
Inductive answered (cfg : PoolConfig) (service : string) (c : chan) (r : admitReply) :
    World → list effect → Prop :=
| answered_at_once n w e1 e2 w' :
    Z.of_nat n < max_steps → greach cfg n w →
    handled w (InCmd (admitCmd service c)) (e1 ++ Reply c r :: e2) w' →
    answered cfg service c r w' (outputs (w_hist w) ++ e1 ++ [Reply c r])
| answered_later n w es w1 k w2 i e1 e2 w3 :
    Z.of_nat (n + 1 + k) < max_steps → greach cfg n w →
    handled w (InCmd (admitCmd service c)) es w1 → nsteps (gstep cfg) k w1 w2 →
    handled w2 i (e1 ++ Reply c r :: e2) w3 →
    answered cfg service c r w3 (outputs (w_hist w2) ++ e1 ++ [Reply c r]).

(** [service] is up at an instant of the run of a pool: the worker started last up to
    that instant had, before it, seen the containers of the other members stopped,
    started the container of [service], whose start docker accepted, had not been
    replaced, and had its last health probe answered with status 200. *)
Definition up_at (cfg : PoolConfig) (service : string) (w : World) (pre : list effect) : Prop :=
  ∃ h1 h2 op m a b, w_hist w = h1 ++ h2 ∧ outputs h1 `prefix_of` pre ∧
    last (spawns pre) = Some op ∧ new_members (pc_Members cfg) !! service = Some m ∧
    acts op h1 =
      a ++ start_acts (containerName m) ++ [Started (containerName m) None; CtxErr false] ++ b ++
      [Got (healthURL m) (Some 200); Probed true; Deliver (swap_report op m swapComplete None)] ∧
    calm b ∧
    ∀ t m', new_members (pc_Members cfg) !! t = Some m' → t ≠ service →
      Inspected (containerName m') (inr false) ∈ a.

(** The worker that has reported success is up to date at an instant. *)
Lemma reported_up cfg w h1 h2 pre op msg :
  hist_ok cfg h1 → w_hist w = h1 ++ h2 → outputs h1 `prefix_of` pre →
  last (spawns pre) = Some op → Deliver msg ∈ acts op h1 → msg_kind msg = swapComplete →
  up_at cfg (msg_target msg) w pre.
Proof.
  intros Hok Hh Hpre Hl Hd Hk. destruct (delivered_success cfg h1 op msg Hok Hd Hk) as (m & a & b & ?).
  by exists h1, h2, op, m, a, b.
Qed.

(** A client that waits, or has just asked, is told to go for its own service. *)
Lemma granted_asked w i es w' c service service' :
  handled w i es w' → granted i (pool (w_sys w)) c service' →
  i = InCmd (admitCmd service c) ∧ c ∉ issued (environment (w_sys w)) ∨ asked c service w →
  (∀ n v, waiting (members (pool (w_sys w))) n v → w_reply v ∈ issued (environment (w_sys w))) →
  service' = service.
Proof.
  intros Hh Hg Hor Hiss. destruct Hh as [s h i now1 now2 e1 p' es _ _ _ Htake _ Hh]. simpl in *.
  destruct Hg as [Hst ->|msg v -> _ _ Hw Hc].
  - destruct Hor as [[[= <-] _]|[Hin _]]; [done|]. inversion Htake; subst. done.
  - destruct Hor as [[? _]|[_ Hq]]; [done|]. by eapply Hq.
Qed.

Lemma handled_up cfg n w i e1 e2 w' c r service :
  config_ok cfg → Z.of_nat n < max_steps → greach cfg n w →
  handled w i (e1 ++ Reply c r :: e2) w' → result r = AdmitGo →
  i = InCmd (admitCmd service c) ∧ c ∉ issued (environment (w_sys w)) ∨ asked c service w →
  up_at cfg service w' (outputs (w_hist w) ++ e1 ++ [Reply c r]).
Proof.
  intros Hcfg Hn Hr Hh Hgo Hor.
  destruct (greach_winv _ _ _ Hcfg Hn Hr) as [(k & Hk & Hreach) Hok _ _ _ _].
  destruct (reach_queues cfg k (w_sys w)) as [sq HQ]; [done|lia|done|].
  assert (Hin : Reply c r ∈ e1 ++ Reply c r :: e2) by set_solver.
  assert (∃ service' msg, granted i (pool (w_sys w)) c service' ∧
    Deliver msg ∈ acts (opSeq (pool (w_sys w))) (w_hist w) ∧
    msg_kind msg = swapComplete ∧ msg_target msg = service') as (s' & msg & Hg & Hd & Hk' & Ht).
  { destruct Hh as [s h i now1 now2 en p' es ? ? ? ? ? ?]. by eapply grant_reported. }
  assert (s' = service) as -> by (eapply granted_asked; [done..|]; apply (q_issued _ _ _ _ _ HQ)).
  rewrite <- Ht. remember (e1 ++ Reply c r :: e2) as es0 eqn:Hes.
  destruct Hh as [s h i now1 now2 en p' es Hrun ? ? ? ? Hd']. simpl in *.
  pose proof (handle_early i now1 now2 (pool s)) as He. unfold wp in He. rewrite Hd', Hes in He.
  eapply (reported_up cfg _ h); [done|done| | |exact Hd|done].
  - by eexists.
  - rewrite !spawns_app, (early_split _ _ _ _ He Hgo), spawns_outputs. simpl.
    change (spawns [Reply c r]) with (@nil Z). rewrite app_nil_r. by apply (current_last cfg n {| w_sys := s; w_hist := h |} msg).
Qed.

Lemma answered_up cfg service c r w pre :
  config_ok cfg → answered cfg service c r w pre → result r = AdmitGo → up_at cfg service w pre.
Proof.
  intros Hcfg Hans Hgo.
  destruct Hans as [n w e1 e2 w' Hn Hr Hh|n w es w1 k w2 i e1 e2 w3 Hn Hr Hh Hk Hh'].
  - eapply handled_up; [done..|]. left. split; [done|].
    inversion Hh as [s h i now1 now2 en p' es' _ _ _ Htake _ _]; subst. by inversion Htake; subst.
  - assert (Hr1 : greach cfg (n + 1) w1) by (eapply greach_S; [done|by eapply handled_gstep]).
    assert (Hr2 : greach cfg (n + 1 + k) w2) by by eapply greach_app.
    eapply (handled_up cfg (n + 1 + k) w2); [done..|]. right.
    eapply asked_gsteps; [|done]. eapply (asked_admission cfg n w); [done|lia|done|done].
Qed.

(** ** What [Admit] answers *)

(** A snapshot that can be read at some instant, in the middle of a message too. *)
Definition published (cfg : PoolConfig) (sn : PoolSnapshot) (w : World) (pre : list effect) : Prop :=
  ∃ n post, Z.of_nat n < max_steps ∧ greach cfg n w ∧
    outputs (w_hist w) = pre ++ post ∧ sn = visible snap_idle pre.

(** [Admit] gives the answer [ans] to a request for [service] at an instant of the run
    of the pool. The caller has read the snapshot at some instant, and that is the
    instant of the answer if the snapshot decides; otherwise its selects have taken any
    ready case, and if it has received a reply, the instant is that of the reply that
    the manager has sent it. *)
Definition admits (cfg : PoolConfig) (service : string) (ans : AdmitResult * option GoError)
    (w : World) (pre : list effect) : Prop :=
  ∃ sn w0 pre0 c ctx_err ping s wc cc, published cfg sn w0 pre0 ∧
    ans = (Client.Admit sn service c ctx_err ping s wc cc).1 ∧
    if admit_fast sn service then w = w0 ∧ pre = pre0
    else ∀ r, s = Sent → wc = Replied r → answered cfg service c r w pre.

Lemma published_up cfg sn service w pre :
  config_ok cfg → published cfg sn w pre → admit_fast sn service = true → up_at cfg service w pre.
Proof.
  intros Hcfg (n & post & Hn & Hr & Hout & ->) Hf.
  destruct (visible_reported cfg n w pre post service)
    as (k & w1 & h2 & msg & Hk & Hr1 & Hh & Hpre & Hl & Hd & Hkind & <-); [done..|].
  destruct (greach_winv cfg k w1 Hcfg ltac:(lia) Hr1) as [_ Hok _ _ _ _].
  by eapply reported_up.
Qed.

Lemma admits_up cfg service ans w pre :
  config_ok cfg → admits cfg service ans w pre → ans.1 = AdmitGo → up_at cfg service w pre.
Proof.
  intros Hcfg (sn & w0 & pre0 & c & ctx_err & ping & s & wc & cc & Hsn & -> & Hrep).
  unfold Client.Admit. destruct (admit_fast _ _) eqn:Hf.
  - destruct Hrep as [-> ->]. intros _. by eapply published_up.
  - destruct s; [|done..]. destruct wc as [r| |]; [|done..]. simpl. intros Hgo.
    eapply answered_up; [done|by apply Hrep|done].
Qed.

(** ** From the configuration to the members of a pool *)

Lemma pool_member cfg poolname p n svc :
  Services cfg !! n = Some svc → svc_VRAMPool svc = Some poolname →
  new_members (pc_Members (pool_config cfg poolname p)) !! n = Some (new_member (member_config cfg n svc)).
Proof.
  intros Hs Hp. simpl. assert (Hin : member_config cfg n svc ∈ poolMembers cfg poolname).
  { apply poolMembers_elem. eauto. }
  destruct (new_members_Some (poolMembers cfg poolname) n) as [m Hm].
  { apply list_elem_of_fmap. by exists (member_config cfg n svc). }
  pose proof Hm as Hm'. apply new_members_lookup in Hm' as (mc & Hmc & -> & ->).
  apply poolMembers_elem in Hmc as (n' & s' & Hs' & _ & ->). simpl in *. by simplify_eq.
Qed.

(** ** The whole way *)

(** A service of a pool, as it is configured, is up at an instant of the run of that
    pool: the worker started last up to then had seen the containers of all the other
    services of the pool stopped, had started the container of the service, whose start
    docker accepted, had not been replaced, and its last probe, at the health path of
    the address of the service, was answered with status 200. *)
Definition serving_at (cfg : Config) (poolname name : string) (svc : Service) (w : World)
    (pre : list effect) : Prop :=
  ∃ h1 h2 op before after, w_hist w = h1 ++ h2 ∧ outputs h1 `prefix_of` pre ∧
    last (spawns pre) = Some op ∧
    acts op h1 =
      before ++ start_acts (svc_ContainerName svc) ++
      [Started (svc_ContainerName svc) None; CtxErr false] ++ after ++
      [Got (HealthURL svc) (Some 200); Probed true;
       Deliver (swap_report op (new_member (member_config cfg name svc)) swapComplete None)] ∧
    calm after ∧
    ∀ other svc', Services cfg !! other = Some svc' → svc_VRAMPool svc' = Some poolname →
      other ≠ name → Inspected (svc_ContainerName svc') (inr false) ∈ before.

Lemma up_serving cfg poolname p name svc w pre :
  Services cfg !! name = Some svc → svc_VRAMPool svc = Some poolname →
  up_at (pool_config cfg poolname p) name w pre → serving_at cfg poolname name svc w pre.
Proof.
  intros Hs Hp (h1 & h2 & op & m & a & b & Hh & Hpre & Hl & Hm & Ha & Hb & Hsib).
  rewrite (pool_member cfg poolname p _ svc) in Hm by done. injection Hm as <-.
  exists h1, h2, op, a, b. split_and!; try done. intros other svc' Hs' Hp' Hne.
  by apply (Hsib other _ (pool_member cfg poolname p other svc' Hs' Hp')).
Qed.

Section request.
Context (url_Parse : string → option URL).
Context {W : Type} `{!Client W}.
(** What the pools answer the request, and the instant of the answer in the run of
    the pool. *)
Context (Admit : pool_id → string → AdmitResult * option GoError).
Context (run_of : pool_id → string → World) (instant : pool_id → string → list effect).
Context (deadline_exceeded : bool).
Context (unmarshal : string → option string).

(** The open pools of a server answer the request as pools do, each at its instant. *)
Definition pools_answer (s : Srv) : Prop :=
  ∀ id pc service, open_pool s id pc →
    admits pc service (Admit id service) (run_of id service) (instant id service).

(** C7: a request reaches a service only when it works. On any server a boot and any
    reloads can lead to, whenever the handler forwards a request or opens a tunnel,
    it does so for a service of the current configuration to which the request is
    routed, and to the address of that service. If the service is in a pool, the
    handler has asked this pool for it, and at the very instant at which this request
    was answered, in the run of this pool, the worker started last had before that seen
    the containers of all the other services of the pool stopped, had started the
    container of that service, and had its last health probe, at the health path of
    that same address, answered with status 200. *)
Theorem forwarded_service_is_up auth s req name r h a :
  server_reach url_Parse auth s → pools_answer s →
  rt_maxRequestBytes (sv_rt s) ≤ int64_max → bounded req →
  a ∈ (trace Admit deadline_exceeded unmarshal (sv_rt s) req).2 →
  a = Forward name r h ∨ a = Tunnel name r h →
  let cfg := rt_cfg (sv_rt s) in
  ∃ sv svc, routed unmarshal (sv_rt s) req sv ∧ s_name sv = name ∧
    Services cfg !! name = Some svc ∧ url_Parse (TargetURL svc) = Some (s_target sv) ∧
    ∀ poolname, svc_VRAMPool svc = Some poolname →
      ∃ id, rt_pools (sv_rt s) !! poolname = Some id ∧ s_pool sv = Some id ∧
        (Admit id name).1 = AdmitGo ∧
        serving_at cfg poolname name svc (run_of id name) (instant id name).
Proof.
  intros Hs Hpools Hmax Hlen Ha Hor cfg.
  destruct (server_reach_inv _ _ _ Hs) as [[[Hv Hplain] Hrt Hpl _] _].
  destruct (trace_forward _ _ _ _ Hmax _ _ _ _ _ Hlen Ha Hor) as (sv & Hroute & Hname & _ & Hgo).
  pose proof Hroute as [_ (m & _ & Hsv)].
  destruct (Services cfg !! m_Service m) as [svc|] eqn:Hsvc;
    [|by rewrite (ro_no_service _ _ _ _ Hrt _ Hsvc) in Hsv].
  destruct (ro_service _ _ _ _ Hrt _ _ Hsvc) as (u & Hu & Hb).
  rewrite Hsv in Hb. injection Hb as ->. simpl in Hname. subst name.
  exists (build_service (rt_pools (sv_rt s)) (m_Service m) svc u), svc. split_and!; [done..|].
  intros poolname Hp. destruct (vsv_pool _ _ _ (v_service _ _ Hv _ _ Hsvc) _ Hp) as [p Hpool].
  destruct (po_run _ _ _ Hpl _ _ Hpool) as (id & Hid & Ho). exists id.
  assert (Hcfg : config_ok (pool_config cfg poolname p)).
  { eapply valid_pool_config_ok; [done..|].
    destruct (Services cfg !! "") as [s0|] eqn:He; [|done]. by destruct (Hplain _ _ He). }
  assert (Hsp : s_pool (build_service (rt_pools (sv_rt s)) (m_Service m) svc u) = Some id)
    by (simpl; by rewrite Hp).
  specialize (Hgo _ Hsp). split_and!; [done..|]. eapply up_serving; [done..|].
  eapply admits_up; [done|by apply Hpools|done].
Qed.

End request.

(** ** A request to the demo server: its pool starts [comfy] *)

Definition way_pool : PoolConfig := pool_config demo_cfg1 "gpu" (demo_pool 60).
Definition way_svc : Service := demo_service "other".
Definition way_comfy : member := new_member (member_config demo_cfg1 "comfy" way_svc).

Definition way0 : System := init way_pool 0.
Definition way1 : System := demo_admit way0 "comfy" 1 (1 * sec).
Definition way2 : System := demo_report way1 (complete 1 "comfy") (9 * sec).

Definition way_acts : list wact :=
  [CallInspect "llama-container"; Inspected "llama-container" (inr false)] ++
  start_acts "other" ++
  [Started "other" None; CtxErr false; Got "http://host:8080/health" (Some 200); Probed true;
   Deliver (complete 1 "comfy")].

Definition way_sim : Sim :=
  {| sim_docker := demo_docker; sim_ops := ∅; sim_now := 0; sim_cancelled := false;
     sim_closed := false |}.
#[local] Instance way_host : Worker.Host Sim := sim_host (λ _ _, Some 200).

Lemma way_run : swap_run 1 way_comfy ["llama-container"] way_acts.
Proof.
  exists Sim, sim_client, way_host, 200%nat, way_sim. split; [vm_compute; discriminate|].
  by_eval.
Qed.

Definition way_hist1 : list gevent := [EvMgr (emitted way0 (InCmd (admitCmd "comfy" 1)) (1 * sec))].
Definition way_hist2 : list gevent := way_hist1 ++ map (EvAct 1) way_acts.

Lemma way_reach0 : greach way_pool 0 {| w_sys := way0; w_hist := [] |}.
Proof. exists 0. split; [vm_compute; discriminate|constructor]. Qed.

Lemma handled_run s h i now e1 :
  running s = true → clock s ≤ now → take (closed s) now (environment s) i e1 →
  reported h i → (handle i now now (pool s)).1.1 = Ret tt →
  handled {| w_sys := s; w_hist := h |} i (emitted s i now)
    {| w_sys := run_step s i now now e1; w_hist := h ++ [EvMgr (emitted s i now)] |}.
Proof.
  intros Hrun Hc Ht Hrep Hret. unfold run_step, emitted.
  destruct (handle i now now (pool s)) as [[o p'] es] eqn:Hh. simpl in Hret. subst o.
  by apply Handled.
Qed.

Lemma way_admit :
  handled {| w_sys := way0; w_hist := [] |} (InCmd (admitCmd "comfy" 1))
    (emitted way0 (InCmd (admitCmd "comfy" 1)) (1 * sec)) {| w_sys := way1; w_hist := way_hist1 |}.
Proof.
  apply (handled_run way0 [] (InCmd (admitCmd "comfy" 1)) (1 * sec) (add_issued 1 (environment way0)));
    [reflexivity|vm_compute; discriminate|by apply demo_take_admit|done|vm_compute; reflexivity].
Qed.

Lemma way_works :
  nsteps (gstep way_pool) (length way_acts) {| w_sys := way1; w_hist := way_hist1 |}
    {| w_sys := way1; w_hist := way_hist2 |}.
Proof.
  apply (gsteps_swap way_pool way1 way_hist1 1 "comfy" way_comfy ["llama-container"] way_acts).
  - vm_compute. repeat (left || right).
  - vm_compute. reflexivity.
  - exact way_run.
  - repeat constructor.
Qed.

Lemma way_report :
  handled {| w_sys := way1; w_hist := way_hist2 |} (InSwap (complete 1 "comfy"))
    (emitted way1 (InSwap (complete 1 "comfy")) (9 * sec))
    {| w_sys := way2;
       w_hist := way_hist2 ++ [EvMgr (emitted way1 (InSwap (complete 1 "comfy")) (9 * sec))] |}.
Proof.
  apply (handled_run way1 way_hist2 (InSwap (complete 1 "comfy")) (9 * sec)
    (set_workers [] (environment way1)));
    [reflexivity|vm_compute; discriminate| |simpl; by_eval|vm_compute; reflexivity].
  apply (demo_take_report _ _ (WSwap 1 "comfy")); [by vm_compute|by repeat split].
Qed.

(** The world after the report, and the instant of the reply in it. *)
Definition way_last : list effect := emitted way1 (InSwap (complete 1 "comfy")) (9 * sec).
Definition way_world : World := {| w_sys := way2; w_hist := way_hist2 ++ [EvMgr way_last] |}.
Definition way_instant : list effect :=
  outputs way_hist2 ++ firstn 2%nat way_last ++ [Reply 1%nat (reply_ok AdmitGo)].

Lemma way_answered : answered way_pool "comfy" 1 (reply_ok AdmitGo) way_world way_instant.
Proof.
  apply (answered_later way_pool "comfy" 1 (reply_ok AdmitGo) 0 {| w_sys := way0; w_hist := [] |}
    (emitted way0 (InCmd (admitCmd "comfy" 1)) (1 * sec)) {| w_sys := way1; w_hist := way_hist1 |}
    (length way_acts) {| w_sys := way1; w_hist := way_hist2 |} (InSwap (complete 1 "comfy"))
    (firstn 2%nat way_last) (skipn 3%nat way_last) way_world);
    [reflexivity|exact way_reach0|exact way_admit|exact way_works|].
  replace (_ ++ _ :: _) with way_last; [exact way_report|]. vm_compute. reflexivity.
Qed.

Definition way_Admit (_ : pool_id) (service : string) : AdmitResult * option GoError :=
  if decide (service = "comfy") then (AdmitGo, None) else (AdmitShutdown, None).

Lemma way_created : sv_pools demo_srv = [PoolState way_pool false].
Proof. vm_compute. reflexivity. Qed.

(** The caller of [comfy] has found the snapshot of an idle pool, and has waited. *)
Lemma way_pools : pools_answer way_Admit (λ _ _, way_world) (λ _ _, way_instant) demo_srv.
Proof.
  intros id pc service Ho. unfold open_pool in Ho. rewrite way_created in Ho.
  apply list_lookup_singleton_Some in Ho as [_ [= <-]].
  assert (Hsn : published way_pool snap_idle {| w_sys := way0; w_hist := [] |} []).
  { exists 0%nat, []. by split_and!; [|exact way_reach0|..]. }
  exists snap_idle, {| w_sys := way0; w_hist := [] |}, [], 1%nat, ErrContextCanceled, false.
  unfold way_Admit. destruct (decide (service = "comfy")) as [->|].
  - exists Sent, (Replied (reply_ok AdmitGo)), CancelSent.
    split; [exact Hsn|]. split; [reflexivity|].
    intros r _ [= <-]. exact way_answered.
  - exists SendPoolDone, WaitPoolDone, CancelSent.
    split; [exact Hsn|]. split; [reflexivity|]. intros r. discriminate.
Qed.

Lemma way_trace :
  trace way_Admit false demo_unmarshal demo_rt demo_req =
  (Ret tt, [CloseConnBody; CallAdmit 0%nat "comfy"; Forward "comfy" demo_sent vary]).
Proof. vm_compute. reflexivity. Qed.

Lemma forwarded_service_is_up_witness :
  ∃ sv svc, s_name sv = "comfy" ∧ Services demo_cfg1 !! "comfy" = Some svc ∧
    ∃ id, rt_pools (sv_rt demo_srv) !! "gpu" = Some id ∧ s_pool sv = Some id ∧
      (way_Admit id "comfy").1 = AdmitGo ∧
      serving_at demo_cfg1 "gpu" "comfy" svc way_world way_instant.
Proof.
  destruct (forwarded_service_is_up demo_url way_Admit (λ _ _, way_world) (λ _ _, way_instant)
    false demo_unmarshal demo_auth demo_srv
    demo_req "comfy" demo_sent vary (Forward "comfy" demo_sent vary) demo_srv_reach way_pools
    demo_bytes demo_bounded) as (sv & svc & _ & Hn & Hs & _ & Hup).
  - change (sv_rt demo_srv) with demo_rt. rewrite way_trace.
    apply elem_of_cons. right. apply elem_of_cons. right. by left.
  - by left.
  - exists sv, svc. split; [exact Hn|]. split; [exact Hs|]. apply Hup.
    vm_compute in Hs. injection Hs as <-. reflexivity.
Defined.
