(* ===== verification/Watch.v ===== *)
(** * The loop of the events watcher ([src/internal/orchestrator/events.go],
      [src/internal/dockerctl/client.go])

    [Watcher.Run] subscribes to docker's event stream, hands each event to the pool
    that owns the container, and subscribes again when the stream fails, until its
    context is cancelled. The live client feeds a subscription from a goroutine of
    its own ([real_Events]). Which ready case a [select] takes is the choice of the
    world, and so is everything that happens between two of its calls. *)

From S2P Require Import Prelude GoStrings State Docker Registry Worker WorkerFacts.
Open Scope Z_scope.

(** ** The world of the watcher *)

(** The case taken by the [select] of the consuming loop. *)
Inductive selected :=
| GotEvent (ev : Event)
| EventsClosed
| GotErr (err : GoError)
| ErrsClosed
| CtxDone.

(** The watcher's context, a subscription, the two selects, the routing table and
    the registries of the pools, which other goroutines may change, the clock, and
    the case the [select] of [NotifyContainerEvent] takes in each pool. *)
Class WatchHost (W : Type) := {
  w_ctxErr : call W bool;
  w_Events : call W ();
  w_select : call W selected;
  w_backoff : call W ();
  w_routes : W → Watcher;
  w_now : W → Z;
  w_gone : W → pool_id → bool;
  w_regs : W → gmap pool_id opRegistry;
  w_set_regs : gmap pool_id opRegistry → W → W
}.

(** What the watcher can see at the instant of a [select]. *)
Record view := View {
  v_routes : Watcher;
  v_now : Z;
  v_gone : pool_id → bool;
  v_regs : gmap pool_id opRegistry
}.

Definition view_of {W} `{!WatchHost W} (w : W) : view :=
  View (w_routes w) (w_now w) (w_gone w) (w_regs w).

(** What is observed of a run: the subscriptions, what each [select] of the loop
    yields with what could be seen at that instant, the events handed to pools. *)
Inductive watch_act :=
| Subscribe
| Selected (sel : selected) (seen : view)
| Notify (p : pool_id) (e : extEvent)
| CancelSub
| Backoff.

Section watch.
Context {W : Type} `{!WatchHost W}.

(** [lift] of a call, for these actions. *)
Definition ask_world {A} (c : call W A) : prog W watch_act A := lift c.

(** The [select] of the loop, observed. *)
Definition select_case : prog W watch_act selected := λ s,
  match w_select s with
  | (Some sel, s') => (Ret sel, s', [Selected sel (view_of s')])
  | (None, s') => (Panic, s', [])
  end.

(** [w.route(ev)] *)
Definition route_event (ev : Event) : prog W watch_act () := λ s,
  let '(fwd, regs) := route (w_routes s) ev (w_now s) (w_gone s) (w_regs s) in
  (Ret tt, w_set_regs regs s, match fwd with Some (p, e) => [Notify p e] | None => [] end).

(** The loop labelled [consume]. *)
Fixpoint consume (fuel : nat) : prog W watch_act () :=
  match fuel with
  | O => out_of_fuel
  | S fuel =>
      sel ← select_case;
      match sel with
      | GotEvent ev => route_event ev;; consume fuel
      | EventsClosed | GotErr _ | ErrsClosed | CtxDone => mret tt
      end
  end.

Fixpoint Watcher_Run (fuel : nat) : prog W watch_act () :=
  match fuel with
  | O => out_of_fuel
  | S fuel =>
      gone ← ask_world w_ctxErr;
      if (gone : bool) then mret tt else
      ask_world w_Events;; emit Subscribe;;
      consume fuel;;
      emit CancelSub;;
      ask_world w_backoff;; emit Backoff;;
      Watcher_Run fuel
  end.

End watch.

(** ** What a run must do *)

(** The event is to be handed to pool [p] as [e]: it concerns the lifecycle of a
    container, the container belongs to [p] in the table, the registry of [p] does
    not explain it, and [p] has not been closed before it could be handed over. *)
Definition due (ev : Event) (v : view) (p : pool_id) (e : extEvent) : Prop :=
  evt_Action ev ∈ ["start"; "die"; "stop"; "kill"] ∧
  routes (v_routes v) !! evt_ContainerName ev = Some p ∧
  (isExpected (evt_ContainerName ev) (evt_Action ev) (v_now v)
     (default newOpRegistry (v_regs v !! p))).1 = false ∧
  v_gone v p = false ∧
  e = {| ev_container := evt_ContainerName ev; ev_action := evt_Action ev |}.

(** The watcher may subscribe, has a subscription open, or has to back off. *)
Inductive watch_state := Ready | Open | Resting.

(** The protocol of a run: from one state to another over the actions observed. An
    event that is due is handed on next, and nothing else is ever handed on; any other
    case of the [select] ends the subscription, which is cancelled next; then the
    watcher backs off before it subscribes again. *)
Inductive watching : watch_state → list watch_act → watch_state → Prop :=
| wa_nil st : watching st [] st
| wa_subscribe es st : watching Open es st → watching Ready (Subscribe :: es) st
| wa_handed ev v p e es st :
    due ev v p e → watching Open es st →
    watching Open (Selected (GotEvent ev) v :: Notify p e :: es) st
| wa_dropped ev v es st :
    (∀ p e, ¬ due ev v p e) → watching Open es st →
    watching Open (Selected (GotEvent ev) v :: es) st
| wa_ended sel v es st :
    (∀ ev, sel ≠ GotEvent ev) → watching Resting es st →
    watching Open (Selected sel v :: CancelSub :: es) st
| wa_backoff es st : watching Ready es st → watching Resting (Backoff :: es) st.

Lemma watching_app st es st' es' st'' :
  watching st es st' → watching st' es' st'' → watching st (es ++ es') st''.
Proof. induction 1; intros Hw; [done|..]; simpl; econstructor; eauto. Qed.

Section facts.
Context {W : Type} `{!WatchHost W}.

Lemma wp_ask {A} (c : call W A) (Q : outcome A → W → list watch_act → Prop) w :
  (∀ a w', c w = (Some a, w') → Q (Ret a) w' []) →
  (∀ w', c w = (None, w') → Q Panic w' []) →
  wp (ask_world c) Q w.
Proof. unfold wp, ask_world, lift. destruct (c w) as [[a|] w']; auto. Qed.

Lemma wp_select (Q : outcome selected → W → list watch_act → Prop) w :
  (∀ sel w', w_select w = (Some sel, w') → Q (Ret sel) w' [Selected sel (view_of w')]) →
  (∀ w', w_select w = (None, w') → Q Panic w' []) →
  wp select_case Q w.
Proof. unfold wp, select_case. destruct (w_select w) as [[sel|] w']; auto. Qed.

Lemma route_due w ev p e :
  (route (w_routes w) ev (w_now w) (w_gone w) (w_regs w)).1 = Some (p, e) ↔ due ev (view_of w) p e.
Proof.
  destruct (watcher_routes_to_owner (w_routes w) ev (w_now w) (w_gone w) (w_regs w)) as [H _].
  rewrite H. unfold due, is_lifecycle. simpl. by rewrite bool_decide_eq_true.
Qed.

(** One event: handed to the pool it is due to, or to none. *)
Lemma route_event_watching ev w :
  wp (route_event ev)
    (returns (λ _ _ es, watching Open (Selected (GotEvent ev) (view_of w) :: es) Open)) w.
Proof.
  unfold wp, route_event. pose proof (route_due w ev) as Hd.
  destruct (route _ _ _ _ _) as [[[p e]|] regs]; simpl in *.
  - apply wa_handed; [by apply Hd|constructor].
  - apply wa_dropped; [|constructor]. intros p e He%Hd. done.
Qed.

(** The loop leaves by a case other than an event, or is cut short. *)
Lemma consume_watching fuel w :
  wp (consume fuel) (λ o _ es,
    match o with
    | Ret _ => watching Open (es ++ [CancelSub]) Resting
    | _ => watching Open es Open
    end) w.
Proof.
  revert w. induction fuel as [|fuel IH]; intros w; simpl; [constructor|].
  apply wp_bind, wp_select; [|intros; constructor].
  intros sel w1 _. assert (Hend : (∀ ev, sel ≠ GotEvent ev) →
    watching Open ([Selected sel (view_of w1)] ++ [CancelSub]) Resting)
    by (intros; apply wa_ended; [done|constructor]).
  destruct sel as [ev| | | |]; simpl; [|by apply wp_mret; simpl; apply Hend..].
  apply wp_bind. eapply wp_mono; [|apply route_event_watching].
  intros [[]| |] w2 es; simpl; [|done..]. intros Hes.
  eapply wp_mono; [|apply IH]. intros o w3 es' Hes'. simpl.
  change (Selected (GotEvent ev) (view_of w1) :: es ++ es') with ((Selected (GotEvent ev) (view_of w1) :: es) ++ es').
  destruct o; [rewrite <- (assoc_L (++))|..]; exact (watching_app _ _ _ _ _ Hes Hes').
Qed.

Lemma Watcher_Run_watching fuel w :
  wp (Watcher_Run fuel)
    (λ o _ es, ∃ st, watching Ready es st ∧ (o = Ret tt → st = Ready)) w.
Proof.
  assert (Hno : ∀ o : outcome (), ∃ st, watching Ready [] st ∧ (o = Ret tt → st = Ready))
    by (intros; exists Ready; by split; [constructor|]).
  revert w. induction fuel as [|fuel IH]; intros w; simpl; [apply Hno|].
  apply wp_bind, wp_ask; [|intros; apply Hno]. intros [|] w1 _; [apply Hno|].
  apply wp_bind, wp_ask; [|intros; apply Hno]. intros _ w2 _. apply wp_bind, wp_emit. simpl.
  apply wp_bind. eapply wp_mono; [|apply consume_watching].
  intros [[]| |] w3 es Hes; [|exists Open; by split; [constructor|]..].
  apply wp_bind, wp_emit. simpl.
  assert (Hrest : watching Ready (Subscribe :: es ++ [CancelSub]) Resting) by by constructor.
  apply wp_bind, wp_ask; [intros _ w4 _|intros w4 _; by exists Resting].
  apply wp_bind, wp_emit. eapply wp_mono; [|apply IH].
  intros o w5 es' (st & Hst & Ho). exists st. split; [|done]. simpl.
  replace (Subscribe :: es ++ CancelSub :: Backoff :: es')
    with ((Subscribe :: es ++ [CancelSub]) ++ Backoff :: es')
    by (simpl; by rewrite <- (assoc_L (++))).
  eapply watching_app; [done|]. by constructor.
Qed.

(** The context is cancelled after finitely many subscriptions and events: [left]
    bounds those still to come. *)
Class Finite (left : W → nat) := {
  fin_ctx w w' : w_ctxErr w = (Some false, w') → (left w' < left w)%nat;
  fin_events w u w' : w_Events w = (Some u, w') → (left w' ≤ left w)%nat;
  fin_event w ev w' : w_select w = (Some (GotEvent ev), w') → (left w' < left w)%nat;
  fin_select w sel w' : w_select w = (Some sel, w') → (left w' ≤ left w)%nat;
  fin_backoff w u w' : w_backoff w = (Some u, w') → (left w' ≤ left w)%nat;
  fin_regs r w : (left (w_set_regs r w) ≤ left w)%nat
}.

Context (left : W → nat) `{!Finite left}.

Lemma consume_ends fuel w :
  (left w < fuel)%nat → wp (consume fuel) (λ o w' _, o ≠ NoFuel ∧ (left w' ≤ left w)%nat ∨ o = Panic) w.
Proof.
  revert w. induction fuel as [|fuel IH]; intros w Hf; [lia|]. simpl.
  apply wp_bind, wp_select; [|by right]. intros sel w1 Hsel.
  destruct sel as [ev| | | |]; [|by left; split; [|eapply fin_select]..].
  apply fin_event in Hsel. apply wp_bind. unfold wp at 1, route_event.
  destruct (route _ _ _ _ _) as [fwd regs]. pose proof (fin_regs regs w1).
  eapply wp_mono; [|apply IH; lia]. intros o w3 es [[??]|?]; [left; split; [done|lia]|by right].
Qed.

Lemma Watcher_Run_ends fuel w :
  (left w < fuel)%nat → wp (Watcher_Run fuel) (λ o _ _, o ≠ NoFuel) w.
Proof.
  revert w. induction fuel as [|fuel IH]; intros w Hf; [lia|]. simpl.
  apply wp_bind, wp_ask; [|done]. intros [|] w1 Hc; [done|]. apply fin_ctx in Hc.
  apply wp_bind, wp_ask; [|done]. intros u w2 He%fin_events. apply wp_bind, wp_emit, wp_bind. simpl.
  eapply wp_mono; [|apply consume_ends; lia]. intros o w3 es [[Ho Hl]| ->]; [|done].
  destruct o as [[]| |]; [|done..]. apply wp_bind, wp_emit, wp_bind, wp_ask; [|done].
  intros u' w4 Hb%fin_backoff. apply wp_bind, wp_emit.
  eapply wp_mono; [|apply IH; lia]. done.
Qed.

End facts.

(** C35: the watcher hands on every event it has to, and leaks no subscription. In
    every world, whatever docker and the other goroutines do between two of its calls:
    of the events its [select] yields, one that concerns the lifecycle of a container
    of an open pool, and that the registry of this pool does not explain, is handed to
    that very pool next, unchanged and once, and nothing else is ever handed to a pool;
    it holds at most one subscription, which it cancels when the stream ends, fails or
    its context is done, and backs off before the next one. If its context is cancelled
    after finitely many subscriptions and events, it returns, and then no subscription
    is open; only a panic of a call can keep it from that. *)
Theorem watcher_disciplined {W} `{!WatchHost W} (left : W → nat) `{!Finite left} fuel w :
  let '(o, _, es) := Watcher_Run fuel w in
  (∃ st, watching Ready es st ∧ (o = Ret tt → st = Ready)) ∧
  ((left w < fuel)%nat → o = Ret tt ∨ o = Panic).
Proof.
  pose proof (Watcher_Run_watching fuel w) as Hs. pose proof (Watcher_Run_ends left fuel w) as He.
  unfold wp in *. destruct (Watcher_Run fuel w) as [[o w'] es]. split; [done|].
  intros Hf. specialize (He Hf). destruct o as [[]| |]; [by left|by right|done].
Qed.

(** A world with a script: the events of each subscription in turn. A subscription
    ends with an error of the stream, and the context is cancelled after the last. *)
Record script := Script {
  sc_now : list Event;
  sc_next : list (list Event);
  sc_routes : Watcher;
  sc_regs : gmap pool_id opRegistry
}.

#[local] Instance script_host : WatchHost script := {|
  w_ctxErr w :=
    match sc_next w with
    | [] => (Some true, w)
    | l :: ls => (Some false, Script l ls (sc_routes w) (sc_regs w))
    end;
  w_Events w := (Some tt, w);
  w_select w :=
    match sc_now w with
    | [] => (Some (GotErr (ErrDocker 0)), w)
    | ev :: evs => (Some (GotEvent ev), Script evs (sc_next w) (sc_routes w) (sc_regs w))
    end;
  w_backoff w := (Some tt, w);
  w_routes := sc_routes;
  w_now _ := 0;
  w_gone _ _ := false;
  w_regs := sc_regs;
  w_set_regs r w := Script (sc_now w) (sc_next w) (sc_routes w) r
|}.

Definition sc_left (w : script) : nat :=
  length (sc_now w) + foldr (λ l n, S (length l + n)) 0%nat (sc_next w).

#[local] Instance script_finite : Finite sc_left.
Proof.
  split; unfold sc_left; simpl.
  - intros w w'. destruct (sc_next w); intros [= <-]; simpl; lia.
  - intros w u w' [= _ <-]. lia.
  - intros w ev w'. destruct (sc_now w); intros [= _ <-]; simpl; lia.
  - intros w sel w'. destruct (sc_now w) eqn:E; intros [= _ <-]; simpl; rewrite ?E; simpl; lia.
  - intros w u w' [= _ <-]. lia.
  - lia.
Qed.

(** Two subscriptions; the start of [comfy] is the pool's own, its death is not. *)
Definition demo_watch : script :=
  Script [] [[{| evt_ContainerName := "comfy"; evt_Action := "start" |};
              {| evt_ContainerName := "comfy"; evt_Action := "exec_create" |}];
             [{| evt_ContainerName := "comfy"; evt_Action := "die" |};
              {| evt_ContainerName := "other"; evt_Action := "die" |}]]
    {| routes := {["comfy" := 3%nat]} |} {[3%nat := expect "comfy" "start" 0 newOpRegistry]}.

Example demo_watch_run :
  omap (λ a, match a with Notify p e => Some (p, e) | _ => None end) (Watcher_Run 10 demo_watch).2
  = [(3%nat, {| ev_container := "comfy"; ev_action := "die" |})].
Proof. vm_compute. reflexivity. Qed.

Lemma watcher_disciplined_witness :
  ∃ st, watching Ready (Watcher_Run 10 demo_watch).2 st ∧
    ((Watcher_Run 10 demo_watch).1.1 = Ret tt → st = Ready).
Proof.
  pose proof (watcher_disciplined sc_left 10 demo_watch) as Hw.
  destruct (Watcher_Run 10 demo_watch) as [[o w'] es]. exact (proj1 Hw).
Defined.

(** ** The forwarder of the live client ([realClient.Events])

    A goroutine per subscription reads docker's messages and sends them on, until
    the messages end or the subscription is cancelled; the channel is closed when it
    returns, also by a panic. *)

(** What StageHand reads of a message of the SDK. *)
Record moby_message := { mm_Attributes : gmap string string; mm_Action : string }.

Inductive fwd_act := Out (ev : Event) | OutClosed.

Definition event_of (msg : moby_message) : Event :=
  {| evt_ContainerName := default "" (mm_Attributes msg !! "name"); evt_Action := mm_Action msg |}.

Section forwarder.
Context {W : Type}.
(** The next message ([None]: no more), and the [select] between the send and the
    subscription's context ([false]: the context is done). *)
Context (next_message : call W (option moby_message)) (send : Event → call W bool).

Fixpoint forward_loop (fuel : nat) : prog W fwd_act () :=
  match fuel with
  | O => out_of_fuel
  | S fuel =>
      msg ← lift next_message;
      match msg with
      | None => mret tt
      | Some msg =>
          ok ← lift (send (event_of msg));
          if (ok : bool) then emit (Out (event_of msg));; forward_loop fuel else mret tt
      end
  end.

Definition real_Events (fuel : nat) : prog W fwd_act () := λ w,
  match forward_loop fuel w with
  | (NoFuel, w', es) => (NoFuel, w', es)
  | (o, w', es) => (o, w', es ++ [OutClosed])
  end.

End forwarder.

(** The forwarder of a list of messages, cancelled after [n] sends. *)
Definition listed (l : list moby_message * nat) : option (option moby_message) * (list moby_message * nat) :=
  match l.1 with [] => (Some None, l) | m :: ms => (Some (Some m), (ms, l.2)) end.
Definition counted (_ : Event) (l : list moby_message * nat) : option bool * (list moby_message * nat) :=
  match l.2 with O => (Some false, l) | S n => (Some true, (l.1, n)) end.

(** The subscriber receives docker's messages in order, none twice and none skipped,
    and then the end of the stream, whether the messages ended or the subscription
    was cancelled after [n] of them. *)
Theorem forwarder_in_order fuel msgs n :
  (length msgs < fuel)%nat →
  (real_Events listed counted fuel (msgs, n)).2 = map Out (map event_of (take n msgs)) ++ [OutClosed] ∧
  (real_Events listed counted fuel (msgs, n)).1.1 = Ret tt.
Proof.
  intros Hf. unfold real_Events.
  assert (H : ∃ w', forward_loop listed counted fuel (msgs, n) =
    (Ret tt, w', map Out (map event_of (take n msgs)))).
  { revert msgs n Hf. induction fuel as [|fuel IH]; intros msgs n Hf; [lia|].
    destruct msgs as [|m msgs]; [eexists; by destruct n|]. destruct n as [|n]; [by eexists|].
    simpl in Hf. destruct (IH msgs n) as [w' Hw]; [lia|].
    exists w'. cbn [forward_loop]. unfold mbind, prog_bind, lift, listed, counted. simpl.
    unfold mbind, prog_bind, listed, counted in Hw. by rewrite Hw. }
  destruct H as [w' ->]. done.
Qed.

Lemma forwarder_in_order_witness :
  (real_Events listed counted 5 ([{| mm_Attributes := {["name" := "comfy"]}; mm_Action := "die" |}], 3%nat)).1.1
  = Ret tt.
Proof. apply (forwarder_in_order 5 _ 3). simpl. lia. Defined.
