(* ===== verification/Base64.v ===== *)
(** * Tokens and switches: what the boot uses of [encoding/base64] and [strconv]

    [base64.RawURLEncoding] on bytes ([Z] from 0 to 255): its length, and that two
    encodings are equal only for equal bytes. [strconv.ParseBool]. *)

From S2P Require Import Prelude GoStrings.
Open Scope Z_scope.

(** ** [strconv.ParseBool] *)

Definition ParseBool (s : string) : option bool :=
  if bool_decide (s ∈ ["1"; "t"; "T"; "true"; "TRUE"; "True"]) then Some true
  else if bool_decide (s ∈ ["0"; "f"; "F"; "false"; "FALSE"; "False"]) then Some false
  else None.

(** ** [base64.RawURLEncoding.EncodeToString] *)

Definition b64_alphabet : string :=
  "ABCDEFGHIJKLMNOPQRSTUVWXYZabcdefghijklmnopqrstuvwxyz0123456789-_".

Definition b64_char (n : Z) : Ascii.ascii :=
  default Ascii.zero (String.get (Z.to_nat n) b64_alphabet).

(** The [k]-th group of six bits of a value of 24 bits. *)
Definition sextet (v k : Z) : Ascii.ascii := b64_char (Z.land (Z.shiftr v (6 * k)) 63).

Definition pack (a b c : Z) : Z := Z.lor (Z.lor (Z.shiftl a 16) (Z.shiftl b 8)) c.

Fixpoint RawURLEncode (bs : list Z) : string :=
  match bs with
  | a :: b :: c :: bs' =>
      let v := pack a b c in
      String (sextet v 3) (String (sextet v 2) (String (sextet v 1) (String (sextet v 0)
        (RawURLEncode bs'))))
  | [a; b] =>
      let v := pack a b 0 in
      String (sextet v 3) (String (sextet v 2) (String (sextet v 1) EmptyString))
  | [a] =>
      let v := pack a 0 0 in String (sextet v 3) (String (sextet v 2) EmptyString)
  | [] => EmptyString
  end.

Example encode_man : RawURLEncode [77; 97; 110; 255] = "TWFu_w".
Proof. vm_compute. reflexivity. Qed.

(** ** Lemmas *)

Definition is_byte (z : Z) : Prop := 0 ≤ z < 256.

(** Induction by groups of three bytes. *)
Lemma triples_ind {A} (P : list A → Prop) :
  P [] → (∀ a, P [a]) → (∀ a b, P [a; b]) →
  (∀ a b c l, P l → P (a :: b :: c :: l)) → ∀ l, P l.
Proof.
  intros H0 H1 H2 H3. fix IH 1. intros [|a [|b [|c l]]]; [exact H0|apply H1|apply H2|].
  apply H3, IH.
Qed.

Lemma RawURLEncode_length bs :
  Z.of_nat (String.length (RawURLEncode bs)) = (4 * Z.of_nat (length bs) + 2) / 3.
Proof.
  induction bs as [|a|a b|a b c bs IH] using triples_ind; [done..|].
  cbn [RawURLEncode String.length length]. rewrite !Nat2Z.inj_succ, IH.
  set (n := Z.of_nat (length bs)).
  replace (4 * Z.succ (Z.succ (Z.succ n)) + 2) with (4 * n + 2 + 4 * 3) by lia.
  rewrite Z.div_add by lia. lia.
Qed.

Lemma lor_shift x y k : 0 ≤ k → 0 ≤ y < 2 ^ k → Z.lor (Z.shiftl x k) y = x * 2 ^ k + y.
Proof.
  intros Hk Hy. rewrite <- Z.shiftl_mul_pow2 by done. rewrite <- Z.add_lor_land.
  replace (Z.land (Z.shiftl x k) y) with 0; [lia|]. symmetry. apply Z.bits_inj'. intros n Hn.
  rewrite Z.land_spec, Z.bits_0, Z.shiftl_spec by done.
  destruct (decide (n < k)); [by rewrite Z.testbit_neg_r by lia|].
  rewrite <- (Z.mod_small y (2 ^ k)) by done. rewrite Z.mod_pow2_bits_high by lia.
  by rewrite andb_false_r.
Qed.

Lemma pack_eq a b c : is_byte b → is_byte c → pack a b c = a * 65536 + b * 256 + c.
Proof.
  unfold is_byte, pack. intros Hb Hc. rewrite <- Z.lor_assoc, (lor_shift b c 8) by lia.
  rewrite (lor_shift a _ 16) by lia. lia.
Qed.

Lemma b64_char_inj x y : 0 ≤ x < 64 → 0 ≤ y < 64 → b64_char x = b64_char y → x = y.
Proof.
  intros Hx Hy. assert (Hall : forallb (λ i, forallb (λ j,
    implb (Ascii.eqb (b64_char i) (b64_char j)) (i =? j)) (seqZ 0 64)) (seqZ 0 64) = true)
    by (vm_compute; reflexivity).
  rewrite forallb_forall in Hall. specialize (Hall x).
  rewrite forallb_forall in Hall. intros Heq.
  assert (Himp := Hall ltac:(apply list_elem_of_In, elem_of_seqZ; lia) y
    ltac:(apply list_elem_of_In, elem_of_seqZ; lia)).
  rewrite Heq, Ascii.eqb_refl in Himp. by apply Z.eqb_eq.
Qed.

Lemma sextet_inj v v' k : 0 ≤ k → sextet v k = sextet v' k →
  (v / 2 ^ (6 * k)) mod 64 = (v' / 2 ^ (6 * k)) mod 64.
Proof.
  intros Hk. unfold sextet. rewrite !(Z.land_ones _ 6), !Z.shiftr_div_pow2 by lia.
  apply b64_char_inj; apply Z.mod_pos_bound; lia.
Qed.

(** Four characters determine the value they encode. *)
Lemma sextets_value v :
  0 ≤ v < 16777216 →
  v = (v / 2 ^ (6 * 3)) mod 64 * 262144 + (v / 2 ^ (6 * 2)) mod 64 * 4096 +
      (v / 2 ^ (6 * 1)) mod 64 * 64 + (v / 2 ^ (6 * 0)) mod 64.
Proof.
  intros Hv. change (2 ^ (6 * 0)) with 1. change (2 ^ (6 * 1)) with 64.
  change (2 ^ (6 * 2)) with (64 * 64). change (2 ^ (6 * 3)) with (64 * 64 * 64).
  rewrite Z.div_1_r, <- !Z.div_div by lia.
  pose proof (Z.div_mod v 64 ltac:(lia)). pose proof (Z.div_mod (v / 64) 64 ltac:(lia)).
  pose proof (Z.div_mod (v / 64 / 64) 64 ltac:(lia)).
  rewrite (Z.mod_small (v / 64 / 64 / 64) 64); [lia|].
  rewrite !Z.div_div by lia. split; [apply Z.div_pos; lia|apply Z.div_lt_upper_bound; lia].
Qed.

Lemma sextets_inj a b c a' b' c' :
  Forall is_byte [a; b; c] → Forall is_byte [a'; b'; c'] →
  (∀ k, 0 ≤ k < 4 → sextet (pack a b c) k = sextet (pack a' b' c') k) →
  a = a' ∧ b = b' ∧ c = c'.
Proof.
  rewrite !Forall_cons. intros (Ha & Hb & Hc & _) (Ha' & Hb' & Hc' & _) H.
  rewrite !pack_eq in H by done. unfold is_byte in *.
  set (v := a * 65536 + b * 256 + c) in *. set (v' := a' * 65536 + b' * 256 + c') in *.
  assert (He : ∀ k, 0 ≤ k < 4 → (v / 2 ^ (6 * k)) mod 64 = (v' / 2 ^ (6 * k)) mod 64).
  { intros k Hk. apply sextet_inj; [lia|auto]. }
  assert (Hv : v = v').
  { rewrite (sextets_value v), (sextets_value v') by lia.
    by rewrite (He 0), (He 1), (He 2), (He 3) by lia. }
  lia.
Qed.

(** The groups that a short group leaves out are zero. *)
Lemma sextet_zero2 a k : is_byte a → 0 ≤ k < 2 → sextet (pack a 0 0) k = b64_char 0.
Proof.
  intros Ha Hk. rewrite pack_eq by done. unfold sextet.
  rewrite (Z.land_ones _ 6), Z.shiftr_div_pow2 by lia. f_equal.
  assert (k = 0 ∨ k = 1) as [-> | ->] by lia.
  - change (2 ^ (6 * 0)) with 1. rewrite Z.div_1_r.
    replace (a * 65536 + 0 * 256 + 0) with (a * 1024 * 2 ^ 6) by lia. by apply Z.mod_mul.
  - change (2 ^ (6 * 1)) with 64.
    replace (a * 65536 + 0 * 256 + 0) with (a * 16 * 2 ^ 6 * 64) by lia.
    rewrite Z.div_mul by done. by apply Z.mod_mul.
Qed.

Lemma sextet_zero1 a b : is_byte a → is_byte b → sextet (pack a b 0) 0 = b64_char 0.
Proof.
  intros Ha Hb. rewrite pack_eq by done. unfold sextet.
  rewrite (Z.land_ones _ 6), Z.shiftr_div_pow2 by lia. f_equal.
  change (2 ^ (6 * 0)) with 1. rewrite Z.div_1_r.
  replace (a * 65536 + b * 256 + 0) with ((a * 1024 + b * 4) * 2 ^ 6) by lia.
  by apply Z.mod_mul.
Qed.

Lemma byte_0 : is_byte 0.
Proof. done. Qed.

(** Equal encodings come from equal bytes. *)
Lemma RawURLEncode_inj bs bs' :
  Forall is_byte bs → Forall is_byte bs' → RawURLEncode bs = RawURLEncode bs' → bs = bs'.
Proof.
  pose proof byte_0 as H0. revert bs'.
  induction bs as [|a|a b|a b c bs IH] using triples_ind; intros bs' Hb Hb';
    destruct bs' as [|a' [|b' [|c' bs']]]; simpl; intros Heq; try done; injection Heq.
  - intros E2 E3. apply Forall_cons in Hb as [Ha _], Hb' as [Ha' _].
    destruct (sextets_inj a 0 0 a' 0 0) as [-> _]; [by auto using Forall_cons_2, Forall_nil_2..| |done].
    intros k Hk. assert (k = 3 ∨ k = 2 ∨ 0 ≤ k < 2) as [->|[->|?]] by lia; [done..|].
    by rewrite !sextet_zero2.
  - intros E1 E2 E3. rewrite !Forall_cons in Hb. rewrite !Forall_cons in Hb'.
    destruct Hb as (Ha & Hbb & _), Hb' as (Ha' & Hbb' & _).
    destruct (sextets_inj a b 0 a' b' 0) as (-> & -> & _); [by auto using Forall_cons_2, Forall_nil_2..| |done].
    intros k Hk. assert (k = 3 ∨ k = 2 ∨ k = 1 ∨ k = 0) as [->|[->|[->| ->]]] by lia; [done..|].
    by rewrite !sextet_zero1.
  - intros E0 E1 E2 E3 E4. rewrite !Forall_cons in Hb. rewrite !Forall_cons in Hb'.
    destruct Hb as (Ha & Hbb & Hc & Hb), Hb' as (Ha' & Hbb' & Hc' & Hb').
    destruct (sextets_inj a b c a' b' c') as (-> & -> & ->); [by auto using Forall_cons_2, Forall_nil_2..| |].
    + intros k Hk. assert (k = 3 ∨ k = 2 ∨ k = 1 ∨ k = 0) as [->|[->|[->| ->]]] by lia; done.
    + f_equal. f_equal. f_equal. by apply IH.
Qed.
