(* ===== verification/Serve.v ===== *)
(** * The life of a serving process ([Server.Run], [src/internal/server/run.go])

    [Run] starts the watcher and the listener, waits until the listener fails or the
    context is cancelled, and then shuts down. While it waits, the rest of the process
    goes on: requests open and end tunnels, and reloads replace the revision. What
    happens meanwhile is a list of events each of its waits comes with, and is
    arbitrary; so are the case of its [select], the end of the drain and what the
    listener returns. *)

From S2P Require Import Prelude GoStrings State Docker Tunnel Registry Config ConfigTheorems.
From S2P Require Import Runtime RuntimeTheorems.
Open Scope Z_scope.

(** ** The process *)

(** The server, its tunnels, and whether the watcher's context is live. *)
Record Proc := MkProc {
  p_srv : Srv;
  p_tracker : ConnTracker;
  p_watching : bool
}.

Definition on_srv (f : Srv → Srv) (p : Proc) : Proc := MkProc (f (p_srv p)) (p_tracker p) (p_watching p).
Definition on_tracker (f : ConnTracker → ConnTracker) (p : Proc) : Proc :=
  MkProc (p_srv p) (f (p_tracker p)) (p_watching p).
Definition watch (b : bool) (p : Proc) : Proc := MkProc (p_srv p) (p_tracker p) b.

(** The case taken by the [select]: the listener failed, or the context is done. *)
Inductive run_case := ServeFailed (e : GoError) | Cancelled.

(** What [httpSrv.Serve] returns: nil, [http.ErrServerClosed], or another error. *)
Inductive serve_result := ServeNil | ErrServerClosed | ServeError (e : GoError).

(** What is observed of a run: the goroutines started, the tunnels closed by
    [CloseAll], whether the drain ended in time, the forced close, what the listener
    returned, the watcher's context cancelled. *)
Inductive run_act :=
| WatcherStarted
| ServeStarted
| ConnClosed (c : conn)
| Drained (in_time : bool)
| ForcedClose
| ListenerDone (r : serve_result)
| WatcherCancelled.

Section run.
Context {W : Type} `{!Client W} (url_Parse : string → option URL).

(** What the other goroutines do: a tunnel is opened or ends, the configuration is
    reloaded against the state docker is in. *)
Inductive event :=
| Opened (c : conn)
| Ended (c : conn)
| Reloaded (cfg : Config) (w : W).

Definition happen (p : Proc) (ev : event) : Proc :=
  match ev with
  | Opened c => on_tracker (tracker_add c) p
  | Ended c => on_tracker (tracker_remove c) p
  | Reloaded cfg w =>
      match Reload url_Parse cfg (p_srv p) w with
      | (Some (_, s'), _) => on_srv (λ _, s') p
      | (None, _) => p
      end
  end.

(** A wait: its result, after what has happened meanwhile. *)
Definition wait {A} (c : Proc → A * list event) : prog Proc run_act A := λ p,
  let '(a, evs) := c p in (Ret a, foldl happen p evs, []).

(** [Server.Close] holds [reloadMu] throughout, so that no reload happens between the
    closing of the pools and [CloseAll]; tunnels may be opened or end. *)
Definition Server_Close (handlers : Proc → list event) : prog Proc run_act () :=
  modify (on_srv Close);;
  wait (λ p, ((), handlers p));;
  closed ← gets (λ p, (CloseAll (p_tracker p)).1);
  modify (on_tracker (λ t, (CloseAll t).2));;
  for_each (λ c, emit (ConnClosed c)) closed.

(** [defer cancelWatch()] *)
Definition with_cancelWatch {A} (body : prog Proc run_act A) : prog Proc run_act A := λ p,
  match body p with (o, p', es) => (o, watch false p', es ++ [WatcherCancelled]) end.

(** The waits of [Run]: its [select], the moments between two statements of [Close],
    the drain ([Shutdown]; [true]: it returned before the deadline), the forced close,
    and the result of the listener. *)
Context (select : Proc → run_case * list event) (handlers : Proc → list event)
  (Shutdown : Proc → bool * list event) (forced : Proc → list event)
  (errc : Proc → serve_result * list event).

Definition Run : prog Proc run_act (option GoError) :=
  with_cancelWatch
    (modify (watch true);; emit WatcherStarted;;
     emit ServeStarted;;
     sel ← wait select;
     match sel with
     | ServeFailed e => mret (Some e)
     | Cancelled =>
         Server_Close handlers;;
         ok ← wait Shutdown;
         emit (Drained ok);;
         (if (ok : bool) then mret () else emit ForcedClose;; wait (λ p, ((), forced p)));;
         r ← wait errc;
         emit (ListenerDone r);;
         mret (match r with ServeError e => Some e | ServeNil | ErrServerClosed => None end)
     end).

(** ** Closed pools stay closed *)

Definition none_below (n : nat) (s : Srv) : Prop :=
  (n ≤ length (sv_pools s))%nat ∧ ∀ id pc, (id < n)%nat → ¬ open_pool s id pc.

Lemma none_below_update n s u : none_below n s → none_below n (apply_update s u).
Proof.
  intros [Hlen Hn]. destruct u as [rt|rt|i]; [by split..|].
  split; [by simpl; unfold close_pool; rewrite length_alter|].
  intros id pc Hid Ho. change (apply_update s (ClosePool i)) with (foldl apply_update s (map ClosePool [i])) in Ho.
  apply apply_closes in Ho as [Ho _]. by apply (Hn id pc Hid).
Qed.

Lemma none_below_updates n s us : none_below n s → none_below n (foldl apply_update s us).
Proof. revert s. induction us as [|u us IH]; intros s Hs; [done|]. by apply IH, none_below_update. Qed.

Lemma none_below_reload n cfg s (w : W) r s' w' :
  none_below n s → Reload url_Parse cfg s w = (Some (r, s'), w') → none_below n s'.
Proof.
  intros [Hlen Hn]. unfold Reload.
  destruct (ValidateContainers _ _ w) as [[[e|]|] w1]; [by intros; simplify_eq| |done].
  assert (Hgrow : ∃ extra, (buildRuntime url_Parse (sv_auth s) cfg (Some (sv_rt s)) (sv_pools s)).2
    = sv_pools s ++ extra).
  { unfold buildRuntime. case_match; [exists []; by rewrite app_nil_r|].
    pose proof (build_pools_spec url_Parse cfg (Some (sv_rt s)) (map_to_list (VRAMPools cfg)) (sv_pools s) ∅ ∅
      (NoDup_fst_map_to_list _)) as Hb.
    destruct (foldl _ _ _) as [[created pools] sigs]. destruct Hb as [[extra Hx] _ _ _ _ _].
    exists extra. rewrite <- Hx.
    by destruct (build_services _ _ _ _). }
  destruct (buildRuntime _ _ _ _ _) as [[e|next] created]; simpl in Hgrow; destruct Hgrow as [extra ->];
    intros; simplify_eq.
  - split; [simpl; rewrite length_app; lia|]. intros id pc Hid Ho. apply (Hn id pc Hid).
    unfold open_pool in *. simpl in Ho. by rewrite lookup_app_l in Ho by lia.
  - apply none_below_updates. split; [simpl; rewrite length_app; lia|]. intros id pc Hid Ho.
    apply (Hn id pc Hid). unfold open_pool in *. simpl in Ho. by rewrite lookup_app_l in Ho by lia.
Qed.

Lemma none_below_happen n p ev : none_below n (p_srv p) → none_below n (p_srv (happen p ev)).
Proof.
  destruct ev as [c|c|cfg w]; [done..|]. intros Hn. simpl.
  destruct (Reload _ _ _ w) as [[[r s']|] w'] eqn:Hr; [|done]. by eapply none_below_reload.
Qed.

Lemma none_below_happens n p evs : none_below n (p_srv p) → none_below n (p_srv (foldl happen p evs)).
Proof. revert p. induction evs as [|ev evs IH]; intros p Hp; [done|]. by apply IH, none_below_happen. Qed.

(** ** The waits before the shutdown *)

(** Reloads are those [server_reach] speaks of. *)
Definition fair (ev : event) : Prop :=
  match ev with Reloaded cfg _ => accepted url_Parse cfg | _ => True end.

Lemma reach_happens auth p evs :
  Forall fair evs → server_reach (W := W) url_Parse auth (p_srv p) →
  server_reach (W := W) url_Parse auth (p_srv (foldl happen p evs)).
Proof.
  intros Hf. revert p. induction Hf as [|ev evs Hev _ IH]; intros p Hp; [done|]. apply IH.
  destruct ev as [c|c|cfg w]; [done..|]. simpl.
  destruct (Reload _ _ _ w) as [[[r s']|] w'] eqn:Hr; [|done]. by eapply sr_reload.
Qed.

(** A closed server has no open pool. *)
Lemma Close_closes auth s :
  server_reach (W := W) url_Parse auth s → none_below (length (sv_pools s)) (Close s).
Proof.
  intros Hr. destruct (server_reach_inv url_Parse auth s Hr) as [[_ _ [_ _ _ Hopen] _] _].
  unfold Close. rewrite <- (map_map snd ClosePool (map_to_list (rt_pools (sv_rt s)))).
  set (ids := map snd (map_to_list (rt_pools (sv_rt s)))). split.
  - clearbody ids. clear. revert s. induction ids as [|i ids IH]; intros s; [done|]. simpl.
    etrans; [|apply IH]. simpl. unfold close_pool. by rewrite length_alter.
  - intros id pc _ Ho. destruct (apply_closes s ids) as (_ & _ & _ & H). apply H in Ho as [Ho Hnot].
    destruct (Hopen id pc Ho) as [n Hn]. apply Hnot, list_elem_of_fmap.
    exists (n, id). by rewrite elem_of_map_to_list.
Qed.

(** The tunnels after some events: what was open and has not ended, and what has been
    opened. *)
Lemma tracked_after c p evs :
  (c ∈ conns (p_tracker p) → c ∈ conns (p_tracker (foldl happen p evs)) ∨ Ended c ∈ evs) ∧
  (c ∈ conns (p_tracker (foldl happen p evs)) → c ∈ conns (p_tracker p) ∨ Opened c ∈ evs).
Proof.
  revert p. induction evs as [|ev evs IH]; intros p; simpl; [tauto|].
  destruct (IH (happen p ev)) as [H1 H2].
  assert (Hsame : conns (p_tracker (happen p ev)) = conns (p_tracker p) ∨
    ev = Opened c ∨ ev = Ended c ∨ (c ∈ conns (p_tracker (happen p ev)) ↔ c ∈ conns (p_tracker p))).
  { destruct ev as [d|d|cfg w]; simpl.
    - destruct (decide (d = c)) as [->|]; [auto|]. do 3 right. set_solver.
    - destruct (decide (d = c)) as [->|]; [auto|]. do 3 right. set_solver.
    - left. by destruct (Reload _ _ _ w) as [[[]|] ?]. }
  rewrite !elem_of_cons. destruct Hsame as [Hs|[->|[->|Hs]]]; [rewrite Hs in *|..]; simpl in *; set_solver.
Qed.

Lemma close_each_conn (cs : list conn) (p : Proc) :
  for_each (λ c, emit (ConnClosed c)) cs p = (Ret (), p, map ConnClosed cs).
Proof.
  revert p. induction cs as [|c cs IH]; intros p; [done|].
  cbn [for_each map]. unfold mbind, prog_bind. simpl. by rewrite IH.
Qed.

Lemma Server_Close_eq p :
  let p2 := foldl happen (on_srv Close p) (handlers (on_srv Close p)) in
  Server_Close handlers p =
  (Ret (), on_tracker (λ t, (CloseAll t).2) p2, map ConnClosed (elements (conns (p_tracker p2)))).
Proof.
  intros p2. unfold Server_Close, mbind, prog_bind, modify, wait, gets.
  fold p2. by rewrite close_each_conn.
Qed.

(** The tunnels [CloseAll] closes. *)
Lemma closed_tunnels p evs :
  let cs := elements (conns (p_tracker (foldl happen (on_srv Close p) evs))) in
  (∀ c, c ∈ conns (p_tracker p) → c ∈ cs ∨ Ended c ∈ evs) ∧
  (∀ c, c ∈ cs → c ∈ conns (p_tracker p) ∨ Opened c ∈ evs).
Proof.
  intros cs. split; intros c; unfold cs; rewrite elem_of_elements;
    destruct (tracked_after c (on_srv Close p) evs) as [H1 H2]; [exact H1|exact H2].
Qed.

End run.

(** ** A shutdown of the demo server

    Before it, a tunnel is opened and the configuration is reloaded; while the pools
    are being closed another tunnel is opened; the responses in flight do not end in
    time. *)

#[local] Existing Instance RuntimeTheorems.demo_client.

Definition demo_proc : Proc := MkProc demo_srv NewConnTracker false.

Definition demo_run : outcome (option GoError) * Proc * list run_act :=
  Run demo_url (λ _, (Cancelled, [Opened 7; Opened 9; Ended 9; Reloaded demo_cfg2 demo_docker]))
    (λ _, [Opened 8]) (λ _, (false, [])) (λ _, []) (λ _, (ErrServerClosed, [])) demo_proc.

Example demo_run_trace :
  demo_run.1.1 = Ret None ∧
  demo_run.2 = [WatcherStarted; ServeStarted; ConnClosed 8; ConnClosed 7; Drained false; ForcedClose;
                ListenerDone ErrServerClosed; WatcherCancelled].
Proof. split; vm_compute; reflexivity. Qed.

