(* ===== verification/Boot.v ===== *)
(** * The process: boot, health check and hangups ([src/cmd/stagehand/main.go],
      [src/internal/config/load.go])

    [boot] is [main.run]: load the configuration, settle the admin token, connect to
    docker, check the containers, build the server, listen, serve ([Serve.v] has
    [Server.Run]). Flags, the environment, files, the network and the random source are
    the world. *)

From S2P Require Import Prelude GoStrings Format State Docker Pool Config Router Runtime Base64.
Open Scope Z_scope.

(** ** Loading the configuration ([config.Load])

    Reading and decoding the file is a call of the world; [None]: it cannot be read or
    decoded. *)

Inductive LoadError := LUnreadable | LInvalid (errs : list ConfigError).

Definition Load (url_Parse : string → option URL) (decoded : option Config) :
    (LoadError + Config) * list ConfigWarning :=
  match decoded with
  | None => (inl LUnreadable, [])
  | Some d =>
      match Parse url_Parse d with
      | (Some cfg, warns, _) => (inr cfg, warns)
      | (None, warns, errs) => (inl (LInvalid errs), warns)
      end
  end.

(** ** Helpers of [main] *)

(** [None]: the variable is not set. *)
Definition adminAuthDisabledFromEnv (v : option string) : bool :=
  match v with
  | None => false
  | Some v => match ParseBool v with Some disabled => disabled | None => false end
  end.

(** The random source fills a buffer or fails. *)
Definition generateToken (rand_Read : nat → option (list Z)) : option string :=
  match rand_Read 32%nat with
  | None => None
  | Some b => Some (RawURLEncode b)
  end.

Definition JoinHostPort (host port : string) : string :=
  if Contains host ":" then "[" +:+ host +:+ "]:" +:+ port else host +:+ ":" +:+ port.

Definition Version : string := "1.0.0".

(** ** [run] *)

Record Flags := {
  f_config : string;
  f_debug : bool;
  f_version : bool;
  f_healthcheck : bool
}.

Inductive BootError :=
| BLoad (path : string) (e : LoadError)
| BToken
| BConnect (e : GoError)
| BContainers (e : GoError)
| BServer (e : RuntimeError)
| BListen (addr : string) (e : GoError)
| BRun (e : GoError)
| BProbe (url : string)
| BUnhealthy (url : string) (code : Z).

(** What the process does, in order. *)
Inductive boot_act :=
| PrintVersion (v : string)
| NoAuthBanner
| ConfigWarned (w : ConfigWarning)
| TokenShown (token : string)
| Connecting (socket : string)
| Validated (containers : list string)
| Listening (addr : string)
| Serving (s : Srv)
| Probing (url : string).

Section boot.
Context {W C : Type} (url_Parse : string → option URL).
(** The environment variable, the file, the random source, docker, the network. *)
Context (getenv : call W (option string)) (read_config : string → call W (option Config))
  (rand_Read : nat → call W (option (list Z)))
  (moby_New : string → GoError + C) (client_of : C → Client W)
  (net_Listen : string → call W (option GoError))
  (srv_Run : Srv → call W (option GoError))
  (http_get : string → call W (option Z)).

Abbreviation B := (prog W boot_act).

Definition ask_boot {A} (c : call W A) : B A := lift c.

Definition runHealthcheck (path : string) : B (option BootError) :=
  d ← ask_boot (read_config path);
  match Load url_Parse d with
  | (inl e, _) => mret (Some (BLoad path e))
  | (inr cfg, _) =>
      let url := "http://127.0.0.1:" +:+ FormatInt (Port (cfg_Server cfg)) +:+
                 "/stagehand/healthz" in
      emit (Probing url);;
      r ← ask_boot (http_get url);
      match r with
      | None => mret (Some (BProbe url))
      | Some code => if bool_decide (code = 200) then mret None
                     else mret (Some (BUnhealthy url code))
      end
  end.

(** From the server on: build it, listen, serve. *)
Definition boot_server (path : string) (cfg : Config) (auth : AuthOptions) :
    B (option BootError) :=
  match NewServer url_Parse auth cfg with
  | inl e => mret (Some (BServer e))
  | inr s =>
      let srv := SetConfigSource path s in
      let addr := JoinHostPort (Host (cfg_Server cfg)) (FormatInt (Port (cfg_Server cfg))) in
      l ← ask_boot (net_Listen addr);
      match l with
      | Some e => mret (Some (BListen addr e))
      | None =>
          emit (Listening addr);;
          emit (Serving srv);;
          r ← ask_boot (srv_Run srv);
          mret (BRun <$> r)
      end
  end.

(** From docker on: connect, and check that every container exists. *)
Definition boot_docker (path : string) (cfg : Config) (auth : AuthOptions) :
    B (option BootError) :=
  emit (Connecting (DockerSocketPath (cfg_Server cfg)));;
  match Connect moby_New client_of (DockerSocketPath (cfg_Server cfg)) with
  | inl e => mret (Some (BConnect e))
  | inr docker =>
      v ← ask_boot (@ValidateContainers W docker (Some (15 * time_Second)) (ContainerNames cfg));
      match v with
      | Some e => mret (Some (BContainers e))
      | None => emit (Validated (ContainerNames cfg));; boot_server path cfg auth
      end
  end.

(** The admin token: none if authentication is disabled, else a fresh one. *)
Definition boot_auth (disabled : bool) (cfg : Config) : B (option AuthOptions) :=
  if disabled then mret (Some {| AdminDisabled := true; GenAdminToken := "" |}) else
  b ← ask_boot (rand_Read 32%nat);
  match generateToken (λ _, b) with
  | None => mret None
  | Some token =>
      (if bool_decide (AdminToken (srv_Auth (cfg_Server cfg)) = "")
       then emit (TokenShown token) else mret tt);;
      mret (Some {| AdminDisabled := false; GenAdminToken := token |})
  end.

Definition boot (fl : Flags) : B (option BootError) :=
  if f_version fl then emit (PrintVersion Version);; mret None else
  if f_healthcheck fl then runHealthcheck (f_config fl) else
  env ← ask_boot getenv;
  let disabled := adminAuthDisabledFromEnv env in
  (if disabled then emit NoAuthBanner else mret tt);;
  d ← ask_boot (read_config (f_config fl));
  match Load url_Parse d with
  | (inl e, _) => mret (Some (BLoad (f_config fl) e))
  | (inr cfg, warns) =>
      for_each (λ w, emit (ConfigWarned w)) warns;;
      auth ← boot_auth disabled cfg;
      match auth with
      | None => mret (Some BToken)
      | Some auth => boot_docker (f_config fl) cfg auth
      end
  end.

End boot.

(** ** [main], and the signals

    The exit status; and the loop over the hangup signals, each of which reloads the
    configuration from its source. A failed reload is logged. *)
Definition main_exit (r : option BootError) : Z :=
  match r with Some _ => 1 | None => 0 end.

Fixpoint on_hup {W} `{!Client W} (url_Parse : string → option URL) (files : list (option Config))
    (s : Srv) : W → option Srv * W := λ w,
  match files with
  | [] => (Some s, w)
  | d :: files' =>
      match ReloadFromSource url_Parse d s w with
      | (None, w') => (None, w')
      | (Some (_, s'), w') => on_hup url_Parse files' s' w'
      end
  end.
