(* ===== verification/BootTheorems.v ===== *)
(** * Theorems on the process

    The token the boot generates, what the process has checked before it serves, how
    it fails, and what hangups can make of the server. *)

From S2P Require Import Prelude GoStrings Format State Docker Registry Pool System Config.
From S2P Require Import ConfigTheorems Router Runtime RuntimeTheorems Base64 Boot.
Open Scope Z_scope.

(** ** The token *)

(** The generated admin token carries all the 256 bits of the random source. It
    has 43 characters, so it is never empty, and two tokens are equal only if the
    bytes they were made from are. *)
Theorem generateToken_injective rand rand' b b' :
  rand 32%nat = Some b → length b = 32%nat → Forall is_byte b →
  rand' 32%nat = Some b' → length b' = 32%nat → Forall is_byte b' →
  (∃ t, generateToken rand = Some t ∧ String.length t = 43%nat) ∧
  (generateToken rand = generateToken rand' → b = b').
Proof.
  intros Hr Hl Hb Hr' Hl' Hb'. unfold generateToken. rewrite Hr, Hr'. split.
  - eexists. split; [done|]. pose proof (RawURLEncode_length b) as Hlen. rewrite Hl in Hlen.
    change ((4 * Z.of_nat 32 + 2) / 3) with 43 in Hlen. lia.
  - intros [= Heq]. by apply RawURLEncode_inj.
Qed.

Lemma generateToken_injective_witness :
  (∃ t, generateToken (λ n, Some (replicate n 7)) = Some t ∧ String.length t = 43%nat) ∧
  (generateToken (λ n, Some (replicate n 7)) = generateToken (λ n, Some (replicate n 8)) →
   replicate 32 7 = replicate 32 8).
Proof.
  apply (generateToken_injective (λ n, Some (replicate n 7)) (λ n, Some (replicate n 8))).
  - reflexivity.
  - reflexivity.
  - apply Forall_replicate. unfold is_byte. lia.
  - reflexivity.
  - reflexivity.
  - apply Forall_replicate. unfold is_byte. lia.
Defined.

(** ** Boot *)

Section boot.
Context {W C : Type} (url_Parse : string → option URL).
Context (getenv : call W (option string)) (read_config : string → call W (option Config))
  (rand_Read : nat → call W (option (list Z)))
  (moby_New : string → GoError + C) (client_of : C → Client W)
  (net_Listen : string → call W (option GoError))
  (srv_Run : Srv → call W (option GoError))
  (http_get : string → call W (option Z)).

(** The random source gives the bytes it is asked for. *)
Context (Hrand : ∀ n w b w', rand_Read n w = (Some (Some b), w') → length b = n ∧ Forall is_byte b).

(** The server that comes up. *)
Record comes_up (path : string) (cfg : Config) (disabled : bool) (srv : Srv) : Prop := {
  cu_valid : ValidConfig url_Parse cfg;
  cu_runtime : runtime_of url_Parse (sv_auth srv) cfg (sv_rt srv);
  cu_source : sv_cfgPath srv = path;
  cu_disabled : AdminDisabled (sv_auth srv) = disabled;
  cu_token : disabled = false →
    rt_adminToken (sv_rt srv) ≠ "" ∧
    (AdminToken (srv_Auth (cfg_Server cfg)) ≠ "" →
     rt_adminToken (sv_rt srv) = AdminToken (srv_Auth (cfg_Server cfg)))
}.

Definition good_auth (auth : AuthOptions) : Prop :=
  AdminDisabled auth = false → GenAdminToken auth ≠ "".

Definition listen_addr (cfg : Config) : string :=
  JoinHostPort (Host (cfg_Server cfg)) (FormatInt (Port (cfg_Server cfg))).

Lemma wp_ask_boot {A} (c : call W A) (Q : outcome A → W → list boot_act → Prop) w :
  (∀ a w', c w = (Some a, w') → Q (Ret a) w' []) →
  (∀ w', c w = (None, w') → Q Panic w' []) →
  wp (ask_boot c) Q w.
Proof. unfold wp, ask_boot, lift. destruct (c w) as [[a|] w']; auto. Qed.

Definition no_server_error (o : outcome (option BootError)) : Prop :=
  ∀ e, o ≠ Ret (Some (BServer e)).

Lemma boot_server_spec path cfg auth w :
  ValidConfig url_Parse cfg → good_auth auth →
  wp (boot_server url_Parse net_Listen srv_Run path cfg auth)
    (λ o _ es, no_server_error o ∧
       (es = [] ∨ ∃ srv, es = [Listening (listen_addr cfg); Serving srv] ∧
                         comes_up path cfg (AdminDisabled auth) srv)) w.
Proof.
  intros Hv Ha. unfold boot_server, NewServer.
  destruct (buildRuntime_valid url_Parse auth cfg None [] Hv) as
    [(_ & Hd & Ht)|(rt & created & -> & Hrt & _)].
  { exfalso. unfold resolveAdminToken in Ht. rewrite Hd in Ht. case_bool_decide; by apply Ha in Hd. }
  assert (Hup : comes_up path cfg (AdminDisabled auth)
    (SetConfigSource path (syncWatcher rt (MkSrv auth rt NewWatcher created "")))).
  { split; simpl; try done. intros Hd. split; [by apply (ro_guarded _ _ _ _ Hrt)|].
    intros Ht. rewrite (ro_admin _ _ _ _ Hrt). unfold resolveAdminToken.
    by rewrite Hd, bool_decide_eq_false_2. }
  apply wp_bind, wp_ask_boot; [|intros; split; [done|by left]].
  intros [e|] w1 _; [apply wp_mret; split; [done|by left]|].
  apply wp_bind, wp_emit, wp_bind, wp_emit, wp_bind, wp_ask_boot; simpl.
  - intros r w2 _. apply wp_mret. split; [by destruct r|right]. by eexists.
  - intros w2 _. split; [done|right]. by eexists.
Qed.

(** Everything docker was asked before the process listens. *)
Definition containers_checked (cfg : Config) : Prop :=
  ∃ docker w w', Connect moby_New client_of (DockerSocketPath (cfg_Server cfg)) = inr docker ∧
    @ValidateContainers W docker (Some (15 * time_Second)) (ContainerNames cfg) w = (Some None, w').

Definition boot_tail (path : string) (cfg : Config) (disabled : bool) (es : list boot_act) : Prop :=
  ∀ srv, Serving srv ∈ es → comes_up path cfg disabled srv ∧ containers_checked cfg ∧
    es = [Connecting (DockerSocketPath (cfg_Server cfg)); Validated (ContainerNames cfg);
          Listening (listen_addr cfg); Serving srv].

Lemma boot_docker_spec path cfg auth w :
  ValidConfig url_Parse cfg → good_auth auth →
  wp (boot_docker url_Parse moby_New client_of net_Listen srv_Run path cfg auth)
    (λ o _ es, no_server_error o ∧ boot_tail path cfg (AdminDisabled auth) es) w.
Proof.
  intros Hv Ha. unfold boot_docker. apply wp_bind, wp_emit. simpl.
  destruct (Connect _ _ _) as [e|docker] eqn:Hcon.
  { apply wp_mret. split; [done|]. intros srv. set_solver. }
  apply wp_bind, wp_ask_boot; [|intros; split; [done|]; intros srv; set_solver].
  intros [e|] w1 Hval; [apply wp_mret; split; [done|]; intros srv; set_solver|].
  apply wp_bind, wp_emit. eapply wp_mono; [|by apply boot_server_spec].
  intros o w2 es [Ho Hes]. split; [done|]. intros srv Hin.
  destruct Hes as [->|(srv' & -> & Hup)]; [set_solver|]. simpl in *.
  assert (srv' = srv) as -> by set_solver. split; [done|]. split; [|done].
  by exists docker, w, w1.
Qed.

Lemma boot_auth_spec disabled cfg w :
  wp (boot_auth rand_Read disabled cfg)
    (λ o _ es, (∀ srv, Serving srv ∉ es) ∧
       ∀ auth, o = Ret (Some auth) → good_auth auth ∧ AdminDisabled auth = disabled) w.
Proof.
  unfold boot_auth. destruct disabled.
  { apply wp_mret. split; [set_solver|]. by intros auth [= <-]. }
  apply wp_bind, wp_ask_boot; [|intros; split; [set_solver|done]].
  intros [b|] w1 Hb; simpl; [|apply wp_mret; split; [set_solver|done]].
  destruct (Hrand _ _ _ _ Hb) as [Hlen _].
  assert (Hne : RawURLEncode b ≠ "").
  { intros He. pose proof (RawURLEncode_length b) as Hl. rewrite He, Hlen in Hl. done. }
  apply wp_bind. case_bool_decide; [apply wp_emit|apply wp_mret]; simpl; apply wp_mret; simpl;
    (split; [set_solver|]); intros auth [= <-]; (split; [|done]); by intros _.
Qed.

Lemma warned_quiet warns w :
  wp (for_each (λ x, emit (ConfigWarned x)) warns)
    (returns (λ _ (_ : W) es, ∀ srv, Serving srv ∉ es)) w.
Proof.
  apply (wp_for_each _ (λ _ _ es, ∀ srv, Serving srv ∉ es)); [set_solver|].
  intros x l s es Hes. apply wp_emit. simpl. set_solver.
Qed.

Lemma Load_valid d cfg warns :
  Load url_Parse d = (inr cfg, warns) → ValidConfig url_Parse cfg.
Proof.
  unfold Load, Parse. destruct d as [d|]; [|done].
  pose proof (validate_ok url_Parse (applyDefaults d)) as Hv.
  destruct (validate url_Parse (applyDefaults d)) as [ws errs]. simpl in Hv.
  destruct errs; [|done]. intros [= <- <-]. by apply Hv.
Qed.

Lemma healthcheck_quiet path w :
  wp (runHealthcheck url_Parse read_config http_get path)
    (λ o _ es, no_server_error o ∧ ∀ srv, Serving srv ∉ es) w.
Proof.
  unfold runHealthcheck. apply wp_bind, wp_ask_boot; [|intros; split; [done|set_solver]].
  intros d w1 _. destruct (Load url_Parse d) as [[e|cfg] warns].
  { apply wp_mret. split; [done|set_solver]. }
  apply wp_bind, wp_emit, wp_bind, wp_ask_boot; [|intros; split; [done|set_solver]].
  intros [code|] w2 _; [case_bool_decide|]; apply wp_mret; (split; [done|set_solver]).
Qed.

(** C23: the process serves only what it has checked, and never with an open control
    plane unless that was asked for. In every world, if the process gets to serve,
    then: the configuration it serves is valid, with the file as its source for
    reloads; docker was connected to and had every container of the configuration;
    and only then, with nothing in between, did it listen, on the configured address,
    and serve. Authentication of the admin API is off exactly when the environment
    variable is set to a true value; otherwise the admin token is not empty, and is
    the configured one if there is one. Building the server cannot fail at boot. *)
Theorem boot_is_guarded fl w env w1 o w' es :
  getenv w = (Some env, w1) →
  boot url_Parse getenv read_config rand_Read moby_New client_of net_Listen srv_Run http_get fl w
    = (o, w', es) →
  no_server_error o ∧
  ∀ srv, Serving srv ∈ es → ∃ cfg pre,
    comes_up (f_config fl) cfg (adminAuthDisabledFromEnv env) srv ∧ containers_checked cfg ∧
    es = pre ++ [Connecting (DockerSocketPath (cfg_Server cfg)); Validated (ContainerNames cfg);
                 Listening (listen_addr cfg); Serving srv].
Proof.
  intros Henv Hrun.
  cut (wp (boot url_Parse getenv read_config rand_Read moby_New client_of net_Listen srv_Run
         http_get fl)
        (λ o _ es, no_server_error o ∧ ∀ srv, Serving srv ∈ es → ∃ cfg pre tail,
           es = pre ++ tail ∧ Serving srv ∈ tail ∧
           boot_tail (f_config fl) cfg (adminAuthDisabledFromEnv env) tail) w).
  { unfold wp. rewrite Hrun. intros [Ho Hs]. split; [done|]. intros srv Hin.
    destruct (Hs srv Hin) as (cfg & pre & tail & -> & Htail & Hbt).
    destruct (Hbt srv Htail) as (? & ? & ->). by exists cfg, pre. }
  clear o w' es Hrun. unfold boot. destruct (f_version fl).
  { apply wp_bind, wp_emit, wp_mret. split; [done|set_solver]. }
  destruct (f_healthcheck fl).
  { eapply wp_mono; [|apply healthcheck_quiet]. intros o w' es [Ho Hn]. split; [done|].
    intros srv Hin. by destruct (Hn srv). }
  apply wp_bind. unfold ask_boot at 1, wp at 1, lift. rewrite Henv.
  set (disabled := adminAuthDisabledFromEnv env). apply wp_bind.
  apply (wp_mono _ (λ o w' es, o = Ret tt ∧ ∀ srv, Serving srv ∉ es)).
  2: { destruct disabled; [apply wp_emit|apply wp_mret]; (split; [done|set_solver]). }
  intros o w2 es0 [-> Hes0]. apply wp_bind, wp_ask_boot; [|intros; split; [done|set_solver]].
  intros d w3 _. destruct (Load url_Parse d) as [[e|cfg] warns] eqn:Hload.
  { apply wp_mret. split; [done|set_solver]. }
  apply Load_valid in Hload. apply wp_bind. eapply wp_mono; [|apply warned_quiet].
  intros [[]| |] w4 es1 Hes1; simpl in Hes1; [|done..].
  apply wp_bind. eapply wp_mono; [|apply boot_auth_spec].
  intros o w5 es2 [Hes2 Hau].
  assert (Hpre : ∀ srv, Serving srv ∉ es0 ++ es1 ++ es2).
  { intros srv. rewrite !elem_of_app. intros [Hin|[Hin|Hin]];
      [by eapply Hes0|by eapply Hes1|by eapply Hes2]. }
  destruct o as [[auth|]| |]; simpl;
    [|(split; [done|]); intros srv; rewrite ?app_nil_r; intros Hin; by apply Hpre in Hin..].
  destruct (Hau auth eq_refl) as [Hgood <-].
  eapply wp_mono; [|by apply boot_docker_spec]. intros o w6 es3 [Ho Htail]. split; [done|].
  intros srv Hin. exists cfg, (es0 ++ es1 ++ es2), es3.
  split; [by rewrite <- !(assoc_L (++))|]. split; [|done].
  simpl in Hin. rewrite !(assoc_L (++)) in Hin. apply elem_of_app in Hin as [Hin|?]; [|done].
  rewrite <- !(assoc_L (++)) in Hin. by apply Hpre in Hin.
Qed.

End boot.

(** ** Hangups *)

Section hangup.
Context {W : Type} `{!Client W} (url_Parse : string → option URL).

(** Hangups take a server through reloads only: whatever the file holds each time,
    rejected files included, the server stays one [server_follows_config] speaks of.
    [accepted] of the valid files is what that theorem asks of configurations. *)
Lemma on_hup_reach auth files s (w : W) s' w' :
  server_reach (W := W) url_Parse auth s →
  (∀ d cfg, Some d ∈ files → (Parse url_Parse d).1.1 = Some cfg → accepted url_Parse cfg) →
  on_hup url_Parse files s w = (Some s', w') → server_reach (W := W) url_Parse auth s'.
Proof.
  intros Hr Hacc. revert s w Hr. induction files as [|d files IH]; intros s w Hr; simpl.
  { by intros [= <- _]. }
  destruct (ReloadFromSource url_Parse d s w) as [[[r s1]|] w1] eqn:Hrel; [|done].
  apply IH; [intros d' cfg Hin; apply Hacc; by right|].
  unfold ReloadFromSource in Hrel. case_bool_decide; [by simplify_eq|].
  destruct d as [d|]; [|by simplify_eq].
  destruct (Parse url_Parse d) as [[[cfg|] ws] errs] eqn:Hp; [|by simplify_eq].
  eapply sr_reload; [exact Hr| |exact Hrel]. eapply (Hacc d); [by left|by rewrite Hp].
Qed.

End hangup.

(** ** A concrete boot *)

Definition demo_flags : Flags :=
  {| f_config := "config.yaml"; f_debug := false; f_version := false; f_healthcheck := false |}.

Definition answer {A} (a : A) : call FakeClient A := λ w, (Some a, w).

Definition demo_boot (env : option string) : outcome (option BootError) * FakeClient * list boot_act :=
  boot demo_url (answer env) (λ _, answer (Some demo_cfg1)) (λ n, answer (Some (replicate n 7)))
    (λ _, inr ()) (λ _, fakeClient no_hooks) (λ _, answer None) (λ _, answer None)
    (λ _, answer None) demo_flags demo_docker.

Definition demo_served (env : option string) : Srv :=
  match last (demo_boot env).2 with Some (Serving s) => s | _ => demo_srv end.

Lemma boot_is_guarded_witness :
  ∃ cfg pre,
    comes_up demo_url "config.yaml" cfg false (demo_served (Some "maybe")) ∧
    (demo_boot (Some "maybe")).2 =
      pre ++ [Connecting (DockerSocketPath (cfg_Server cfg)); Validated (ContainerNames cfg);
              Listening (listen_addr cfg); Serving (demo_served (Some "maybe"))].
Proof.
  set (r := demo_boot (Some "maybe")).
  assert (Hr : r = (r.1.1, r.1.2, r.2)) by (by destruct r as [[??]?]).
  destruct (boot_is_guarded demo_url (answer (Some "maybe")) (λ _, answer (Some demo_cfg1))
    (λ n, answer (Some (replicate n 7))) (λ _, inr ()) (λ _, fakeClient no_hooks)
    (λ _, answer None) (λ _, answer None) (λ _, answer None)
    ltac:(intros n w b w' [= <- _]; rewrite length_replicate; split;
          [reflexivity|apply Forall_replicate; unfold is_byte; lia])
    demo_flags demo_docker (Some "maybe") demo_docker r.1.1 r.1.2 r.2 eq_refl Hr) as [_ Hs].
  destruct (Hs (demo_served (Some "maybe"))) as (cfg & pre & Hup & _ & He).
  - vm_compute. repeat (left || right).
  - exists cfg, pre. exact (conj Hup He).
Defined.
